(* ===== verification/_CoqProject ===== *)
-Q . S2P
Prelude.v
DdParse.v
DdParseFacts.v
DdEncode.v
DdCache.v
RustStr.v
NetAddr.v
SfuTypes.v
SfuKeyframe.v
SfuKeyframeFacts.v
SfuMedia.v
SfuMediaFacts.v
SfuRenegotiation.v
SfuRelayOut.v
SfuRegistry.v
SfuRegistryFacts.v
RoomAuth.v
SfuChannelData.v
RelayApi.v
RelayApiFacts.v
RelayClient.v
RelayClientFacts.v
ClientWs.v
ClientWsFacts.v
SdpMsid.v
SdpMsidFacts.v
SfuDispatch.v
SfuDispatchFacts.v
SfuUdpLoop.v
SfuUdpLoopFacts.v
SfuUdpLoopProps.v
SfuMetrics.v
SfuMetricsFacts.v
SfuMetricsRun.v
SfuMetricsProps.v
SfuConfig.v
SfuConfigFacts.v
AwgParams.v
ConfMerge.v
ConfMergeFacts.v
ConfMergeProps.v
ConfMergeDefaults.v
AwgMetrics.v
AwgMetricsFacts.v
AwgAgent.v
AwgAgentFacts.v
AwgAgentMetrics.v
AwgConfig.v
PartnerKeys.v
Regex.v
AwgScrub.v
StrOrder.v
OpecTenant.v
OpecDiff.v
OpecTenantFacts.v
OpecDiffFacts.v
OpecRender.v
OpecRenderFacts.v
OpecSecrets.v
OpecSecretsFacts.v
OpecMain.v
OpecMainFacts.v
PartnerCli.v
PartnerCliFacts.v
