(* ===== verification/Prelude.v ===== *)
(** * OxPulse partner-edge: a verification of its Rust core

    ** The program

    The repository holds the software of a partner edge node of a group-call
    service.  Its Rust workspace has four crates: [crates/sfu], the selective
    forwarding unit that receives each participant's media and relays it to the
    others; [crates/awg-params-agent], a daemon that keeps the obfuscation
    parameters of the node's AmneziaWG tunnel in step with the central service;
    [crates/opec], which validates tenants, renders configuration and fetches
    the node's secrets; and [crates/partner-cli], the operator's command line
    over the registry's tables.  All four are modelled; what is left out is
    under "Not modelled".

    In the SFU one task owns a [Registry] of [Client]s.  It polls each client's
    WebRTC engine (str0m); what an engine reports becomes a [Propagated] event;
    the registry queues the events and fans each out to the other clients, which
    forward media, relay data-channel frames, request keyframes or renegotiate.
    Browsers enter through a WebSocket endpoint that checks a room token and
    exchanges SDP; other SFUs enter as relays: the relay API accepts a signed
    grant, dials a hub, and announces itself there over a data channel.  AV1
    packets carry a dependency descriptor, which the forwarder parses to drop
    temporal layers a subscriber cannot afford.

    The agent polls the central service for parameter epochs, validates and
    merges an epoch into the tunnel's configuration file under a lock it shares
    with the installer, pushes the file to the kernel, and records the epoch and
    its metrics on disk.

    ** The library

    - [Prelude]: machine integers, [Result], tactics, list lemmas.
    - [DdParse], [DdParseFacts], [DdEncode] (svc/dd_parse.rs): the bit reader and
      descriptor parser, panics as values; safety on every input; a bit-exact
      encoder of the format and the round trip.
    - [DdCache] (svc/dd_ext.rs): the header-extension serializer and the bounded
      structure cache, which refines a first-in first-out map.
    - [RustStr]: [str] as a list of scalar values; searching, splitting, numbers.
    - [SfuTypes] (client/mod.rs, tracks.rs, layer.rs, construct.rs,
      propagate.rs): the client record, its builders, events and effects.
    - [SfuKeyframe], [SfuKeyframeFacts] (client/keyframe.rs): throttled keyframe
      requests and the subscribe-triggered wait loop.
    - [SfuMedia], [SfuMediaFacts] (client/fanout.rs, client/layer.rs): what is
      forwarded, temporal and simulcast layer choice, pacing.
    - [SfuRenegotiation] (client/renegotiation.rs): the offer state machine.
    - [SfuRelayOut] (client/chat.rs, voice.rs, keys.rs, sfu_events.rs): outbound
      data-channel relays.
    - [SfuRegistry], [SfuRegistryFacts] (registry/*.rs, fanout.rs): membership,
      session steal, reaping, the pacer pass, fanout and its queue.
    - [RoomAuth] (room_auth.rs): the token library as a class, the binding policy
      and the room-token verifiers, the credential-rollout rule as a
      specification.
    - [SfuChannelData] (client/dc.rs): inbound data-channel messages, the relay
      promotion and the hand-written JSON scanner, with UTF-8.
    - [RelayApi], [RelayApiFacts] (relay/*.rs, relay_connect_failover of
      main.rs): activation, grants, allow-list, replay cache, failover.
    - [RelayClient], [RelayClientFacts] (relay/client.rs, main.rs): the exchange
      with a hub message by message, its timeout, and the failover around it:
      which candidate is taken, and that dialling ends.
    - [ClientWs], [ClientWsFacts] (client_ws/handler.rs, session.rs,
      bwe_hint.rs): upgrade, admission, sessions, the hint gate.
    - [SdpMsid], [SdpMsidFacts] (client_ws/sdp_msid.rs): the answer rewriting.
    - [SfuDispatch], [SfuDispatchFacts] (client/dispatch.rs): every str0m event.
    - [NetAddr], [SfuUdpLoop], [SfuUdpLoopFacts], [SfuUdpLoopProps]
      (udp_loop.rs, registry/poll.rs): addresses; the serving loop, polling,
      sending, and every source that wakes it.
    - [SfuMetrics], [SfuMetricsFacts] (metrics/*.rs): every family, in the order
      it is registered, and what an update does to the exported series;
      [SfuMetricsRun], [SfuMetricsProps]: the updates the loop and the sessions
      make, operation by operation and over whole runs.
    - [SfuConfig], [SfuConfigFacts] (config.rs, main.rs): the environment and
      what start-up makes of it.
    - [AwgParams] (params.rs), [ConfMerge], [ConfMergeFacts], [ConfMergeProps],
      [ConfMergeDefaults] (conf_merge.rs): validation and merge.
    - [AwgMetrics], [AwgMetricsFacts] (metrics.rs): counters and their text file.
    - [AwgAgent], [AwgAgentFacts], [AwgAgentMetrics] (agent.rs, client.rs,
      state.rs): the agent over a world of files and services.
    - [AwgConfig] (main.rs of the agent, lib/install-awg.sh): its settings.
    - [AwgScrub] (agent.rs): the redaction of key material in error texts.
    - [Regex], [StrOrder]: anchored regular expressions with their language and
      a matcher by derivatives; the order of strings and stable sorting.
    - [OpecTenant], [OpecTenantFacts] (tenant/*.rs, caddy/render.rs): tenants,
      their validator, Caddy routes.
    - [OpecDiff], [OpecDiffFacts] (caddy/diff.rs, main.rs): the two diffs and the
      dry run; [OpecMain], [OpecMainFacts] (main.rs, secrets/mod.rs): every
      command, what it prints and how it exits.
    - [OpecRender], [OpecRenderFacts] (render/*.rs): templates and the node's
      secret file.
    - [OpecSecrets], [OpecSecretsFacts] (secrets/*.rs): registration, the signing
      key, the two key stores.
    - [PartnerKeys], [PartnerCli], [PartnerCliFacts] (partner-cli, x25519.rs):
      the key codec, token formats, and the commands over the tables.

    A function of the source is a function here, with the source's name; state
    is passed explicitly, or through the small monad of [AwgAgent]; metrics and
    messages are effects in a list, in order.  Log lines are dropped.  Release
    arithmetic wraps and is written out where it can matter.  An [Instant] is a
    number of nanoseconds, an [Arc] an address into a store, a [HashMap] a
    [gmap], or a list where its order is observable.

    ** What the theorems show

    - Media: a dropped packet really lies above the cap in force, by its own
      stream's structure; a packet is written exactly when it should be; the
      parser is safe and inverts the encoder; keyframe requests are bounded and
      end; the queue of events drains, with str0m free to answer differently for
      each event.
    - Room state: joins and leaves keep the registry well formed and its gauges
      exact; fanout reaches exactly the clients an event is due to and never its
      sender; at most one offer is in flight, but for an offer timeout with more
      than one track queued; a participant left alone is let go within two
      iterations of the loop.
    - Trust: a relay task, a relay promotion and a browser session exist only on
      a token that a configured credential vouches for, and are for the room, the
      peer or the hubs of that token's own payload; the three places follow
      one rollout rule; a grant is used once while it is live; the allow-list is
      exactly the intended set; a client speaks only for itself; a cascade link
      composes from announcement to registry.
    - Signalling: every session is accounted for once; the SDP rewriting names
      exactly the sending audio and video sections and is idempotent; the admission cap holds for serial upgrades.
    - Tunnel: a recorded epoch is in the file and the kernel; epochs move
      forward; a rejected epoch changes nothing and is counted under its field; in
      which environments the agent and the installer take the same lock; the merge keeps what is not
      its own, applies the epoch, yields a sound file, is idempotent and fails
      only for the listed reasons; metrics survive a restart.
    - Serving: over any run of the loop the registry stays well formed and the
      gauges exact, an iteration returns, a closed channel does not wake it
      again, and each queued datagram is sent, or
      dropped and counted, once; a deployment with the hardening switch on
      accepts no token signed with the shared secret.
    - Metrics: start-up registers exactly the fields of the struct and the first
      scrape is the listed baseline; no update of the loop or of a session can panic,
      however they interleave; the gauges of a scrape are the population; the
      series of a departed client are gone from the families that are scrubbed,
      and stay in the others.
    - Dialling: a relay task takes the first candidate that works, ends within
      eight seconds for each, contacts only hosts on the allow-list, and sends
      nothing on the signalling connection that depends on the token.
    - Edge configuration: the validator reports exactly the file's errors and
      accepts exactly the sound files; a host is answered by its tenant unless an
      earlier tenant's redirect, or the same name in other letters, takes it; the route diff is a correct patch and the tenant diff
      reports exactly what differs, whatever order the hash maps have; a file
      that [validate] passes is one [reconcile] previews, and the exit codes say
      whether it is sound; the printed table of tenants reads back;
      a relay's configuration holds exactly its secrets.
    - Secrets: requests are repeated only when it can help; a shell reads an
      environment file back as the values written, whatever they are; what each
      failure leaves on disk; error texts do not depend on key values; keys
      survive the codec.
    - Registry tables: a failed command changes nothing; tokens are never lost
      or altered but for one revocation, which is final.
    - Defects the proofs met (a stranded renegotiation, two offers after a
      timeout, a lost announcement, a grant reusable in its last second, an
      admission race, a rate gate reopened by a steal, a wrapped layer cap, a
      merge that can never succeed, a failure counted twice, a private candidate
      that is never answered, a tenant's host taken by a redirect, secrets left
      behind by a refused registration, a torn key rotation, a rotation race,
      hint counters that outlive their peer, alerts on names that are not
      exported) are theorems too.

    ** Parameters, bounds and fuel

    Third-party code is a parameter: str0m's answers (one environment for each
    event that is drained), the media kit's pacer and
    bandwidth estimator, [jsonwebtoken] (class [Jwt] with laws [JwtLaws], among
    them that decoding returns the token's own payload, and a decoder over a table
    of minted tokens that satisfies them), the URL parser
    of [http], serde_json, base64, the random source, the engine of [regex]
    (classes [Matcher], [Placeholders] and [KeyScan], each with an instance),
    the host matcher of Caddy (class [HostMatcher]: plain names are compared
    without regard to case, wildcards are left open), the columns the database
    fills in, the walk of a hash map ([HashWalk]), the registry of [prometheus] (class
    [Prometheus], with the instance [name_list]), humantime, SHA-256 and the database's sorting
    ([Libraries]).  Clocks are arguments.
    An error text of the agent is modelled up to the first value it quotes.
    In [AwgAgent] the outcome of every file and service operation comes from the
    environment, and an installer may write between any two steps.  The
    parser's template loop has fuel 64 and its chain of next-layer codes is cut
    by the code itself, both shown sufficient; the drain of the event queue is
    stated with enough fuel existing from every state; the tag scanner's fuel is
    the length of its input; the lock loop's fuel is its timeout divided by the
    poll interval, plus two.

    ** Not modelled

    Sockets, task spawning, signals and telemetry set-up around the modelled
    loop and start-up (main.rs, telemetry.rs); the help texts of the metrics and
    their text encoding; the speaker detector and the bandwidth estimator of the
    kit; the HTTP clients; RelayJwt::sign, which only tests use; the argument
    parsers of opec and partner-cli, and the layout of partner-cli's tables;
    tests and test-only switches. *)

From Stdlib Require Import ZArith Lia List Bool.
From stdpp Require Import base option numbers list.

#[global] Open Scope Z_scope.

(** ** Machine integers

    A [w]-bit unsigned Rust integer is a [Z]; its wrap-around is written out
    at the operations where it can matter. *)

Definition u8_max : Z := 255.
Definition u32_max : Z := 4294967295.
Definition u64_max : Z := 18446744073709551615.
Definition i64_min : Z := -9223372036854775808.
Definition i64_max : Z := 9223372036854775807.

Definition wrap_u8 (z : Z) : Z := z mod 256.
Definition wrap_u32 (z : Z) : Z := z mod 4294967296.
Definition wrap_u64 (z : Z) : Z := z mod 18446744073709551616.

(** Two's-complement reduction of an [i64] result (release profile: the crates
    set no [overflow-checks], so [+] wraps). *)
Definition wrap_i64 (z : Z) : Z :=
  (z - i64_min) mod 18446744073709551616 + i64_min.

(** [u8::checked_add]. *)
Definition checked_add_u8 (a b : Z) : option Z :=
  if a + b <=? u8_max then Some (a + b) else None.

(** [u64::saturating_sub]. *)
Definition saturating_sub (a b : Z) : Z := Z.max 0 (a - b).

Lemma lor_shiftl_add a x n : 0 <= n -> 0 <= x < 2 ^ n -> Z.lor (Z.shiftl a n) x = a * 2 ^ n + x.
Proof.
  intros Hn Hx. rewrite <- (Z.shiftl_mul_pow2 a n) by lia. rewrite <- Z.add_lor_land.
  assert (Z.land (Z.shiftl a n) x = 0) as ->; [|lia].
  apply Z.bits_inj'. intros i Hi. rewrite Z.land_spec, Z.bits_0.
  destruct (Z.lt_ge_cases i n) as [Hlt|Hge].
  - by rewrite Z.shiftl_spec_low.
  - destruct (decide (x = 0)) as [->|Hx0]; [by rewrite Z.bits_0, andb_false_r|].
    rewrite (Z.bits_above_log2 x i), andb_false_r; [done|lia|].
    apply Z.log2_lt_pow2; [lia|]. eapply Z.lt_le_trans; [apply Hx|]. by apply Z.pow_le_mono_r.
Qed.

Lemma wrap_i64_id z : i64_min <= z <= i64_max -> wrap_i64 z = z.
Proof. unfold wrap_i64, i64_min, i64_max. intros. rewrite Z.mod_small; lia. Qed.

Lemma wrap_u8_range z : 0 <= wrap_u8 z <= u8_max.
Proof. unfold wrap_u8, u8_max. pose proof (Z.mod_pos_bound z 256). lia. Qed.

Lemma wrap_u8_id z : 0 <= z <= u8_max -> wrap_u8 z = z.
Proof. unfold wrap_u8, u8_max. intros. apply Z.mod_small; lia. Qed.

Lemma checked_add_u8_Some a b c :
  checked_add_u8 a b = Some c -> c = a + b /\ a + b <= u8_max.
Proof. unfold checked_add_u8. destruct (Z.leb_spec (a + b) u8_max); naive_solver. Qed.

Lemma checked_add_u8_fits a b :
  a + b <= u8_max -> checked_add_u8 a b = Some (a + b).
Proof. intros H. unfold checked_add_u8. by apply Z.leb_le in H as ->. Qed.

(** ** Results

    [Result<A, E>] with the [?] operator as a bind. *)

Inductive result (A E : Type) : Type :=
| Ok (a : A)
| Err (e : E).
Arguments Ok {A E} a.
Arguments Err {A E} e.

Declare Scope rust_scope.
Delimit Scope rust_scope with rust.

Definition rbind {A B E} (m : result A E) (f : A -> result B E) : result B E :=
  match m with Ok a => f a | Err e => Err e end.

Notation "'let?' x ':=' m 'in' k" := (rbind m (fun x => k))
  (at level 10, x pattern, m at level 100, k at level 200)
  : rust_scope.

#[global] Open Scope rust_scope.

Definition is_ok {A E} (r : result A E) : bool :=
  match r with Ok _ => true | Err _ => false end.

Lemma rbind_Ok {A B E} (m : result A E) (f : A -> result B E) b :
  rbind m f = Ok b -> exists a, m = Ok a /\ f a = Ok b.
Proof. destruct m; naive_solver. Qed.

(** ** Tactics and hint databases of the development *)

(** Facts about machine-integer ranges and list membership that close the
    routine side conditions. *)
Create HintDb rust.
#[export] Hint Resolve wrap_u8_range : rust.

(** Split every conjunction and existential of the context. *)
Ltac deep_destruct :=
  repeat match goal with
  | H : _ /\ _ |- _ => destruct H
  | H : exists _, _ |- _ => destruct H
  end.

(** Case on the scrutinee of the first [match] or [if] of hypothesis [H],
    dropping the branches that contradict it. *)
Ltac step_in H :=
  match type of H with
  | context [match ?scrutinee with _ => _ end] =>
      let Heq := fresh "Heq" in destruct scrutinee eqn:Heq; try discriminate H
  end.

(** Turn boolean tests of the context into the propositions they decide. *)
Ltac bool_props :=
  repeat match goal with
  | H : (_ && _)%bool = true |- _ => apply andb_true_iff in H as [? ?]
  | H : (_ || _)%bool = false |- _ => apply orb_false_iff in H as [? ?]
  | H : negb _ = true |- _ => apply negb_true_iff in H
  | H : negb _ = false |- _ => apply negb_false_iff in H
  | H : (_ =? _) = true |- _ => apply Z.eqb_eq in H
  | H : (_ =? _) = false |- _ => apply Z.eqb_neq in H
  | H : (_ <? _) = true |- _ => apply Z.ltb_lt in H
  | H : (_ <? _) = false |- _ => apply Z.ltb_ge in H
  | H : (_ <=? _) = true |- _ => apply Z.leb_le in H
  | H : (_ <=? _) = false |- _ => apply Z.leb_gt in H
  | H : Nat.eqb _ _ = true |- _ => apply Nat.eqb_eq in H
  | H : Nat.eqb _ _ = false |- _ => apply Nat.eqb_neq in H
  | H : Nat.ltb _ _ = true |- _ => apply Nat.ltb_lt in H
  | H : Nat.ltb _ _ = false |- _ => apply Nat.ltb_ge in H
  | H : Nat.leb _ _ = true |- _ => apply Nat.leb_le in H
  | H : Nat.leb _ _ = false |- _ => apply Nat.leb_gt in H
  end.

(** ** Generic list lemmas *)

Lemma Forall_replicate_const {A} (P : A -> Prop) n x :
  P x -> Forall P (replicate n x).
Proof. intros. induction n; simpl; auto. Qed.

Lemma filter_none {A} (P : A -> Prop) `{forall x, Decision (P x)} (l : list A) :
  Forall (fun x => ~ P x) l -> filter P l = [].
Proof.
  induction 1 as [|x l Hx _ IH]; [done|].
  rewrite filter_cons, IH. by rewrite decide_False.
Qed.

Lemma omap_ext_in {A B} (f g : A -> option B) (l : list A) :
  (forall x, x ∈ l -> f x = g x) -> omap f l = omap g l.
Proof.
  induction l as [|x l IH]; intros Hfg; [done|]. cbn.
  rewrite (Hfg x), IH; [done | | left]. intros y Hy. apply Hfg. by right.
Qed.

Lemma Forall_filter_keep {A} (P Q : A -> Prop) `{forall x, Decision (Q x)} (l : list A) :
  Forall P l -> Forall P (filter Q l).
Proof.
  induction 1 as [|x l Hx _ IH]; [constructor|]. rewrite filter_cons.
  case_decide; by try constructor.
Qed.
