(* ===== verification/DdParse.v ===== *)
(** * AV1 Dependency Descriptor bit-parser (crates/sfu/src/svc/dd_parse.rs)

    The parser is modelled as the source writes it: an MSB-first reader over a
    byte slice, [None] propagated by [?], and the three block loops of the
    template structure.  Every operation that can panic in Rust (a slice index
    out of range, an unsigned subtraction below zero, a shift by the full
    width) is an explicit outcome [PPanic], and every loop that is not over a
    fixed range carries fuel whose exhaustion is the outcome [PFuel]; the file
    [DdParseFacts] shows that neither is reachable. *)

From Stdlib Require Import ZArith Lia.
From stdpp Require Import base option numbers list.
From S2P Require Import Prelude.

(** ** Bit reader *)

Record BitReader := mkReader {
  bytes : list Z;
  bit_pos : nat;
}.

Definition reader_new (bs : list Z) : BitReader := mkReader bs 0.

Definition total_bits (r : BitReader) : nat := (length (bytes r) * 8)%nat.

Definition remaining (r : BitReader) : nat := (total_bits r - bit_pos r)%nat.

(** Outcome of a parsing step: a value and the advanced reader, the fail-soft
    [None], a panic, or loop fuel spent. *)
Inductive pres (A : Type) : Type :=
| PSome (a : A) (r : BitReader)
| PNone
| PPanic
| PFuel.
Arguments PSome {A} a r.
Arguments PNone {A}.
Arguments PPanic {A}.
Arguments PFuel {A}.

Definition P (A : Type) : Type := BitReader -> pres A.

Definition pret {A} (a : A) : P A := fun r => PSome a r.
Definition pnone {A} : P A := fun _ => PNone.
Definition ppanic {A} : P A := fun _ => PPanic.
Definition pfuel {A} : P A := fun _ => PFuel.

Definition pbind {A B} (m : P A) (k : A -> P B) : P B :=
  fun r => match m r with
           | PSome a r' => k a r'
           | PNone => PNone
           | PPanic => PPanic
           | PFuel => PFuel
           end.

Notation "'let!' x ':=' m 'in' k" := (pbind m (fun x => k))
  (at level 10, x pattern, m at level 100, k at level 200) : rust_scope.

(** [opt?] *)
Definition pof_option {A} (o : option A) : P A :=
  match o with Some a => pret a | None => pnone end.

(** A [u32] arithmetic result: out of range panics. *)
Definition u32_checked (z : Z) : P Z :=
  if (0 <=? z) && (z <=? u32_max) then pret z else ppanic.

(** [1u32 << w]: a shift by the full width panics. *)
Definition shl1_u32 (w : Z) : P Z :=
  if w <? 32 then pret (Z.shiftl 1 w) else ppanic.

(** The bit loop of [read_bits]. *)
Fixpoint read_bits_loop (n : nat) (result : Z) (r : BitReader) : pres Z :=
  match n with
  | O => PSome result r
  | S n' =>
      let byte_idx := (bit_pos r / 8)%nat in
      let bit_idx := (7 - bit_pos r mod 8)%nat in
      match bytes r !! byte_idx with
      | None => PPanic
      | Some b =>
          let bit := Z.land (Z.shiftr b (Z.of_nat bit_idx)) 1 in
          read_bits_loop n'
            (Z.lor (wrap_u32 (Z.shiftl result 1)) bit)
            (mkReader (bytes r) (S (bit_pos r)))
      end
  end.

Definition read_bits (n : nat) : P Z := fun r =>
  if Nat.eqb n 0 then PSome 0 r
  else if Nat.ltb 32 n || Nat.ltb (remaining r) n then PNone
  else read_bits_loop n 0 r.

Definition read_bool : P bool :=
  let! v := read_bits 1 in pret (negb (v =? 0)).

(** [while x != 0 { x >>= 1; w += 1 }] *)
Fixpoint ns_width (fuel : nat) (x w : Z) : P Z :=
  match fuel with
  | O => pfuel
  | S fuel' =>
      if x =? 0 then pret w else ns_width fuel' (Z.shiftr x 1) (w + 1)
  end.

(** The [ns(n)] code; a [u32] has at most 32 significant bits, so 33 turns of
    the width loop always reach [x = 0]. *)
Definition read_ns (n : Z) : P Z :=
  if n <=? 1 then pret 0
  else
    let! w := ns_width 33 n 0 in
    let! p := shl1_u32 w in
    let! m := u32_checked (p - n) in
    let! wm1 := u32_checked (w - 1) in
    let! v := read_bits (Z.to_nat wm1) in
    if v <? m then pret v
    else
      let! extra := read_bits 1 in
      let! d := u32_checked (wrap_u32 (Z.shiftl v 1) - m) in
      u32_checked (d + extra).

(** ** Data types *)

Record FrameDependencyTemplate := mkTemplate {
  tpl_temporal_id : Z;
  tpl_spatial_id : Z;
  dtis : list Z;
  fdiffs : list Z;
  chain_fdiffs : list Z;
}.

Record TemplateDependencyStructure := mkStructure {
  template_id_offset : Z;
  template_count : Z;
  dt_cnt : Z;
  chain_cnt : Z;
  max_temporal_id : Z;
  max_spatial_id : Z;
  templates : list FrameDependencyTemplate;
}.

Record DependencyDescriptor := mkDescriptor {
  start_of_frame : bool;
  end_of_frame : bool;
  frame_dependency_template_id : Z;
  frame_number : Z;
  temporal_id : option Z;
  spatial_id : option Z;
  structure : option TemplateDependencyStructure;
}.

(** ** Loops over the reader *)

(** [for _ in 0..n { acc.push(p?) }] *)
Fixpoint repeat_p {A} (n : nat) (p : P A) : P (list A) :=
  match n with
  | O => pret []
  | S n' => let! a := p in let! l := repeat_p n' p in pret (a :: l)
  end.

(** [for x in xs.iter_mut() { *x = f(x)? }] *)
Fixpoint for_each {A B} (f : A -> P B) (xs : list A) : P (list B) :=
  match xs with
  | [] => pret []
  | x :: xs' => let! y := f x in let! ys := for_each f xs' in pret (y :: ys)
  end.

(** ** Parser *)

Fixpoint template_layers_loop (fuel : nat) (tid sid max_tid : Z)
    (tpls : list (Z * Z)) : P (list (Z * Z) * Z * Z) :=
  match fuel with
  | O => pfuel
  | S fuel' =>
      let tpls := tpls ++ [(sid, tid)] in
      let guard tid sid max_tid : P (list (Z * Z) * Z * Z) :=
        if Nat.leb 64 (length tpls) then pnone
        else template_layers_loop fuel' tid sid max_tid tpls in
      let! next_layer_idc := read_bits 2 in
      if next_layer_idc =? 0 then guard tid sid max_tid
      else if next_layer_idc =? 1 then
        let! tid' := pof_option (checked_add_u8 tid 1) in
        guard tid' sid (if max_tid <? tid' then tid' else max_tid)
      else if next_layer_idc =? 2 then
        let! sid' := pof_option (checked_add_u8 sid 1) in
        guard 0 sid' max_tid
      else if next_layer_idc =? 3 then pret (tpls, max_tid, sid)
      else ppanic
  end.

(** The length guard stops the loop at the 64th template. *)
Definition parse_template_layers : P (list (Z * Z) * Z * Z) :=
  template_layers_loop 64 0 0 0 [].

Fixpoint template_fdiffs_loop (fuel : nat) (follows : bool) (acc : list Z)
    : P (list Z) :=
  if follows then
    match fuel with
    | O => pfuel
    | S fuel' =>
        let! fdiff_minus_one := read_bits 4 in
        let! fd := pof_option (checked_add_u8 (wrap_u8 fdiff_minus_one) 1) in
        let acc := acc ++ [fd] in
        let! follows := read_bool in
        if Nat.leb 8 (length acc) then pnone
        else template_fdiffs_loop fuel' follows acc
    end
  else pret acc.

(** The length guard stops the loop at the 8th difference. *)
Definition parse_template_fdiffs : P (list Z) :=
  let! follows := read_bool in template_fdiffs_loop 8 follows [].

Definition set_dtis (t : FrameDependencyTemplate) (d : list Z) :=
  mkTemplate (tpl_temporal_id t) (tpl_spatial_id t) (dtis t ++ d) (fdiffs t) (chain_fdiffs t).
Definition set_fdiffs (t : FrameDependencyTemplate) (d : list Z) :=
  mkTemplate (tpl_temporal_id t) (tpl_spatial_id t) (dtis t) d (chain_fdiffs t).
Definition set_chain_fdiffs (t : FrameDependencyTemplate) (d : list Z) :=
  mkTemplate (tpl_temporal_id t) (tpl_spatial_id t) (dtis t) (fdiffs t) d.

Definition read_u8 (n : nat) : P Z := let! v := read_bits n in pret (wrap_u8 v).

Definition parse_template_dependency_structure : P TemplateDependencyStructure :=
  let! offset := read_u8 6 in
  let! dt_cnt_minus_one := read_u8 5 in
  let! dt := pof_option (checked_add_u8 dt_cnt_minus_one 1) in
  if 32 <=? dt then pnone else
  let! (layers, max_tid, max_sid) := parse_template_layers in
  let count := wrap_u8 (Z.of_nat (length layers)) in
  if count =? 0 then pnone else
  let tpls := map (fun '(sid, tid) => mkTemplate tid sid [] [] []) layers in
  let! tpls := for_each (fun t =>
      let! d := repeat_p (Z.to_nat dt) (read_u8 2) in pret (set_dtis t d)) tpls in
  let! tpls := for_each (fun t =>
      let! d := parse_template_fdiffs in pret (set_fdiffs t d)) tpls in
  let! chain := (let! c := read_ns (dt + 1) in pret (wrap_u8 c)) in
  let! tpls :=
    if 0 <? chain then
      let! _ := repeat_p (Z.to_nat dt) (read_ns chain) in
      for_each (fun t =>
        let! d := repeat_p (Z.to_nat chain) (read_u8 4) in
        pret (set_chain_fdiffs t d)) tpls
    else pret tpls in
  let! resolutions_present := read_bool in
  let! _ :=
    if resolutions_present then
      let! _ := repeat_p (Z.to_nat (max_sid + 1))
                  (let! _ := read_bits 16 in read_bits 16) in pret tt
    else pret tt in
  pret (mkStructure offset count dt chain max_tid max_sid tpls).

(** [frame_fdiffs()]: each turn reads at least six bits, so the remaining bit
    count bounds the loop. *)
Fixpoint frame_fdiffs_loop (fuel : nat) : P unit :=
  match fuel with
  | O => pfuel
  | S fuel' =>
      let! next_fdiff_size := read_bits 2 in
      if next_fdiff_size =? 0 then pret tt
      else
        let! _ := read_bits (Z.to_nat (4 * next_fdiff_size)) in
        frame_fdiffs_loop fuel'
  end.

Definition frame_fdiffs : P unit := fun r => frame_fdiffs_loop (S (remaining r)) r.

(** The extended descriptor fields: the attached structure and the three
    custom flags. *)
Definition extended_fields (prior : option TemplateDependencyStructure)
    : P (option TemplateDependencyStructure * (bool * bool * bool)) :=
  let! structure_present := read_bool in
  let! active_present := read_bool in
  let! custom_dtis := read_bool in
  let! custom_fdiffs := read_bool in
  let! custom_chains := read_bool in
  let flags := (custom_dtis, custom_fdiffs, custom_chains) in
  if structure_present then
    let! s := parse_template_dependency_structure in
    let! p := shl1_u32 (dt_cnt s) in
    let! _ := u32_checked (p - 1) in
    let! _ := if active_present then read_bits (Z.to_nat (dt_cnt s)) else pret 0 in
    pret (Some s, flags)
  else if active_present then
    let! ps := pof_option prior in
    let! _ := read_bits (Z.to_nat (dt_cnt ps)) in
    pret (None, flags)
  else pret (None, flags).

(** Template resolution against the attached or the cached structure. *)
Definition resolve_template (template_id : Z)
    (s : option TemplateDependencyStructure) : P (option Z * option Z) :=
  match s with
  | None => pret (None, None)
  | Some s =>
      let! d := u32_checked (template_id + 64 - template_id_offset s) in
      let index := d mod 64 in
      if template_count s <=? index then pnone
      else match templates s !! Z.to_nat index with
           | None => ppanic
           | Some tpl => pret (Some (tpl_temporal_id tpl), Some (tpl_spatial_id tpl))
           end
  end.

(** The per-frame override fields, read and discarded. *)
Definition custom_fields (s : option TemplateDependencyStructure)
    (flags : bool * bool * bool) : P unit :=
  let '(custom_dtis, custom_fdiffs, custom_chains) := flags in
  match s with
  | Some s =>
      let! _ := if custom_dtis
                then repeat_p (Z.to_nat (dt_cnt s)) (read_bits 2) else pret [] in
      let! _ := if custom_fdiffs then frame_fdiffs else pret tt in
      let! _ := if custom_chains
                then repeat_p (Z.to_nat (chain_cnt s)) (read_bits 8) else pret [] in
      pret tt
  | None => if custom_dtis || custom_fdiffs || custom_chains then pnone else pret tt
  end.

Definition parse_fields (sz : nat) (prior : option TemplateDependencyStructure)
    : P DependencyDescriptor :=
  let! sof := read_bool in
  let! eof := read_bool in
  let! template_id := read_u8 6 in
  let! fnum := (let! v := read_bits 16 in pret (v mod 65536)) in
  let! (attached, flags) :=
    if Nat.ltb 3 sz then extended_fields prior
    else pret (None, (false, false, false)) in
  let resolve := match attached with Some s => Some s | None => prior end in
  let! (tid, sid) := resolve_template template_id resolve in
  let! _ := custom_fields resolve flags in
  pret (mkDescriptor sof eof template_id fnum tid sid attached).

(** The whole entry point. *)
Definition parse_dependency_descriptor (bs : list Z)
    (prior : option TemplateDependencyStructure) : pres DependencyDescriptor :=
  if Nat.ltb (length bs) 3 then PNone
  else parse_fields (length bs) prior (reader_new bs).

(** The option the Rust function returns; [None] also stands for the
    unreachable outcomes. *)
Definition parsed (o : pres DependencyDescriptor) : option DependencyDescriptor :=
  match o with PSome d _ => Some d | _ => None end.
