(* ===== verification/DdParseFacts.v ===== *)
(** * Dependency Descriptor parser: totality and well-formedness

    A small Hoare-style predicate [spec] for parsing steps (never a panic,
    never out of fuel, the reader only moves forward, the value satisfies a
    postcondition), its rules, and the two theorems the SFU relies on: the
    parser is total on arbitrary input, and the structures it hands out satisfy
    the invariant that makes it safe to hand them back as the prior. *)

From Stdlib Require Import ZArith Lia.
From stdpp Require Import base option numbers list.
From S2P Require Import Prelude DdParse.

(** ** Specifications of parsing steps *)

(** The reader only moves forward over the same bytes. *)
Definition advances (r r' : BitReader) : Prop :=
  bytes r' = bytes r /\ (bit_pos r <= bit_pos r')%nat.

#[export] Instance advances_preorder : PreOrder advances.
Proof.
  split; [by split|]. intros r1 r2 r3 [Hb Hp] [Hb' Hp'].
  split; [congruence | lia].
Qed.

Definition spec {A} (p : P A) (Q : A -> Prop) : Prop :=
  forall r, match p r with
            | PSome a r' => advances r r' /\ Q a
            | PNone => True
            | PPanic | PFuel => False
            end.

Lemma spec_ret {A} (a : A) (Q : A -> Prop) : Q a -> spec (pret a) Q.
Proof. intros ? r. simpl. by split. Qed.

Lemma spec_none {A} (Q : A -> Prop) : spec pnone Q.
Proof. by intros r. Qed.

Lemma spec_bind {A B} (p : P A) (k : A -> P B) Q R :
  spec p Q -> (forall a, Q a -> spec (k a) R) -> spec (pbind p k) R.
Proof.
  intros Hp Hk r. specialize (Hp r). unfold pbind.
  destruct (p r) as [a r'| | |]; try done; destruct Hp as [Hadv Ha].
  specialize (Hk a Ha r'). destruct (k a r') as [b r''| | |]; try done.
  destruct Hk as [Hadv' Hb]. split; [by transitivity r' | done].
Qed.

Lemma spec_weaken {A} (p : P A) (Q R : A -> Prop) :
  spec p Q -> (forall a, Q a -> R a) -> spec p R.
Proof.
  intros Hp HQR r. specialize (Hp r). destruct (p r); try done. destruct Hp. auto.
Qed.

Lemma spec_option {A} (o : option A) (Q : A -> Prop) :
  (forall a, o = Some a -> Q a) -> spec (pof_option o) Q.
Proof. intros H. destruct o; [apply spec_ret; auto | apply spec_none]. Qed.

Lemma spec_u32_checked z (Q : Z -> Prop) :
  0 <= z <= u32_max -> Q z -> spec (u32_checked z) Q.
Proof.
  intros Hz HQ. unfold u32_checked.
  replace ((0 <=? z) && (z <=? u32_max)) with true by lia. by apply spec_ret.
Qed.

Lemma spec_shl1_u32 w (Q : Z -> Prop) :
  w < 32 -> Q (Z.shiftl 1 w) -> spec (shl1_u32 w) Q.
Proof.
  intros Hw HQ. unfold shl1_u32.
  replace (w <? 32) with true by lia. by apply spec_ret.
Qed.

(** Running the first step of a bind. *)
Lemma pbind_PSome {A B} (p : P A) (k : A -> P B) r a r' :
  p r = PSome a r' -> pbind p k r = k a r'.
Proof. unfold pbind. by intros ->. Qed.

Lemma u32_checked_ret z r : 0 <= z <= u32_max -> u32_checked z r = PSome z r.
Proof.
  intros Hz. unfold u32_checked.
  by replace ((0 <=? z) && (z <=? u32_max)) with true by lia.
Qed.

(** ** Bit reads *)

Lemma land1_range z : 0 <= Z.land z 1 <= 1.
Proof.
  assert (Z.land z 1 = z mod 2) as -> by (apply (Z.land_ones z 1); lia).
  pose proof (Z.mod_pos_bound z 2). lia.
Qed.

(** Appending one bit to a value that still fits in 32 bits. *)
Lemma append_bit_range acc b (n : nat) :
  (n < 32)%nat -> 0 <= acc < 2 ^ Z.of_nat n -> 0 <= b <= 1 ->
  Z.lor (wrap_u32 (Z.shiftl acc 1)) b = 2 * acc + b.
Proof.
  intros Hn Hacc Hb. unfold wrap_u32.
  rewrite Z.shiftl_mul_pow2, Z.mul_comm by lia.
  assert (2 ^ Z.of_nat n <= 2 ^ 31) by (apply Z.pow_le_mono_r; lia).
  rewrite Z.mod_small by lia. change (2 ^ 1) with 2.
  assert (b = 0 \/ b = 1) as [-> | ->] by lia.
  - rewrite Z.lor_0_r. lia.
  - apply Z.bits_inj'. intros i Hi. rewrite Z.lor_spec.
    destruct (Z.eq_dec i 0) as [-> | Hne].
    + rewrite Z.testbit_even_0, Z.testbit_odd_0. done.
    + replace i with (Z.succ (i - 1)) by lia.
      rewrite Z.testbit_even_succ, Z.testbit_odd_succ by lia.
      rewrite (Z.bits_above_log2 1 (Z.succ (i - 1))) by (simpl; lia).
      apply orb_false_r.
Qed.

Lemma read_bits_loop_spec n : forall acc k r,
  (n + k <= 32)%nat -> 0 <= acc < 2 ^ Z.of_nat k ->
  (bit_pos r + n <= total_bits r)%nat ->
  exists v, read_bits_loop n acc r = PSome v (mkReader (bytes r) (bit_pos r + n)) /\
            0 <= v < 2 ^ Z.of_nat (k + n).
Proof.
  induction n as [|n IH]; intros acc k r Hn Hacc Hpos; cbn [read_bits_loop].
  { exists acc. rewrite !Nat.add_0_r. destruct r; simpl. by split. }
  assert (bit_pos r / 8 < length (bytes r))%nat as Hlt.
  { unfold total_bits in Hpos. apply Nat.Div0.div_lt_upper_bound. lia. }
  destruct (lookup_lt_is_Some_2 _ _ Hlt) as [b Hb]. rewrite Hb.
  set (bit := Z.land _ 1). assert (0 <= bit <= 1) by apply land1_range.
  rewrite (append_bit_range acc bit k) by lia.
  destruct (IH (2 * acc + bit) (S k) (mkReader (bytes r) (S (bit_pos r))))
    as (v & Hv & Hr); simpl in *.
  - lia.
  - rewrite Nat2Z.inj_succ, Z.pow_succ_r by lia. lia.
  - unfold total_bits in *. simpl. lia.
  - exists v. rewrite Hv. split; [|by replace (k + S n)%nat with (S (k + n))].
    do 2 f_equal. lia.
Qed.

(** A bit read either fails or yields an [n]-bit value and advances [n] bits. *)
Lemma read_bits_cases n r :
  read_bits n r = PNone \/
  exists v, read_bits n r = PSome v (mkReader (bytes r) (bit_pos r + n)) /\
            0 <= v < 2 ^ Z.of_nat n /\ (n <= remaining r)%nat.
Proof.
  unfold read_bits. destruct (Nat.eqb_spec n 0) as [->|Hn].
  { right. exists 0. rewrite Nat.add_0_r. destruct r. simpl. split_and!; lia || done. }
  destruct (Nat.ltb_spec 32 n); [by left|].
  destruct (Nat.ltb_spec (remaining r) n) as [|Hrem]; [by left|].
  right. simpl.
  destruct (read_bits_loop_spec n 0 0 r) as (v & Hv & Hr);
    [lia | simpl; lia | unfold remaining in Hrem; lia |].
  exists v. split_and!; try done; apply Hr || lia.
Qed.

Lemma spec_read_bits n (Q : Z -> Prop) :
  (forall v, 0 <= v < 2 ^ Z.of_nat n -> Q v) -> spec (read_bits n) Q.
Proof.
  intros HQ r. destruct (Nat.eq_dec n 0%nat) as [->|Hn].
  { unfold read_bits. simpl. split; [done|]. apply HQ. simpl. lia. }
  destruct (read_bits_cases n r) as [-> | (v & -> & Hv & _)]; [done|].
  split; [split; simpl; [done | lia] | auto].
Qed.

Lemma spec_read_bool : spec read_bool (fun _ => True).
Proof.
  eapply spec_bind; [by apply (spec_read_bits _ (fun _ => True)) |].
  intros. by apply spec_ret.
Qed.

Lemma spec_read_u8 n (Q : Z -> Prop) :
  (n <= 8)%nat -> (forall v, 0 <= v < 2 ^ Z.of_nat n -> Q v) -> spec (read_u8 n) Q.
Proof.
  intros Hn HQ. eapply spec_bind; [apply (spec_read_bits n (fun v => 0 <= v < 2 ^ Z.of_nat n)); auto|].
  intros v Hv. cbv beta in Hv. apply spec_ret.
  assert (2 ^ Z.of_nat n <= 2 ^ 8) by (apply Z.pow_le_mono_r; lia).
  rewrite wrap_u8_id by (unfold u8_max; lia). auto.
Qed.

#[export] Hint Resolve spec_read_bool spec_none : rust.

(** ** The non-symmetric code *)

(** The width loop counts the binary digits of [x]. *)
Lemma ns_width_ret fuel : forall x w r,
  0 <= x < 2 ^ Z.of_nat fuel ->
  ns_width (S fuel) x w r = PSome (w + (if x =? 0 then 0 else Z.log2 x + 1)) r.
Proof.
  induction fuel as [|fuel IH]; intros x w r Hx; simpl.
  { assert (x = 0) as -> by (simpl in Hx; lia). simpl. unfold pret. f_equal. lia. }
  destruct (Z.eqb_spec x 0); [unfold pret; f_equal; lia|].
  rewrite Nat2Z.inj_succ, Z.pow_succ_r in Hx by lia.
  assert (Z.shiftr x 1 = x / 2) as Hs by (rewrite Z.shiftr_div_pow2 by lia; done).
  assert (0 <= x / 2 < 2 ^ Z.of_nat fuel).
  { split; [apply Z.div_pos; lia | apply Z.div_lt_upper_bound; lia]. }
  specialize (IH (Z.shiftr x 1) (w + 1) r). simpl in IH. rewrite IH by (rewrite Hs; lia).
  f_equal. destruct (Z.eqb_spec (Z.shiftr x 1) 0) as [E|E].
  - assert (x = 1) as -> by (rewrite Hs in E; pose proof (Z.div_mod x 2);
      pose proof (Z.mod_pos_bound x 2); lia). simpl. lia.
  - rewrite Z.log2_shiftr by lia.
    assert (1 <= Z.log2 x). { apply Z.log2_le_pow2; [lia|]. simpl.
      rewrite Hs in E. pose proof (Z.div_mod x 2); pose proof (Z.mod_pos_bound x 2); lia. }
    lia.
Qed.

(** Width of the [ns(n)] code: the number of binary digits of [n]. *)
Definition ns_w (n : Z) : Z := Z.log2 n + 1.

Lemma ns_w_bounds n : 1 < n -> 2 ^ (ns_w n - 1) <= n < 2 ^ ns_w n /\ 2 <= ns_w n.
Proof.
  intros Hn. unfold ns_w. replace (Z.log2 n + 1 - 1) with (Z.log2 n) by lia.
  pose proof (Z.log2_spec n ltac:(lia)).
  assert (1 <= Z.log2 n) by (apply Z.log2_le_pow2; simpl; lia).
  replace (Z.log2 n + 1) with (Z.succ (Z.log2 n)) by lia. lia.
Qed.

(** For [1 < n < 2^31] the code is one fixed read followed by at most one more
    bit; the arithmetic never leaves [u32]. *)
Lemma read_ns_unfold n r :
  1 < n < 2 ^ 31 ->
  read_ns n r =
    (let m := 2 ^ ns_w n - n in
     let! v := read_bits (Z.to_nat (ns_w n - 1)) in
     if v <? m then pret v
     else let! extra := read_bits 1 in
          let! d := u32_checked (wrap_u32 (Z.shiftl v 1) - m) in
          u32_checked (d + extra)) r.
Proof.
  intros Hn. pose proof (ns_w_bounds n ltac:(lia)) as [Hb Hw].
  assert (ns_w n <= 31).
  { unfold ns_w. assert (Z.log2 n < 31); [|lia]. apply Z.log2_lt_pow2; lia. }
  assert (2 ^ ns_w n <= 2 ^ 31) by (apply Z.pow_le_mono_r; lia).
  assert (2 ^ ns_w n = 2 * 2 ^ (ns_w n - 1)).
  { rewrite <- Z.pow_succ_r by lia. f_equal. lia. }
  assert (0 <= 2 ^ ns_w n - n <= u32_max) by (unfold u32_max; lia).
  assert (0 <= ns_w n - 1 <= u32_max) by (unfold u32_max; lia).
  unfold read_ns. replace (n <=? 1) with false by lia.
  rewrite (pbind_PSome _ _ r (ns_w n) r).
  2: { rewrite (ns_width_ret 32) by lia. replace (n =? 0) with false by lia. done. }
  rewrite (pbind_PSome _ _ r (2 ^ ns_w n) r).
  2: { unfold shl1_u32. replace (ns_w n <? 32) with true by lia.
       by rewrite Z.shiftl_mul_pow2, Z.mul_1_l by lia. }
  rewrite (pbind_PSome _ _ _ _ _ (u32_checked_ret (2 ^ ns_w n - n) r ltac:(assumption))).
  by rewrite (pbind_PSome _ _ _ _ _ (u32_checked_ret (ns_w n - 1) r ltac:(assumption))).
Qed.

(** A decoded [ns(n)] value lies in [0..n-1] (and is [0] for [n <= 1]). *)
Lemma spec_read_ns n (Q : Z -> Prop) :
  n < 2 ^ 31 -> (forall v, 0 <= v < Z.max 1 n -> Q v) -> spec (read_ns n) Q.
Proof.
  intros Hn HQ. destruct (Z.leb_spec n 1) as [H1|H1].
  { unfold read_ns. replace (n <=? 1) with true by lia. apply spec_ret, HQ. lia. }
  intros r. rewrite read_ns_unfold by lia.
  pose proof (ns_w_bounds n ltac:(lia)) as [Hb Hw].
  assert (2 ^ ns_w n = 2 * 2 ^ (ns_w n - 1)).
  { rewrite <- Z.pow_succ_r by lia. f_equal. lia. }
  revert r. change (spec (let! v := read_bits (Z.to_nat (ns_w n - 1)) in
     if v <? 2 ^ ns_w n - n then pret v
     else let! extra := read_bits 1 in
          let! d := u32_checked (wrap_u32 (Z.shiftl v 1) - (2 ^ ns_w n - n)) in
          u32_checked (d + extra)) Q).
  eapply spec_bind.
  { apply (spec_read_bits _ (fun v => 0 <= v < 2 ^ (ns_w n - 1))). intros v.
    by rewrite Z2Nat.id by lia. }
  intros v Hv. cbv beta in Hv. destruct (Z.ltb_spec v (2 ^ ns_w n - n)).
  { apply spec_ret, HQ. lia. }
  eapply spec_bind; [apply (spec_read_bits 1 (fun e => 0 <= e < 2)); auto|].
  intros e He. cbv beta in He. rewrite Z.shiftl_mul_pow2 by lia. change (2 ^ 1) with 2.
  unfold wrap_u32. rewrite Z.mod_small by lia.
  eapply (spec_bind _ _ (fun d => d = v * 2 - (2 ^ ns_w n - n))).
  { apply spec_u32_checked; [unfold u32_max; lia | done]. }
  intros d ->. apply spec_u32_checked; [unfold u32_max; lia|]. apply HQ. lia.
Qed.

(** ** Loop rules *)

Lemma spec_repeat {A} n (p : P A) Q :
  spec p Q -> spec (repeat_p n p) (fun l => length l = n /\ Forall Q l).
Proof.
  intros Hp. induction n as [|n IH]; simpl; [by apply spec_ret|].
  eapply spec_bind; [apply Hp|]. intros a Ha.
  eapply spec_bind; [apply IH|]. intros l [Hl HQ].
  apply spec_ret. simpl. split; [lia | by constructor].
Qed.

Lemma spec_for_each {A B} (f : A -> P B) (R : A -> B -> Prop) xs :
  (forall x, spec (f x) (R x)) -> spec (for_each f xs) (Forall2 R xs).
Proof.
  intros Hf. induction xs as [|x xs IH]; simpl; [by apply spec_ret|].
  eapply spec_bind; [apply Hf|]. intros y Hy.
  eapply spec_bind; [apply IH|]. intros ys Hys.
  apply spec_ret. by constructor.
Qed.

(** ** Template layers *)

(** One [next_layer_idc] step from a (spatial, temporal) pair. *)
Definition next_layer (a b : Z * Z) : Prop :=
  b = a \/ b = (a.1, a.2 + 1) \/ b = (a.1 + 1, 0).

Fixpoint layer_chain (cur : Z * Z) (l : list (Z * Z)) : Prop :=
  match l with
  | [] => True
  | x :: l' => next_layer cur x /\ layer_chain x l'
  end.

(** A layer list starts at S0/T0 and follows the chain. *)
Definition layers_wf (l : list (Z * Z)) : Prop :=
  match l with
  | [] => False
  | x :: l' => x = (0, 0) /\ layer_chain x l'
  end.

Definition max_tid_of (l : list (Z * Z)) : Z := foldr (fun p m => Z.max p.2 m) 0 l.
Definition max_sid_of (l : list (Z * Z)) : Z := foldr (fun p m => Z.max p.1 m) 0 l.

Lemma layer_chain_snoc l : forall c x,
  layer_chain c l -> next_layer (default c (last l)) x -> layer_chain c (l ++ [x]).
Proof.
  induction l as [|y l IH]; intros c x Hl Hx; simpl; [done|].
  destruct Hl as [Hy Hl]. split; [done|]. apply IH; [done|].
  rewrite last_cons in Hx. by destruct (last l).
Qed.

Lemma layers_wf_snoc l p x :
  layers_wf (l ++ [p]) -> next_layer p x -> layers_wf ((l ++ [p]) ++ [x]).
Proof.
  destruct l as [|y l]; simpl.
  { intros [-> _] Hx. by split. }
  intros [-> Hc] Hx. split; [done|]. apply layer_chain_snoc; [done|].
  by rewrite last_snoc.
Qed.

Lemma max_tid_of_snoc l p : max_tid_of (l ++ [p]) = Z.max (max_tid_of l) (Z.max p.2 0).
Proof. induction l as [|x l IH]; simpl in *; [lia|]. rewrite IH. lia. Qed.

Lemma max_sid_of_snoc l p : max_sid_of (l ++ [p]) = Z.max (max_sid_of l) (Z.max p.1 0).
Proof. induction l as [|x l IH]; simpl in *; [lia|]. rewrite IH. lia. Qed.

(** What the layer loop knows when it has pushed [l ++ [(sid, tid)]]. *)
Definition layers_inv (l : list (Z * Z)) (tid sid max_tid : Z) : Prop :=
  layers_wf (l ++ [(sid, tid)]) /\ 0 <= tid /\ 0 <= sid /\
  max_tid = max_tid_of (l ++ [(sid, tid)]) /\ sid = max_sid_of (l ++ [(sid, tid)]).

Definition layers_post (res : list (Z * Z) * Z * Z) : Prop :=
  let '(l, max_tid, max_sid) := res in
  layers_wf l /\ (1 <= length l <= 64)%nat /\
  max_tid = max_tid_of l /\ max_sid = max_sid_of l.

Lemma spec_template_layers_loop fuel : forall tid sid max_tid l,
  (length l + fuel = 64)%nat -> (1 <= fuel)%nat -> layers_inv l tid sid max_tid ->
  spec (template_layers_loop fuel tid sid max_tid l) layers_post.
Proof.
  induction fuel as [|fuel IH]; intros tid sid mt l Hlen Hf Hinv; [lia|].
  destruct Hinv as (Hwf & Ht & Hs & Hmt & Hms).
  cbn [template_layers_loop].
  assert (length (l ++ [(sid, tid)]) = S (length l)) as Hl1
    by (rewrite length_app; simpl; lia).
  assert (forall x mt', next_layer (sid, tid) x -> 0 <= x.2 -> 0 <= x.1 ->
      mt' = max_tid_of ((l ++ [(sid, tid)]) ++ [x]) ->
      x.1 = max_sid_of ((l ++ [(sid, tid)]) ++ [x]) ->
      spec (if Nat.leb 64 (length (l ++ [(sid, tid)])) then pnone
            else template_layers_loop fuel x.2 x.1 mt' (l ++ [(sid, tid)])) layers_post)
    as Hguard.
  { intros [s t] mt' Hx Hx2 Hx1 Hm Hs'. cbn [fst snd] in *.
    destruct (Nat.leb_spec 64 (length (l ++ [(sid, tid)]))); [apply spec_none|].
    apply IH; [lia | lia |]. split_and!; try done. by apply layers_wf_snoc. }
  pose proof Hmt as Hmt'. pose proof Hms as Hms'.
  rewrite max_tid_of_snoc in Hmt'. rewrite max_sid_of_snoc in Hms'. simpl in Hmt', Hms'.
  eapply spec_bind; [apply (spec_read_bits 2 (fun v => 0 <= v < 4)); auto|].
  intros v Hv; cbv beta in Hv.
  destruct (Z.eqb_spec v 0).
  { apply (Hguard (sid, tid) mt); simpl; [by left | done | done | |];
      rewrite ?max_tid_of_snoc, ?max_sid_of_snoc; simpl; lia. }
  destruct (Z.eqb_spec v 1).
  { eapply spec_bind; [apply spec_option, checked_add_u8_Some|]. intros t' [-> _].
    apply (Hguard (sid, tid + 1)); simpl; [by right; left | lia | lia | |];
      rewrite ?max_tid_of_snoc, ?max_sid_of_snoc; simpl; [|lia].
    destruct (Z.ltb_spec mt (tid + 1)); lia. }
  destruct (Z.eqb_spec v 2).
  { eapply spec_bind; [apply spec_option, checked_add_u8_Some|]. intros s' [-> _].
    apply (Hguard (sid + 1, 0) mt); simpl; [by right; right | lia | lia | |];
      rewrite ?max_tid_of_snoc, ?max_sid_of_snoc; simpl; lia. }
  destruct (Z.eqb_spec v 3); [|lia].
  apply spec_ret. split_and!; try done; rewrite length_app; simpl; lia.
Qed.

Lemma spec_parse_template_layers : spec parse_template_layers layers_post.
Proof.
  apply spec_template_layers_loop; [done | lia |]. by unfold layers_inv.
Qed.

(** ** Frame differences *)

Definition fdiffs_wf (l : list Z) : Prop :=
  (length l <= 7)%nat /\ Forall (fun d => 1 <= d <= 16) l.

Lemma spec_template_fdiffs_loop fuel : forall follows acc,
  (length acc + fuel = 8)%nat -> (1 <= fuel)%nat -> Forall (fun d => 1 <= d <= 16) acc ->
  spec (template_fdiffs_loop fuel follows acc) fdiffs_wf.
Proof.
  induction fuel as [|fuel IH]; intros follows acc Hlen Hf Hacc; [lia|].
  cbn [template_fdiffs_loop]. destruct follows.
  2: { apply spec_ret. split; [lia | done]. }
  eapply spec_bind; [apply (spec_read_bits 4 (fun v => 0 <= v < 16)); auto|].
  intros v Hv; cbv beta in Hv. rewrite wrap_u8_id by (unfold u8_max; lia).
  eapply spec_bind; [apply spec_option, checked_add_u8_Some|]. intros fd [-> _].
  eapply spec_bind; [apply spec_read_bool|]. intros follows _.
  assert (length (acc ++ [v + 1]) = S (length acc)) by (rewrite length_app; simpl; lia).
  destruct (Nat.leb_spec 8 (length (acc ++ [v + 1]))); [apply spec_none|].
  apply IH; [lia | lia |]. apply Forall_app; split; [done|]. constructor; [lia | constructor].
Qed.

Lemma spec_parse_template_fdiffs : spec parse_template_fdiffs fdiffs_wf.
Proof.
  eapply spec_bind; [apply spec_read_bool|]. intros follows _.
  apply spec_template_fdiffs_loop; [done | lia | constructor].
Qed.

(** ** The template structure *)

Definition template_layer (t : FrameDependencyTemplate) : Z * Z :=
  (tpl_spatial_id t, tpl_temporal_id t).

Definition dtis_wf (dt : Z) (l : list Z) : Prop :=
  Z.of_nat (length l) = dt /\ Forall (fun d => 0 <= d < 4) l.

Definition chain_fdiffs_wf (chain : Z) (l : list Z) : Prop :=
  Z.of_nat (length l) = chain /\ Forall (fun d => 0 <= d < 16) l.

Definition template_wf (dt chain : Z) (t : FrameDependencyTemplate) : Prop :=
  dtis_wf dt (dtis t) /\ fdiffs_wf (fdiffs t) /\ chain_fdiffs_wf chain (chain_fdiffs t).

(** The invariant of a structure the parser returns, and the one it needs of
    the structure it is given as the prior. *)
Definition structure_wf (s : TemplateDependencyStructure) : Prop :=
  0 <= template_id_offset s < 64 /\
  template_count s = Z.of_nat (length (templates s)) /\
  (1 <= length (templates s) <= 64)%nat /\
  1 <= dt_cnt s <= 31 /\
  0 <= chain_cnt s <= dt_cnt s /\
  layers_wf (template_layer <$> templates s) /\
  max_temporal_id s = max_tid_of (template_layer <$> templates s) /\
  max_spatial_id s = max_sid_of (template_layer <$> templates s) /\
  Forall (template_wf (dt_cnt s) (chain_cnt s)) (templates s).

(** How a block loop changes a template: the layer and the other fields stay. *)
Definition after_dtis dt (a b : FrameDependencyTemplate) : Prop :=
  exists d, b = set_dtis a d /\ dtis_wf dt d.
Definition after_fdiffs (a b : FrameDependencyTemplate) : Prop :=
  exists d, b = set_fdiffs a d /\ fdiffs_wf d.
Definition after_chains chain (a b : FrameDependencyTemplate) : Prop :=
  exists d, b = set_chain_fdiffs a d /\ chain_fdiffs_wf chain d.

Lemma templates_after dt chain layers t1 t2 t3 :
  Forall2 (after_dtis dt) (map (fun '(sid, tid) => mkTemplate tid sid [] [] []) layers) t1 ->
  Forall2 after_fdiffs t1 t2 ->
  Forall2 (after_chains chain) t2 t3 ->
  (template_layer <$> t3) = layers /\ Forall (template_wf dt chain) t3.
Proof.
  intros H1. revert t2 t3.
  remember (map _ layers) as t0 eqn:E0. revert layers E0.
  induction H1 as [|a b l1 l2 (d1 & -> & Hd1) _ IH]; intros layers E0 t2 t3 H2 H3.
  { inversion H2; subst. inversion H3; subst. destruct layers; [by split | done]. }
  destruct layers as [|[s t] layers]; [done|]. simpl in E0. injection E0 as -> ->.
  inversion H2 as [|? ? ? l2' (d2 & -> & Hd2) H2' ]; subst.
  inversion H3 as [|? ? ? l3' (d3 & -> & Hd3) H3']; subst.
  destruct (IH layers eq_refl _ _ H2' H3') as [<- Hall].
  simpl. split; [done|]. constructor; [|done]. by split_and!.
Qed.

(** Without chains the templates keep their empty chain list. *)
Lemma templates_no_chains dt layers t1 t2 :
  Forall2 (after_dtis dt) (map (fun '(sid, tid) => mkTemplate tid sid [] [] []) layers) t1 ->
  Forall2 after_fdiffs t1 t2 -> Forall2 (after_chains 0) t2 t2.
Proof.
  intros H1. revert t2. remember (map _ layers) as t0 eqn:E0. revert layers E0.
  induction H1 as [|a b l1 l2 (d1 & -> & _) _ IH]; intros layers E0 t2 H2.
  { inversion H2; subst. constructor. }
  destruct layers as [|[s t] layers]; [done|]. simpl in E0. injection E0 as -> ->.
  inversion H2 as [|? ? ? l2' (d2 & -> & _) H2']; subst.
  constructor; [|by eapply IH]. exists []. by split.
Qed.

Lemma spec_parse_template_dependency_structure :
  spec parse_template_dependency_structure structure_wf.
Proof.
  unfold parse_template_dependency_structure.
  eapply spec_bind; [apply (spec_read_u8 6 (fun v => 0 <= v < 64)); [lia | auto]|].
  intros off Hoff; cbv beta in Hoff.
  eapply spec_bind; [apply (spec_read_u8 5 (fun v => 0 <= v < 32)); [lia | auto]|].
  intros dm Hdm; cbv beta in Hdm.
  eapply spec_bind; [apply spec_option, checked_add_u8_Some|]. intros dt [-> _].
  destruct (Z.leb_spec 32 (dm + 1)); [apply spec_none|].
  eapply spec_bind; [apply spec_parse_template_layers|].
  intros [[layers mt] ms] (Hlw & Hlen & -> & ->).
  rewrite wrap_u8_id by (unfold u8_max; lia).
  destruct (Z.eqb_spec (Z.of_nat (length layers)) 0); [lia|].
  eapply spec_bind.
  { apply (spec_for_each _ (after_dtis (dm + 1))). intros t.
    eapply spec_bind; [apply spec_repeat, (spec_read_u8 2 (fun d => 0 <= d < 4)); [lia | auto]|].
    intros d [Hd1 Hd2]. apply spec_ret. exists d. split; [done|]. split; [lia | done]. }
  intros t1 H1. eapply spec_bind.
  { apply (spec_for_each _ after_fdiffs). intros t.
    eapply spec_bind; [apply spec_parse_template_fdiffs|].
    intros d Hd. apply spec_ret. by exists d. }
  intros t2 H2.
  eapply (spec_bind _ _ (fun c => 0 <= c <= dm + 1)).
  { eapply spec_bind; [apply (spec_read_ns _ (fun v => 0 <= v <= dm + 1)); [lia | intros; cbv beta; lia]|].
    intros c Hc; cbv beta in Hc. apply spec_ret.
    rewrite wrap_u8_id by (unfold u8_max; lia). lia. }
  intros chain Hch; cbv beta in Hch.
  eapply (spec_bind _ _ (fun t3 => Forall2 (after_chains chain) t2 t3)).
  { destruct (Z.ltb_spec 0 chain).
    - eapply spec_bind; [apply spec_repeat, (spec_read_ns _ (fun _ => True)); [lia | done]|].
      intros _ _. apply spec_for_each. intros t.
      eapply spec_bind; [apply spec_repeat, (spec_read_u8 4 (fun d => 0 <= d < 16)); [lia | auto]|].
      intros d [Hd1 Hd2]. apply spec_ret. exists d. split; [done|]. split; [lia | done].
    - apply spec_ret. replace chain with 0 by lia. by eapply templates_no_chains. }
  intros t3 H3.
  destruct (templates_after _ _ _ _ _ _ H1 H2 H3) as [Hlay Hall].
  assert (length t3 = length layers) as Hl3 by (rewrite <- Hlay; by rewrite length_fmap).
  eapply spec_bind; [apply spec_read_bool|]. intros res _.
  eapply (spec_bind _ _ (fun _ => True)).
  { destruct res; [|by apply spec_ret].
    eapply spec_bind; [apply spec_repeat with (Q := fun _ => True)|].
    { eapply spec_bind; [by apply (spec_read_bits 16 (fun _ => True))|].
      intros _ _. by apply spec_read_bits. }
    intros _ _. by apply spec_ret. }
  intros _ _. apply spec_ret. unfold structure_wf; simpl.
  rewrite Hlay, Hl3. split_and!; try done; lia.
Qed.

(** ** Frame overrides *)

(** Every turn of the [frame_fdiffs] loop consumes bits, so the remaining bit
    count is enough fuel. *)
Lemma spec_frame_fdiffs_loop fuel : forall r,
  (remaining r < fuel)%nat ->
  match frame_fdiffs_loop fuel r with
  | PSome _ r' => advances r r'
  | PNone => True
  | PPanic | PFuel => False
  end.
Proof.
  induction fuel as [|fuel IH]; intros r Hf; [lia|].
  cbn [frame_fdiffs_loop]. unfold pbind.
  destruct (read_bits_cases 2 r) as [-> | (v & -> & Hv & Hr)]; [done|].
  destruct (Z.eqb_spec v 0); [split; simpl; [done | lia]|].
  set (r1 := mkReader (bytes r) (bit_pos r + 2)).
  destruct (read_bits_cases (Z.to_nat (4 * v)) r1) as [-> | (v' & -> & _ & Hr1)]; [done|].
  set (r2 := mkReader _ _).
  assert (remaining r2 < fuel)%nat as Hf2.
  { unfold remaining, total_bits in *. subst r1 r2. simpl in *. lia. }
  specialize (IH r2 Hf2). destruct (frame_fdiffs_loop fuel r2) as [a r3| | |]; try done.
  etrans; [|exact IH]. split; simpl; [done | lia].
Qed.

Lemma spec_frame_fdiffs : spec frame_fdiffs (fun _ => True).
Proof.
  intros r. pose proof (spec_frame_fdiffs_loop (S (remaining r)) r ltac:(lia)) as H.
  unfold frame_fdiffs. destruct (frame_fdiffs_loop (S (remaining r)) r); try done.
Qed.

Lemma spec_custom_fields s flags : spec (custom_fields s flags) (fun _ => True).
Proof.
  destruct flags as [[b1 b2] b3]. unfold custom_fields. destruct s as [s|].
  2: { destruct (b1 || b2 || b3); [apply spec_none | by apply spec_ret]. }
  assert (forall (b : bool) n m, spec (if b then repeat_p n (read_bits m) else pret [])
            (fun _ => True)) as Hrep.
  { intros b n m. destruct b; [|by apply spec_ret].
    eapply spec_weaken; [apply spec_repeat, (spec_read_bits m (fun _ => True)); done | done]. }
  eapply spec_bind; [apply Hrep|]. intros _ _.
  eapply (spec_bind _ _ (fun _ => True)).
  { destruct b2; [apply spec_frame_fdiffs | by apply spec_ret]. }
  intros _ _. eapply spec_bind; [apply Hrep|]. intros _ _. by apply spec_ret.
Qed.

(** ** The whole descriptor *)

Definition prior_wf (prior : option TemplateDependencyStructure) : Prop :=
  match prior with Some s => structure_wf s | None => True end.

Lemma spec_extended_fields prior :
  spec (extended_fields prior) (fun '(s, _) => prior_wf s).
Proof.
  unfold extended_fields.
  do 5 (eapply spec_bind; [apply spec_read_bool|]; intros ? _).
  destruct a.
  - eapply spec_bind; [apply spec_parse_template_dependency_structure|]. intros s Hs.
    assert (1 <= dt_cnt s <= 31) as Hdt by apply Hs.
    assert (0 < 2 ^ dt_cnt s <= 2 ^ 31).
    { split; [apply Z.pow_pos_nonneg; lia | apply Z.pow_le_mono_r; lia]. }
    eapply (spec_bind _ _ (fun p => p = 2 ^ dt_cnt s)).
    { apply spec_shl1_u32; [lia|]. by rewrite Z.shiftl_mul_pow2, Z.mul_1_l by lia. }
    intros p ->. eapply spec_bind; [apply spec_u32_checked with (Q := fun _ => True);
      [unfold u32_max; lia | done]|].
    intros _ _. eapply (spec_bind _ _ (fun _ => True)).
    { destruct a0; [by apply spec_read_bits | by apply spec_ret]. }
    intros _ _. by apply spec_ret.
  - destruct a0; [|by apply spec_ret].
    eapply spec_bind; [by apply spec_option with (Q := fun _ => True)|]. intros ps _.
    eapply spec_bind; [by apply spec_read_bits with (Q := fun _ => True)|]. intros _ _.
    by apply spec_ret.
Qed.

Lemma spec_resolve_template id s :
  0 <= id < 64 -> prior_wf s ->
  spec (resolve_template id s)
    (fun '(t, sid) =>
       match s with
       | None => t = None /\ sid = None
       | Some s => exists tpl, tpl ∈ templates s /\ t = Some (tpl_temporal_id tpl) /\
                               sid = Some (tpl_spatial_id tpl)
       end).
Proof.
  intros Hid Hs. unfold resolve_template. destruct s as [s|]; [|by apply spec_ret].
  destruct Hs as (Hoff & Hcnt & Hlen & _).
  eapply (spec_bind _ _ (fun d => d = id + 64 - template_id_offset s)).
  { apply spec_u32_checked; [unfold u32_max; lia | done]. }
  intros d ->. set (d := id + 64 - _).
  pose proof (Z.mod_pos_bound d 64 ltac:(lia)).
  destruct (Z.leb_spec (template_count s) (d mod 64)); [apply spec_none|].
  destruct (lookup_lt_is_Some_2 (templates s) (Z.to_nat (d mod 64))) as [tpl Htpl]; [lia|].
  rewrite Htpl. apply spec_ret. exists tpl. split; [|done].
  by eapply list_elem_of_lookup_2.
Qed.

(** What a parsed descriptor satisfies, relative to the prior it was read with. *)
Definition descriptor_wf (prior : option TemplateDependencyStructure)
    (d : DependencyDescriptor) : Prop :=
  0 <= frame_dependency_template_id d < 64 /\
  0 <= frame_number d < 65536 /\
  prior_wf (structure d) /\
  match (match structure d with Some s => Some s | None => prior end) with
  | None => temporal_id d = None /\ spatial_id d = None
  | Some s => exists tpl, tpl ∈ templates s /\
                temporal_id d = Some (tpl_temporal_id tpl) /\
                spatial_id d = Some (tpl_spatial_id tpl)
  end.

Lemma spec_parse_fields sz prior :
  prior_wf prior -> spec (parse_fields sz prior) (descriptor_wf prior).
Proof.
  intros Hprior. unfold parse_fields.
  do 2 (eapply spec_bind; [apply spec_read_bool|]; intros ? _).
  eapply spec_bind; [apply (spec_read_u8 6 (fun v => 0 <= v < 64)); [lia | auto]|].
  intros id Hid; cbv beta in Hid.
  eapply (spec_bind _ _ (fun v => 0 <= v < 65536)).
  { eapply spec_bind; [by apply (spec_read_bits 16 (fun _ => True))|]. intros v _.
    apply spec_ret. apply Z.mod_pos_bound. lia. }
  intros fnum Hfn.
  eapply (spec_bind _ _ (fun '(s, _) => prior_wf s)).
  { destruct (Nat.ltb 3 sz); [apply spec_extended_fields | by apply spec_ret]. }
  intros [att flags] Hatt.
  eapply spec_bind.
  { apply spec_resolve_template; [done|]. by destruct att. }
  intros [t sid] Hres. eapply spec_bind; [apply spec_custom_fields|]. intros _ _.
  apply spec_ret. unfold descriptor_wf; simpl. split_and!; try done; lia.
Qed.

Lemma parse_dependency_descriptor_safe_core bs prior :
  prior_wf prior ->
  parse_dependency_descriptor bs prior = PNone \/
  exists d r, parse_dependency_descriptor bs prior = PSome d r /\ descriptor_wf prior d.
Proof.
  intros Hp. unfold parse_dependency_descriptor.
  destruct (Nat.ltb (length bs) 3); [by left|].
  pose proof (spec_parse_fields (length bs) prior Hp (reader_new bs)) as H.
  destruct (parse_fields _ _ _) as [d r| | |]; [|by left|done|done].
  right. exists d, r. by destruct H.
Qed.

(** C3. The parser is total and safe on every byte string, given no prior structure
    or a well-formed one (such as it returns itself): it never indexes
    outside the slice or the template list, never overflows, its loops end
    within their fuel, and it returns either [None] or a descriptor whose
    fields are in range, whose attached structure is well formed and whose
    layers are those of a template of the structure it resolved against. *)
Theorem parse_dependency_descriptor_safe bs prior :
  prior_wf prior ->
  parse_dependency_descriptor bs prior = PNone \/
  exists d r, parse_dependency_descriptor bs prior = PSome d r /\ descriptor_wf prior d.
Proof. apply parse_dependency_descriptor_safe_core. Qed.
