(* ===== verification/DdEncode.v ===== *)
(** * Dependency Descriptor wire format and the parse/print round trip

    The bit writer of the parser's own test module, generalised to a printer
    for every well-formed descriptor (attached structure, active decode-target
    mask and the three per-frame override lists included), and the theorem
    that the parser inverts it. *)

From Stdlib Require Import ZArith Lia.
From stdpp Require Import base option numbers list.
From S2P Require Import Prelude DdParse DdParseFacts.

(** ** The bit writer *)

(** [for i in (0..n).rev() { push((value >> i) & 1 != 0) }] *)
Fixpoint push_bits (value : Z) (n : nat) : list bool :=
  match n with
  | O => []
  | S i => Z.testbit value (Z.of_nat i) :: push_bits value i
  end.

Definition push_ns (n v : Z) : list bool :=
  if n <=? 1 then []
  else
    let w := ns_w n in
    let m := Z.shiftl 1 w - n in
    if v <? m then push_bits v (Z.to_nat (w - 1))
    else push_bits (Z.shiftr (v + m) 1) (Z.to_nat (w - 1)) ++ push_bits (Z.land (v + m) 1) 1.

(** Value of an MSB-first bit list appended to [acc]. *)
Fixpoint bits_val (acc : Z) (bs : list bool) : Z :=
  match bs with
  | [] => acc
  | b :: bs' => bits_val (2 * acc + Z.b2z b) bs'
  end.

Fixpoint pack_bytes (n : nat) (bs : list bool) : list Z :=
  match n with
  | O => []
  | S n' => bits_val 0 (resize 8 false bs) :: pack_bytes n' (drop 8 bs)
  end.

(** [to_bytes]: eight bits per byte, the last byte padded with zeros. *)
Definition to_bytes (bs : list bool) : list Z :=
  pack_bytes ((length bs + 7) / 8)%nat bs.

(** ** Bits of a byte slice *)

Definition bits_of (data : list Z) : list bool := data ≫= fun b => push_bits b 8.

Lemma length_push_bits v n : length (push_bits v n) = n.
Proof. induction n; simpl; auto. Qed.

Lemma bits_of_cons b data : bits_of (b :: data) = push_bits b 8 ++ bits_of data.
Proof. done. Qed.

Lemma length_bits_of data : length (bits_of data) = (length data * 8)%nat.
Proof.
  induction data as [|b data IH]; [done|].
  rewrite bits_of_cons, length_app, length_push_bits, IH. simpl. lia.
Qed.

Lemma lookup_push_bits v n i :
  (i < n)%nat -> push_bits v n !! i = Some (Z.testbit v (Z.of_nat (n - 1 - i))).
Proof.
  revert i. induction n as [|n IH]; intros i Hi; [lia|].
  destruct i as [|i]; cbn [push_bits lookup list_lookup].
  { do 2 f_equal. lia. }
  change (push_bits v n !! i = Some (Z.testbit v (Z.of_nat (S n - 1 - S i)))).
  rewrite IH by lia. do 3 f_equal. lia.
Qed.

Lemma lookup_bits_of data pos b :
  bits_of data !! pos = Some b ->
  exists x, data !! (pos / 8)%nat = Some x /\
            b = Z.testbit x (Z.of_nat (7 - pos mod 8)).
Proof.
  revert pos. induction data as [|x data IH]; intros pos H; [done|].
  rewrite bits_of_cons in H.
  destruct (decide (pos < 8)%nat) as [Hlt|Hge].
  - rewrite lookup_app_l in H by (rewrite length_push_bits; lia).
    rewrite lookup_push_bits in H by lia. injection H as <-.
    rewrite Nat.div_small, Nat.mod_small by lia. exists x. by split.
  - rewrite lookup_app_r, length_push_bits in H by (rewrite length_push_bits; lia).
    destruct (IH _ H) as (y & Hy & ->). exists y.
    assert (pos = (pos - 8) + 1 * 8)%nat as Hpos by lia.
    assert (pos / 8 = S ((pos - 8) / 8))%nat as ->.
    { rewrite Hpos at 1. rewrite Nat.div_add by lia. lia. }
    assert (pos mod 8 = (pos - 8) mod 8)%nat as ->.
    { rewrite Hpos at 1. by rewrite Nat.Div0.mod_add. }
    by split.
Qed.

Lemma testbit_land_shiftr x i :
  0 <= i -> Z.land (Z.shiftr x i) 1 = Z.b2z (Z.testbit x i).
Proof.
  intros Hi. change 1 with (Z.ones 1). rewrite Z.land_ones by lia.
  rewrite Z.testbit_spec' by lia. by rewrite Z.shiftr_div_pow2 by lia.
Qed.

Lemma bits_val_push v n : forall acc,
  bits_val acc (push_bits v n) = acc * 2 ^ Z.of_nat n + v mod 2 ^ Z.of_nat n.
Proof.
  induction n as [|n IH]; intros acc; simpl push_bits; simpl bits_val.
  { change (2 ^ Z.of_nat 0) with 1. rewrite Z.mod_1_r. lia. }
  rewrite IH, Nat2Z.inj_succ, Z.pow_succ_r by lia.
  rewrite Z.mul_comm with (n := 2) (m := 2 ^ Z.of_nat n) at 2.
  rewrite Z.rem_mul_r by lia. rewrite Z.testbit_spec' by lia. ring.
Qed.

(** ** Reading what was written *)

(** [p] reads the bits [bs] as the value [a], whatever follows them. *)
Definition reads {A} (p : P A) (bs : list bool) (a : A) : Prop :=
  forall data pos post,
    drop pos (bits_of data) = bs ++ post ->
    p (mkReader data pos) = PSome a (mkReader data (pos + length bs)).

Lemma reads_ret {A} (a : A) : reads (pret a) [] a.
Proof. intros data pos post _. simpl. by rewrite Nat.add_0_r. Qed.

Lemma reads_bind {A B} (p : P A) (k : A -> P B) b1 b2 a c :
  reads p b1 a -> reads (k a) b2 c -> reads (pbind p k) (b1 ++ b2) c.
Proof.
  intros H1 H2 data pos post E. rewrite <- app_assoc in E.
  rewrite (pbind_PSome _ _ _ _ _ (H1 _ _ _ E)).
  rewrite (H2 data _ post).
  - rewrite length_app. do 2 f_equal. lia.
  - rewrite <- drop_drop, E. apply drop_app_length.
Qed.

(** A step that consumes nothing and returns [a]. *)
Lemma reads_bind_l {A B} (p : P A) (k : A -> P B) bs a c :
  reads p [] a -> reads (k a) bs c -> reads (pbind p k) bs c.
Proof. intros H1 H2. by apply (reads_bind p k [] bs a c). Qed.

Lemma reads_bind_ret {A B} (p : P A) (f : A -> B) bs a :
  reads p bs a -> reads (pbind p (fun x => pret (f x))) bs (f a).
Proof.
  intros H. rewrite <- (app_nil_r bs). eapply reads_bind; [done|]. apply reads_ret.
Qed.

Lemma reads_ext {A} (p q : P A) bs a :
  (forall r, p r = q r) -> reads q bs a -> reads p bs a.
Proof. intros Hpq H data pos post E. rewrite Hpq. by eapply H. Qed.

Lemma read_bits_loop_reads bs : forall data pos post acc k,
  drop pos (bits_of data) = bs ++ post ->
  (length bs + k <= 32)%nat -> 0 <= acc < 2 ^ Z.of_nat k ->
  read_bits_loop (length bs) acc (mkReader data pos) =
    PSome (bits_val acc bs) (mkReader data (pos + length bs)).
Proof.
  induction bs as [|b bs IH]; intros data pos post acc k E Hk Hacc; cbn [length read_bits_loop].
  { by rewrite Nat.add_0_r. }
  simpl in Hk. cbn [bytes bit_pos].
  assert (bits_of data !! pos = Some b) as Hb.
  { rewrite <- (Nat.add_0_r pos), <- lookup_drop, E. done. }
  destruct (lookup_bits_of _ _ _ Hb) as (x & -> & ->).
  rewrite testbit_land_shiftr by lia.
  set (bit := Z.testbit x _) in *.
  assert (0 <= Z.b2z bit <= 1) by (destruct bit; simpl; lia).
  rewrite (append_bit_range acc _ k) by lia.
  rewrite (IH data (S pos) post _ (S k)).
  - simpl. do 2 f_equal. lia.
  - rewrite <- Nat.add_1_r, <- drop_drop, E. done.
  - lia.
  - rewrite Nat2Z.inj_succ, Z.pow_succ_r by lia. lia.
Qed.

Lemma reads_bits v n :
  (n <= 32)%nat -> 0 <= v < 2 ^ Z.of_nat n -> reads (read_bits n) (push_bits v n) v.
Proof.
  intros Hn Hv data pos post E. unfold read_bits.
  destruct (Nat.eqb_spec n 0) as [->|Hn0].
  { simpl in Hv. assert (v = 0) as -> by lia. simpl. by rewrite Nat.add_0_r. }
  pose proof (f_equal length E) as El.
  rewrite length_drop, length_bits_of, length_app, length_push_bits in El.
  unfold remaining, total_bits; simpl.
  destruct (Nat.ltb_spec 32 n); [lia|]. simpl.
  destruct (Nat.ltb_spec (length data * 8 - pos) n); [lia|].
  pose proof (read_bits_loop_reads _ _ _ _ 0 0 E) as Hl.
  rewrite length_push_bits in *. rewrite Hl by (simpl; lia).
  rewrite bits_val_push, Z.mod_small by done. do 2 f_equal; lia.
Qed.

Lemma reads_bool b : reads read_bool [b] b.
Proof.
  replace b with (negb (Z.b2z b =? 0)) at 2 by (by destruct b).
  unfold read_bool. apply (reads_bind_ret (read_bits 1) (fun v => negb (v =? 0))).
  replace [b] with (push_bits (Z.b2z b) 1) by (by destruct b).
  apply reads_bits; [lia|]. destruct b; simpl; lia.
Qed.

Lemma reads_u8 v n :
  (n <= 8)%nat -> 0 <= v < 2 ^ Z.of_nat n -> reads (read_u8 n) (push_bits v n) v.
Proof.
  intros Hn Hv. assert (2 ^ Z.of_nat n <= 2 ^ 8) by (apply Z.pow_le_mono_r; lia).
  rewrite <- (wrap_u8_id v) at 2 by (unfold u8_max; lia).
  apply (reads_bind_ret (read_bits n) wrap_u8). apply reads_bits; [lia | done].
Qed.

Lemma reads_u32_checked z : 0 <= z <= u32_max -> reads (u32_checked z) [] z.
Proof.
  intros Hz data pos post _. rewrite u32_checked_ret by done. simpl. by rewrite Nat.add_0_r.
Qed.

Lemma reads_ns n v : n < 2 ^ 31 -> 0 <= v < Z.max 1 n -> reads (read_ns n) (push_ns n v) v.
Proof.
  intros Hn Hv. unfold push_ns. destruct (Z.leb_spec n 1) as [H1|H1].
  { assert (v = 0) as -> by lia. unfold read_ns.
    replace (n <=? 1) with true by lia. apply reads_ret. }
  eapply reads_ext; [intros r; apply read_ns_unfold; lia|].
  pose proof (ns_w_bounds n ltac:(lia)) as [Hb Hw].
  assert (2 ^ ns_w n = 2 * 2 ^ (ns_w n - 1)) as Hp.
  { rewrite <- Z.pow_succ_r by lia. f_equal. lia. }
  assert (ns_w n - 1 <= 30).
  { unfold ns_w. assert (Z.log2 n < 31); [apply Z.log2_lt_pow2|]; lia. }
  rewrite Z.shiftl_mul_pow2, Z.mul_1_l by lia.
  cbv zeta. set (m := 2 ^ ns_w n - n).
  destruct (Z.ltb_spec v m) as [Hlt|Hge].
  - rewrite <- (app_nil_r (push_bits _ _)). eapply reads_bind.
    + apply reads_bits; [lia|]. rewrite Z2Nat.id; lia.
    + replace (v <? m) with true by lia. apply reads_ret.
  - assert (Z.land (v + m) 1 = (v + m) mod 2) as -> by (apply (Z.land_ones (v + m) 1); lia).
    rewrite Z.shiftr_div_pow2 by lia. change (2 ^ 1) with 2.
    pose proof (Z.div_mod (v + m) 2 ltac:(lia)). pose proof (Z.mod_pos_bound (v + m) 2 ltac:(lia)).
    eapply reads_bind.
    { apply reads_bits; [lia|]. rewrite Z2Nat.id by lia. lia. }
    replace ((v + m) / 2 <? m) with false by lia.
    rewrite <- (app_nil_r (push_bits _ 1)). eapply reads_bind.
    { apply reads_bits; [lia|]. simpl. lia. }
    rewrite Z.shiftl_mul_pow2 by lia. change (2 ^ 1) with 2.
    unfold wrap_u32. rewrite Z.mod_small by lia.
    eapply reads_bind_l; [apply reads_u32_checked; unfold u32_max; lia|].
    replace v with ((v + m) / 2 * 2 - m + (v + m) mod 2) at 3 by lia.
    apply reads_u32_checked. unfold u32_max. lia.
Qed.

(** ** Loops *)

Definition enc_all {A} (enc : A -> list bool) (l : list A) : list bool := l ≫= enc.

Lemma reads_repeat {A} (p : P A) enc (l : list A) :
  Forall (fun a => reads p (enc a) a) l ->
  reads (repeat_p (length l) p) (enc_all enc l) l.
Proof.
  induction 1 as [|a l Ha _ IH]; [apply reads_ret|].
  cbn [length repeat_p]. change (enc_all enc (a :: l)) with (enc a ++ enc_all enc l).
  eapply reads_bind; [done|]. by apply (reads_bind_ret _ (cons a)).
Qed.

Lemma reads_for_each {A B} (f : A -> P B) enc xs ys :
  Forall2 (fun x y => reads (f x) (enc y) y) xs ys ->
  reads (for_each f xs) (enc_all enc ys) ys.
Proof.
  induction 1 as [|x y xs ys Hx _ IH]; [apply reads_ret|].
  cbn [for_each]. change (enc_all enc (y :: ys)) with (enc y ++ enc_all enc ys).
  eapply reads_bind; [done|]. by apply (reads_bind_ret _ (cons y)).
Qed.

#[global] Arguments push_bits : simpl never.

(** ** Printer *)

(** The [next_layer_idc] that leads from one layer to the next. *)
Definition layer_idc (a b : Z * Z) : Z :=
  if decide (b = a) then 0 else if decide (b = (a.1, a.2 + 1)) then 1 else 2.

Fixpoint enc_layers (cur : Z * Z) (rest : list (Z * Z)) : list bool :=
  match rest with
  | [] => push_bits 3 2
  | x :: rest' => push_bits (layer_idc cur x) 2 ++ enc_layers x rest'
  end.

Definition enc_fdiffs (l : list Z) : list bool :=
  enc_all (fun d => true :: push_bits (d - 1) 4) l ++ [false].

(** A structure together with the fields the parser reads and discards. *)
Record WireStructure := mkWireStructure {
  ws_structure : TemplateDependencyStructure;
  ws_protected_by : list Z;
  ws_resolutions : option (list (Z * Z));
}.

Definition enc_template_dtis (t : FrameDependencyTemplate) : list bool :=
  enc_all (fun d => push_bits d 2) (dtis t).
Definition enc_template_chains (t : FrameDependencyTemplate) : list bool :=
  enc_all (fun d => push_bits d 4) (chain_fdiffs t).

Definition enc_structure (w : WireStructure) : list bool :=
  let s := ws_structure w in
  push_bits (template_id_offset s) 6 ++
  push_bits (dt_cnt s - 1) 5 ++
  enc_layers (0, 0) (tail (template_layer <$> templates s)) ++
  enc_all enc_template_dtis (templates s) ++
  enc_all (fun t => enc_fdiffs (fdiffs t)) (templates s) ++
  push_ns (dt_cnt s + 1) (chain_cnt s) ++
  (if 0 <? chain_cnt s
   then enc_all (push_ns (chain_cnt s)) (ws_protected_by w) ++
        enc_all enc_template_chains (templates s)
   else []) ++
  match ws_resolutions w with
  | None => [false]
  | Some l => true :: enc_all (fun '(x, y) => push_bits x 16 ++ push_bits y 16) l
  end.

Definition wire_structure_wf (w : WireStructure) : Prop :=
  let s := ws_structure w in
  structure_wf s /\
  Z.of_nat (length (ws_protected_by w)) = dt_cnt s /\
  Forall (fun v => 0 <= v < Z.max 1 (chain_cnt s)) (ws_protected_by w) /\
  match ws_resolutions w with
  | None => True
  | Some l => Z.of_nat (length l) = max_spatial_id s + 1 /\
              Forall (fun '(x, y) => 0 <= x < 65536 /\ 0 <= y < 65536) l
  end.

(** The extended fields of a frame; each override list is present or absent.
    A custom frame difference is a pair of its size class (1, 2 or 3 nibbles)
    and its value. *)
Record WireExtended := mkWireExtended {
  we_structure : option WireStructure;
  we_active : option Z;
  we_dtis : option (list Z);
  we_fdiffs : option (list (Z * Z));
  we_chains : option (list Z);
}.

Record WireFrame := mkWireFrame {
  wf_start : bool;
  wf_end : bool;
  wf_template_id : Z;
  wf_frame_number : Z;
  wf_extended : option WireExtended;
}.

(** The structure a frame is resolved against. *)
Definition resolving (prior : option TemplateDependencyStructure)
    (x : option WireExtended) : option TemplateDependencyStructure :=
  match x with
  | Some e => match we_structure e with
              | Some w => Some (ws_structure w)
              | None => prior
              end
  | None => prior
  end.

Definition is_present {A} (o : option A) : bool :=
  match o with Some _ => true | None => false end.

Definition enc_extended (s : option TemplateDependencyStructure) (e : WireExtended)
    : list bool :=
  [is_present (we_structure e)] ++ [is_present (we_active e)] ++ [is_present (we_dtis e)] ++
  [is_present (we_fdiffs e)] ++ [is_present (we_chains e)] ++
  match we_structure e with Some w => enc_structure w | None => [] end ++
  match we_active e with
  | Some m => push_bits m (Z.to_nat (from_option dt_cnt 0 s))
  | None => []
  end.

Definition enc_custom (e : WireExtended) : list bool :=
  match we_dtis e with Some l => enc_all (fun d => push_bits d 2) l | None => [] end ++
  match we_fdiffs e with
  | Some l => enc_all (fun '(sz, v) => push_bits sz 2 ++ push_bits v (Z.to_nat (4 * sz))) l ++
              push_bits 0 2
  | None => []
  end ++
  match we_chains e with Some l => enc_all (fun d => push_bits d 8) l | None => [] end.

Definition enc_frame (prior : option TemplateDependencyStructure) (f : WireFrame)
    : list bool :=
  [wf_start f] ++ [wf_end f] ++ push_bits (wf_template_id f) 6 ++
  push_bits (wf_frame_number f) 16 ++
  match wf_extended f with
  | Some e => enc_extended (resolving prior (Some e)) e ++ enc_custom e
  | None => []
  end.

Definition opt_forall {A} (Q : A -> Prop) (o : option A) : Prop :=
  match o with Some a => Q a | None => True end.

Definition wire_extended_wf (s : option TemplateDependencyStructure) (e : WireExtended)
    : Prop :=
  opt_forall wire_structure_wf (we_structure e) /\
  match s with
  | Some s =>
      opt_forall (fun m => 0 <= m < 2 ^ dt_cnt s) (we_active e) /\
      opt_forall (fun l => Z.of_nat (length l) = dt_cnt s /\
                           Forall (fun d => 0 <= d < 4) l) (we_dtis e) /\
      opt_forall (Forall (fun '(sz, v) => 1 <= sz <= 3 /\ 0 <= v < 2 ^ (4 * sz))) (we_fdiffs e) /\
      opt_forall (fun l => Z.of_nat (length l) = chain_cnt s /\
                           Forall (fun d => 0 <= d < 256) l) (we_chains e)
  | None => we_active e = None /\ we_dtis e = None /\ we_fdiffs e = None /\ we_chains e = None
  end.

(** The template a frame names in the structure it is resolved against. *)
Definition template_of (s : TemplateDependencyStructure) (id : Z)
    : option FrameDependencyTemplate :=
  templates s !! Z.to_nat ((id + 64 - template_id_offset s) mod 64).

Definition wire_frame_wf (prior : option TemplateDependencyStructure) (f : WireFrame) : Prop :=
  0 <= wf_template_id f < 64 /\ 0 <= wf_frame_number f < 65536 /\
  prior_wf prior /\
  opt_forall (wire_extended_wf (resolving prior (wf_extended f))) (wf_extended f) /\
  opt_forall (fun s => is_Some (template_of s (wf_template_id f)))
    (resolving prior (wf_extended f)).

(** The descriptor a well-formed frame stands for. *)
Definition descriptor_of (prior : option TemplateDependencyStructure) (f : WireFrame)
    : DependencyDescriptor :=
  let tpl := s ← resolving prior (wf_extended f); template_of s (wf_template_id f) in
  mkDescriptor (wf_start f) (wf_end f) (wf_template_id f) (wf_frame_number f)
    (tpl_temporal_id <$> tpl) (tpl_spatial_id <$> tpl)
    (e ← wf_extended f; ws_structure <$> we_structure e).

(** ** The parser inverts the printer *)

Lemma layer_idc_range a b : 0 <= layer_idc a b < 4.
Proof. unfold layer_idc. repeat case_decide; lia. Qed.

(** The layer loop, started after [acc], reads the rest of a layer chain. *)
Lemma reads_layers rest : forall fuel tid sid mt acc,
  layer_chain (sid, tid) rest ->
  (length acc + S (length rest) <= 64)%nat -> (length rest < fuel)%nat ->
  0 <= tid <= Z.of_nat (length acc) -> 0 <= sid <= Z.of_nat (length acc) ->
  mt = max_tid_of (acc ++ [(sid, tid)]) -> sid = max_sid_of (acc ++ [(sid, tid)]) ->
  reads (template_layers_loop fuel tid sid mt acc) (enc_layers (sid, tid) rest)
    (acc ++ (sid, tid) :: rest,
     max_tid_of (acc ++ (sid, tid) :: rest), max_sid_of (acc ++ (sid, tid) :: rest)).
Proof.
  induction rest as [|[s t] rest IH];
    intros fuel tid sid mt acc Hc Hlen Hfuel Ht Hs Hmt Hms;
    (destruct fuel as [|fuel]; [simpl in Hfuel; lia|]); cbn [template_layers_loop].
  - simpl enc_layers. change [true; true] with (push_bits 3 2).
    rewrite <- (app_nil_r (push_bits 3 2)). eapply reads_bind; [apply reads_bits; simpl; lia|].
    simpl. rewrite <- Hmt, <- Hms. apply reads_ret.
  - destruct Hc as [Hn Hc]. simpl in Hlen, Hfuel. cbn [enc_layers].
    assert (length (acc ++ [(sid, tid)]) = S (length acc)) as Hl1
      by (rewrite length_app; simpl; lia).
    assert ((64 <=? length (acc ++ [(sid, tid)]))%nat = false) as Hg
      by (apply Nat.leb_gt; lia).
    replace (acc ++ (sid, tid) :: (s, t) :: rest)
      with ((acc ++ [(sid, tid)]) ++ (s, t) :: rest) by (by rewrite <- app_assoc).
    eapply reads_bind; [apply reads_bits; [lia | apply layer_idc_range]|].
    pose proof Hmt as Hmt'. pose proof Hms as Hms'.
    rewrite max_tid_of_snoc in Hmt'. rewrite max_sid_of_snoc in Hms'. simpl in Hmt', Hms'.
    unfold layer_idc. destruct (decide ((s, t) = (sid, tid))) as [[= -> ->]|Hne1].
    { cbn [Z.eqb]. rewrite Hg. apply IH; try done; try lia;
        rewrite ?max_tid_of_snoc, ?max_sid_of_snoc; simpl; lia. }
    cbn [fst snd]. destruct (decide ((s, t) = (sid, tid + 1))) as [[= -> ->]|Hne2].
    { cbn [Z.eqb Pos.eqb].
      eapply reads_bind_l; [rewrite checked_add_u8_fits by (unfold u8_max; lia); apply reads_ret|].
      rewrite Hg. apply IH; try done; try lia;
        rewrite ?max_tid_of_snoc, ?max_sid_of_snoc; simpl; [|lia].
      destruct (Z.ltb_spec mt (tid + 1)); lia. }
    destruct Hn as [Hn|[Hn|[= -> ->]]]; [done | done |].
    cbn [Z.eqb Pos.eqb].
    eapply reads_bind_l; [rewrite checked_add_u8_fits by (unfold u8_max; lia); apply reads_ret|].
    rewrite Hg. cbn [fst snd] in *. apply IH; try done; try lia;
      rewrite ?max_tid_of_snoc, ?max_sid_of_snoc; simpl; lia.
Qed.

Lemma reads_parse_layers l :
  layers_wf l -> (length l <= 64)%nat ->
  reads parse_template_layers (enc_layers (0, 0) (tail l)) (l, max_tid_of l, max_sid_of l).
Proof.
  destruct l as [|x l]; [done|]. intros [-> Hc] Hlen. simpl in Hlen.
  apply (reads_layers l 64 0 0 0 []); simpl; try done; lia.
Qed.

Lemma reads_fdiffs_loop l : forall fuel acc,
  Forall (fun d => 1 <= d <= 16) l -> (length acc + length l <= 7)%nat ->
  (length l <= fuel)%nat ->
  reads (let! follows := read_bool in template_fdiffs_loop fuel follows acc)
    (enc_fdiffs l) (acc ++ l).
Proof.
  induction l as [|d l IH]; intros fuel acc Hall Hlen Hfuel.
  - rewrite app_nil_r. change (enc_fdiffs []) with ([false] ++ []).
    eapply reads_bind; [apply reads_bool|]. destruct fuel; apply reads_ret.
  - inversion Hall as [|? ? Hd Hl]; subst. simpl in Hlen, Hfuel.
    destruct fuel as [|fuel]; [lia|].
    change (enc_fdiffs (d :: l)) with ([true] ++ push_bits (d - 1) 4 ++ enc_fdiffs l).
    eapply reads_bind; [apply reads_bool|]. cbn [template_fdiffs_loop].
    eapply reads_bind; [apply reads_bits; [lia | simpl; lia]|].
    rewrite wrap_u8_id by (unfold u8_max; lia).
    eapply reads_bind_l; [rewrite checked_add_u8_fits by (unfold u8_max; lia); apply reads_ret|].
    replace (d - 1 + 1) with d by lia.
    replace (acc ++ d :: l) with ((acc ++ [d]) ++ l) by (by rewrite <- app_assoc).
    eapply reads_ext; [|apply (IH fuel (acc ++ [d])); [done | rewrite length_app; simpl; lia | lia]].
    intros r. unfold pbind. destruct (read_bool r); try done.
    destruct (Nat.leb_spec 8 (length (acc ++ [d]))) as [H8|]; [|done].
    rewrite length_app in H8; simpl in H8. lia.
Qed.

Lemma reads_parse_fdiffs l : fdiffs_wf l -> reads parse_template_fdiffs (enc_fdiffs l) l.
Proof. intros [Hlen Hall]. apply (reads_fdiffs_loop l 8 []); simpl; [done | lia | lia]. Qed.

(** The stages a template goes through: layer only, then DTIs, then frame
    differences, then chains. *)
Definition stage0 (t : FrameDependencyTemplate) :=
  mkTemplate (tpl_temporal_id t) (tpl_spatial_id t) [] [] [].
Definition stage1 (t : FrameDependencyTemplate) := set_dtis (stage0 t) (dtis t).
Definition stage2 (t : FrameDependencyTemplate) := set_fdiffs (stage1 t) (fdiffs t).

Lemma stage0_layers ts :
  map (fun '(sid, tid) => mkTemplate tid sid [] [] []) (template_layer <$> ts) = stage0 <$> ts.
Proof. induction ts as [|t ts IH]; [done|]. cbn. by f_equal. Qed.

Lemma stage2_no_chains dt t : template_wf dt 0 t -> stage2 t = t.
Proof.
  intros (_ & _ & Hc & _). destruct t as [? ? ? ? cs]. simpl in *.
  destruct cs; [done | simpl in Hc; lia].
Qed.

Lemma reads_values (p : P Z) n enc (l : list Z) :
  n = Z.of_nat (length l) -> Forall (fun v => reads p (enc v) v) l ->
  reads (repeat_p (Z.to_nat n) p) (enc_all enc l) l.
Proof. intros -> H. rewrite Nat2Z.id. by apply reads_repeat. Qed.

(** A block loop over staged templates. *)
Lemma reads_block (f : FrameDependencyTemplate -> P FrameDependencyTemplate) enc
    (st st' : FrameDependencyTemplate -> FrameDependencyTemplate) ts :
  Forall (fun t => reads (f (st t)) (enc t) (st' t)) ts ->
  reads (for_each f (st <$> ts)) (enc_all enc ts) (st' <$> ts).
Proof.
  induction 1 as [|t ts Ht _ IH]; [apply reads_ret|].
  cbn [for_each fmap list_fmap]. change (enc_all enc (t :: ts)) with (enc t ++ enc_all enc ts).
  eapply reads_bind; [done|]. by apply (reads_bind_ret _ (cons (st' t))).
Qed.

Lemma reads_resolutions n (o : option (list (Z * Z))) :
  match o with
  | None => True
  | Some l => Z.of_nat (length l) = n /\
              Forall (fun '(x, y) => 0 <= x < 65536 /\ 0 <= y < 65536) l
  end ->
  reads (let! b := read_bool in
         if b then let! _ := repeat_p (Z.to_nat n)
                     (let! _ := read_bits 16 in read_bits 16) in pret tt
         else pret tt)
    match o with
    | None => [false]
    | Some l => true :: enc_all (fun '(x, y) => push_bits x 16 ++ push_bits y 16) l
    end tt.
Proof.
  destruct o as [l|]; intros H.
  - destruct H as [<- Hl]. rewrite Nat2Z.id.
    match goal with |- reads _ (true :: ?x) _ => change (true :: x) with ([true] ++ x) end.
    eapply reads_bind; [apply reads_bool|]. apply (reads_bind_ret _ (fun _ => tt) _ (snd <$> l)).
    induction Hl as [|[x y] l [Hx Hy] _ IH]; [apply reads_ret|].
    cbn [length repeat_p fmap list_fmap snd].
    match goal with |- context [enc_all ?e _] =>
      change (enc_all e ((x, y) :: l)) with ((push_bits x 16 ++ push_bits y 16) ++ enc_all e l) end.
    eapply reads_bind; [|by apply (reads_bind_ret _ (cons y))].
    eapply reads_bind; apply reads_bits; simpl; lia.
  - change [false] with ([false] ++ []). eapply reads_bind; [apply reads_bool|]. apply reads_ret.
Qed.

Lemma reads_assoc {A B C} (p : P A) (f : A -> P B) (k : B -> P C) bs c :
  reads (pbind (pbind p f) k) bs c -> reads (pbind p (fun x => pbind (f x) k)) bs c.
Proof.
  apply reads_ext. intros r. unfold pbind. by destruct (p r).
Qed.

Lemma reads_structure w :
  wire_structure_wf w ->
  reads parse_template_dependency_structure (enc_structure w) (ws_structure w).
Proof.
  intros (Hs & Hplen & Hprot & Hres).
  destruct w as [s prot res]; simpl in *.
  destruct Hs as (Hoff & Hcnt & Hlen & Hdt & Hch & Hlay & Hmt & Hms & Hall).
  unfold enc_structure, parse_template_dependency_structure.
  cbn [ws_structure ws_protected_by ws_resolutions].
  eapply reads_bind; [apply reads_u8; simpl; lia|].
  eapply reads_bind; [apply reads_u8; simpl; lia|].
  eapply reads_bind_l; [rewrite checked_add_u8_fits by (unfold u8_max; lia); apply reads_ret|].
  replace (dt_cnt s - 1 + 1) with (dt_cnt s) by lia.
  destruct (Z.leb_spec 32 (dt_cnt s)); [lia|].
  eapply reads_bind; [apply reads_parse_layers; [done | rewrite length_fmap; lia]|].
  cbv beta iota. rewrite <- Hmt, <- Hms, length_fmap, <- Hcnt.
  rewrite wrap_u8_id by (unfold u8_max; lia).
  destruct (Z.eqb_spec (template_count s) 0); [lia|].
  rewrite stage0_layers.
  eapply reads_bind.
  { apply (reads_block _ _ stage0 stage1). eapply Forall_impl; [exact Hall|].
    intros t ((Hd & Hdv) & _). apply (reads_bind_ret _ (set_dtis (stage0 t))).
    apply reads_values; [done|]. eapply Forall_impl; [exact Hdv|].
    intros d Hd'; cbv beta in Hd'. apply reads_u8; simpl; lia. }
  eapply reads_bind.
  { apply (reads_block _ _ stage1 stage2). eapply Forall_impl; [exact Hall|].
    intros t (_ & Hf & _). apply (reads_bind_ret _ (set_fdiffs (stage1 t))).
    by apply reads_parse_fdiffs. }
  eapply reads_bind.
  { apply (reads_bind_ret _ wrap_u8 _ (chain_cnt s)). apply reads_ns; lia. }
  rewrite !wrap_u8_id by (unfold u8_max; lia).
  eapply (reads_bind _ _ _ _ (templates s)).
  { destruct (Z.ltb_spec 0 (chain_cnt s)).
    - eapply reads_bind.
      { apply reads_values; [done|]. eapply Forall_impl; [exact Hprot|].
        intros v Hv; cbv beta in Hv. apply reads_ns; lia. }
      rewrite <- (list_fmap_id (templates s)) at 3.
      apply (reads_block _ _ stage2 id). eapply Forall_impl; [exact Hall|].
      intros t (_ & _ & Hc & Hcv).
      replace (id t) with (set_chain_fdiffs (stage2 t) (chain_fdiffs t)) by (by destruct t).
      apply (reads_bind_ret _ (set_chain_fdiffs (stage2 t))).
      apply reads_values; [done|]. eapply Forall_impl; [exact Hcv|].
      intros d Hd'; cbv beta in Hd'. apply reads_u8; simpl; lia.
    - replace (stage2 <$> templates s) with (templates s); [apply reads_ret|].
      rewrite <- (list_fmap_id (templates s)) at 1. apply list_fmap_ext.
      intros i t Ht. symmetry. apply (stage2_no_chains (dt_cnt s)).
      replace 0 with (chain_cnt s) by lia.
      rewrite Forall_lookup in Hall. by eapply Hall. }
  apply reads_assoc. match goal with |- reads _ ?bs _ => rewrite <- (app_nil_r bs) end.
  eapply reads_bind; [by apply reads_resolutions|].
  destruct s; simpl in *. apply reads_ret.
Qed.

(** ** Frames *)

Lemma reads_frame_fdiffs_loop l : forall fuel,
  Forall (fun '(sz, v) => 1 <= sz <= 3 /\ 0 <= v < 2 ^ (4 * sz)) l ->
  (length l < fuel)%nat ->
  reads (frame_fdiffs_loop fuel)
    (enc_all (fun '(sz, v) => push_bits sz 2 ++ push_bits v (Z.to_nat (4 * sz))) l ++
     push_bits 0 2) tt.
Proof.
  induction l as [|[sz v] l IH]; intros fuel Hall Hfuel;
    (destruct fuel as [|fuel]; [simpl in Hfuel; lia|]); cbn [frame_fdiffs_loop].
  - change (enc_all _ []) with (@nil bool). rewrite app_nil_l, <- (app_nil_r (push_bits 0 2)).
    eapply reads_bind; [apply reads_bits; simpl; lia|]. apply reads_ret.
  - apply Forall_cons in Hall as [[Hsz Hv] Hl]. simpl in Hfuel.
    match goal with |- context [enc_all ?e _] =>
      change (enc_all e ((sz, v) :: l))
        with ((push_bits sz 2 ++ push_bits v (Z.to_nat (4 * sz))) ++ enc_all e l) end.
    rewrite <- !app_assoc.
    eapply reads_bind; [apply reads_bits; simpl; lia|].
    destruct (Z.eqb_spec sz 0); [lia|].
    eapply reads_bind.
    { apply reads_bits; [lia|]. rewrite Z2Nat.id by lia. done. }
    apply IH; [done | lia].
Qed.

(** The bits that remain are enough fuel: every difference takes at least one. *)
Lemma reads_frame_fdiffs l :
  Forall (fun '(sz, v) => 1 <= sz <= 3 /\ 0 <= v < 2 ^ (4 * sz)) l ->
  reads frame_fdiffs
    (enc_all (fun '(sz, v) => push_bits sz 2 ++ push_bits v (Z.to_nat (4 * sz))) l ++
     push_bits 0 2) tt.
Proof.
  intros Hall data pos post E. unfold frame_fdiffs.
  eapply reads_frame_fdiffs_loop; [done | | exact E].
  pose proof (f_equal length E) as El.
  rewrite length_drop, length_bits_of, !length_app in El.
  assert (length l <= length (enc_all
    (fun '(sz, v) => push_bits sz 2 ++ push_bits v (Z.to_nat (4 * sz))) l))%nat.
  { clear. induction l as [|[sz v] l IH]; [simpl; lia|].
    match goal with |- context [enc_all ?e _] =>
      change (enc_all e ((sz, v) :: l))
        with ((push_bits sz 2 ++ push_bits v (Z.to_nat (4 * sz))) ++ enc_all e l) end.
    rewrite !length_app, !length_push_bits. simpl length at 1. lia. }
  unfold remaining, total_bits; simpl. lia.
Qed.

Lemma reads_opt_values (p : P Z) n enc (o : option (list Z)) :
  opt_forall (fun l => Z.of_nat (length l) = n /\ Forall (fun v => reads p (enc v) v) l) o ->
  exists l, reads (if is_present o then repeat_p (Z.to_nat n) p else pret [])
              match o with Some l => enc_all enc l | None => [] end l.
Proof.
  destruct o as [l|]; simpl; [intros [Hn Hl]|intros _].
  - exists l. by apply reads_values.
  - exists []. apply reads_ret.
Qed.

Lemma reads_custom s e :
  wire_extended_wf s e ->
  reads (custom_fields s (is_present (we_dtis e), is_present (we_fdiffs e),
                          is_present (we_chains e))) (enc_custom e) tt.
Proof.
  intros [_ H]. unfold custom_fields, enc_custom. destruct s as [s|].
  2: { destruct H as (_ & -> & -> & ->). apply reads_ret. }
  destruct H as (_ & Hd & Hf & Hc).
  destruct (reads_opt_values (read_bits 2) (dt_cnt s) (fun d => push_bits d 2) (we_dtis e))
    as [l1 H1].
  { destruct (we_dtis e) as [l|]; simpl in *; [|done]. destruct Hd as [? Hl]. split; [done|].
    eapply Forall_impl; [exact Hl|]. intros d Hd'; cbv beta in Hd'. apply reads_bits; simpl; lia. }
  destruct (reads_opt_values (read_bits 8) (chain_cnt s) (fun d => push_bits d 8) (we_chains e))
    as [l2 H2].
  { destruct (we_chains e) as [l|]; simpl in *; [|done]. destruct Hc as [? Hl]. split; [done|].
    eapply Forall_impl; [exact Hl|]. intros d Hd'; cbv beta in Hd'. apply reads_bits; simpl; lia. }
  eapply reads_bind; [exact H1|].
  eapply (reads_bind _ _ _ _ tt).
  { destruct (we_fdiffs e) as [l|]; simpl; [by apply reads_frame_fdiffs | apply reads_ret]. }
  by apply (reads_bind_ret _ (fun _ => tt) _ l2).
Qed.

Lemma reads_extended prior e :
  wire_extended_wf (resolving prior (Some e)) e -> prior_wf prior ->
  reads (extended_fields prior) (enc_extended (resolving prior (Some e)) e)
    (ws_structure <$> we_structure e,
     (is_present (we_dtis e), is_present (we_fdiffs e), is_present (we_chains e))).
Proof.
  intros [Hs He] Hprior. unfold extended_fields, enc_extended.
  do 5 (eapply reads_bind; [apply reads_bool|]).
  destruct e as [os oa od ofd oc].
  cbn [we_structure we_active we_dtis we_fdiffs we_chains resolving] in *.
  destruct os as [w|]; cbn [is_present from_option fmap option_fmap option_map opt_forall] in *.
  - assert (1 <= dt_cnt (ws_structure w) <= 31) as Hdt by (by destruct Hs as [(?&?&?&?&?) ?]).
    assert (0 < 2 ^ dt_cnt (ws_structure w) <= 2 ^ 31).
    { split; [apply Z.pow_pos_nonneg; lia | apply Z.pow_le_mono_r; lia]. }
    eapply reads_bind; [by apply reads_structure|].
    eapply (reads_bind_l _ _ _ (2 ^ dt_cnt (ws_structure w))).
    { intros data pos post _. unfold shl1_u32.
      replace (dt_cnt (ws_structure w) <? 32) with true by lia.
      rewrite Z.shiftl_mul_pow2, Z.mul_1_l by lia. simpl. by rewrite Nat.add_0_r. }
    eapply reads_bind_l; [apply reads_u32_checked; unfold u32_max; lia|].
    destruct oa as [m|]; cbn [is_present opt_forall] in *.
    + apply (reads_bind_ret _ (fun _ => _) _ m). apply reads_bits; [lia|].
      rewrite Z2Nat.id by lia. apply He.
    + eapply reads_bind_l; apply reads_ret.
  - rewrite app_nil_l.
    destruct oa as [m|]; cbn [is_present opt_forall] in *; [|apply reads_ret].
    destruct prior as [ps|]; cbn [from_option prior_wf] in *; [|destruct He as [? _]; done].
    assert (1 <= dt_cnt ps <= 31) as Hdt by (by destruct Hprior as (?&?&?&?&?)).
    eapply reads_bind_l; [apply reads_ret|].
    apply (reads_bind_ret _ (fun _ => _) _ m). apply reads_bits; [lia|].
    rewrite Z2Nat.id by lia. apply He.
Qed.

Lemma reads_resolve id s :
  0 <= id < 64 -> prior_wf s -> opt_forall (fun s => is_Some (template_of s id)) s ->
  reads (resolve_template id s) []
    (tpl_temporal_id <$> (s ← s; template_of s id), tpl_spatial_id <$> (s ← s; template_of s id)).
Proof.
  intros Hid Hs Ht. destruct s as [s|]; [|apply reads_ret].
  cbn [opt_forall prior_wf resolve_template mbind option_bind] in *.
  destruct Ht as [t Ht], Hs as (Hoff & Hcnt & Hlen & _). rewrite Ht.
  eapply reads_bind_l; [apply reads_u32_checked; unfold u32_max; lia|].
  unfold template_of in Ht. pose proof (lookup_lt_Some _ _ _ Ht).
  pose proof (Z.mod_pos_bound (id + 64 - template_id_offset s) 64 ltac:(lia)).
  destruct (Z.leb_spec (template_count s) ((id + 64 - template_id_offset s) mod 64)); [lia|].
  rewrite Ht. apply reads_ret.
Qed.

(** ** Bytes *)

Lemma bits_val_acc l : forall acc,
  bits_val acc l = acc * 2 ^ Z.of_nat (length l) + bits_val 0 l.
Proof.
  induction l as [|b l IH]; intros acc; cbn [length bits_val].
  { change (2 ^ Z.of_nat 0) with 1. lia. }
  rewrite IH, (IH (2 * 0 + _)), Nat2Z.inj_succ, Z.pow_succ_r by lia. ring.
Qed.

Lemma bits_val_range l : 0 <= bits_val 0 l < 2 ^ Z.of_nat (length l).
Proof.
  induction l as [|b l IH]; cbn [length bits_val]; [simpl; lia|].
  rewrite bits_val_acc, Nat2Z.inj_succ, Z.pow_succ_r by lia. destruct b; simpl Z.b2z; lia.
Qed.

Lemma push_bits_val l : forall acc, push_bits (bits_val acc l) (length l) = l.
Proof.
  induction l as [|b l IH]; intros acc; [done|]. cbn [length bits_val].
  change (push_bits ?v (S ?n)) with (Z.testbit v (Z.of_nat n) :: push_bits v n).
  rewrite IH. f_equal. apply Z.b2z_inj. rewrite Z.testbit_spec' by lia.
  rewrite bits_val_acc. pose proof (bits_val_range l).
  rewrite Z.add_comm, Z.div_add, Z.div_small, Z.add_0_l by lia.
  replace (2 * acc + Z.b2z b) with (Z.b2z b + acc * 2) by lia.
  rewrite Z.mod_add by lia. by destruct b.
Qed.

Lemma bits_of_pack n : forall bs,
  (length bs <= n * 8)%nat -> bits_of (pack_bytes n bs) = resize (n * 8) false bs.
Proof.
  induction n as [|n IH]; intros bs Hn.
  { by destruct bs; simpl in *; [|lia]. }
  cbn [pack_bytes]. rewrite bits_of_cons.
  rewrite IH by (rewrite length_drop; lia).
  pose proof (push_bits_val (resize 8 false bs) 0) as H8.
  rewrite length_resize in H8. rewrite H8.
  change (S n * 8)%nat with (8 + n * 8)%nat. by rewrite resize_add.
Qed.

Lemma length_pack_bytes n : forall bs, length (pack_bytes n bs) = n.
Proof. induction n; intros; simpl; auto. Qed.

Lemma length_to_bytes bs : length (to_bytes bs) = ((length bs + 7) / 8)%nat.
Proof. apply length_pack_bytes. Qed.

Lemma bits_of_to_bytes bs : exists pad, bits_of (to_bytes bs) = bs ++ pad.
Proof.
  pose proof (Nat.div_mod (length bs + 7) 8 ltac:(lia)).
  pose proof (Nat.mod_upper_bound (length bs + 7) 8 ltac:(lia)).
  unfold to_bytes. rewrite bits_of_pack by lia. rewrite resize_ge by lia. by eexists.
Qed.

Lemma to_bytes_are_bytes bs : Forall (fun b => 0 <= b < 256) (to_bytes bs).
Proof.
  unfold to_bytes. generalize ((length bs + 7) / 8)%nat as n. intros n. revert bs.
  induction n as [|n IH]; intros bs; constructor; [|apply IH].
  pose proof (bits_val_range (resize 8 false bs)) as H. by rewrite length_resize in H.
Qed.

Lemma length_enc_frame prior f :
  length (enc_frame prior f) =
    (24 + match wf_extended f with
          | Some e => length (enc_extended (resolving prior (Some e)) e ++ enc_custom e)
          | None => 0
          end)%nat.
Proof.
  unfold enc_frame. rewrite !length_app, !length_push_bits. simpl length at 1 2.
  destruct (wf_extended f); [rewrite length_app|]; simpl; lia.
Qed.

Lemma enc_frame_size prior f :
  Nat.ltb 3 (length (to_bytes (enc_frame prior f))) = is_present (wf_extended f) /\
  Nat.ltb (length (to_bytes (enc_frame prior f))) 3 = false.
Proof.
  rewrite length_to_bytes, length_enc_frame.
  destruct (wf_extended f) as [e|]; [|done]. cbn [is_present].
  assert (1 <= length (enc_extended (resolving prior (Some e)) e ++ enc_custom e))%nat.
  { unfold enc_extended. rewrite !length_app. simpl length at 1. lia. }
  assert (4 <= (24 + length (enc_extended (resolving prior (Some e)) e ++ enc_custom e) + 7) / 8)%nat
    by (apply Nat.div_le_lower_bound; lia).
  split; [apply Nat.ltb_lt | apply Nat.ltb_ge]; lia.
Qed.

Lemma reads_fields prior f sz :
  wire_frame_wf prior f -> Nat.ltb 3 sz = is_present (wf_extended f) ->
  reads (parse_fields sz prior) (enc_frame prior f) (descriptor_of prior f).
Proof.
  intros (Hid & Hfn & Hprior & He & Ht) Hsz. unfold parse_fields, enc_frame. rewrite Hsz.
  do 2 (eapply reads_bind; [apply reads_bool|]).
  eapply reads_bind; [apply reads_u8; simpl; lia|].
  eapply reads_bind.
  { apply (reads_bind_ret _ (fun v => v mod 65536) _ (wf_frame_number f)).
    apply reads_bits; simpl; lia. }
  rewrite Z.mod_small by lia. unfold descriptor_of.
  assert (prior_wf (resolving prior (wf_extended f))) as Hres.
  { destruct (wf_extended f) as [e|]; [|done]. simpl in *.
    destruct (we_structure e) as [w|] eqn:Ew; [|done]. destruct He as [Hw _].
    rewrite Ew in Hw. apply Hw. }
  destruct (wf_extended f) as [e|] eqn:Ef; cbn [is_present opt_forall mbind option_bind] in *.
  - eapply reads_bind; [by apply reads_extended|]. cbv beta iota.
    replace (match ws_structure <$> we_structure e with Some s => Some s | None => prior end)
      with (resolving prior (Some e)) by (simpl; by destruct (we_structure e)).
    eapply reads_bind_l; [by apply reads_resolve|]. cbv beta iota.
    apply (reads_bind_ret _ (fun _ => _) _ tt). by apply reads_custom.
  - eapply reads_bind_l; [apply reads_ret|]. cbv beta iota.
    eapply reads_bind_l; [by apply reads_resolve|]. cbv beta iota.
    apply (reads_bind_ret _ (fun _ => _) _ tt). cbn [resolving] in *.
    destruct prior; [|apply reads_ret].
    do 3 (eapply reads_bind_l; [apply reads_ret|]). apply reads_ret.
Qed.

(** C2. Round trip: every well-formed frame, printed with or without an
    attached template structure, an active decode-target mask and per-frame
    overrides, and packed into bytes, is parsed back to exactly the descriptor
    it stands for. *)
Theorem parse_dependency_descriptor_roundtrip prior f :
  wire_frame_wf prior f ->
  parsed (parse_dependency_descriptor (to_bytes (enc_frame prior f)) prior) =
    Some (descriptor_of prior f).
Proof.
  intros Hf. destruct (enc_frame_size prior f) as [Hsz Hlen].
  destruct (bits_of_to_bytes (enc_frame prior f)) as [pad Hpad].
  unfold parse_dependency_descriptor, reader_new. rewrite Hlen.
  erewrite (reads_fields prior f); [done | done | done | exact Hpad].
Qed.

(** ** A concrete stream: the L1T3 structure of the unit tests *)

Definition l1t3_structure : TemplateDependencyStructure :=
  mkStructure 0 3 3 1 2 0
    [mkTemplate 0 0 [3; 3; 3] [] [0];
     mkTemplate 1 0 [2; 1; 0] [2] [2];
     mkTemplate 2 0 [1; 0; 0] [1] [1]].

(** A keyframe that attaches the structure and overrides the template's frame
    differences. *)
Definition l1t3_keyframe (number id : Z) : WireFrame :=
  mkWireFrame true true id number
    (Some (mkWireExtended (Some (mkWireStructure l1t3_structure [0; 0; 0] (Some [(640, 360)])))
             (Some 5) None (Some [(1, 7); (3, 4000)]) (Some [9]))).

Definition l1t3_delta (number id : Z) : WireFrame := mkWireFrame true true id number None.

Lemma l1t3_structure_wf : structure_wf l1t3_structure.
Proof.
  unfold structure_wf, l1t3_structure, template_wf, dtis_wf, fdiffs_wf, chain_fdiffs_wf; simpl.
  unfold next_layer; simpl.
  split_and!; try lia; auto; repeat constructor; simpl; lia.
Qed.

Lemma parse_dependency_descriptor_roundtrip_witness :
  parsed (parse_dependency_descriptor (to_bytes (enc_frame None (l1t3_keyframe 7 1))) None) =
    Some (mkDescriptor true true 1 7 (Some 1) (Some 0) (Some l1t3_structure)) /\
  parsed (parse_dependency_descriptor
            (to_bytes (enc_frame (Some l1t3_structure) (l1t3_delta 8 2))) (Some l1t3_structure)) =
    Some (mkDescriptor true true 2 8 (Some 2) (Some 0) None).
Proof.
  split.
  - apply (parse_dependency_descriptor_roundtrip None (l1t3_keyframe 7 1)).
    unfold wire_frame_wf, wire_extended_wf, wire_structure_wf; simpl.
    split_and!; try lia; try done; try apply l1t3_structure_wf;
      try (by eexists); repeat constructor; lia.
  - apply (parse_dependency_descriptor_roundtrip (Some l1t3_structure) (l1t3_delta 8 2)).
    unfold wire_frame_wf; simpl.
    split_and!; try lia; try done; try apply l1t3_structure_wf.
Defined.

Lemma parse_dependency_descriptor_safe_witness :
  prior_wf (Some l1t3_structure) /\
  (parse_dependency_descriptor [194; 0; 8; 255] (Some l1t3_structure) = PNone \/
   exists d r, parse_dependency_descriptor [194; 0; 8; 255] (Some l1t3_structure) = PSome d r /\
               descriptor_wf (Some l1t3_structure) d).
Proof.
  split; [exact l1t3_structure_wf|].
  apply parse_dependency_descriptor_safe. exact l1t3_structure_wf.
Defined.
