(* ===== verification/DdCache.v ===== *)
(** * Per-stream template-structure cache and the extension serializer
      (crates/sfu/src/svc/dd_ext.rs)

    [DdStructureCache] keeps a hash map and a queue of its keys, oldest first,
    with at most [MAX_STREAMS] entries.  The file proves that the two stay in
    step and that the pair implements the obvious bounded first-in first-out
    association list, and states what the cache promises to the media path as
    the class [StructureStore]. *)

From Stdlib Require Import ZArith Lia.
From stdpp Require Import base option numbers gmap list.
From S2P Require Import Prelude DdParse DdParseFacts.

(** ** The header-extension seam *)

(** [DdPresent(Vec<u8>)], the marker in a packet's extension values. *)
Definition ExtValues := option (list Z).

(** [DdSerializer::write_to]: the bytes copied to the front of the buffer and
    how many were written. *)
Definition write_to (buf : list Z) (ev : ExtValues) : list Z * nat :=
  match ev with
  | None => (buf, O)
  | Some dd =>
      let n := length dd in
      if (n =? 0)%nat || (length buf <? n)%nat then (buf, O)
      else (dd ++ drop n buf, n)
  end.

(** [DdSerializer::parse_value]. *)
Definition parse_value (buf : list Z) (ev : ExtValues) : ExtValues * bool :=
  match buf with
  | [] => (ev, false)
  | _ => (Some buf, true)
  end.

(** ** The cache *)

Section Cache.
Context {K : Type} `{Countable K}.

Record DdStructureCache := mkCache {
  cmap : gmap K TemplateDependencyStructure;
  order : list K;
}.

Definition MAX_STREAMS : nat := 32.

Definition cache_new : DdStructureCache := mkCache ∅ [].

Definition cache_get (c : DdStructureCache) (k : K) : option TemplateDependencyStructure :=
  cmap c !! k.

Definition cache_insert (c : DdStructureCache) (k : K) (s : TemplateDependencyStructure)
    : DdStructureCache :=
  let c :=
    match cmap c !! k with
    | Some _ => c
    | None =>
        let c := if (MAX_STREAMS <=? length (order c))%nat
                 then match order c with
                      | evicted :: rest => mkCache (delete evicted (cmap c)) rest
                      | [] => c
                      end
                 else c in
        mkCache (cmap c) (order c ++ [k])
    end in
  mkCache (<[k := s]> (cmap c)) (order c).

Definition cache_len (c : DdStructureCache) : nat := size (cmap c).

Definition cache_clear (c : DdStructureCache) : DdStructureCache := mkCache ∅ [].

(** The queue lists each key of the map once and stays within the cap, and
    every stored structure is one the parser can produce. *)
Record cache_inv (c : DdStructureCache) : Prop := {
  ci_nodup : NoDup (order c);
  ci_keys : forall k, k ∈ order c <-> is_Some (cmap c !! k);
  ci_cap : (length (order c) <= MAX_STREAMS)%nat;
  ci_wf : map_Forall (fun _ s => structure_wf s) (cmap c);
}.

(** *** Abstract specification: a bounded FIFO association list *)

Definition fifo := list (K * TemplateDependencyStructure).

Fixpoint fifo_replace (l : fifo) (k : K) (s : TemplateDependencyStructure) : fifo :=
  match l with
  | [] => []
  | (k', s') :: l' => if decide (k' = k) then (k, s) :: l' else (k', s') :: fifo_replace l' k s
  end.

Definition fifo_insert (l : fifo) (k : K) (s : TemplateDependencyStructure) : fifo :=
  if decide (k ∈ l.*1) then fifo_replace l k s
  else (if (MAX_STREAMS <=? length l)%nat then drop 1 l else l) ++ [(k, s)].

(** The association list a cache stands for. *)
Definition abs (c : DdStructureCache) : fifo :=
  omap (fun k => s ← cmap c !! k; Some (k, s)) (order c).

Lemma cache_inv_new : cache_inv cache_new.
Proof.
  split; simpl; [constructor | | lia | apply map_Forall_empty].
  intros k. rewrite lookup_empty. split; [by intros ?%elem_of_nil | by intros [? ?]].
Qed.

Lemma cache_inv_clear c : cache_inv (cache_clear c).
Proof. apply cache_inv_new. Qed.

(** Making room keeps the invariant and leaves space for one more key. *)
Lemma cache_inv_evict c :
  cache_inv c -> (MAX_STREAMS <= length (order c))%nat ->
  exists old rest, order c = old :: rest /\ cache_inv (mkCache (delete old (cmap c)) rest) /\
                   (length rest < MAX_STREAMS)%nat.
Proof.
  intros [Hnd Hk Hcap Hwf] Hfull. destruct c as [m [|old rest]]; simpl in *;
    [unfold MAX_STREAMS in *; lia|].
  exists old, rest. apply NoDup_cons in Hnd as [Hold Hnd]. split_and!; [done | | lia].
  split; simpl; [done | | lia | by apply map_Forall_delete].
  intros k. specialize (Hk k). rewrite elem_of_cons in Hk.
  destruct (decide (k = old)) as [->|Hne].
  - rewrite lookup_delete_eq. split; [done|]. by intros [? ?].
  - rewrite lookup_delete_ne by done. rewrite <- Hk. naive_solver.
Qed.

Lemma cache_inv_push c k s :
  cache_inv c -> cmap c !! k = None -> (length (order c) < MAX_STREAMS)%nat -> structure_wf s ->
  cache_inv (mkCache (<[k := s]> (cmap c)) (order c ++ [k])).
Proof.
  intros [Hnd Hk Hcap Hwf] Hnone Hroom Hs.
  assert (k ∉ order c) as Hnin.
  { rewrite Hk, Hnone. by intros [? ?]. }
  split; simpl.
  - apply NoDup_app. split_and!; [done | | apply NoDup_singleton].
    intros x Hx ->%list_elem_of_singleton. done.
  - intros k'. rewrite elem_of_app, list_elem_of_singleton, Hk.
    destruct (decide (k' = k)) as [->|Hne].
    + rewrite lookup_insert_eq. naive_solver.
    + rewrite lookup_insert_ne by done. naive_solver.
  - rewrite length_app; simpl. lia.
  - by apply map_Forall_insert_2.
Qed.

Lemma cache_inv_replace c k s :
  cache_inv c -> is_Some (cmap c !! k) -> structure_wf s ->
  cache_inv (mkCache (<[k := s]> (cmap c)) (order c)).
Proof.
  intros [Hnd Hk Hcap Hwf] Hsome Hs. split; simpl; [done | | done | by apply map_Forall_insert_2].
  intros k'. rewrite Hk. destruct (decide (k' = k)) as [->|Hne].
  - rewrite lookup_insert_eq. naive_solver.
  - by rewrite lookup_insert_ne.
Qed.

Lemma cache_inv_insert c k s :
  cache_inv c -> structure_wf s -> cache_inv (cache_insert c k s).
Proof.
  intros Hc Hs. unfold cache_insert. destruct (cmap c !! k) as [s0|] eqn:Hk.
  - apply cache_inv_replace; [done | by eexists | done].
  - destruct (Nat.leb_spec MAX_STREAMS (length (order c))) as [Hfull|Hroom].
    + destruct (cache_inv_evict c Hc Hfull) as (old & rest & -> & Hc' & Hlen). simpl.
      apply (cache_inv_push _ k s Hc'); simpl; [|done..].
      destruct (decide (old = k)) as [->|?];
        [by rewrite lookup_delete_eq | by rewrite lookup_delete_ne].
    + by apply (cache_inv_push c).
Qed.

(** *** Lookups *)

Lemma cache_get_insert c k s : cache_get (cache_insert c k s) k = Some s.
Proof. apply lookup_insert_eq. Qed.

(** An insertion changes no other stream's structure, except that it may drop it. *)
Lemma cache_get_insert_ne c k k' s t :
  k' <> k -> cache_get (cache_insert c k s) k' = Some t -> cache_get c k' = Some t.
Proof.
  intros Hne. unfold cache_get, cache_insert.
  destruct (cmap c !! k); cbn [cmap]; rewrite lookup_insert_ne by done; [done|].
  destruct (Nat.leb _ _); [|done]. destruct (order c) as [|old rest]; [done|]. simpl.
  destruct (decide (k' = old)) as [->|?]; [by rewrite lookup_delete_eq|].
  by rewrite lookup_delete_ne.
Qed.

Lemma cache_get_clear c k : cache_get (cache_clear c) k = None.
Proof. apply lookup_empty. Qed.

(** *** Refinement of the FIFO list *)

Lemma abs_keys c : cache_inv c -> (abs c).*1 = order c.
Proof.
  intros [_ Hk _ _]. unfold abs.
  assert (Forall (fun k => is_Some (cmap c !! k)) (order c)) as Hall
    by (apply Forall_forall; intros k; apply Hk).
  clear Hk. induction Hall as [|k l [s Hs] _ IH]; [done|]. cbn. rewrite Hs. cbn. by rewrite IH.
Qed.

Lemma length_abs c : cache_inv c -> length (abs c) = length (order c).
Proof. intros Hc. by rewrite <- (abs_keys c Hc), length_fmap. Qed.

Lemma fifo_replace_omap (m : gmap K TemplateDependencyStructure) k s l :
  NoDup l -> (forall x, x ∈ l -> is_Some (m !! x)) -> k ∈ l ->
  fifo_replace (omap (fun k => s ← m !! k; Some (k, s)) l) k s =
  omap (fun k' => s ← <[k := s]> m !! k'; Some (k', s)) l.
Proof.
  induction l as [|x l IH]; intros Hnd Hall Hin; [by apply elem_of_nil in Hin|].
  apply NoDup_cons in Hnd as [Hx Hnd].
  destruct (Hall x) as [sx Hsx]; [left|]. cbn. rewrite Hsx. cbn.
  destruct (decide (x = k)) as [->|Hne].
  - rewrite lookup_insert_eq. cbn. f_equal. apply omap_ext_in. intros y Hy.
    rewrite lookup_insert_ne; [done|]. naive_solver.
  - rewrite lookup_insert_ne, Hsx by done. cbn. f_equal. apply IH; [done | |].
    + intros y Hy. apply Hall. by right.
    + apply elem_of_cons in Hin as [->|?]; [done|done].
Qed.

Lemma abs_push c k s :
  cache_inv c -> cmap c !! k = None ->
  abs (mkCache (<[k := s]> (cmap c)) (order c ++ [k])) = abs c ++ [(k, s)].
Proof.
  intros [_ Hk _ _] Hnone. unfold abs. cbn [cmap order]. rewrite omap_app. f_equal.
  - apply omap_ext_in. intros x Hx. rewrite lookup_insert_ne; [done|].
    intros <-. apply Hk in Hx. rewrite Hnone in Hx. by destruct Hx.
  - cbn. by rewrite lookup_insert_eq.
Qed.

Lemma abs_evict m old rest :
  cache_inv (mkCache m (old :: rest)) ->
  abs (mkCache (delete old m) rest) = drop 1 (abs (mkCache m (old :: rest))).
Proof.
  intros [Hnd Hk _ _]. unfold abs. cbn [cmap order] in *.
  destruct (proj1 (Hk old)) as [s Hs]; [left|]. cbn. rewrite Hs. cbn. rewrite drop_0.
  apply NoDup_cons in Hnd as [Hold _]. apply omap_ext_in. intros x Hx.
  rewrite lookup_delete_ne; [done|]. naive_solver.
Qed.

(** The cache implements the bounded FIFO association list: under the
    invariant (queue and map in step, at most 32 entries, stored structures
    well formed), which inserting preserves, an insertion replaces the stream's
    structure in place, or appends it after dropping the oldest stream when 32
    are stored. *)
Theorem cache_insert_refines c k s :
  cache_inv c -> structure_wf s ->
  cache_inv (cache_insert c k s) /\ abs (cache_insert c k s) = fifo_insert (abs c) k s.
Proof.
  intros Hc Hs. split; [by apply cache_inv_insert|].
  unfold fifo_insert. rewrite (abs_keys c Hc), (length_abs c Hc).
  destruct (decide (k ∈ order c)) as [Hin|Hnin].
  - apply (ci_keys c Hc) in Hin as Hsome. destruct Hsome as [s0 Hs0].
    unfold cache_insert. rewrite Hs0. symmetry. apply fifo_replace_omap; [apply Hc | | done].
    intros x. apply Hc.
  - assert (cmap c !! k = None) as Hnone.
    { apply eq_None_not_Some. by rewrite <- (ci_keys c Hc). }
    unfold cache_insert. rewrite Hnone.
    destruct (Nat.leb_spec MAX_STREAMS (length (order c))) as [Hfull|Hroom]; cbn [cmap order];
      [|by apply abs_push].
    destruct (cache_inv_evict c Hc Hfull) as (old & rest & Ho & Hc' & _).
    destruct c as [m l]; cbn [cmap order] in *. subst l. cbn [cmap order].
    rewrite <- abs_evict by done.
    assert (delete old m !! k = None) as Hd; [|exact (abs_push _ k s Hc' Hd)].
    destruct (decide (old = k)) as [->|?];
      [by rewrite lookup_delete_eq | by rewrite lookup_delete_ne].
Qed.

(** ** What the cache promises to the media path *)

(** A store of structures by stream: what was last put in for a stream is
    found or forgotten, never replaced by something else, and only well-formed
    structures come out. *)
Class StructureStore (C : Type) := {
  store_get : C -> K -> option TemplateDependencyStructure;
  store_insert : C -> K -> TemplateDependencyStructure -> C;
  store_clear : C -> C;
  store_inv : C -> Prop;
  store_get_insert c k s : store_get (store_insert c k s) k = Some s;
  store_get_insert_ne c k k' s t :
    k' <> k -> store_get (store_insert c k s) k' = Some t -> store_get c k' = Some t;
  store_get_clear c k : store_get (store_clear c) k = None;
  store_inv_insert c k s : store_inv c -> structure_wf s -> store_inv (store_insert c k s);
  store_inv_clear c : store_inv c -> store_inv (store_clear c);
  store_get_wf c k s : store_inv c -> store_get c k = Some s -> structure_wf s;
}.

Lemma cache_get_wf c k s : cache_inv c -> cache_get c k = Some s -> structure_wf s.
Proof. intros [_ _ _ Hwf] Hk. by apply (Hwf k). Qed.

#[export] Instance cache_store : StructureStore DdStructureCache := {
  store_get := cache_get;
  store_insert := cache_insert;
  store_clear := cache_clear;
  store_inv := cache_inv;
  store_get_insert := cache_get_insert;
  store_get_insert_ne := cache_get_insert_ne;
  store_get_clear := cache_get_clear;
  store_inv_insert := cache_inv_insert;
  store_inv_clear c _ := cache_inv_clear c;
  store_get_wf := cache_get_wf;
}.

End Cache.
Arguments DdStructureCache K {_ _}.
Arguments StructureStore K C : clear implicits.

#[export] Hint Resolve cache_inv_new cache_inv_clear cache_inv_insert : rust.

(** A descriptor survives the extension seam: bytes the serializer accepts
    on ingress are written back verbatim by the egress serializer into any
    buffer that is large enough, and a buffer that is too small is left alone. *)
Theorem serializer_roundtrip buf bytes ev ev' :
  parse_value bytes ev = (ev', true) ->
  bytes <> [] /\
  ((length bytes <= length buf)%nat ->
     write_to buf ev' = (bytes ++ drop (length bytes) buf, length bytes)) /\
  ((length buf < length bytes)%nat -> write_to buf ev' = (buf, O)).
Proof.
  destruct bytes as [|b bytes]; intros Hp; inversion Hp; subst. split; [done|].
  unfold write_to. split; intros Hlen.
  - destruct (Nat.ltb_spec (length buf) (length (b :: bytes))); [lia|]. done.
  - destruct (Nat.ltb_spec (length buf) (length (b :: bytes))); [|lia]. by rewrite orb_true_r.
Qed.

Lemma serializer_roundtrip_witness :
  write_to [0; 0; 0; 0] (Some [7; 8]) = ([7; 8; 0; 0], 2%nat).
Proof.
  apply (serializer_roundtrip [0; 0; 0; 0] [7; 8] None (Some [7; 8]) eq_refl). simpl. lia.
Defined.

Lemma cache_insert_refines_witness :
  let s := mkStructure 0 1 1 0 0 0 [mkTemplate 0 0 [3] [] []] in
  let c := Nat.iter 32 (fun c => cache_insert c (Z.of_nat (length (order c))) s) cache_new in
  map fst (abs (cache_insert c 32 s)) = seqZ 1 32.
Proof.
  intros s c.
  assert (structure_wf s) as Hs.
  { unfold structure_wf, s; simpl. split_and!; try lia; try done.
    repeat constructor; simpl; lia. }
  assert (cache_inv c) as Hc.
  { apply Nat.iter_invariant; [intros; by apply cache_inv_insert | apply cache_inv_new]. }
  rewrite (proj2 (cache_insert_refines c 32 s Hc Hs)). vm_compute. reflexivity.
Defined.
