(* ===== verification/RustStr.v ===== *)
(** * Strings of the Rust standard library

    A [str] is the list of its Unicode scalar values.  The file defines the
    operations the configuration merge uses ([split_once], [trim],
    [strip_prefix], [parse::<u64>], [parse::<i64>], decimal formatting, lines)
    and proves the facts that tie printing to parsing. *)

From Stdlib Require Import ZArith Lia.
From stdpp Require Import base option numbers strings pretty list.
From S2P Require Import Prelude.

Definition str := list Z.

(** An ASCII literal. *)
Definition lit (s : string) : str :=
  (fun c => Z.of_N (Ascii.N_of_ascii c)) <$> String.list_ascii_of_string s.

(** ** Characters *)

Definition NL : Z := 10.
Definition CR : Z := 13.
Definition TAB : Z := 9.
Definition SPACE : Z := 32.
Definition PLUS : Z := 43.
Definition MINUS : Z := 45.
Definition EQUALS : Z := 61.
Definition LT : Z := 60.
Definition GT : Z := 62.
Definition LBRACKET : Z := 91.
Definition RBRACKET : Z := 93.

Definition is_ascii_digit (c : Z) : bool := (48 <=? c) && (c <=? 57).

Definition is_ascii_hexdigit (c : Z) : bool :=
  is_ascii_digit c || ((65 <=? c) && (c <=? 70)) || ((97 <=? c) && (c <=? 102)).

(** [char::is_whitespace]: the Unicode property White_Space. *)
Definition is_whitespace (c : Z) : bool :=
  ((9 <=? c) && (c <=? 13)) || ((8192 <=? c) && (c <=? 8202)) ||
  existsb (Z.eqb c) [32; 133; 160; 5760; 8232; 8233; 8239; 8287; 12288].

(** ** Searching and splitting *)

Fixpoint split_once (c : Z) (s : str) : option (str * str) :=
  match s with
  | [] => None
  | x :: t =>
      if x =? c then Some ([], t)
      else match split_once c t with
           | Some (a, b) => Some (x :: a, b)
           | None => None
           end
  end.

Fixpoint drop_while (p : Z -> bool) (s : str) : str :=
  match s with
  | [] => []
  | x :: t => if p x then drop_while p t else s
  end.

Definition trim (s : str) : str :=
  rev (drop_while is_whitespace (rev (drop_while is_whitespace s))).

Fixpoint strip_prefix (p s : str) : option str :=
  match p, s with
  | [], _ => Some s
  | _, [] => None
  | x :: p', y :: s' => if x =? y then strip_prefix p' s' else None
  end.

(** [str::split] at a character. *)
Fixpoint split_on (c : Z) (s : str) : list str :=
  match s with
  | [] => [[]]
  | x :: t =>
      if x =? c then [] :: split_on c t
      else match split_on c t with
           | piece :: rest => (x :: piece) :: rest
           | [] => [[x]]
           end
  end.

Definition ascii_lower (c : Z) : Z := if (65 <=? c) && (c <=? 90) then c + 32 else c.
Definition to_ascii_lowercase (s : str) : str := ascii_lower <$> s.

Definition is_empty (s : str) : bool := match s with [] => true | _ => false end.

(** ** Bytes *)

Definition len (payload : list Z) : Z := Z.of_nat (length payload).

Definition utf8_char (c : Z) : list Z :=
  if c <? 128 then [c]
  else if c <? 2048 then [192 + c / 64; 128 + c mod 64]
  else if c <? 65536 then [224 + c / 4096; 128 + c / 64 mod 64; 128 + c mod 64]
  else [240 + c / 262144; 128 + c / 4096 mod 64; 128 + c / 64 mod 64; 128 + c mod 64].

(** [str::as_bytes] *)
Definition as_bytes (s : str) : list Z := concat (utf8_char <$> s).

(** ** Numbers *)

Definition digits (s : str) : bool := negb (is_empty s) && forallb is_ascii_digit s.

Definition dec_value (s : str) : Z := fold_left (fun acc c => 10 * acc + (c - 48)) s 0.

(** The digits of an unsigned literal, within [max]. *)
Definition parse_dec (max : Z) (s : str) : option Z :=
  if digits s && (dec_value s <=? max) then Some (dec_value s) else None.

Definition parse_u64 (s : str) : option Z :=
  match s with
  | c :: t => if c =? PLUS then parse_dec u64_max t else parse_dec u64_max s
  | [] => None
  end.

Definition parse_i64 (s : str) : option Z :=
  match s with
  | c :: t =>
      if c =? MINUS then Z.opp <$> parse_dec (- i64_min) t
      else if c =? PLUS then parse_dec i64_max t
      else parse_dec i64_max s
  | [] => None
  end.

Definition to_string (z : Z) : str := lit (pretty z).

(** ** Lines *)

Fixpoint lines (s : str) : list str :=
  match s with
  | [] => [[]]
  | c :: t =>
      if c =? NL then [] :: lines t
      else match lines t with
           | l :: ls => (c :: l) :: ls
           | [] => [[c]]
           end
  end.

Fixpoint unlines (ls : list str) : str :=
  match ls with
  | [] => []
  | [l] => l
  | l :: ls' => l ++ NL :: unlines ls'
  end.

(** ** Facts *)

Lemma as_bytes_app a b : as_bytes (a ++ b) = as_bytes a ++ as_bytes b.
Proof. unfold as_bytes. by rewrite fmap_app, concat_app. Qed.

Lemma split_on_nonempty c s : split_on c s <> [].
Proof. destruct s as [|x s]; cbn; [done|]. destruct (x =? c); [done|]. by destruct (split_on c s). Qed.

Lemma split_on_join c a b : split_on c (a ++ c :: b) = split_on c a ++ split_on c b.
Proof.
  induction a as [|x a IH]; cbn; [by rewrite Z.eqb_refl|].
  destruct (x =? c); [by rewrite IH|]. rewrite IH. pose proof (split_on_nonempty c a). by destruct (split_on c a).
Qed.

Lemma split_on_clean c s : c ∉ s -> split_on c s = [s].
Proof.
  induction s as [|x s IH]; [done|]. intros [Hx Hs]%not_elem_of_cons. cbn.
  destruct (Z.eqb_spec x c); [congruence|]. by rewrite IH.
Qed.

Lemma split_once_Some c s a b : split_once c s = Some (a, b) <-> s = a ++ c :: b /\ c ∉ a.
Proof.
  revert a b. induction s as [|x s IH]; intros a b; cbn [split_once].
  { split; [done|]. intros [H _]. by destruct a. }
  destruct (Z.eqb_spec x c) as [->|Hne].
  - split; [intros [= <- <-]; split; [done | apply not_elem_of_nil]|].
    intros [H Hn]. destruct a as [|y a]; [by injection H as ->|].
    injection H as -> _. by apply not_elem_of_cons in Hn as [? _].
  - destruct (split_once c s) as [[a' b']|].
    + destruct (proj1 (IH a' b') eq_refl) as [-> Hn]. split.
      * intros [= <- <-]. split; [done|]. by apply not_elem_of_cons.
      * intros [H Hn']. destruct a as [|y a]; [by injection H as ->|].
        injection H as -> H. apply not_elem_of_cons in Hn' as [_ Hn'].
        specialize (proj2 (IH a b) (conj H Hn')). by intros [= -> ->].
    + split; [done|]. intros [H Hn]. destruct a as [|y a]; [by injection H as ->|].
      injection H as -> H. apply not_elem_of_cons in Hn as [_ Hn].
      by specialize (proj2 (IH a b) (conj H Hn)).
Qed.

Lemma split_once_None c s : split_once c s = None <-> c ∉ s.
Proof.
  induction s as [|x s IH]; cbn [split_once]; [split; [intros _; apply not_elem_of_nil | done]|].
  rewrite not_elem_of_cons. destruct (Z.eqb_spec x c) as [->|Hne]; [split; [done | tauto]|].
  destruct (split_once c s) as [[a b]|]; [|rewrite <- IH; naive_solver].
  split; [done|]. intros [_ H]. by apply IH in H.
Qed.

Lemma unlines_cons l ls : ls <> [] -> unlines (l :: ls) = l ++ NL :: unlines ls.
Proof. by destruct ls. Qed.

Lemma lines_nonempty s : lines s <> [].
Proof. destruct s as [|c s]; [done|]. cbn [lines]. destruct (c =? NL); [done|]. by destruct (lines s). Qed.

Lemma unlines_lines s : unlines (lines s) = s.
Proof.
  induction s as [|c s IH]; [done|]. cbn [lines]. pose proof (lines_nonempty s) as Hne.
  destruct (Z.eqb_spec c NL) as [->|_]; [by rewrite unlines_cons, IH|].
  destruct (lines s) as [|l [|l' ls]]; [done | cbn in *; by rewrite IH |].
  rewrite unlines_cons in IH |- * by done. cbn [app]. by rewrite IH.
Qed.

Lemma lines_app_nl a s : NL ∉ a -> lines (a ++ NL :: s) = a :: lines s.
Proof.
  induction a as [|c a IH]; intros Hn; [done|]. apply not_elem_of_cons in Hn as [Hc Hn].
  cbn [app lines]. rewrite IH by done. by destruct (Z.eqb_spec c NL); [congruence|].
Qed.

Lemma lines_single a : NL ∉ a -> lines a = [a].
Proof.
  induction a as [|c a IH]; intros Hn; [done|]. apply not_elem_of_cons in Hn as [Hc Hn].
  cbn [lines]. rewrite IH by done. by destruct (Z.eqb_spec c NL); [congruence|].
Qed.

Lemma lines_unlines ls : ls <> [] -> Forall (fun l => NL ∉ l) ls -> lines (unlines ls) = ls.
Proof.
  intros Hne H. induction H as [|l ls Hl H IH]; [done|]. destruct ls as [|l' ls].
  - by apply lines_single.
  - rewrite unlines_cons, lines_app_nl by done. by rewrite IH.
Qed.

Lemma lines_no_nl s : Forall (fun l => NL ∉ l) (lines s).
Proof.
  induction s as [|c s IH]; [repeat constructor; apply not_elem_of_nil|]. cbn [lines].
  destruct (Z.eqb_spec c NL) as [->|Hc]; [constructor; [apply not_elem_of_nil | done]|].
  destruct (lines s) as [|l ls]; [repeat constructor; apply not_elem_of_cons; split; [congruence | apply not_elem_of_nil]|].
  inversion_clear IH. constructor; [|done]. by apply not_elem_of_cons.
Qed.

(** ** Printing and parsing numbers *)

Lemma dec_value_app a b :
  dec_value (a ++ b) = fold_left (fun acc c => 10 * acc + (c - 48)) b (dec_value a).
Proof. unfold dec_value. by rewrite fold_left_app. Qed.

Lemma pretty_digit (n : N) : (n < 10)%N ->
  Z.of_N (Ascii.N_of_ascii (pretty_N_char n)) = 48 + Z.of_N n.
Proof.
  intros H. assert (forallb (fun k => Z.of_N (Ascii.N_of_ascii (pretty_N_char (N.of_nat k))) =?
    48 + Z.of_nat k) (seq 0 10) = true) as Hall by reflexivity.
  rewrite forallb_forall in Hall. specialize (Hall (N.to_nat n)). rewrite in_seq, N2Nat.id in Hall.
  specialize (Hall ltac:(lia)). apply Z.eqb_eq in Hall. lia.
Qed.

Lemma pretty_N_go_digits x s : exists ds,
  lit (pretty_N_go x s) = ds ++ lit s /\ forallb is_ascii_digit ds = true /\
  dec_value ds = Z.of_N x /\ ((0 < x)%N -> ds <> []).
Proof.
  revert s. induction (N.lt_wf_0 x) as [x _ IH]. intros s.
  destruct (decide (x = 0%N)) as [->|Hx].
  { exists []. rewrite pretty_N_go_0. split_and!; [done | done | done | lia]. }
  rewrite pretty_N_go_step by lia.
  destruct (IH (x / 10)%N ltac:(apply N.div_lt; lia) (String (pretty_N_char (x mod 10)) s))
    as (ds & Hl & Hd & Hv & _).
  pose proof (N.mod_lt x 10 ltac:(done)) as Hm.
  exists (ds ++ [48 + Z.of_N (x mod 10)]). split_and!.
  - rewrite Hl, <- app_assoc. cbn. f_equal. unfold lit. cbn. f_equal. by apply pretty_digit.
  - rewrite forallb_app, Hd. cbn [forallb andb]. unfold is_ascii_digit. rewrite andb_true_r.
    set (m := (x mod 10)%N) in *. clearbody m. apply andb_true_iff. split; apply Z.leb_le; lia.
  - rewrite dec_value_app, Hv. cbn [fold_left]. pose proof (N.div_mod x 10 ltac:(done)). lia.
  - intros _ H. by apply app_eq_nil in H as [_ ?].
Qed.

Lemma pretty_N_digits (n : N) :
  digits (lit (pretty n)) = true /\ dec_value (lit (pretty n)) = Z.of_N n.
Proof.
  unfold pretty, pretty_N. case_decide as Hn; [by subst|].
  destruct (pretty_N_go_digits n "") as (ds & Hl & Hd & Hv & Hne).
  rewrite app_nil_r in Hl. rewrite Hl. split; [|done]. unfold digits. rewrite Hd.
  specialize (Hne ltac:(lia)). by destruct ds.
Qed.

Lemma digits_head s c t : digits s = true -> s = c :: t -> 48 <= c <= 57.
Proof.
  intros Hd ->. unfold digits in Hd. cbn in Hd. unfold is_ascii_digit in Hd. bool_props. lia.
Qed.

Lemma to_string_nonneg z : 0 <= z -> digits (to_string z) = true /\ dec_value (to_string z) = z.
Proof.
  intros Hz. assert (to_string z = lit (pretty (Z.to_N z))) as ->.
  { unfold to_string. by destruct z as [|p|p]; [| |lia]. }
  destruct (pretty_N_digits (Z.to_N z)) as [? ->]. split; [done | lia].
Qed.

Lemma parse_dec_to_string max z : 0 <= z <= max -> parse_dec max (to_string z) = Some z.
Proof.
  intros Hz. destruct (to_string_nonneg z ltac:(lia)) as [Hd Hv]. unfold parse_dec.
  rewrite Hd, Hv. cbn. destruct (Z.leb_spec z max); [done | lia].
Qed.

(** A number below zero or above is printed and parsed back to itself. *)
Lemma parse_i64_to_string z : i64_min <= z <= i64_max -> parse_i64 (to_string z) = Some z.
Proof.
  intros Hz. destruct (Z_lt_le_dec z 0) as [Hneg|Hpos].
  - assert (to_string z = MINUS :: to_string (- z)) as ->.
    { unfold to_string. by destruct z as [|p|p]; [lia | lia |]. }
    unfold parse_i64. rewrite Z.eqb_refl, parse_dec_to_string by lia. cbn. f_equal. lia.
  - destruct (to_string_nonneg z Hpos) as [Hd _].
    pose proof (parse_dec_to_string i64_max z ltac:(lia)) as Hp.
    destruct (to_string z) as [|c t] eqn:E; [done|]. pose proof (digits_head _ c t Hd eq_refl).
    unfold parse_i64, MINUS, PLUS.
    destruct (Z.eqb_spec c 45); [lia|]. destruct (Z.eqb_spec c 43); [lia | done].
Qed.

Lemma digits_spec s : digits s = true <-> s <> [] /\ Forall (fun c => 48 <= c <= 57) s.
Proof.
  unfold digits. rewrite andb_true_iff. split.
  - intros [Hne Hd]. split; [by destruct s|]. apply Forall_forall. intros c Hc.
    rewrite forallb_forall in Hd. specialize (Hd c ltac:(by apply list_elem_of_In)).
    unfold is_ascii_digit in Hd. bool_props. lia.
  - intros [Hne Hf]. split; [by destruct s|]. apply forallb_forall. intros c Hc.
    rewrite Forall_forall in Hf. specialize (Hf c ltac:(by apply list_elem_of_In)).
    unfold is_ascii_digit. apply andb_true_iff. split; apply Z.leb_le; lia.
Qed.

(** ** Trimming *)

Lemma drop_while_none (p : Z -> bool) s :
  match s with c :: _ => p c = false | [] => True end -> drop_while p s = s.
Proof. destruct s as [|c s]; [done|]. cbn. by intros ->. Qed.

Lemma trim_clean s : Forall (fun c => is_whitespace c = false) s -> trim s = s.
Proof.
  intros H. unfold trim. rewrite (drop_while_none _ s) by (by destruct H).
  rewrite drop_while_none; [apply rev_involutive|].
  apply Forall_rev in H. by destruct H.
Qed.

Lemma drop_while_idem (p : Z -> bool) s : drop_while p (drop_while p s) = drop_while p s.
Proof. induction s as [|c s IH]; [done|]. cbn. destruct (p c) eqn:E; [done|]. cbn. by rewrite E. Qed.

Lemma drop_while_app (p : Z -> bool) s t :
  drop_while p (s ++ t) = match drop_while p s with [] => drop_while p t | u => u ++ t end.
Proof. induction s as [|c s IH]; [done|]. cbn. destruct (p c); [done|]. done. Qed.

Lemma drop_while_suffix (p : Z -> bool) s : exists u, s = u ++ drop_while p s.
Proof.
  induction s as [|c s [u IH]]; [by exists []|]. cbn. destruct (p c).
  - exists (c :: u). cbn. by f_equal.
  - by exists [].
Qed.

Lemma trim_space_end s c : is_whitespace c = true -> trim (s ++ [c]) = trim s.
Proof.
  intros Hc. unfold trim. rewrite drop_while_app.
  destruct (drop_while is_whitespace s) as [|d u]; cbn; [by rewrite Hc|].
  rewrite rev_app_distr. cbn. by rewrite Hc.
Qed.

Lemma trim_idem s : trim (trim s) = trim s.
Proof.
  unfold trim at 1. enough (drop_while is_whitespace (trim s) = trim s) as ->.
  { unfold trim. by rewrite rev_involutive, drop_while_idem. }
  unfold trim. set (t := drop_while is_whitespace s).
  destruct (drop_while_suffix is_whitespace (rev t)) as [u Hu].
  assert (t = rev (drop_while is_whitespace (rev t)) ++ rev u) as Ht.
  { by rewrite <- rev_app_distr, <- Hu, rev_involutive. }
  apply drop_while_none. destruct (rev (drop_while is_whitespace (rev t))) as [|d w]; [done|].
  pose proof (drop_while_idem is_whitespace s) as Hi. fold t in Hi. rewrite Ht in Hi. cbn in Hi.
  destruct (is_whitespace d); [|done].
  destruct (drop_while_suffix is_whitespace (w ++ rev u)) as [x Hx].
  apply (f_equal length) in Hi, Hx. rewrite (length_app x) in Hx. cbn in Hi. lia.
Qed.

Lemma digit_not_space c : 48 <= c <= 57 -> is_whitespace c = false.
Proof.
  intros Hc. unfold is_whitespace. apply orb_false_iff. split; [lia|].
  apply not_true_is_false. intros (x & Hx & ->%Z.eqb_eq)%existsb_exists.
  cbn in Hx. lia.
Qed.

(** ** Literals and prefixes *)

Lemma strip_prefix_Some p s t : strip_prefix p s = Some t <-> s = p ++ t.
Proof.
  revert s. induction p as [|x p IH]; intros s; [cbn; naive_solver|].
  destruct s as [|y s]; cbn [strip_prefix app]; [naive_solver|].
  destruct (Z.eqb_spec x y) as [->|Hne]; [rewrite IH; naive_solver | naive_solver].
Qed.

Lemma strip_prefix_app p s : strip_prefix p (p ++ s) = Some s.
Proof. induction p as [|x p IH]; simpl; [done|]. by rewrite Z.eqb_refl. Qed.

Lemma lit_inj a b : lit a = lit b -> a = b.
Proof.
  intros Hl. rewrite <- (String.string_of_list_ascii_of_string a),
    <- (String.string_of_list_ascii_of_string b). f_equal.
  revert Hl. apply list_fmap_eq_inj. intros x y Hxy.
  apply (inj Z.of_N) in Hxy. rewrite <- (Ascii.ascii_N_embedding x), Hxy.
  apply Ascii.ascii_N_embedding.
Qed.
