(* ===== verification/NetAddr.v ===== *)
(** * Internet addresses
      (core::net; crates/sfu/src/udp_loop.rs, crates/sfu/src/config.rs)

    Addresses, the tests of the standard library the SFU uses, its text parser
    for addresses, the filter of destinations that are never sent to
    ([is_bogon]) and the test of private relay targets
    ([is_private_relay_target]).  The filter is characterised by the table of
    address blocks it names. *)

From Stdlib Require Import ZArith Lia.
From stdpp Require Import base option numbers gmap strings list.
From S2P Require Import Prelude RustStr.

(** [segments] are the eight 16-bit groups. *)
Inductive IpAddr :=
| V4 (a b c d : Z)
| V6 (segments : list Z).
#[export] Instance IpAddr_eq_dec : EqDecision IpAddr.
Proof. solve_decision. Defined.

(** The flow label and scope of an IPv6 socket address are left out. *)
Record SocketAddr := mkAddr { addr_ip : IpAddr; addr_port : Z }.
#[export] Instance SocketAddr_eq_dec : EqDecision SocketAddr.
Proof. solve_decision. Defined.

#[export] Instance IpAddr_countable : Countable IpAddr.
Proof.
  refine (inj_countable'
    (fun ip => match ip with V4 a b c d => inl (a, b, c, d) | V6 s => inr s end)
    (fun x => match x with inl (a, b, c, d) => V4 a b c d | inr s => V6 s end) _).
  by intros [].
Defined.
#[export] Instance SocketAddr_countable : Countable SocketAddr.
Proof.
  refine (inj_countable' (fun x => (addr_ip x, addr_port x)) (fun x => mkAddr (x.1) (x.2)) _).
  by intros [].
Defined.

Definition octet_ok (x : Z) : Prop := 0 <= x < 256.
Definition segment_ok (x : Z) : Prop := 0 <= x < 65536.

Definition ip_ok (ip : IpAddr) : Prop :=
  match ip with
  | V4 a b c d => octet_ok a /\ octet_ok b /\ octet_ok c /\ octet_ok d
  | V6 segs => length segs = 8%nat /\ Forall segment_ok segs
  end.

(** ** The predicates of [core::net] *)

Definition v4_is_loopback (a b c d : Z) : bool := a =? 127.
Definition v4_is_link_local (a b c d : Z) : bool := (a =? 169) && (b =? 254).
Definition v4_is_multicast (a b c d : Z) : bool := (224 <=? a) && (a <=? 239).
Definition v4_is_private (a b c d : Z) : bool :=
  (a =? 10) || ((a =? 172) && (16 <=? b) && (b <=? 31)) || ((a =? 192) && (b =? 168)).
Definition v4_is_unspecified (a b c d : Z) : bool := (a =? 0) && (b =? 0) && (c =? 0) && (d =? 0).
Definition v4_is_broadcast (a b c d : Z) : bool :=
  (a =? 255) && (b =? 255) && (c =? 255) && (d =? 255).

Definition V6_LOCALHOST : list Z := [0; 0; 0; 0; 0; 0; 0; 1].
Definition V6_UNSPECIFIED : list Z := [0; 0; 0; 0; 0; 0; 0; 0].
(** [segments()[0]]; there are always eight of them. *)
Definition seg0 (segs : list Z) : Z := nth 0 segs 0.

(** ** The destination filter (udp_loop.rs) *)

Definition is_bogon (addr : SocketAddr) : option string :=
  match addr_ip addr with
  | V4 a b c d =>
      if v4_is_loopback a b c d then Some "loopback"
      else if v4_is_link_local a b c d then Some "link_local"
      else if v4_is_multicast a b c d then Some "multicast"
      else if v4_is_private a b c d then Some "rfc1918"
      else if (a =? 100) && (Z.land b 192 =? 64) then Some "cgnat"
      else if v4_is_unspecified a b c d || v4_is_broadcast a b c d then Some "other"
      else None
  | V6 segs =>
      if bool_decide (segs = V6_LOCALHOST) then Some "loopback"
      else if Z.land (seg0 segs) 65472 =? 65152 then Some "link_local"
      else if Z.land (seg0 segs) 65280 =? 65280 then Some "multicast"
      else if Z.land (seg0 segs) 65024 =? 64512 then Some "rfc1918"
      else if bool_decide (segs = V6_UNSPECIFIED) then Some "other"
      else None
  end.

(** ** Private relay targets (config.rs) *)

Definition is_private_relay_target (ip : IpAddr) : bool :=
  match ip with
  | V4 a b c d => v4_is_private a b c d
  | V6 segs => Z.land (seg0 segs) 65024 =? 64512
  end.

(** ** [IpAddr::from_str]

    The parser of [core::net]: each reader returns what it read and the rest of
    the input, or nothing and then consumes nothing. *)

Definition COLON : Z := 58.

Definition digit_value (radix c : Z) : option Z :=
  let v := if is_ascii_digit c then c - 48
           else if (97 <=? c) && (c <=? 122) then c - 87
           else if (65 <=? c) && (c <=? 90) then c - 55 else radix in
  if v <? radix then Some v else None.

(** The digits at the front: their value, their number, the rest. *)
Fixpoint read_digits (radix acc : Z) (n : nat) (s : str) : Z * nat * str :=
  match s with
  | c :: t =>
      match digit_value radix c with
      | Some v => read_digits radix (acc * radix + v) (S n) t
      | None => (acc, n, s)
      end
  | [] => (acc, n, s)
  end.

Definition read_number (radix max : Z) (max_digits : nat) (allow_zero_prefix : bool) (s : str)
    : option (Z * str) :=
  let '(v, n, rest) := read_digits radix 0 0 s in
  if (n =? 0)%nat || (max_digits <? n)%nat || (max <? v) then None
  else if negb allow_zero_prefix && bool_decide (head s = Some 48) && (1 <? n)%nat then None
  else Some (v, rest).

Definition read_given_char (c : Z) (s : str) : option str :=
  match s with x :: t => if x =? c then Some t else None | [] => None end.

(** [read_separator]: the separator is read before every item but the first. *)
Definition read_separator {A} (sep : Z) (i : nat) (inner : str -> option (A * str)) (s : str)
    : option (A * str) :=
  match i with
  | O => inner s
  | S _ => match read_given_char sep s with Some t => inner t | None => None end
  end.

Definition DOT_ : Z := 46.
Definition read_octet (i : nat) (s : str) : option (Z * str) :=
  read_separator DOT_ i (read_number 10 255 3 false) s.

Definition read_ipv4_addr (s : str) : option (Z * Z * Z * Z * str) :=
  match read_octet 0 s with
  | None => None
  | Some (a, s) =>
      match read_octet 1 s with
      | None => None
      | Some (b, s) =>
          match read_octet 2 s with
          | None => None
          | Some (c, s) =>
              match read_octet 3 s with
              | None => None
              | Some (d, s) => Some (a, b, c, d, s)
              end
          end
      end
  end.

(** The [for] loop of [read_groups]: [left] slots remain, [i] are filled;
    returns the groups, whether the last two came from an embedded IPv4
    address, and the rest. *)
Fixpoint read_groups (left : nat) (i : nat) (s : str) : list Z * bool * str :=
  match left with
  | O => ([], false, s)
  | S left' =>
      let v4 := if (1 <=? left')%nat
                then read_separator COLON i
                       (fun s => match read_ipv4_addr s with
                                 | Some (a, b, c, d, r) => Some ((a, b, c, d), r)
                                 | None => None
                                 end) s
                else None in
      match v4 with
      | Some ((a, b, c, d), rest) => ([256 * a + b; 256 * c + d], true, rest)
      | None =>
          match read_separator COLON i (read_number 16 65535 4 true) s with
          | Some (g, rest) =>
              let '(gs, e, rest) := read_groups left' (S i) rest in (g :: gs, e, rest)
          | None => ([], false, s)
          end
      end
  end.

Definition read_ipv6_addr (s : str) : option (list Z * str) :=
  let '(hd, head_ipv4, rest) := read_groups 8 0 s in
  if (length hd =? 8)%nat then Some (hd, rest)
  else if head_ipv4 then None
  else match read_given_char COLON rest with
       | None => None
       | Some rest =>
           match read_given_char COLON rest with
           | None => None
           | Some rest =>
               let limit := (8 - (length hd + 1))%nat in
               let '(tl, _, rest) := read_groups limit 0 rest in
               Some (hd ++ replicate (8 - length hd - length tl) 0 ++ tl, rest)
           end
       end.

(** The whole input must be an address. *)
Definition parse_ip (s : str) : option IpAddr :=
  match read_ipv4_addr s with
  | Some (a, b, c, d, rest) => if is_empty rest then Some (V4 a b c d) else None
  | None =>
      match read_ipv6_addr s with
      | Some (segs, rest) => if is_empty rest then Some (V6 segs) else None
      | None => None
      end
  end.

Example parse_ip_v4 : parse_ip (lit "203.0.113.42") = Some (V4 203 0 113 42).
Proof. reflexivity. Qed.
Example parse_ip_zero_prefix : parse_ip (lit "010.0.0.1") = None.
Proof. reflexivity. Qed.
Example parse_ip_v6 : parse_ip (lit "fd00::12:FfFf") = Some (V6 [64768; 0; 0; 0; 0; 0; 18; 65535]).
Proof. reflexivity. Qed.
Example parse_ip_mapped : parse_ip (lit "::ffff:10.0.0.1") = Some (V6 [0; 0; 0; 0; 0; 65535; 2560; 1]).
Proof. reflexivity. Qed.
Example parse_ip_full : parse_ip (lit "1:2:3:4:5:6:7::") = Some (V6 [1; 2; 3; 4; 5; 6; 7; 0]).
Proof. reflexivity. Qed.

(** ** Parsed addresses are well formed *)

Lemma read_digits_value radix acc n s v m r :
  0 < radix -> 0 <= acc -> read_digits radix acc n s = (v, m, r) -> 0 <= v.
Proof.
  intros Hr. revert acc n. induction s as [|c s IH]; intros acc n Ha; cbn [read_digits].
  { by intros [= <- <- <-]. }
  destruct (digit_value radix c) as [x|] eqn:Hx; [|by intros [= <- <- <-]].
  apply IH. unfold digit_value in Hx. case_match eqn:Hlt; [|done]. simplify_eq.
  unfold is_ascii_digit. repeat case_match; bool_props; nia.
Qed.

Lemma read_number_range radix max k z s v r :
  0 < radix -> read_number radix max k z s = Some (v, r) -> 0 <= v <= max.
Proof.
  intros Hr. unfold read_number. destruct (read_digits radix 0 0 s) as [[v' n] rest] eqn:Hd.
  case_match eqn:Hg; [done|]. case_match; [done|]. intros [= -> ->].
  bool_props. split; [by eapply (read_digits_value radix 0 0 s)|lia].
Qed.

Lemma read_separator_inner {A} sep i (inner : str -> option (A * str)) s x r :
  read_separator sep i inner s = Some (x, r) -> exists s', inner s' = Some (x, r).
Proof.
  destruct i; cbn; [by eexists|]. destruct (read_given_char sep s); [by eexists|done].
Qed.

Lemma read_octet_ok i s v r : read_octet i s = Some (v, r) -> octet_ok v.
Proof.
  intros (s' & Hn)%read_separator_inner. unfold octet_ok.
  apply read_number_range in Hn; lia.
Qed.

Lemma read_ipv4_ok s a b c d r :
  read_ipv4_addr s = Some (a, b, c, d, r) -> ip_ok (V4 a b c d).
Proof.
  unfold read_ipv4_addr. intros H. repeat step_in H; simplify_eq.
  repeat match goal with E : read_octet _ _ = Some _ |- _ => apply read_octet_ok in E end. done.
Qed.

Lemma read_groups_ok left i s gs e r :
  read_groups left i s = (gs, e, r) -> (length gs <= left)%nat /\ Forall segment_ok gs.
Proof.
  revert i s gs e r. induction left as [|left IH]; intros i s gs e r; cbn [read_groups].
  { intros [= <- <- <-]. auto. }
  match goal with |- context [match ?v4 with Some _ => _ | None => _ end] => destruct v4 as [[[[[a b] c] d] rest]|] eqn:Hv4 end.
  - intros [= <- <- <-]. destruct (Nat.leb_spec 1 left) as [Hl|]; [|done].
    apply read_separator_inner in Hv4 as (s' & Hv4). cbn in Hv4. case_match eqn:He; [|done].
    repeat case_match; simplify_eq. apply read_ipv4_ok in He. unfold ip_ok, octet_ok in He.
    split; [cbn; lia|]. repeat constructor; unfold segment_ok; lia.
  - destruct (read_separator COLON i (read_number 16 65535 4 true) s) as [[g rest]|] eqn:Hg.
    2: { intros [= <- <- <-]. split; [cbn; lia | constructor]. }
    destruct (read_groups left (S i) rest) as [[gs' e'] rest'] eqn:Hrec.
    intros [= <- <- <-]. apply IH in Hrec as [? ?].
    apply read_separator_inner in Hg as (s' & Hg). apply read_number_range in Hg; [|lia].
    split; [cbn; lia|]. constructor; [unfold segment_ok; lia | done].
Qed.

Lemma read_ipv6_ok s segs r : read_ipv6_addr s = Some (segs, r) -> ip_ok (V6 segs).
Proof.
  unfold read_ipv6_addr. destruct (read_groups 8 0 s) as [[hd e] rest] eqn:Hh.
  apply read_groups_ok in Hh as [Hl Hf].
  destruct (Nat.eqb_spec (length hd) 8) as [H8|H8].
  { intros [= <- <-]. done. }
  destruct e; [done|]. destruct (read_given_char COLON rest) as [r1|]; [|done].
  destruct (read_given_char COLON r1) as [r2|]; [|done].
  destruct (read_groups (8 - (length hd + 1)) 0 r2) as [[tl e'] r3] eqn:Ht.
  apply read_groups_ok in Ht as [Hl' Hf']. intros [= <- <-]. split.
  - rewrite !length_app, length_replicate. lia.
  - apply Forall_app. split; [done|]. apply Forall_app. split; [|done].
    apply Forall_replicate_const. unfold segment_ok. lia.
Qed.

Lemma parse_ip_ok s ip : parse_ip s = Some ip -> ip_ok ip.
Proof.
  unfold parse_ip. intros H. repeat step_in H; simplify_eq;
    eauto using read_ipv4_ok, read_ipv6_ok.
Qed.

(** ** The address blocks of the filter *)

Fixpoint be_value (base : Z) (xs : list Z) : Z :=
  match xs with
  | [] => 0
  | x :: xs' => x * base ^ Z.of_nat (length xs') + be_value base xs'
  end.

(** An address as a number, and the width of its family. *)
Definition ip_value (ip : IpAddr) : Z :=
  match ip with V4 a b c d => be_value 256 [a; b; c; d] | V6 segs => be_value 65536 segs end.
Definition ip_width (ip : IpAddr) : Z := match ip with V4 _ _ _ _ => 32 | V6 _ => 128 end.

(** [base/prefix]: the same family and the same leading [prefix] bits. *)
Definition in_block (base : IpAddr) (prefix : Z) (ip : IpAddr) : Prop :=
  ip_width ip = ip_width base /\
  ip_value ip / 2 ^ (ip_width base - prefix) = ip_value base / 2 ^ (ip_width base - prefix).

(** The blocks the documentation of the filter lists. *)
Definition bogon_blocks : list (IpAddr * Z * string) :=
  [(V4 127 0 0 0, 8, "loopback"); (V6 V6_LOCALHOST, 128, "loopback");
   (V4 169 254 0 0, 16, "link_local"); (V6 [65152; 0; 0; 0; 0; 0; 0; 0], 10, "link_local");
   (V4 224 0 0 0, 4, "multicast"); (V6 [65280; 0; 0; 0; 0; 0; 0; 0], 8, "multicast");
   (V4 10 0 0 0, 8, "rfc1918"); (V4 172 16 0 0, 12, "rfc1918"); (V4 192 168 0 0, 16, "rfc1918");
   (V6 [64512; 0; 0; 0; 0; 0; 0; 0], 7, "rfc1918");
   (V4 100 64 0 0, 10, "cgnat");
   (V4 0 0 0 0, 32, "other"); (V4 255 255 255 255, 32, "other"); (V6 V6_UNSPECIFIED, 128, "other")].

(** A mask test on the leading bits of a 16-bit group is a division. *)
Lemma land_high_mask w k x :
  0 <= k <= w -> 0 <= x < 2 ^ w ->
  Z.land x (2 ^ w - 2 ^ k) = 2 ^ k * (x / 2 ^ k).
Proof.
  intros Hk Hx. apply Z.bits_inj'. intros n Hn. rewrite Z.land_spec.
  replace (2 ^ w - 2 ^ k) with (Z.shiftl (Z.ones (w - k)) k).
  2: { rewrite Z.shiftl_mul_pow2, Z.ones_equiv by lia. unfold Z.pred.
       rewrite Z.mul_add_distr_r, <- Z.pow_add_r by lia. replace (w - k + k) with w by lia. lia. }
  rewrite (Z.mul_comm (2 ^ k)), <- Z.shiftl_mul_pow2, <- Z.shiftr_div_pow2, !Z.shiftl_spec by lia.
  destruct (Z.lt_ge_cases n k) as [Hlt|Hge].
  { rewrite !(Z.testbit_neg_r _ (n - k)) by lia. by rewrite andb_false_r. }
  rewrite Z.shiftr_spec by lia. replace (n - k + k) with n by lia.
  destruct (Z.lt_ge_cases n w) as [Hlt|Hge'].
  - rewrite Z.ones_spec_low by lia. apply andb_true_r.
  - rewrite Z.ones_spec_high by lia. rewrite andb_false_r.
    destruct (Z.eq_dec x 0) as [->|]; [by rewrite Z.bits_0|].
    symmetry. apply Z.bits_above_log2; [lia|].
    apply Z.log2_lt_pow2; [lia|]. eapply Z.lt_le_trans; [apply Hx|]. apply Z.pow_le_mono_r; lia.
Qed.

Lemma be_value_range base xs :
  0 < base -> Forall (fun x => 0 <= x < base) xs ->
  0 <= be_value base xs < base ^ Z.of_nat (length xs).
Proof.
  intros Hb. induction 1 as [|y l Hy _ IH]; [done|].
  cbn [be_value length]. rewrite Nat2Z.inj_succ, Z.pow_succ_r by lia. nia.
Qed.

Lemma be_value_inj base xs ys :
  0 < base -> length xs = length ys -> Forall (fun x => 0 <= x < base) xs ->
  Forall (fun x => 0 <= x < base) ys -> be_value base xs = be_value base ys -> xs = ys.
Proof.
  intros Hb Hl Hx. revert ys Hl. induction Hx as [|x xs Hx Hxs IH]; intros [|y ys] Hl Hy Hv; try done.
  apply Forall_cons in Hy as [Hy Hys]. injection Hl as Hl. cbn [be_value] in Hv. rewrite <- Hl in Hv.
  pose proof (be_value_range base xs Hb Hxs). pose proof (be_value_range base ys Hb Hys) as Hr.
  rewrite <- Hl in Hr. assert (x = y) as -> by nia. f_equal. apply IH; [done..|lia].
Qed.

Lemma v4_block a b c d base p q :
  ip_ok (V4 a b c d) -> ip_width base = 32 -> 0 <= p <= 32 -> q = 2 ^ (32 - p) ->
  in_block base p (V4 a b c d) <->
  (16777216 * a + 65536 * b + 256 * c + d) / q = ip_value base / q.
Proof.
  intros Hok Hw Hp ->. unfold in_block. rewrite Hw. cbn [ip_width ip_value].
  replace (be_value 256 [a; b; c; d]) with (16777216 * a + 65536 * b + 256 * c + d) by (cbn; lia).
  naive_solver.
Qed.

(** The leading bits of an IPv6 address are those of its first group. *)
Lemma v6_leading x segs k :
  segment_ok x -> length segs = 7%nat -> Forall segment_ok segs -> 0 <= k ->
  ip_value (V6 (x :: segs)) / 2 ^ (112 + k) = x / 2 ^ k.
Proof.
  intros Hx Hl Hs Hk. cbn [ip_value be_value]. rewrite Hl.
  rewrite Z.pow_add_r, <- Z.div_div by lia. f_equal.
  change (65536 ^ Z.of_nat 7) with (2 ^ 112).
  pose proof (be_value_range 65536 segs ltac:(lia) Hs) as Hr.
  rewrite Hl in Hr. change (65536 ^ Z.of_nat 7) with (2 ^ 112) in Hr.
  symmetry. apply (Z.div_unique_pos _ _ _ (be_value 65536 segs)); lia.
Qed.

Lemma v6_block x segs base p k y :
  ip_ok (V6 (x :: segs)) -> base = V6 [y; 0; 0; 0; 0; 0; 0; 0] -> segment_ok y ->
  p = 16 - k -> 0 <= k <= 16 ->
  in_block base p (V6 (x :: segs)) <-> x / 2 ^ k = y / 2 ^ k.
Proof.
  intros [Hl Hf] -> Hy -> Hk. apply Forall_cons in Hf as [Hx Hf]. unfold in_block.
  cbn [ip_width]. replace (128 - (16 - k)) with (112 + k) by lia.
  rewrite !v6_leading; [naive_solver | try done | try done | | lia | done | | done | lia].
  - repeat constructor; unfold segment_ok; lia.
  - by injection Hl.
Qed.

(** A full-length IPv6 block is one address. *)
Lemma v6_point segs t :
  ip_ok (V6 segs) -> ip_ok (V6 t) -> in_block (V6 t) 128 (V6 segs) <-> segs = t.
Proof.
  intros [Hl Hf] [Hl' Hf']. unfold in_block. cbn [ip_width]. rewrite !Z.div_1_r.
  split; [|by intros ->]. intros [_ Hv].
  apply (be_value_inj 65536); [lia | congruence | done..].
Qed.

(** [ip] lies in a listed block of kind [k]. *)
Definition bogon_kind (k : string) (ip : IpAddr) : Prop :=
  Exists (fun '(base, p, k') => k' = k /\ in_block base p ip) bogon_blocks.

Lemma in_block_v4 (x y z w : Z) p a b c d q v :
  q = 2 ^ (32 - p) -> v = be_value 256 [x; y; z; w] / q ->
  in_block (V4 x y z w) p (V4 a b c d) <-> (16777216 * a + 65536 * b + 256 * c + d) / q = v.
Proof.
  intros -> ->. unfold in_block. cbn [ip_width ip_value].
  replace (be_value 256 [a; b; c; d]) with (16777216 * a + 65536 * b + 256 * c + d) by (cbn; lia).
  naive_solver.
Qed.

Lemma other_family_v6 x y z w p segs : in_block (V4 x y z w) p (V6 segs) <-> False.
Proof. split; [by intros [? _] | done]. Qed.
Lemma other_family_v4 s p a b c d : in_block (V6 s) p (V4 a b c d) <-> False.
Proof. split; [by intros [? _] | done]. Qed.

Lemma land_192 b : octet_ok b -> Z.land b 192 = 64 * (b / 64).
Proof. intros Hb. apply (land_high_mask 8 6); [lia | apply Hb]. Qed.

Ltac div_lia := Z.div_mod_to_equations; lia.

(** Evaluate the constants of the block tests. *)
Ltac ground_blocks :=
  repeat match goal with
  | |- context [be_value 256 ?l / ?q] =>
      let v := eval vm_compute in (be_value 256 l / q) in change (be_value 256 l / q) with v
  | |- context [2 ^ (32 - ?p)] =>
      let v := eval vm_compute in (2 ^ (32 - p)) in change (2 ^ (32 - p)) with v
  end.

Lemma bogon_kind_v4 k a b c d port :
  ip_ok (V4 a b c d) -> is_bogon (mkAddr (V4 a b c d) port) = Some k <-> bogon_kind k (V4 a b c d).
Proof.
  intros (Ha & Hb & Hc & Hd). unfold bogon_kind, bogon_blocks. rewrite !Exists_cons, Exists_nil.
  rewrite !other_family_v4.
  rewrite !(in_block_v4 _ _ _ _ _ a b c d _ _ eq_refl eq_refl).
  ground_blocks.
  unfold is_bogon, v4_is_loopback, v4_is_link_local, v4_is_multicast, v4_is_private,
    v4_is_unspecified, v4_is_broadcast. cbn [addr_ip]. rewrite (land_192 b Hb).
  unfold octet_ok in *. set (n := 16777216 * a + 65536 * b + 256 * c + d).
  assert (n / 16777216 = a) as -> by (subst n; div_lia).
  assert (n / 65536 = 256 * a + b) as -> by (subst n; div_lia).
  assert (n / 1048576 = 16 * a + b / 16) as -> by (subst n; div_lia).
  assert (n / 4194304 = 4 * a + b / 64) as -> by (subst n; div_lia).
  assert (n / 268435456 = a / 16) as -> by (subst n; div_lia).
  rewrite Z.div_1_r. unfold n. clear n. split; intros H.
  - repeat step_in H; simplify_eq;
      repeat match goal with E : (_ || _)%bool = true |- _ => apply orb_true_iff in E as [E|E] end;
      repeat first [left; split; [reflexivity | div_lia] | right]; lia.
  - destruct_or! H; try done; destruct H as [<- H]; try done;
      repeat case_match; try reflexivity; exfalso; div_lia.
Qed.

Lemma bogon_kind_v6 k segs port :
  ip_ok (V6 segs) -> is_bogon (mkAddr (V6 segs) port) = Some k <-> bogon_kind k (V6 segs).
Proof.
  intros Hok. pose proof Hok as [Hl Hf]. destruct segs as [|x segs]; [done|].
  apply Forall_cons in Hf as [Hx Hf]. pose proof Hx as Hx'. unfold segment_ok in Hx.
  unfold bogon_kind, bogon_blocks. rewrite !Exists_cons, Exists_nil, !other_family_v6.
  assert (forall y, segment_ok y -> segment_ok y) as _ by done.
  rewrite (v6_block x segs _ 10 6 65152 Hok eq_refl), (v6_block x segs _ 8 8 65280 Hok eq_refl),
    (v6_block x segs _ 7 9 64512 Hok eq_refl) by (unfold segment_ok; lia).
  rewrite !v6_point by (done || (split; [done|]; repeat constructor; unfold segment_ok; lia)).
  unfold is_bogon. cbn [addr_ip seg0 nth].
  change 65472 with (2 ^ 16 - 2 ^ 6). change 65280 with (2 ^ 16 - 2 ^ 8) at 1.
  change 65024 with (2 ^ 16 - 2 ^ 9). rewrite !land_high_mask by lia.
  split; intros H.
  - repeat step_in H; simplify_eq; bool_props;
      repeat match goal with E : bool_decide _ = true |- _ => apply bool_decide_eq_true in E end;
      repeat first [left; split; [reflexivity | done || div_lia] | right]; done.
  - destruct_or! H; try done; destruct H as [<- H]; try done;
      try (injection H as -> ->; reflexivity);
      repeat case_match; try reflexivity; bool_props;
      repeat match goal with E : bool_decide _ = true |- _ =>
        apply bool_decide_eq_true in E; injection E as -> -> end; try done; exfalso; div_lia.
Qed.

(** The destination filter drops exactly the listed blocks, each
    under its own label: an address is dropped with label [k] when it lies in a
    block of kind [k], and sent when it lies in none. *)
Theorem bogon_exact ip port k :
  ip_ok ip -> is_bogon (mkAddr ip port) = Some k <-> bogon_kind k ip.
Proof. destruct ip; [apply bogon_kind_v4 | apply bogon_kind_v6]. Qed.

(** The last address of the shared (carrier) block and the first one after it. *)
Lemma bogon_exact_witness :
  bogon_kind "cgnat" (V4 100 127 255 255) /\ ~ bogon_kind "cgnat" (V4 100 128 0 0).
Proof.
  split.
  - apply (bogon_exact (V4 100 127 255 255) 3478 "cgnat"); [|reflexivity].
    unfold ip_ok, octet_ok. repeat split; lia.
  - intros Hk. apply (bogon_exact (V4 100 128 0 0) 3478 "cgnat") in Hk; [discriminate|].
    unfold ip_ok, octet_ok. repeat split; lia.
Defined.

(** A private relay target is always a dropped destination. *)
Lemma private_target_is_bogon ip port :
  is_private_relay_target ip = true -> is_bogon (mkAddr ip port) = Some "rfc1918".
Proof.
  destruct ip as [a b c d|segs]; unfold is_bogon; cbn [addr_ip is_private_relay_target].
  - unfold v4_is_private, v4_is_loopback, v4_is_link_local, v4_is_multicast. intros H.
    rewrite H. repeat case_match; try done; lia.
  - intros H%Z.eqb_eq. pose proof (fun m => Z.land_assoc (seg0 segs) m 65024) as Hm.
    case_bool_decide as E; [by rewrite E in H|].
    destruct (Z.eqb_spec (Z.land (seg0 segs) 65472) 65152) as [E1|_].
    { specialize (Hm 65472). rewrite E1 in Hm. change (Z.land 65472 65024) with 65024 in Hm. by rewrite H in Hm. }
    destruct (Z.eqb_spec (Z.land (seg0 segs) 65280) 65280) as [E2|_].
    { specialize (Hm 65280). rewrite E2 in Hm. change (Z.land 65280 65024) with 65024 in Hm. by rewrite H in Hm. }
    by rewrite H.
Qed.
