(* ===== verification/SfuTypes.v ===== *)
(** * SFU data model: tracks, propagated events, the per-peer client record
      (crates/sfu/src/client/{mod,tracks,layer}.rs, crates/sfu/src/propagate.rs)

    An [Instant] is a [Z] number of nanoseconds.  A [TrackIn] lives behind an
    [Arc] owned by its publisher; subscribers hold [Weak] references to it.
    Both are addresses into a store of the tracks that are still owned, and
    [Weak::upgrade] is a lookup.  Calls into the metrics registry and the
    WebSocket queue are recorded, in order, as a list of [Effect]s. *)

From Stdlib Require Import ZArith Lia.
From stdpp Require Import base option numbers gmap strings pretty list.
From S2P Require Import Prelude RustStr NetAddr DdParse DdParseFacts DdCache.

(** ** Identifiers *)

Definition ClientId := Z.
Definition Instant := Z.
(** str0m's [Mid] and [Rid] are short opaque texts. *)
Definition Mid := string.
Definition Rid := string.
Definition StreamKey : Type := (ClientId * Mid)%type.
(** Address of an [Arc<TrackIn>]. *)
Definition TrackRef := nat.
(** str0m's handle of an offer in flight. *)
Definition SdpPendingOffer := nat.

Definition second : Z := 1000000000.

(** [Instant::duration_since] and [saturating_duration_since]. *)
Definition duration_since (now earlier : Instant) : Z := Z.max 0 (now - earlier).

(** [ClientId]'s [to_string]. *)
Definition label_of (cid : ClientId) : string := pretty cid.

(** ** Simulcast layers (client/layer.rs) *)

Definition LOW : Rid := "q       ".
Definition MEDIUM : Rid := "h       ".
Definition HIGH : Rid := "f       ".

(** The Prometheus label of a layer. *)
Definition rid_label_for (rid : Rid) : string :=
  if decide (rid = LOW) then "q"
  else if decide (rid = MEDIUM) then "h"
  else if decide (rid = HIGH) then "f"
  else "other".

(** ** Tracks (client/tracks.rs) *)

Inductive MediaKind := Audio | Video.
#[export] Instance MediaKind_eq_dec : EqDecision MediaKind.
Proof. solve_decision. Defined.

Definition kind_label (k : MediaKind) : string :=
  match k with Audio => "audio" | Video => "video" end.

Record TrackIn := mkTrackIn {
  ti_origin : ClientId;
  ti_mid : Mid;
  ti_kind : MediaKind;
  ti_external_peer_id : option Z;
}.

(** The tracks whose [Arc] is still owned. *)
Definition TrackStore := gmap TrackRef TrackIn.

Definition upgrade (h : TrackStore) (w : TrackRef) : option TrackIn := h !! w.

Record TrackInEntry := mkTrackInEntry {
  tie_ref : TrackRef;
  tie_id : TrackIn;
  last_keyframe_request : option Instant;
}.

Inductive TrackOutState :=
| ToOpen
| Negotiating (mid : Mid)
| Open (mid : Mid).
#[export] Instance TrackOutState_eq_dec : EqDecision TrackOutState.
Proof. solve_decision. Defined.

Record TrackOut := mkTrackOut {
  to_track_in : TrackRef;
  to_state : TrackOutState;
}.

(** [TrackOut::mid]: only an open track has a mid that may be written to. *)
Definition out_mid (o : TrackOut) : option Mid :=
  match to_state o with
  | ToOpen | Negotiating _ => None
  | Open m => Some m
  end.

(** ** Media *)

Inductive Codec := Av1 | Vp9 | OtherVideo | OtherAudio.
#[export] Instance Codec_eq_dec : EqDecision Codec.
Proof. solve_decision. Defined.

(** [Codec::is_video]. *)
Definition codec_is_video (c : Codec) : bool :=
  match c with Av1 | Vp9 | OtherVideo => true | OtherAudio => false end.

(** The fields of str0m's [MediaData] the SFU reads: [md_is_keyframe] is
    the answer of its keyframe test, [md_ext] the descriptor bytes the
    extension serializer left in [user_values], [md_audio_level] the signed
    audio level, [md_rtp_time] the numerator of the media time. *)
Record MediaData := mkMediaData {
  md_mid : Mid;
  md_rid : option Rid;
  md_ext : ExtValues;
  md_is_keyframe : bool;
  md_codec : Codec;
  md_contiguous : bool;
  md_audio_level : option Z;
  md_rtp_time : Z;
}.

(** A datagram str0m wants sent. *)
Record Transmit := mkTransmit {
  t_destination : SocketAddr;
  t_contents : list Z;
}.

Inductive KeyframeRequestKind := Pli | Fir.

Record KeyframeRequest := mkKeyframeRequest {
  kr_mid : Mid;
  kr_rid : option Rid;
  kr_kind : KeyframeRequestKind;
}.

(** ** Propagated events (propagate.rs) *)

Inductive SuspendTier := AudioNormal | AudioLow | VideoMax.
#[export] Instance SuspendTier_eq_dec : EqDecision SuspendTier.
Proof. solve_decision. Defined.

Inductive Propagated :=
| PNoop
| PTimeout (t : Instant)
| PTrackOpen (c : ClientId) (w : TrackRef)
| PMediaData (c : ClientId) (d : MediaData)
| PKeyframeRequest (c : ClientId) (req : KeyframeRequest) (source : ClientId) (mid_in : Mid)
| PActiveSpeakerChanged (peer_id : Z)
| PBandwidthEstimate (c : ClientId) (bps : Z)
| PClientBudgetHint (c : ClientId) (bps : Z)
| PTopSpeakers (peers : list Z)
| PAudioCodecHint (peer_id : Z) (opus_red opus_dred : bool)
| PVfmLayerCap (c : ClientId) (max_tid : Z)
| PPublisherLayerHint (publisher_id : ClientId) (max_rid : Rid)
| PMarkRelaySource (c : ClientId) (upstream_url : list Z)
| PUpstreamKeyframeRequest (source_relay_id : ClientId) (req : KeyframeRequest) (source_mid : Mid)
| PPublisherLayerHintForUpstream (publisher_relay_id : ClientId) (max_rid : Rid)
| PChatData (c : ClientId) (payload : list Z)
| PChatCtrl (c : ClientId) (payload : list Z)
| PVoiceData (c : ClientId) (payload : list Z)
| PKeysData (c : ClientId) (payload : list Z)
| PPeerSuspended (peer_id : ClientId) (tier : SuspendTier).

(** ** Effects *)

(** A frame handed to a peer's WebSocket queue. *)
Inductive WsFrame :=
| OfferRenegotiate (mid : Mid)
| TracksMapUpdate (mid : Mid) (peer_id : Z) (kind : MediaKind).

Inductive Effect :=
| Inc (family : string) (labels : list string)
| IncBy (family : string) (labels : list string) (n : Z)
| Dec (family : string) (labels : list string)
| SetGauge (family : string) (labels : list string) (v : Z)
| Observe (family : string) (v : Z)
| RemoveLabels (family : string) (labels : list string)
| WsSend (to : ClientId) (frame : WsFrame)
| RtpWrite (to : ClientId) (mid : Mid) (d : MediaData)
| RtcRequestKeyframe (to : ClientId) (mid : Mid) (rid : option Rid)
| CloseSession (to : ClientId)
| DetectorAdd (peer : Z)
| DetectorRemove (peer : Z)
| BweEnable (peer : Z)
| BweReap (peer : Z)
| BweNative (peer : Z) (bps : Z)
| BweHint (peer : Z) (bps : Z)
| DcWrite (to : ClientId) (channel : string) (payload : list Z)
| SpeakerNotice (to : ClientId) (peers : list Z)
| TierNotice (to : ClientId) (peer : ClientId) (tier : SuspendTier)
| DetectorLevel (peer : Z) (level : Z) (now_ms : Z)
| BweTiming (peer : Z) (arrival_ms : Z) (rtp_time : Z)
| TracksMap (peer_id : Z) (peers : list Z)
| UdpSend (t : Transmit)
| Warn (what : string) (dest : option SocketAddr).

(** ** Keyframe waits (client/keyframe.rs) *)

Record KeyframeWait := mkWait {
  kw_origin : ClientId;
  kw_mid_in : Mid;
  started_at : Instant;
  last_request_at : Instant;
  attempts : Z;
}.

(** ** The client record (client/mod.rs)

    Channel ids and the WebSocket ends are present or absent; [pacer] is the
    list of budgets the pacer object has been updated with, which is all its
    answers can depend on; [alive] is [rtc.is_alive()]. *)

Record Client := mkClient {
  id : ClientId;
  tracks_in : list TrackInEntry;
  tracks_out : list TrackOut;
  chosen_rid : option Rid;
  last_switch_keyframe_request : gmap Rid Instant;
  desired_layer : Rid;
  active_rids : list Rid;
  delivered_media : Z;
  last_emitted_tier : option SuspendTier;
  pending_tier_emit : option SuspendTier;
  max_vfm_temporal_layer : Z;
  bwe_vfm_temporal_cap : Z;
  bwe_cap_audio_only_bps : Z;
  bwe_cap_low_min_bps : Z;
  dd_structure_cache : DdStructureCache StreamKey;
  pacer : list Z;
  last_pacer_tick : option Instant;
  keyframe_waits : list KeyframeWait;
  pending_propagated : list Propagated;
  alive : bool;
  is_relay : bool;
  external_peer_id : option Z;
  close_signal : bool;
  voice_data_cid : bool;
  chat_data_cid : bool;
  chat_ctrl_cid : bool;
  reactions_dc_cid : bool;
  keys_dc_cid : bool;
  sfu_events_cid : bool;
  reactions_dc_opened : bool;
  ws_msg_tx : bool;
  ws_ctrl_rx : bool;
  pending_offer : option SdpPendingOffer;
  renegotiation_queue : list TrackRef;
  pending_offer_at : option Instant;
}.


Definition put_tracks_in (v : list TrackInEntry) (c : Client) : Client :=
  mkClient (id c) v (tracks_out c) (chosen_rid c) (last_switch_keyframe_request c)
  (desired_layer c) (active_rids c) (delivered_media c) (last_emitted_tier c)
  (pending_tier_emit c) (max_vfm_temporal_layer c) (bwe_vfm_temporal_cap c)
  (bwe_cap_audio_only_bps c) (bwe_cap_low_min_bps c) (dd_structure_cache c) (pacer c)
  (last_pacer_tick c) (keyframe_waits c) (pending_propagated c) (alive c) (is_relay c)
  (external_peer_id c) (close_signal c) (voice_data_cid c) (chat_data_cid c) (chat_ctrl_cid c)
  (reactions_dc_cid c) (keys_dc_cid c) (sfu_events_cid c) (reactions_dc_opened c)
  (ws_msg_tx c) (ws_ctrl_rx c) (pending_offer c) (renegotiation_queue c) (pending_offer_at c).
Definition put_tracks_out (v : list TrackOut) (c : Client) : Client :=
  mkClient (id c) (tracks_in c) v (chosen_rid c) (last_switch_keyframe_request c)
  (desired_layer c) (active_rids c) (delivered_media c) (last_emitted_tier c)
  (pending_tier_emit c) (max_vfm_temporal_layer c) (bwe_vfm_temporal_cap c)
  (bwe_cap_audio_only_bps c) (bwe_cap_low_min_bps c) (dd_structure_cache c) (pacer c)
  (last_pacer_tick c) (keyframe_waits c) (pending_propagated c) (alive c) (is_relay c)
  (external_peer_id c) (close_signal c) (voice_data_cid c) (chat_data_cid c) (chat_ctrl_cid c)
  (reactions_dc_cid c) (keys_dc_cid c) (sfu_events_cid c) (reactions_dc_opened c)
  (ws_msg_tx c) (ws_ctrl_rx c) (pending_offer c) (renegotiation_queue c) (pending_offer_at c).
Definition put_chosen_rid (v : option Rid) (c : Client) : Client :=
  mkClient (id c) (tracks_in c) (tracks_out c) v (last_switch_keyframe_request c)
  (desired_layer c) (active_rids c) (delivered_media c) (last_emitted_tier c)
  (pending_tier_emit c) (max_vfm_temporal_layer c) (bwe_vfm_temporal_cap c)
  (bwe_cap_audio_only_bps c) (bwe_cap_low_min_bps c) (dd_structure_cache c) (pacer c)
  (last_pacer_tick c) (keyframe_waits c) (pending_propagated c) (alive c) (is_relay c)
  (external_peer_id c) (close_signal c) (voice_data_cid c) (chat_data_cid c) (chat_ctrl_cid c)
  (reactions_dc_cid c) (keys_dc_cid c) (sfu_events_cid c) (reactions_dc_opened c)
  (ws_msg_tx c) (ws_ctrl_rx c) (pending_offer c) (renegotiation_queue c) (pending_offer_at c).
Definition put_last_switch_keyframe_request (v : gmap Rid Instant) (c : Client) : Client :=
  mkClient (id c) (tracks_in c) (tracks_out c) (chosen_rid c) v (desired_layer c)
  (active_rids c) (delivered_media c) (last_emitted_tier c) (pending_tier_emit c)
  (max_vfm_temporal_layer c) (bwe_vfm_temporal_cap c) (bwe_cap_audio_only_bps c)
  (bwe_cap_low_min_bps c) (dd_structure_cache c) (pacer c) (last_pacer_tick c)
  (keyframe_waits c) (pending_propagated c) (alive c) (is_relay c) (external_peer_id c)
  (close_signal c) (voice_data_cid c) (chat_data_cid c) (chat_ctrl_cid c) (reactions_dc_cid c)
  (keys_dc_cid c) (sfu_events_cid c) (reactions_dc_opened c) (ws_msg_tx c) (ws_ctrl_rx c)
  (pending_offer c) (renegotiation_queue c) (pending_offer_at c).
Definition put_desired_layer (v : Rid) (c : Client) : Client :=
  mkClient (id c) (tracks_in c) (tracks_out c) (chosen_rid c) (last_switch_keyframe_request c)
  v (active_rids c) (delivered_media c) (last_emitted_tier c) (pending_tier_emit c)
  (max_vfm_temporal_layer c) (bwe_vfm_temporal_cap c) (bwe_cap_audio_only_bps c)
  (bwe_cap_low_min_bps c) (dd_structure_cache c) (pacer c) (last_pacer_tick c)
  (keyframe_waits c) (pending_propagated c) (alive c) (is_relay c) (external_peer_id c)
  (close_signal c) (voice_data_cid c) (chat_data_cid c) (chat_ctrl_cid c) (reactions_dc_cid c)
  (keys_dc_cid c) (sfu_events_cid c) (reactions_dc_opened c) (ws_msg_tx c) (ws_ctrl_rx c)
  (pending_offer c) (renegotiation_queue c) (pending_offer_at c).
Definition put_active_rids (v : list Rid) (c : Client) : Client :=
  mkClient (id c) (tracks_in c) (tracks_out c) (chosen_rid c) (last_switch_keyframe_request c)
  (desired_layer c) v (delivered_media c) (last_emitted_tier c) (pending_tier_emit c)
  (max_vfm_temporal_layer c) (bwe_vfm_temporal_cap c) (bwe_cap_audio_only_bps c)
  (bwe_cap_low_min_bps c) (dd_structure_cache c) (pacer c) (last_pacer_tick c)
  (keyframe_waits c) (pending_propagated c) (alive c) (is_relay c) (external_peer_id c)
  (close_signal c) (voice_data_cid c) (chat_data_cid c) (chat_ctrl_cid c) (reactions_dc_cid c)
  (keys_dc_cid c) (sfu_events_cid c) (reactions_dc_opened c) (ws_msg_tx c) (ws_ctrl_rx c)
  (pending_offer c) (renegotiation_queue c) (pending_offer_at c).
Definition put_delivered_media (v : Z) (c : Client) : Client :=
  mkClient (id c) (tracks_in c) (tracks_out c) (chosen_rid c) (last_switch_keyframe_request c)
  (desired_layer c) (active_rids c) v (last_emitted_tier c) (pending_tier_emit c)
  (max_vfm_temporal_layer c) (bwe_vfm_temporal_cap c) (bwe_cap_audio_only_bps c)
  (bwe_cap_low_min_bps c) (dd_structure_cache c) (pacer c) (last_pacer_tick c)
  (keyframe_waits c) (pending_propagated c) (alive c) (is_relay c) (external_peer_id c)
  (close_signal c) (voice_data_cid c) (chat_data_cid c) (chat_ctrl_cid c) (reactions_dc_cid c)
  (keys_dc_cid c) (sfu_events_cid c) (reactions_dc_opened c) (ws_msg_tx c) (ws_ctrl_rx c)
  (pending_offer c) (renegotiation_queue c) (pending_offer_at c).
Definition put_last_emitted_tier (v : option SuspendTier) (c : Client) : Client :=
  mkClient (id c) (tracks_in c) (tracks_out c) (chosen_rid c) (last_switch_keyframe_request c)
  (desired_layer c) (active_rids c) (delivered_media c) v (pending_tier_emit c)
  (max_vfm_temporal_layer c) (bwe_vfm_temporal_cap c) (bwe_cap_audio_only_bps c)
  (bwe_cap_low_min_bps c) (dd_structure_cache c) (pacer c) (last_pacer_tick c)
  (keyframe_waits c) (pending_propagated c) (alive c) (is_relay c) (external_peer_id c)
  (close_signal c) (voice_data_cid c) (chat_data_cid c) (chat_ctrl_cid c) (reactions_dc_cid c)
  (keys_dc_cid c) (sfu_events_cid c) (reactions_dc_opened c) (ws_msg_tx c) (ws_ctrl_rx c)
  (pending_offer c) (renegotiation_queue c) (pending_offer_at c).
Definition put_pending_tier_emit (v : option SuspendTier) (c : Client) : Client :=
  mkClient (id c) (tracks_in c) (tracks_out c) (chosen_rid c) (last_switch_keyframe_request c)
  (desired_layer c) (active_rids c) (delivered_media c) (last_emitted_tier c) v
  (max_vfm_temporal_layer c) (bwe_vfm_temporal_cap c) (bwe_cap_audio_only_bps c)
  (bwe_cap_low_min_bps c) (dd_structure_cache c) (pacer c) (last_pacer_tick c)
  (keyframe_waits c) (pending_propagated c) (alive c) (is_relay c) (external_peer_id c)
  (close_signal c) (voice_data_cid c) (chat_data_cid c) (chat_ctrl_cid c) (reactions_dc_cid c)
  (keys_dc_cid c) (sfu_events_cid c) (reactions_dc_opened c) (ws_msg_tx c) (ws_ctrl_rx c)
  (pending_offer c) (renegotiation_queue c) (pending_offer_at c).
Definition put_max_vfm_temporal_layer (v : Z) (c : Client) : Client :=
  mkClient (id c) (tracks_in c) (tracks_out c) (chosen_rid c) (last_switch_keyframe_request c)
  (desired_layer c) (active_rids c) (delivered_media c) (last_emitted_tier c)
  (pending_tier_emit c) v (bwe_vfm_temporal_cap c) (bwe_cap_audio_only_bps c)
  (bwe_cap_low_min_bps c) (dd_structure_cache c) (pacer c) (last_pacer_tick c)
  (keyframe_waits c) (pending_propagated c) (alive c) (is_relay c) (external_peer_id c)
  (close_signal c) (voice_data_cid c) (chat_data_cid c) (chat_ctrl_cid c) (reactions_dc_cid c)
  (keys_dc_cid c) (sfu_events_cid c) (reactions_dc_opened c) (ws_msg_tx c) (ws_ctrl_rx c)
  (pending_offer c) (renegotiation_queue c) (pending_offer_at c).
Definition put_bwe_vfm_temporal_cap (v : Z) (c : Client) : Client :=
  mkClient (id c) (tracks_in c) (tracks_out c) (chosen_rid c) (last_switch_keyframe_request c)
  (desired_layer c) (active_rids c) (delivered_media c) (last_emitted_tier c)
  (pending_tier_emit c) (max_vfm_temporal_layer c) v (bwe_cap_audio_only_bps c)
  (bwe_cap_low_min_bps c) (dd_structure_cache c) (pacer c) (last_pacer_tick c)
  (keyframe_waits c) (pending_propagated c) (alive c) (is_relay c) (external_peer_id c)
  (close_signal c) (voice_data_cid c) (chat_data_cid c) (chat_ctrl_cid c) (reactions_dc_cid c)
  (keys_dc_cid c) (sfu_events_cid c) (reactions_dc_opened c) (ws_msg_tx c) (ws_ctrl_rx c)
  (pending_offer c) (renegotiation_queue c) (pending_offer_at c).
Definition put_dd_structure_cache (v : DdStructureCache StreamKey) (c : Client) : Client :=
  mkClient (id c) (tracks_in c) (tracks_out c) (chosen_rid c) (last_switch_keyframe_request c)
  (desired_layer c) (active_rids c) (delivered_media c) (last_emitted_tier c)
  (pending_tier_emit c) (max_vfm_temporal_layer c) (bwe_vfm_temporal_cap c)
  (bwe_cap_audio_only_bps c) (bwe_cap_low_min_bps c) v (pacer c) (last_pacer_tick c)
  (keyframe_waits c) (pending_propagated c) (alive c) (is_relay c) (external_peer_id c)
  (close_signal c) (voice_data_cid c) (chat_data_cid c) (chat_ctrl_cid c) (reactions_dc_cid c)
  (keys_dc_cid c) (sfu_events_cid c) (reactions_dc_opened c) (ws_msg_tx c) (ws_ctrl_rx c)
  (pending_offer c) (renegotiation_queue c) (pending_offer_at c).
Definition put_pacer (v : list Z) (c : Client) : Client :=
  mkClient (id c) (tracks_in c) (tracks_out c) (chosen_rid c) (last_switch_keyframe_request c)
  (desired_layer c) (active_rids c) (delivered_media c) (last_emitted_tier c)
  (pending_tier_emit c) (max_vfm_temporal_layer c) (bwe_vfm_temporal_cap c)
  (bwe_cap_audio_only_bps c) (bwe_cap_low_min_bps c) (dd_structure_cache c) v
  (last_pacer_tick c) (keyframe_waits c) (pending_propagated c) (alive c) (is_relay c)
  (external_peer_id c) (close_signal c) (voice_data_cid c) (chat_data_cid c) (chat_ctrl_cid c)
  (reactions_dc_cid c) (keys_dc_cid c) (sfu_events_cid c) (reactions_dc_opened c)
  (ws_msg_tx c) (ws_ctrl_rx c) (pending_offer c) (renegotiation_queue c) (pending_offer_at c).
Definition put_last_pacer_tick (v : option Instant) (c : Client) : Client :=
  mkClient (id c) (tracks_in c) (tracks_out c) (chosen_rid c) (last_switch_keyframe_request c)
  (desired_layer c) (active_rids c) (delivered_media c) (last_emitted_tier c)
  (pending_tier_emit c) (max_vfm_temporal_layer c) (bwe_vfm_temporal_cap c)
  (bwe_cap_audio_only_bps c) (bwe_cap_low_min_bps c) (dd_structure_cache c) (pacer c) v
  (keyframe_waits c) (pending_propagated c) (alive c) (is_relay c) (external_peer_id c)
  (close_signal c) (voice_data_cid c) (chat_data_cid c) (chat_ctrl_cid c) (reactions_dc_cid c)
  (keys_dc_cid c) (sfu_events_cid c) (reactions_dc_opened c) (ws_msg_tx c) (ws_ctrl_rx c)
  (pending_offer c) (renegotiation_queue c) (pending_offer_at c).
Definition put_keyframe_waits (v : list KeyframeWait) (c : Client) : Client :=
  mkClient (id c) (tracks_in c) (tracks_out c) (chosen_rid c) (last_switch_keyframe_request c)
  (desired_layer c) (active_rids c) (delivered_media c) (last_emitted_tier c)
  (pending_tier_emit c) (max_vfm_temporal_layer c) (bwe_vfm_temporal_cap c)
  (bwe_cap_audio_only_bps c) (bwe_cap_low_min_bps c) (dd_structure_cache c) (pacer c)
  (last_pacer_tick c) v (pending_propagated c) (alive c) (is_relay c) (external_peer_id c)
  (close_signal c) (voice_data_cid c) (chat_data_cid c) (chat_ctrl_cid c) (reactions_dc_cid c)
  (keys_dc_cid c) (sfu_events_cid c) (reactions_dc_opened c) (ws_msg_tx c) (ws_ctrl_rx c)
  (pending_offer c) (renegotiation_queue c) (pending_offer_at c).
Definition put_pending_propagated (v : list Propagated) (c : Client) : Client :=
  mkClient (id c) (tracks_in c) (tracks_out c) (chosen_rid c) (last_switch_keyframe_request c)
  (desired_layer c) (active_rids c) (delivered_media c) (last_emitted_tier c)
  (pending_tier_emit c) (max_vfm_temporal_layer c) (bwe_vfm_temporal_cap c)
  (bwe_cap_audio_only_bps c) (bwe_cap_low_min_bps c) (dd_structure_cache c) (pacer c)
  (last_pacer_tick c) (keyframe_waits c) v (alive c) (is_relay c) (external_peer_id c)
  (close_signal c) (voice_data_cid c) (chat_data_cid c) (chat_ctrl_cid c) (reactions_dc_cid c)
  (keys_dc_cid c) (sfu_events_cid c) (reactions_dc_opened c) (ws_msg_tx c) (ws_ctrl_rx c)
  (pending_offer c) (renegotiation_queue c) (pending_offer_at c).
Definition put_alive (v : bool) (c : Client) : Client :=
  mkClient (id c) (tracks_in c) (tracks_out c) (chosen_rid c) (last_switch_keyframe_request c)
  (desired_layer c) (active_rids c) (delivered_media c) (last_emitted_tier c)
  (pending_tier_emit c) (max_vfm_temporal_layer c) (bwe_vfm_temporal_cap c)
  (bwe_cap_audio_only_bps c) (bwe_cap_low_min_bps c) (dd_structure_cache c) (pacer c)
  (last_pacer_tick c) (keyframe_waits c) (pending_propagated c) v (is_relay c)
  (external_peer_id c) (close_signal c) (voice_data_cid c) (chat_data_cid c) (chat_ctrl_cid c)
  (reactions_dc_cid c) (keys_dc_cid c) (sfu_events_cid c) (reactions_dc_opened c)
  (ws_msg_tx c) (ws_ctrl_rx c) (pending_offer c) (renegotiation_queue c) (pending_offer_at c).
Definition put_is_relay (v : bool) (c : Client) : Client :=
  mkClient (id c) (tracks_in c) (tracks_out c) (chosen_rid c) (last_switch_keyframe_request c)
  (desired_layer c) (active_rids c) (delivered_media c) (last_emitted_tier c)
  (pending_tier_emit c) (max_vfm_temporal_layer c) (bwe_vfm_temporal_cap c)
  (bwe_cap_audio_only_bps c) (bwe_cap_low_min_bps c) (dd_structure_cache c) (pacer c)
  (last_pacer_tick c) (keyframe_waits c) (pending_propagated c) (alive c) v
  (external_peer_id c) (close_signal c) (voice_data_cid c) (chat_data_cid c) (chat_ctrl_cid c)
  (reactions_dc_cid c) (keys_dc_cid c) (sfu_events_cid c) (reactions_dc_opened c)
  (ws_msg_tx c) (ws_ctrl_rx c) (pending_offer c) (renegotiation_queue c) (pending_offer_at c).
Definition put_reactions_dc_opened (v : bool) (c : Client) : Client :=
  mkClient (id c) (tracks_in c) (tracks_out c) (chosen_rid c) (last_switch_keyframe_request c)
  (desired_layer c) (active_rids c) (delivered_media c) (last_emitted_tier c)
  (pending_tier_emit c) (max_vfm_temporal_layer c) (bwe_vfm_temporal_cap c)
  (bwe_cap_audio_only_bps c) (bwe_cap_low_min_bps c) (dd_structure_cache c) (pacer c)
  (last_pacer_tick c) (keyframe_waits c) (pending_propagated c) (alive c) (is_relay c)
  (external_peer_id c) (close_signal c) (voice_data_cid c) (chat_data_cid c) (chat_ctrl_cid c)
  (reactions_dc_cid c) (keys_dc_cid c) (sfu_events_cid c) v (ws_msg_tx c) (ws_ctrl_rx c)
  (pending_offer c) (renegotiation_queue c) (pending_offer_at c).
Definition put_ws_ctrl_rx (v : bool) (c : Client) : Client :=
  mkClient (id c) (tracks_in c) (tracks_out c) (chosen_rid c) (last_switch_keyframe_request c)
  (desired_layer c) (active_rids c) (delivered_media c) (last_emitted_tier c)
  (pending_tier_emit c) (max_vfm_temporal_layer c) (bwe_vfm_temporal_cap c)
  (bwe_cap_audio_only_bps c) (bwe_cap_low_min_bps c) (dd_structure_cache c) (pacer c)
  (last_pacer_tick c) (keyframe_waits c) (pending_propagated c) (alive c) (is_relay c)
  (external_peer_id c) (close_signal c) (voice_data_cid c) (chat_data_cid c) (chat_ctrl_cid c)
  (reactions_dc_cid c) (keys_dc_cid c) (sfu_events_cid c) (reactions_dc_opened c)
  (ws_msg_tx c) v (pending_offer c) (renegotiation_queue c) (pending_offer_at c).
Definition put_pending_offer (v : option SdpPendingOffer) (c : Client) : Client :=
  mkClient (id c) (tracks_in c) (tracks_out c) (chosen_rid c) (last_switch_keyframe_request c)
  (desired_layer c) (active_rids c) (delivered_media c) (last_emitted_tier c)
  (pending_tier_emit c) (max_vfm_temporal_layer c) (bwe_vfm_temporal_cap c)
  (bwe_cap_audio_only_bps c) (bwe_cap_low_min_bps c) (dd_structure_cache c) (pacer c)
  (last_pacer_tick c) (keyframe_waits c) (pending_propagated c) (alive c) (is_relay c)
  (external_peer_id c) (close_signal c) (voice_data_cid c) (chat_data_cid c) (chat_ctrl_cid c)
  (reactions_dc_cid c) (keys_dc_cid c) (sfu_events_cid c) (reactions_dc_opened c)
  (ws_msg_tx c) (ws_ctrl_rx c) v (renegotiation_queue c) (pending_offer_at c).
Definition put_renegotiation_queue (v : list TrackRef) (c : Client) : Client :=
  mkClient (id c) (tracks_in c) (tracks_out c) (chosen_rid c) (last_switch_keyframe_request c)
  (desired_layer c) (active_rids c) (delivered_media c) (last_emitted_tier c)
  (pending_tier_emit c) (max_vfm_temporal_layer c) (bwe_vfm_temporal_cap c)
  (bwe_cap_audio_only_bps c) (bwe_cap_low_min_bps c) (dd_structure_cache c) (pacer c)
  (last_pacer_tick c) (keyframe_waits c) (pending_propagated c) (alive c) (is_relay c)
  (external_peer_id c) (close_signal c) (voice_data_cid c) (chat_data_cid c) (chat_ctrl_cid c)
  (reactions_dc_cid c) (keys_dc_cid c) (sfu_events_cid c) (reactions_dc_opened c)
  (ws_msg_tx c) (ws_ctrl_rx c) (pending_offer c) v (pending_offer_at c).
Definition put_pending_offer_at (v : option Instant) (c : Client) : Client :=
  mkClient (id c) (tracks_in c) (tracks_out c) (chosen_rid c) (last_switch_keyframe_request c)
  (desired_layer c) (active_rids c) (delivered_media c) (last_emitted_tier c)
  (pending_tier_emit c) (max_vfm_temporal_layer c) (bwe_vfm_temporal_cap c)
  (bwe_cap_audio_only_bps c) (bwe_cap_low_min_bps c) (dd_structure_cache c) (pacer c)
  (last_pacer_tick c) (keyframe_waits c) (pending_propagated c) (alive c) (is_relay c)
  (external_peer_id c) (close_signal c) (voice_data_cid c) (chat_data_cid c) (chat_ctrl_cid c)
  (reactions_dc_cid c) (keys_dc_cid c) (sfu_events_cid c) (reactions_dc_opened c)
  (ws_msg_tx c) (ws_ctrl_rx c) (pending_offer c) (renegotiation_queue c) v.
Definition put_close_signal (v : bool) (c : Client) : Client :=
  mkClient (id c) (tracks_in c) (tracks_out c) (chosen_rid c) (last_switch_keyframe_request c)
  (desired_layer c) (active_rids c) (delivered_media c) (last_emitted_tier c)
  (pending_tier_emit c) (max_vfm_temporal_layer c) (bwe_vfm_temporal_cap c)
  (bwe_cap_audio_only_bps c) (bwe_cap_low_min_bps c) (dd_structure_cache c) (pacer c)
  (last_pacer_tick c) (keyframe_waits c) (pending_propagated c) (alive c) (is_relay c)
  (external_peer_id c) v (voice_data_cid c) (chat_data_cid c) (chat_ctrl_cid c)
  (reactions_dc_cid c) (keys_dc_cid c) (sfu_events_cid c) (reactions_dc_opened c)
  (ws_msg_tx c) (ws_ctrl_rx c) (pending_offer c) (renegotiation_queue c) (pending_offer_at c).
Definition put_voice_data_cid (v : bool) (c : Client) : Client :=
  mkClient (id c) (tracks_in c) (tracks_out c) (chosen_rid c) (last_switch_keyframe_request c)
  (desired_layer c) (active_rids c) (delivered_media c) (last_emitted_tier c)
  (pending_tier_emit c) (max_vfm_temporal_layer c) (bwe_vfm_temporal_cap c)
  (bwe_cap_audio_only_bps c) (bwe_cap_low_min_bps c) (dd_structure_cache c) (pacer c)
  (last_pacer_tick c) (keyframe_waits c) (pending_propagated c) (alive c) (is_relay c)
  (external_peer_id c) (close_signal c) v (chat_data_cid c) (chat_ctrl_cid c)
  (reactions_dc_cid c) (keys_dc_cid c) (sfu_events_cid c) (reactions_dc_opened c)
  (ws_msg_tx c) (ws_ctrl_rx c) (pending_offer c) (renegotiation_queue c) (pending_offer_at c).
Definition put_chat_data_cid (v : bool) (c : Client) : Client :=
  mkClient (id c) (tracks_in c) (tracks_out c) (chosen_rid c) (last_switch_keyframe_request c)
  (desired_layer c) (active_rids c) (delivered_media c) (last_emitted_tier c)
  (pending_tier_emit c) (max_vfm_temporal_layer c) (bwe_vfm_temporal_cap c)
  (bwe_cap_audio_only_bps c) (bwe_cap_low_min_bps c) (dd_structure_cache c) (pacer c)
  (last_pacer_tick c) (keyframe_waits c) (pending_propagated c) (alive c) (is_relay c)
  (external_peer_id c) (close_signal c) (voice_data_cid c) v (chat_ctrl_cid c)
  (reactions_dc_cid c) (keys_dc_cid c) (sfu_events_cid c) (reactions_dc_opened c)
  (ws_msg_tx c) (ws_ctrl_rx c) (pending_offer c) (renegotiation_queue c) (pending_offer_at c).
Definition put_chat_ctrl_cid (v : bool) (c : Client) : Client :=
  mkClient (id c) (tracks_in c) (tracks_out c) (chosen_rid c) (last_switch_keyframe_request c)
  (desired_layer c) (active_rids c) (delivered_media c) (last_emitted_tier c)
  (pending_tier_emit c) (max_vfm_temporal_layer c) (bwe_vfm_temporal_cap c)
  (bwe_cap_audio_only_bps c) (bwe_cap_low_min_bps c) (dd_structure_cache c) (pacer c)
  (last_pacer_tick c) (keyframe_waits c) (pending_propagated c) (alive c) (is_relay c)
  (external_peer_id c) (close_signal c) (voice_data_cid c) (chat_data_cid c) v
  (reactions_dc_cid c) (keys_dc_cid c) (sfu_events_cid c) (reactions_dc_opened c)
  (ws_msg_tx c) (ws_ctrl_rx c) (pending_offer c) (renegotiation_queue c) (pending_offer_at c).
Definition put_reactions_dc_cid (v : bool) (c : Client) : Client :=
  mkClient (id c) (tracks_in c) (tracks_out c) (chosen_rid c) (last_switch_keyframe_request c)
  (desired_layer c) (active_rids c) (delivered_media c) (last_emitted_tier c)
  (pending_tier_emit c) (max_vfm_temporal_layer c) (bwe_vfm_temporal_cap c)
  (bwe_cap_audio_only_bps c) (bwe_cap_low_min_bps c) (dd_structure_cache c) (pacer c)
  (last_pacer_tick c) (keyframe_waits c) (pending_propagated c) (alive c) (is_relay c)
  (external_peer_id c) (close_signal c) (voice_data_cid c) (chat_data_cid c) (chat_ctrl_cid c)
  v (keys_dc_cid c) (sfu_events_cid c) (reactions_dc_opened c) (ws_msg_tx c) (ws_ctrl_rx c)
  (pending_offer c) (renegotiation_queue c) (pending_offer_at c).
Definition put_keys_dc_cid (v : bool) (c : Client) : Client :=
  mkClient (id c) (tracks_in c) (tracks_out c) (chosen_rid c) (last_switch_keyframe_request c)
  (desired_layer c) (active_rids c) (delivered_media c) (last_emitted_tier c)
  (pending_tier_emit c) (max_vfm_temporal_layer c) (bwe_vfm_temporal_cap c)
  (bwe_cap_audio_only_bps c) (bwe_cap_low_min_bps c) (dd_structure_cache c) (pacer c)
  (last_pacer_tick c) (keyframe_waits c) (pending_propagated c) (alive c) (is_relay c)
  (external_peer_id c) (close_signal c) (voice_data_cid c) (chat_data_cid c) (chat_ctrl_cid c)
  (reactions_dc_cid c) v (sfu_events_cid c) (reactions_dc_opened c) (ws_msg_tx c)
  (ws_ctrl_rx c) (pending_offer c) (renegotiation_queue c) (pending_offer_at c).
Definition put_sfu_events_cid (v : bool) (c : Client) : Client :=
  mkClient (id c) (tracks_in c) (tracks_out c) (chosen_rid c) (last_switch_keyframe_request c)
  (desired_layer c) (active_rids c) (delivered_media c) (last_emitted_tier c)
  (pending_tier_emit c) (max_vfm_temporal_layer c) (bwe_vfm_temporal_cap c)
  (bwe_cap_audio_only_bps c) (bwe_cap_low_min_bps c) (dd_structure_cache c) (pacer c)
  (last_pacer_tick c) (keyframe_waits c) (pending_propagated c) (alive c) (is_relay c)
  (external_peer_id c) (close_signal c) (voice_data_cid c) (chat_data_cid c) (chat_ctrl_cid c)
  (reactions_dc_cid c) (keys_dc_cid c) v (reactions_dc_opened c) (ws_msg_tx c) (ws_ctrl_rx c)
  (pending_offer c) (renegotiation_queue c) (pending_offer_at c).
Definition put_external_peer_id (v : option Z) (c : Client) : Client :=
  mkClient (id c) (tracks_in c) (tracks_out c) (chosen_rid c) (last_switch_keyframe_request c)
  (desired_layer c) (active_rids c) (delivered_media c) (last_emitted_tier c)
  (pending_tier_emit c) (max_vfm_temporal_layer c) (bwe_vfm_temporal_cap c)
  (bwe_cap_audio_only_bps c) (bwe_cap_low_min_bps c) (dd_structure_cache c) (pacer c)
  (last_pacer_tick c) (keyframe_waits c) (pending_propagated c) (alive c) (is_relay c) v
  (close_signal c) (voice_data_cid c) (chat_data_cid c) (chat_ctrl_cid c) (reactions_dc_cid c)
  (keys_dc_cid c) (sfu_events_cid c) (reactions_dc_opened c) (ws_msg_tx c) (ws_ctrl_rx c)
  (pending_offer c) (renegotiation_queue c) (pending_offer_at c).
Definition put_ws_msg_tx (v : bool) (c : Client) : Client :=
  mkClient (id c) (tracks_in c) (tracks_out c) (chosen_rid c) (last_switch_keyframe_request c)
  (desired_layer c) (active_rids c) (delivered_media c) (last_emitted_tier c)
  (pending_tier_emit c) (max_vfm_temporal_layer c) (bwe_vfm_temporal_cap c)
  (bwe_cap_audio_only_bps c) (bwe_cap_low_min_bps c) (dd_structure_cache c) (pacer c)
  (last_pacer_tick c) (keyframe_waits c) (pending_propagated c) (alive c) (is_relay c)
  (external_peer_id c) (close_signal c) (voice_data_cid c) (chat_data_cid c) (chat_ctrl_cid c)
  (reactions_dc_cid c) (keys_dc_cid c) (sfu_events_cid c) (reactions_dc_opened c) v
  (ws_ctrl_rx c) (pending_offer c) (renegotiation_queue c) (pending_offer_at c).


(** ** Construction (client/construct.rs, pacer.rs) *)

(** The lower rail of the pacer configuration; the upper one is the kit's
    [LOW_MIN_BPS], an argument of [client_new]. *)
Definition audio_only_bps : Z := 100000.

Definition client_new (cid : ClientId) (low_min_bps : Z) : Client := {|
  id := cid; tracks_in := []; tracks_out := []; chosen_rid := None;
  last_switch_keyframe_request := ∅; desired_layer := LOW; active_rids := [];
  delivered_media := 0; last_emitted_tier := None; pending_tier_emit := None;
  max_vfm_temporal_layer := u8_max; bwe_vfm_temporal_cap := u8_max;
  bwe_cap_audio_only_bps := audio_only_bps; bwe_cap_low_min_bps := low_min_bps;
  dd_structure_cache := cache_new; pacer := []; last_pacer_tick := None;
  keyframe_waits := []; pending_propagated := []; alive := true; is_relay := false;
  external_peer_id := None; close_signal := false; voice_data_cid := false;
  chat_data_cid := false; chat_ctrl_cid := false; reactions_dc_cid := false;
  keys_dc_cid := false; sfu_events_cid := false;
  reactions_dc_opened := false; ws_msg_tx := false; ws_ctrl_rx := false;
  pending_offer := None; renegotiation_queue := []; pending_offer_at := None |}.

Definition with_chat_dcs (c : Client) : Client * list Effect :=
  (put_chat_ctrl_cid true (put_chat_data_cid true c),
   [Inc "chat_relay_active_channels" ["data"]; Inc "chat_relay_active_channels" ["ctrl"]]).

Definition with_voice_dc (c : Client) : Client * list Effect :=
  (put_voice_data_cid true c, [Inc "voice_relay_active_channels" ["voice"]]).

Definition with_reactions_dc (c : Client) : Client := put_reactions_dc_cid true c.
Definition with_keys_dc (c : Client) : Client := put_keys_dc_cid true c.
Definition with_sfu_events_dc (c : Client) : Client := put_sfu_events_cid true c.
Definition with_external_peer_id (peer : Z) (c : Client) : Client :=
  put_external_peer_id (Some peer) c.
Definition with_close_signal (c : Client) : Client := put_close_signal true c.
Definition with_ws_msg_tx (c : Client) : Client := put_ws_msg_tx true c.
Definition with_ws_ctrl_rx (c : Client) : Client := put_ws_ctrl_rx true c.

Definition new_outbound_relay (cid : ClientId) (low_min_bps : Z) : Client :=
  put_is_relay true (client_new cid low_min_bps).
