(* ===== verification/SfuKeyframe.v ===== *)
(** * Keyframe requests (crates/sfu/src/client/keyframe.rs)

    The three throttled paths by which a picture-loss indication reaches a
    publisher: the publisher-side per-track gate, the per-layer gate of a
    simulcast switch, and the bounded subscribe-triggered retry loop.  Each
    handler reads the clock once, as the argument [now]. *)

From Stdlib Require Import ZArith Lia.
From stdpp Require Import base option numbers gmap strings list.
From S2P Require Import Prelude DdParse DdParseFacts DdCache SfuTypes.

Definition KEYFRAME_REQUEST_MIN_GAP : Z := second.
Definition KEYFRAME_SUBSCRIBE_MAX_ATTEMPTS : Z := 5.
Definition KEYFRAME_SUBSCRIBE_DEADLINE : Z := 10 * second.

(** ** Publisher side *)

(** [last.map(|t| t.elapsed() < GAP).unwrap_or(false)] *)
Definition requested_recently (now : Instant) (last : option Instant) : bool :=
  match last with
  | Some t => duration_since now t <? KEYFRAME_REQUEST_MIN_GAP
  | None => false
  end.

Definition mark_requested (now : Instant) (e : TrackInEntry) : TrackInEntry :=
  mkTrackInEntry (tie_ref e) (tie_id e) (Some now).

Definition find_track_in (mid : Mid) (c : Client) : option (nat * TrackInEntry) :=
  list_find (fun e => ti_mid (tie_id e) = mid) (tracks_in c).

(** [writer] tells whether str0m has a writer for the mid. *)
Definition request_keyframe_throttled (writer : bool) (now : Instant) (mid : Mid)
    (rid : option Rid) (c : Client) : Client * list Effect :=
  if negb writer then (c, [])
  else match find_track_in mid c with
       | None => (c, [])
       | Some (i, e) =>
           if requested_recently now (last_keyframe_request e) then (c, [])
           else (put_tracks_in (alter (mark_requested now) i (tracks_in c)) c,
                 [RtcRequestKeyframe (id c) mid rid])
       end.

Definition handle_keyframe_request (writer : bool) (now : Instant) (req : KeyframeRequest)
    (mid_in : Mid) (c : Client) : Client * list Effect :=
  match find_track_in mid_in c with
  | None => (c, [])
  | Some (i, e) =>
      if requested_recently now (last_keyframe_request e) then (c, [])
      else
        let c := put_tracks_in (alter (mark_requested now) i (tracks_in c)) c in
        if negb writer then (c, [])
        else (c, [RtcRequestKeyframe (id c) mid_in (kr_rid req)])
  end.

(** ** Subscriber side: simulcast switch *)

Definition emit_keyframe_on_layer_switch (h : TrackStore) (now : Instant) (new_rid : Rid)
    (c : Client) : Client * list Effect * list Propagated :=
  if requested_recently now (last_switch_keyframe_request c !! new_rid) then (c, [], [])
  else
    (put_last_switch_keyframe_request (<[new_rid := now]> (last_switch_keyframe_request c)) c,
     [Inc "sfu_keyframe_on_switch_total" [rid_label_for new_rid]],
     omap (fun o =>
       t ← upgrade h (to_track_in o);
       if decide (ti_kind t = Video) then
         Some (PKeyframeRequest (id c) (mkKeyframeRequest (ti_mid t) (Some new_rid) Pli)
                 (ti_origin t) (ti_mid t))
       else None) (tracks_out c)).

(** ** Subscriber side: a stalled decoder *)

Definition incoming_keyframe_req (h : TrackStore) (req : KeyframeRequest) (c : Client)
    : Propagated :=
  match list_find (fun o => out_mid o = Some (kr_mid req)) (tracks_out c) with
  | None => PNoop
  | Some (_, track_out) =>
      match upgrade h (to_track_in track_out) with
      | None => PNoop
      | Some t =>
          PKeyframeRequest (id c) (mkKeyframeRequest (kr_mid req) (chosen_rid c) (kr_kind req))
            (ti_origin t) (ti_mid t)
      end
  end.

(** ** Subscriber side: the subscribe-triggered loop *)

Definition wait_key (w : KeyframeWait) : StreamKey := (kw_origin w, kw_mid_in w).

(** The request a wait sends. *)
Definition wait_request (c : Client) (k : StreamKey) : Propagated :=
  PKeyframeRequest (id c) (mkKeyframeRequest k.2 (chosen_rid c) Pli) k.1 k.2.

Definition start_keyframe_wait (origin : ClientId) (mid_in : Mid) (now : Instant)
    (c : Client) : Client * list Effect :=
  if decide (Exists (fun w => wait_key w = (origin, mid_in)) (keyframe_waits c)) then (c, [])
  else
    let c := put_pending_propagated
               (pending_propagated c ++ [wait_request c (origin, mid_in)]) c in
    (put_keyframe_waits (keyframe_waits c ++ [mkWait origin mid_in now now 1]) c,
     [Inc "sfu_keyframe_on_subscribe_requests_total" ["initial"]]).

(** The publisher tracks of the open video entries. *)
Definition open_video_tracks (h : TrackStore) (c : Client) : list StreamKey :=
  omap (fun o =>
    match to_state o with
    | Open _ =>
        t ← upgrade h (to_track_in o);
        if decide (ti_kind t = Video) then Some (ti_origin t, ti_mid t) else None
    | _ => None
    end) (tracks_out c).

Definition start_keyframe_waits_for_open_video_tracks (h : TrackStore) (now : Instant)
    (c : Client) : Client * list Effect :=
  fold_left (fun '(c, es) '(origin, mid_in) =>
      let '(c, es') := start_keyframe_wait origin mid_in now c in (c, es ++ es'))
    (open_video_tracks h c) (c, []).

(** What one pass of the pump decides for a wait. *)
Inductive verdict :=
| VDrop (outcome : string)
| VKeep
| VRetry.

Definition publisher_alive (h : TrackStore) (outs : list TrackOut) (k : StreamKey) : bool :=
  existsb (fun o => match upgrade h (to_track_in o) with
                    | Some t => bool_decide ((ti_origin t, ti_mid t) = k)
                    | None => false
                    end) outs.

Definition judge (h : TrackStore) (outs : list TrackOut) (now : Instant) (w : KeyframeWait)
    : verdict :=
  if KEYFRAME_SUBSCRIBE_DEADLINE <=? duration_since now (started_at w)
  then VDrop "budget_exhausted"
  else if KEYFRAME_SUBSCRIBE_MAX_ATTEMPTS <=? attempts w then VDrop "budget_exhausted"
  else if duration_since now (last_request_at w) <? KEYFRAME_REQUEST_MIN_GAP then VKeep
  else if negb (publisher_alive h outs (wait_key w)) then VDrop "publisher_gone"
  else VRetry.

Definition retried (now : Instant) (w : KeyframeWait) : KeyframeWait :=
  mkWait (kw_origin w) (kw_mid_in w) (started_at w) now (wrap_u32 (attempts w + 1)).

(** One turn of the index loop: the client, the effects so far and
    [to_remove]. *)
Definition pump_step (h : TrackStore) (now : Instant)
    (st : Client * list Effect * list (nat * string)) (i : nat)
    : Client * list Effect * list (nat * string) :=
  let '(c, es, to_remove) := st in
  match keyframe_waits c !! i with
  | None => st
  | Some w =>
      match judge h (tracks_out c) now w with
      | VDrop outcome => (c, es, to_remove ++ [(i, outcome)])
      | VKeep => st
      | VRetry =>
          let c := put_pending_propagated
                     (pending_propagated c ++ [wait_request c (wait_key w)]) c in
          (put_keyframe_waits (<[i := retried now w]> (keyframe_waits c)) c,
           es ++ [Inc "sfu_keyframe_on_subscribe_requests_total" ["retry"]],
           to_remove)
      end
  end.

(** The removal loop walks [to_remove] backwards. *)
Definition remove_wait (outcome_of : string -> list Effect) (st : Client * list Effect)
    (r : nat * string) : Client * list Effect :=
  let '(c, es) := st in
  (put_keyframe_waits (delete r.1 (keyframe_waits c)) c, es ++ outcome_of r.2).

Definition outcome_inc (outcome : string) : list Effect :=
  [Inc "sfu_keyframe_on_subscribe_outcome_total" [outcome]].

Definition pump_keyframe_waits (h : TrackStore) (now : Instant) (c : Client)
    : Client * list Effect :=
  let '(c, es, to_remove) :=
    fold_left (pump_step h now) (seq 0 (length (keyframe_waits c))) (c, [], []) in
  fold_left (remove_wait outcome_inc) (rev to_remove) (c, es).

(** Indices, from [n] on, of the elements that satisfy [p]. *)
Fixpoint indices {A} (p : A -> bool) (n : nat) (l : list A) : list nat :=
  match l with
  | [] => []
  | x :: l' => if p x then n :: indices p (S n) l' else indices p (S n) l'
  end.

Definition terminate_waits (now : Instant) (origin : ClientId) (mid : Mid) (outcome : string)
    (record_time_to_first : bool) (c : Client) : Client * list Effect :=
  let matching := indices (fun w => bool_decide (wait_key w = (origin, mid))) 0 (keyframe_waits c) in
  fold_left (fun '(c, es) i =>
      match keyframe_waits c !! i with
      | None => (c, es)
      | Some w =>
          (put_keyframe_waits (delete i (keyframe_waits c)) c,
           es ++ outcome_inc outcome ++
           (if record_time_to_first
            then [Observe "sfu_keyframe_on_subscribe_time_to_first_seconds"
                    (duration_since now (started_at w))]
            else []))
      end) (rev matching) (c, []).

Definition observe_keyframe (now : Instant) (origin : ClientId) (data : MediaData) (c : Client)
    : Client * list Effect :=
  if md_is_keyframe data then terminate_waits now origin (md_mid data) "observed" true c
  else match md_codec data with
       | Av1 | Vp9 => terminate_waits now origin (md_mid data) "codec_unobservable" false c
       | OtherVideo | OtherAudio => (c, [])
       end.
