(* ===== verification/SfuKeyframeFacts.v ===== *)
(** * Theorems on keyframe requests

    The index loops of the pump and of the observer equal a per-wait reference
    function; the retry loop cannot storm a publisher and always ends; the
    publisher forwards at most one request per track and gap. *)

From Stdlib Require Import ZArith Lia Sorting.Sorted.
From stdpp Require Import base option numbers gmap strings list.
From S2P Require Import Prelude DdParse DdParseFacts DdCache SfuTypes SfuKeyframe.

(** ** Removing indices from the back *)

Lemma delete_indices_back {A} (p : A -> bool) (l : list A) : forall pre,
  fold_right delete (pre ++ l) (indices p (length pre) l) =
  pre ++ filter (fun x => p x = false) l.
Proof.
  induction l as [|x l IH]; intros pre; [done|].
  specialize (IH (pre ++ [x])). rewrite length_app in IH; simpl in IH.
  rewrite Nat.add_1_r in IH. rewrite <- !app_assoc in IH. simpl in IH.
  cbn [indices]. rewrite filter_cons.
  destruct (p x) eqn:Hp; cbn [fold_right]; rewrite IH.
  - rewrite decide_False by done. by rewrite delete_middle.
  - by rewrite decide_True by done.
Qed.

Lemma fold_left_rev {A B} (f : B -> A -> B) (l : list A) (b : B) :
  fold_left f (rev l) b = fold_right (fun x acc => f acc x) b l.
Proof. by rewrite <- fold_left_rev_right, rev_involutive. Qed.

(** Every index of [l] with [p] is in range and satisfies it. *)
Lemma indices_lookup {A} (p : A -> bool) (l : list A) : forall n i,
  i ∈ indices p n l -> exists x, l !! (i - n)%nat = Some x /\ p x = true /\ (n <= i)%nat.
Proof.
  induction l as [|x l IH]; intros n i Hi; [by apply elem_of_nil in Hi|].
  cbn [indices] in Hi. destruct (p x) eqn:Hp.
  - apply elem_of_cons in Hi as [->|Hi].
    + exists x. by rewrite Nat.sub_diag.
    + destruct (IH _ _ Hi) as (y & Hy & ? & ?). exists y.
      replace (i - n)%nat with (S (i - S n))%nat by lia. split_and!; [done|done|lia].
  - destruct (IH _ _ Hi) as (y & Hy & ? & ?). exists y.
    replace (i - n)%nat with (S (i - S n))%nat by lia. split_and!; [done|done|lia].
Qed.

(** ** The pump *)

(** Reference: what a pass leaves of one wait, and the request it sends. *)
Definition pumped (h : TrackStore) (outs : list TrackOut) (now : Instant) (w : KeyframeWait)
    : option KeyframeWait :=
  match judge h outs now w with
  | VDrop _ => None
  | VKeep => Some w
  | VRetry => Some (retried now w)
  end.

Definition retries (h : TrackStore) (outs : list TrackOut) (now : Instant)
    (ws : list KeyframeWait) : list StreamKey :=
  omap (fun w => match judge h outs now w with VRetry => Some (wait_key w) | _ => None end) ws.

(** A pass with its effects forgotten: the waits and the requests queued. *)
Definition pump_ref (h : TrackStore) (now : Instant) (c : Client) : Client :=
  let ws := keyframe_waits c in
  put_keyframe_waits (omap (pumped h (tracks_out c) now) ws)
    (put_pending_propagated
       (pending_propagated c ++ (wait_request c <$> retries h (tracks_out c) now ws)) c).

Section Pump.
Context (h : TrackStore) (now : Instant).

(** A wait after the first loop: dropped waits are still in place. *)
Definition touched (outs : list TrackOut) (w : KeyframeWait) : KeyframeWait :=
  match judge h outs now w with VRetry => retried now w | _ => w end.

Definition doomed (outs : list TrackOut) (w : KeyframeWait) : bool :=
  match judge h outs now w with VDrop _ => true | _ => false end.

Definition progress (c : Client) (done rest : list KeyframeWait) : Client :=
  put_keyframe_waits ((touched (tracks_out c) <$> done) ++ rest)
    (put_pending_propagated
       (pending_propagated c ++ (wait_request c <$> retries h (tracks_out c) now done)) c).

Lemma pump_loop c0 rest : forall done es rm,
  let st := fold_left (pump_step h now) (seq (length done) (length rest))
              (progress c0 done rest, es, rm) in
  exists es' rm',
    st = (progress c0 (done ++ rest) [], es', rm') /\
    rm'.*1 = rm.*1 ++ indices (doomed (tracks_out c0)) (length done) rest.
Proof.
  induction rest as [|w rest IH]; intros done es rm; cbn [length seq fold_left].
  { exists es, rm. by rewrite app_nil_r, app_nil_r. }
  assert (keyframe_waits (progress c0 done (w :: rest)) !! length done = Some w)
    as Hlook.
  { cbn. rewrite lookup_app_r by (rewrite length_fmap; lia).
    by rewrite length_fmap, Nat.sub_diag. }
  unfold pump_step at 2. rewrite Hlook.
  change (tracks_out (progress c0 done (w :: rest))) with (tracks_out c0).
  specialize (IH (done ++ [w])). rewrite length_app in IH. cbn [length] in IH.
  rewrite Nat.add_1_r in IH. rewrite <- app_assoc in IH. cbn [app] in IH.
  assert (progress c0 (done ++ [w]) rest =
    put_keyframe_waits ((touched (tracks_out c0) <$> done) ++ touched (tracks_out c0) w :: rest)
      (put_pending_propagated (pending_propagated c0 ++
         (wait_request c0 <$> retries h (tracks_out c0) now (done ++ [w]))) c0)) as Hp.
  { unfold progress. by rewrite fmap_app, <- app_assoc. }
  unfold retries in Hp. rewrite omap_app, fmap_app, app_assoc in Hp. cbn [omap list_omap] in Hp.
  cbn [indices]. unfold doomed at 1. unfold touched at 2 in Hp.
  destruct (judge h (tracks_out c0) now w) as [outcome| |] eqn:Hj; cbn [fmap list_fmap] in Hp.
  - rewrite app_nil_r in Hp. fold (retries h (tracks_out c0) now done) in Hp.
    change (put_keyframe_waits _ _) with (progress c0 done (w :: rest)) in Hp.
    rewrite <- Hp. destruct (IH es (rm ++ [(length done, outcome)])) as (es' & rm' & -> & Hrm).
    exists es', rm'. split; [done|]. rewrite Hrm, fmap_app, <- app_assoc. done.
  - rewrite app_nil_r in Hp. fold (retries h (tracks_out c0) now done) in Hp.
    change (put_keyframe_waits _ _) with (progress c0 done (w :: rest)) in Hp.
    rewrite <- Hp. apply IH.
  - edestruct (IH (es ++ [Inc "sfu_keyframe_on_subscribe_requests_total" ["retry"]]) rm)
      as (es' & rm' & Hst & Hrm). exists es', rm'. split; [|exact Hrm].
    rewrite <- Hst. f_equal. f_equal. f_equal. rewrite Hp.
    fold (retries h (tracks_out c0) now done).
    unfold progress, put_keyframe_waits, put_pending_propagated; cbn. f_equal.
    rewrite insert_app_r_alt by (rewrite length_fmap; lia).
    by rewrite length_fmap, Nat.sub_diag.
Qed.

Lemma remove_waits_ref c es rm :
  (fold_left (remove_wait outcome_inc) (rev rm) (c, es)).1 =
  put_keyframe_waits (fold_right delete (keyframe_waits c) rm.*1) c.
Proof.
  rewrite fold_left_rev. induction rm as [|r rm IH]; [by destruct c|].
  cbn [fold_right fmap list_fmap]. destruct (fold_right _ _ rm) as [c' es'].
  cbn [fst remove_wait] in *. by rewrite IH.
Qed.

Lemma indices_fmap {A B} (f : A -> B) (p : B -> bool) (q : A -> bool) l :
  Forall (fun x => p (f x) = q x) l -> forall n, indices q n l = indices p n (f <$> l).
Proof.
  induction 1 as [|x l Hx _ IH]; intros n; [done|]. cbn. rewrite Hx, !IH. done.
Qed.

Lemma filter_indices {A} (q : A -> bool) (f g : A -> A) (l : list A) : forall pre,
  (forall x, q x = false -> f x = g x) ->
  fold_right delete (pre ++ (f <$> l)) (indices q (length pre) l) =
  pre ++ omap (fun x => if q x then None else Some (g x)) l.
Proof.
  intros pre Hfg. revert pre. induction l as [|x l IH]; intros pre; [done|].
  specialize (IH (pre ++ [f x])). rewrite length_app in IH; simpl in IH.
  rewrite Nat.add_1_r in IH. rewrite <- !app_assoc in IH. simpl in IH.
  cbn. destruct (q x) eqn:Hq; cbn [fold_right]; rewrite IH.
  - by rewrite delete_middle.
  - by rewrite Hfg.
Qed.

(** The index loops compute the reference. *)
Lemma pump_keyframe_waits_ref c : (pump_keyframe_waits h now c).1 = pump_ref h now c.
Proof.
  unfold pump_keyframe_waits.
  pose proof (pump_loop c (keyframe_waits c) [] [] []) as H. cbn [length] in H. cbv zeta in H.
  replace (progress c [] (keyframe_waits c)) with c in H
    by (unfold progress; cbn; rewrite app_nil_r; by destruct c).
  destruct H as (es' & rm' & -> & Hrm). rewrite remove_waits_ref, Hrm. cbn [fmap list_fmap app].
  unfold progress, pump_ref. rewrite app_nil_r. cbn [app keyframe_waits put_keyframe_waits].
  set (outs := tracks_out c).
  pose proof (filter_indices (doomed outs) (touched outs) (touched outs) (keyframe_waits c) []) as F.
  cbn [app length] in F. rewrite F by done.
  assert (omap (fun x => if doomed outs x then None else Some (touched outs x)) (keyframe_waits c) =
          omap (pumped h outs now) (keyframe_waits c)) as ->; [|done].
  apply omap_ext_in. intros w _.
  unfold doomed, touched, pumped. by destruct (judge h outs now w).
Qed.

End Pump.

(** ** Observation *)

Lemma terminate_waits_ref now origin mid outcome rec c :
  (terminate_waits now origin mid outcome rec c).1 =
  put_keyframe_waits (filter (fun w => wait_key w <> (origin, mid)) (keyframe_waits c)) c.
Proof.
  unfold terminate_waits. rewrite fold_left_rev.
  set (p := fun w => bool_decide (wait_key w = (origin, mid))).
  set (f := fun i (acc : Client * list Effect) => _).
  assert (forall l pre, keyframe_waits c = pre ++ l ->
    (fold_right f (c, []) (indices p (length pre) l)).1 =
    put_keyframe_waits (pre ++ filter (fun w => p w = false) l) c) as H.
  { induction l as [|w l IH]; intros pre Hpre.
    { cbn. rewrite app_nil_r in *. subst pre. by destruct c. }
    specialize (IH (pre ++ [w])). rewrite length_app, Nat.add_1_r, <- !app_assoc in IH.
    specialize (IH Hpre). cbn [app] in IH. cbn [indices]. rewrite filter_cons.
    destruct (p w) eqn:Hw; cbn [fold_right].
    - rewrite decide_False by done. destruct (fold_right f _ _) as [c' es']. cbn [fst] in IH.
      subst c'. unfold f; cbn. rewrite list_lookup_middle by done. cbn.
      unfold put_keyframe_waits; cbn. by rewrite delete_middle.
    - by rewrite decide_True by done. }
  specialize (H _ [] eq_refl). cbn [length app] in H. rewrite H. f_equal.
  apply list_filter_iff. intros w. unfold p. by rewrite bool_decide_eq_false.
Qed.

(** ** The retry loop is bounded *)

(** Waits are one per stream and have spent between one and five requests. *)
Definition kf_inv (c : Client) : Prop :=
  NoDup (wait_key <$> keyframe_waits c) /\
  Forall (fun w => 1 <= attempts w <= KEYFRAME_SUBSCRIBE_MAX_ATTEMPTS) (keyframe_waits c).

(** The publisher track a queued request is aimed at. *)
Definition request_target (p : Propagated) : option StreamKey :=
  match p with PKeyframeRequest _ _ o m => Some (o, m) | _ => None end.

(** Requests aimed at stream [k] among queued events. *)
Definition spent (k : StreamKey) (ps : list Propagated) : Z :=
  Z.of_nat (length (filter (fun p => request_target p = Some k) ps)).

(** Requests the waits on [k] may still send. *)
Fixpoint budget (k : StreamKey) (ws : list KeyframeWait) : Z :=
  match ws with
  | [] => 0
  | w :: ws' =>
      (if decide (wait_key w = k) then KEYFRAME_SUBSCRIBE_MAX_ATTEMPTS - attempts w else 0) +
      budget k ws'
  end.

Definition pump_many (evs : list (TrackStore * Instant)) (c : Client) : Client :=
  fold_left (fun c '(h, now) => (pump_keyframe_waits h now c).1) evs c.

Lemma spent_app k a b : spent k (a ++ b) = spent k a + spent k b.
Proof. unfold spent. rewrite filter_app, length_app. lia. Qed.

Lemma spent_requests k c keys :
  spent k (wait_request c <$> keys) = Z.of_nat (length (filter (fun k' => k' = k) keys)).
Proof.
  unfold spent. induction keys as [|[o m] keys IH]; [done|].
  rewrite fmap_cons, !filter_cons.
  change (request_target (wait_request c (o, m))) with (Some (o, m)).
  destruct (decide ((o, m) = k)) as [->|Hne].
  - rewrite !decide_True by done. cbn [length]. lia.
  - rewrite !decide_False by congruence. lia.
Qed.

Lemma judge_retry h outs now w :
  judge h outs now w = VRetry ->
  attempts w < KEYFRAME_SUBSCRIBE_MAX_ATTEMPTS /\
  last_request_at w + KEYFRAME_REQUEST_MIN_GAP <= now /\
  publisher_alive h outs (wait_key w) = true.
Proof.
  unfold judge, duration_since, KEYFRAME_REQUEST_MIN_GAP, second. intros H.
  repeat case_match; bool_props; try discriminate; split_and!; try done; lia.
Qed.

Lemma retried_attempts now w :
  1 <= attempts w < KEYFRAME_SUBSCRIBE_MAX_ATTEMPTS ->
  attempts (retried now w) = attempts w + 1.
Proof.
  unfold retried, wrap_u32, KEYFRAME_SUBSCRIBE_MAX_ATTEMPTS; simpl. intros.
  rewrite Z.mod_small; lia.
Qed.

(** A pass spends from the budget of every stream exactly what it sends. *)
Lemma pump_spends h outs now k ws :
  Forall (fun w => 1 <= attempts w <= KEYFRAME_SUBSCRIBE_MAX_ATTEMPTS) ws ->
  Z.of_nat (length (filter (fun k' => k' = k) (retries h outs now ws))) +
    budget k (omap (pumped h outs now) ws) <= budget k ws.
Proof.
  induction 1 as [|w ws Hw _ IH]; [cbn; lia|].
  unfold retries, pumped in *. cbn [omap list_omap budget].
  destruct (judge h outs now w) eqn:Hj; cbn [budget].
  - case_decide; lia.
  - case_decide; lia.
  - apply judge_retry in Hj as (Hlt & _).
    rewrite filter_cons, (retried_attempts now w) by lia.
    change (wait_key (retried now w)) with (wait_key w).
    destruct (decide (wait_key w = k)); cbn [length]; lia.
Qed.

Lemma pumped_keys_sub h outs now ws :
  (wait_key <$> omap (pumped h outs now) ws) `sublist_of` (wait_key <$> ws).
Proof.
  induction ws as [|w ws IH]; [done|]. cbn. unfold pumped at 1.
  destruct (judge h outs now w); cbn; by constructor.
Qed.

Lemma kf_inv_pump h now c : kf_inv c -> kf_inv (pump_keyframe_waits h now c).1.
Proof.
  rewrite pump_keyframe_waits_ref. intros [Hnd Hat]. split; cbn.
  - eapply sublist_NoDup; [done | apply pumped_keys_sub].
  - apply Forall_forall. intros w' (w & Hw & Hp)%list_elem_of_omap.
    rewrite Forall_forall in Hat. specialize (Hat w Hw). unfold pumped in Hp.
    destruct (judge _ _ _ w) eqn:Hj; [done | by simplify_eq |].
    apply judge_retry in Hj as (Hlt & _). injection Hp as <-.
    rewrite retried_attempts; lia.
Qed.

Lemma kf_inv_terminate now o m outcome rec c :
  kf_inv c -> kf_inv (terminate_waits now o m outcome rec c).1.
Proof.
  rewrite terminate_waits_ref. intros [Hnd Hat]. split; cbn.
  - eapply sublist_NoDup; [done|]. apply fmap_sublist, sublist_filter.
  - by apply Forall_filter_keep.
Qed.

Lemma kf_inv_observe now o d c : kf_inv c -> kf_inv (observe_keyframe now o d c).1.
Proof.
  intros H. unfold observe_keyframe.
  destruct (md_is_keyframe d), (md_codec d); try done; by apply kf_inv_terminate.
Qed.

Lemma kf_inv_start o m now c : kf_inv c -> kf_inv (start_keyframe_wait o m now c).1.
Proof.
  intros [Hnd Hat]. unfold start_keyframe_wait. case_decide as Hex; [done|].
  split; cbn.
  - rewrite fmap_app. apply NoDup_app. split_and!; [done | | apply NoDup_singleton].
    intros k Hk Hk'%list_elem_of_singleton. apply Hex.
    apply list_elem_of_fmap in Hk as (w & -> & Hw). apply Exists_exists. by exists w.
  - apply Forall_app. split; [done|]. repeat constructor; simpl;
      unfold KEYFRAME_SUBSCRIBE_MAX_ATTEMPTS; lia.
Qed.

Lemma kf_inv_start_all h now c :
  kf_inv c -> kf_inv (start_keyframe_waits_for_open_video_tracks h now c).1.
Proof.
  unfold start_keyframe_waits_for_open_video_tracks. generalize (open_video_tracks h c) as l.
  assert (forall l c es, kf_inv c -> kf_inv (fold_left (fun '(c, es) '(o, m) =>
    let '(c, es') := start_keyframe_wait o m now c in (c, es ++ es')) l (c, es)).1) as H.
  { clear. induction l as [|[o m] l IH]; intros c es Hc; [done|]. cbn [fold_left].
    pose proof (kf_inv_start o m now c Hc). destruct (start_keyframe_wait o m now c).
    by apply IH. }
  intros l. apply H.
Qed.

Lemma pending_pump h now c :
  pending_propagated (pump_keyframe_waits h now c).1 =
  pending_propagated c ++ (wait_request c <$> retries h (tracks_out c) now (keyframe_waits c)).
Proof. by rewrite pump_keyframe_waits_ref. Qed.

Lemma budget_bound k ws :
  NoDup (wait_key <$> ws) ->
  Forall (fun w => 1 <= attempts w <= KEYFRAME_SUBSCRIBE_MAX_ATTEMPTS) ws ->
  0 <= budget k ws <= KEYFRAME_SUBSCRIBE_MAX_ATTEMPTS - 1.
Proof.
  assert (forall ws, Forall (fun w => 1 <= attempts w <= KEYFRAME_SUBSCRIBE_MAX_ATTEMPTS) ws ->
            0 <= budget k ws /\ (k ∉ (wait_key <$> ws) -> budget k ws = 0)) as Hz.
  { clear. induction 1 as [|w ws Hw _ [IH1 IH2]]; [done|]. cbn.
    rewrite elem_of_cons. case_decide; split; intros; try lia; try naive_solver. }
  intros Hnd Hall. induction Hall as [|w ws Hw Hws IH];
    [cbn; unfold KEYFRAME_SUBSCRIBE_MAX_ATTEMPTS; lia|].
  cbn in *. apply NoDup_cons in Hnd as [Hn Hnd]. destruct (Hz ws Hws) as [? Hzero].
  specialize (IH Hnd). case_decide as Hk; [|lia]. subst k. rewrite (Hzero Hn). lia.
Qed.

(** The queue of [c'] is that of [c] with [reqs] behind it. *)
Definition queues (c c' : Client) (reqs : list Propagated) : Prop :=
  pending_propagated c' = pending_propagated c ++ reqs.

(** A request of subscriber [who] for a picture, to the publisher of a stream. *)
Definition own_request (who : ClientId) (p : Propagated) : Prop :=
  exists origin mid rid, p = PKeyframeRequest who (mkKeyframeRequest mid rid Pli) origin mid.

Lemma budget_app k a b : budget k (a ++ b) = budget k a + budget k b.
Proof. induction a as [|w a IH]; cbn; lia. Qed.

(** Starting a wait puts one request in the queue and four in the budget. *)
Lemma start_spends o m now c k :
  let c' := (start_keyframe_wait o m now c).1 in
  id c' = id c /\ exists reqs, queues c c' reqs /\ Forall (own_request (id c)) reqs /\
    budget k (keyframe_waits c') = budget k (keyframe_waits c) + 4 * spent k reqs.
Proof.
  unfold start_keyframe_wait, queues, spent. case_decide; cbn [fst].
  { split; [done|]. exists []. rewrite app_nil_r, filter_nil. split_and!; [done | constructor | cbn [length]; lia]. }
  split; [done|]. eexists [_]. split; [done|]. split.
  { constructor; [by exists o, m, (chosen_rid c) | constructor]. }
  cbn [keyframe_waits put_keyframe_waits put_pending_propagated]. rewrite budget_app. cbn [budget].
  rewrite filter_cons. change (request_target (wait_request c (o, m))) with (Some (o, m)).
  change (wait_key (mkWait o m now now 1)) with (o, m).
  destruct (decide ((o, m) = k)) as [->|Hne].
  - rewrite !decide_True by done. unfold KEYFRAME_SUBSCRIBE_MAX_ATTEMPTS. rewrite filter_nil.
    cbn [length attempts]. lia.
  - rewrite !decide_False by congruence. rewrite filter_nil. cbn [length]. lia.
Qed.

Lemma start_all_spends h now c k :
  let c' := (start_keyframe_waits_for_open_video_tracks h now c).1 in
  id c' = id c /\ exists reqs, queues c c' reqs /\ Forall (own_request (id c)) reqs /\
    budget k (keyframe_waits c') = budget k (keyframe_waits c) + 4 * spent k reqs.
Proof.
  unfold start_keyframe_waits_for_open_video_tracks. generalize (open_video_tracks h c) as l.
  assert (forall l c es, let c' := (fold_left (fun '(c, es) '(o, m) =>
      let '(c, es') := start_keyframe_wait o m now c in (c, es ++ es')) l (c, es)).1 in
    id c' = id c /\ exists reqs, queues c c' reqs /\ Forall (own_request (id c)) reqs /\
      budget k (keyframe_waits c') = budget k (keyframe_waits c) + 4 * spent k reqs) as H.
  { clear. unfold queues. induction l as [|[o m] l IH]; intros c es; cbn [fold_left].
    { split; [done|]. exists []. unfold spent. rewrite app_nil_r, filter_nil.
      split_and!; [done | constructor | cbn [length fst]; lia]. }
    destruct (start_spends o m now c k) as (Hi & r1 & H1 & F1 & B1). unfold queues in H1.
    destruct (start_keyframe_wait o m now c) as [c1 es1]. cbn [fst] in *.
    destruct (IH c1 (es ++ es1)) as (Hi2 & r2 & H2 & F2 & B2). split; [congruence|].
    exists (r1 ++ r2). rewrite H2, H1, app_assoc, B2, B1, spent_app, <- Hi. split_and!; [done| |lia].
    apply Forall_app. by rewrite Hi in *. }
  intros l. apply H.
Qed.

Lemma pump_requests h now c k :
  kf_inv c ->
  let c' := (pump_keyframe_waits h now c).1 in
  id c' = id c /\ exists reqs, queues c c' reqs /\ Forall (own_request (id c)) reqs /\
    spent k reqs + budget k (keyframe_waits c') <= budget k (keyframe_waits c).
Proof.
  intros Hc. split; [by rewrite pump_keyframe_waits_ref|].
  exists (wait_request c <$> retries h (tracks_out c) now (keyframe_waits c)).
  split; [apply pending_pump|]. split.
  - apply Forall_fmap, Forall_true. intros [o m]. by exists o, m, (chosen_rid c).
  - rewrite spent_requests. pose proof (pump_spends h (tracks_out c) now k (keyframe_waits c) (proj2 Hc)) as Hb.
    assert (keyframe_waits (pump_keyframe_waits h now c).1 =
            omap (pumped h (tracks_out c) now) (keyframe_waits c)) as ->
      by (by rewrite pump_keyframe_waits_ref). lia.
Qed.

(** ** The life of a subscriber

    What happens to the waits of a subscriber, in any order: waits are started for
    the open video tracks, the retry loop is pumped, media is observed, and
    anything else that leaves the waits alone (the queue is drained, tracks come
    and go, a layer is chosen).  [initial] and [retry] collect the requests queued
    by the first two. *)
Inductive wait_life (c0 : Client) : Client -> list Propagated -> list Propagated -> Prop :=
| wl_begin : keyframe_waits c0 = [] -> wait_life c0 c0 [] []
| wl_start c initial retry h now c' reqs :
    wait_life c0 c initial retry -> c' = (start_keyframe_waits_for_open_video_tracks h now c).1 ->
    queues c c' reqs -> wait_life c0 c' (initial ++ reqs) retry
| wl_pump c initial retry h now c' reqs :
    wait_life c0 c initial retry -> c' = (pump_keyframe_waits h now c).1 ->
    queues c c' reqs -> wait_life c0 c' initial (retry ++ reqs)
| wl_observe c initial retry now origin d :
    wait_life c0 c initial retry -> wait_life c0 (observe_keyframe now origin d c).1 initial retry
| wl_other c initial retry c' :
    wait_life c0 c initial retry -> keyframe_waits c' = keyframe_waits c -> id c' = id c ->
    wait_life c0 c' initial retry.

Lemma observe_spends now o d c k :
  id (observe_keyframe now o d c).1 = id c /\
  (kf_inv c -> budget k (keyframe_waits (observe_keyframe now o d c).1) <= budget k (keyframe_waits c)).
Proof.
  assert (forall m outcome b, id (terminate_waits now o m outcome b c).1 = id c /\
    (kf_inv c -> budget k (keyframe_waits (terminate_waits now o m outcome b c).1) <=
                 budget k (keyframe_waits c))) as H.
  { intros m outcome b. rewrite terminate_waits_ref. split; [done|]. intros [_ Hat].
    cbn. induction Hat as [|w ws Hw _ IH]; [done|]. cbn [budget]. rewrite filter_cons.
    destruct (decide _); cbn [budget]; repeat case_decide; lia. }
  unfold observe_keyframe. destruct (md_is_keyframe d), (md_codec d); try apply H; by split.
Qed.

Lemma queues_inj c c' r r' : queues c c' r -> queues c c' r' -> r = r'.
Proof. unfold queues. intros -> E. by apply app_inv_head in E. Qed.

Lemma wait_life_inv c0 c initial retry k :
  wait_life c0 c initial retry ->
  kf_inv c /\ id c = id c0 /\ Forall (own_request (id c0)) (initial ++ retry) /\
  spent k retry + budget k (keyframe_waits c) <= 4 * spent k initial.
Proof.
  induction 1 as [Hw|c ini ret h now c' reqs _ (Hi & Hid & Hf & Hb) -> Hq
    |c ini ret h now c' reqs _ (Hi & Hid & Hf & Hb) -> Hq|c ini ret now o d _ (Hi & Hid & Hf & Hb)
    |c ini ret c' _ (Hi & Hid & Hf & Hb) Hw Hid'].
  - unfold kf_inv, spent. rewrite Hw. cbn. split_and!; [constructor | constructor | done | constructor | lia].
  - destruct (start_all_spends h now c k) as (Hid' & r & Hq' & Fr & Br).
    rewrite <- (queues_inj _ _ _ _ Hq Hq') in *. split_and!; [by apply kf_inv_start_all | congruence| |].
    + rewrite !Forall_app in *. rewrite Hid in Fr. naive_solver.
    + rewrite spent_app. lia.
  - destruct (pump_requests h now c k Hi) as (Hid' & r & Hq' & Fr & Br).
    rewrite <- (queues_inj _ _ _ _ Hq Hq') in *. split_and!; [by apply kf_inv_pump | congruence| |].
    + rewrite !Forall_app in *. rewrite Hid in Fr. naive_solver.
    + rewrite spent_app. lia.
  - destruct (observe_spends now o d c k) as [Hid' Hle]. specialize (Hle Hi).
    split_and!; [by apply kf_inv_observe | congruence | done | lia].
  - unfold kf_inv. rewrite Hw. split_and!; [apply Hi | apply Hi | congruence | done | lia].
Qed.

(** Every operation of a life has its step. *)
Lemma wait_life_total c0 c initial retry h now :
  wait_life c0 c initial retry ->
  (exists reqs, wait_life c0 (start_keyframe_waits_for_open_video_tracks h now c).1 (initial ++ reqs) retry) /\
  (exists reqs, wait_life c0 (pump_keyframe_waits h now c).1 initial (retry ++ reqs)).
Proof.
  intros Hl. destruct (start_all_spends h now c (0, ""%string)) as (_ & r & Hr & _).
  split; [exists r; by econstructor|]. eexists. eapply wl_pump; [done..|]. apply pending_pump.
Qed.

(** C10. No keyframe storm: in any life of a subscriber that begins without waits -
    waits started whenever tracks open, the retry loop pumped however often and
    whenever, media observed, publishers and tracks coming and going, the queue
    drained - the retries it queues for a stream are at most four for each wait it
    started on that stream, so with the initial request a wait costs the publisher
    at most five.  Starting and pumping put nothing else in the queue than
    picture-loss requests of this subscriber, and every one of these operations is
    such a step. *)
Theorem pump_never_storms c0 c initial retry k :
  wait_life c0 c initial retry ->
  spent k retry <= 4 * spent k initial /\ spent k (initial ++ retry) <= 5 * spent k initial /\
  Forall (own_request (id c0)) (initial ++ retry) /\
  (forall h now,
     (exists reqs, wait_life c0 (start_keyframe_waits_for_open_video_tracks h now c).1 (initial ++ reqs) retry) /\
     (exists reqs, wait_life c0 (pump_keyframe_waits h now c).1 initial (retry ++ reqs))).
Proof.
  intros Hl. destruct (wait_life_inv c0 c initial retry k Hl) as ([Hnd Hat] & _ & Hf & Hb).
  pose proof (budget_bound k _ Hnd Hat). rewrite spent_app.
  split_and!; [lia | lia | done | intros h now; by apply wait_life_total].
Qed.

(** ** The retry loop ends *)

(** Each pass comes at least one gap after the previous one. *)
Fixpoint spaced (prev : Instant) (evs : list (TrackStore * Instant)) : Prop :=
  match evs with
  | [] => True
  | (_, t) :: evs' => prev + KEYFRAME_REQUEST_MIN_GAP <= t /\ spaced t evs'
  end.

Lemma pump_ages h now c m prev :
  Forall (fun w => 1 <= m <= attempts w /\ last_request_at w <= prev) (keyframe_waits c) ->
  prev + KEYFRAME_REQUEST_MIN_GAP <= now ->
  Forall (fun w => m + 1 <= attempts w /\ last_request_at w <= now /\
                   m < KEYFRAME_SUBSCRIBE_MAX_ATTEMPTS)
    (keyframe_waits (pump_keyframe_waits h now c).1).
Proof.
  rewrite pump_keyframe_waits_ref. intros Hall Hnow. cbn.
  apply Forall_forall. intros w' (w & Hw & Hp)%list_elem_of_omap.
  rewrite Forall_forall in Hall. destruct (Hall w Hw) as [Ha Hl]. unfold pumped in Hp.
  destruct (judge _ _ _ w) eqn:Hj; [done | |].
  - exfalso. unfold judge, duration_since, KEYFRAME_REQUEST_MIN_GAP, second in *.
    repeat case_match; bool_props; try discriminate; lia.
  - apply judge_retry in Hj as (Hlt & _). injection Hp as <-.
    rewrite retried_attempts by lia. cbn. lia.
Qed.

(** The retry loop ends: five passes, each at least one gap after the
    previous one and after the last request of every wait, leave no wait
    behind, whatever happens to the publishers meanwhile. *)
Theorem pump_terminates evs c prev :
  kf_inv c -> Forall (fun w => last_request_at w <= prev) (keyframe_waits c) ->
  spaced prev evs -> KEYFRAME_SUBSCRIBE_MAX_ATTEMPTS <= Z.of_nat (length evs) ->
  keyframe_waits (pump_many evs c) = [].
Proof.
  intros [_ Hat] Hlast Hsp Hlen.
  assert (forall evs c prev m,
    Forall (fun w => 1 <= m <= attempts w /\ last_request_at w <= prev) (keyframe_waits c) ->
    1 <= m -> spaced prev evs -> KEYFRAME_SUBSCRIBE_MAX_ATTEMPTS + 1 <= m + Z.of_nat (length evs) ->
    m <= KEYFRAME_SUBSCRIBE_MAX_ATTEMPTS \/ keyframe_waits c = [] ->
    keyframe_waits (pump_many evs c) = []) as H.
  { clear. induction evs as [|[h t] evs IH]; intros c prev m Hall Hm Hsp Hlen Hcase; cbn in *.
    { destruct Hcase as [|]; [lia | done]. }
    destruct Hsp as [Ht Hsp]. pose proof (pump_ages h t c m prev Hall Ht) as Hnext.
    apply (IH _ t (m + 1)); [| lia | done | lia |].
    - eapply Forall_impl; [exact Hnext|]. intros w Hw; cbv beta in Hw. lia.
    - destruct (decide (m + 1 <= KEYFRAME_SUBSCRIBE_MAX_ATTEMPTS)); [by left | right].
      destruct (keyframe_waits (pump_keyframe_waits h t c).1) as [|w ws]; [done|].
      apply Forall_cons in Hnext as [Hw _]. lia. }
  apply (H evs c prev 1); [| lia | done | lia |].
  - rewrite Forall_forall in *. intros w Hw. specialize (Hat w Hw). specialize (Hlast w Hw).
    cbv beta in *. lia.
  - left. unfold KEYFRAME_SUBSCRIBE_MAX_ATTEMPTS. lia.
Qed.

(** ** Gates *)

Section Gate.
Context {S Op : Type} (gate : S -> option Instant) (step : Op -> S -> S)
        (fires : Op -> S -> option Instant) (gap : Z).
Hypothesis gap_pos : 0 <= gap.
Hypothesis fires_gap : forall op s t, fires op s = Some t ->
  gate (step op s) = Some t /\ (forall t0, gate s = Some t0 -> t0 + gap <= t).
Hypothesis quiet_mono : forall op s, fires op s = None ->
  forall t0, gate s = Some t0 -> exists t1, gate (step op s) = Some t1 /\ t0 <= t1.

Fixpoint firings (ops : list Op) (s : S) : list Instant :=
  match ops with
  | [] => []
  | op :: ops' =>
      match fires op s with
      | Some t => t :: firings ops' (step op s)
      | None => firings ops' (step op s)
      end
  end.

Lemma firings_after ops : forall s t0,
  gate s = Some t0 -> Forall (fun t => t0 + gap <= t) (firings ops s).
Proof.
  induction ops as [|op ops IH]; intros s t0 Hs; cbn; [constructor|].
  destruct (fires op s) as [t|] eqn:Hf.
  - destruct (fires_gap _ _ _ Hf) as [Hg Hgap]. specialize (Hgap _ Hs).
    constructor; [done|]. eapply Forall_impl; [by apply IH|]. intros x Hx; cbv beta in Hx. lia.
  - destruct (quiet_mono _ _ Hf _ Hs) as (t1 & Ht1 & Hle).
    eapply Forall_impl; [by apply IH|]. intros x Hx; cbv beta in Hx. lia.
Qed.

Lemma firings_gap ops : forall s, StronglySorted (fun a b => a + gap <= b) (firings ops s).
Proof.
  induction ops as [|op ops IH]; intros s; cbn; [constructor|].
  destruct (fires op s) as [t|] eqn:Hf; [|apply IH].
  constructor; [apply IH|]. destruct (fires_gap _ _ _ Hf) as [Hg _]. by apply firings_after.
Qed.
End Gate.

(** ** The publisher-side gate *)

(** A request reaching a publisher: relayed from a subscriber, or raised by
    the publisher's own discontinuity check. *)
Inductive pub_op :=
| Relayed (writer : bool) (now : Instant) (req : KeyframeRequest) (mid_in : Mid)
| Raised (writer : bool) (now : Instant) (mid : Mid) (rid : option Rid).

Definition run_pub (op : pub_op) (c : Client) : Client * list Effect :=
  match op with
  | Relayed w now req mid_in => handle_keyframe_request w now req mid_in c
  | Raised w now mid rid => request_keyframe_throttled w now mid rid c
  end.

Definition op_time (op : pub_op) : Instant :=
  match op with Relayed _ now _ _ => now | Raised _ now _ _ => now end.

Definition op_mid (op : pub_op) : Mid :=
  match op with Relayed _ _ _ m => m | Raised _ _ m _ => m end.

(** When an operation makes str0m send a request on [mid]. *)
Definition sends_on (mid : Mid) (op : pub_op) (c : Client) : option Instant :=
  match (run_pub op c).2 with
  | RtcRequestKeyframe _ m _ :: _ => if decide (m = mid) then Some (op_time op) else None
  | _ => None
  end.

Definition last_on (mid : Mid) (c : Client) : option Instant :=
  match find_track_in mid c with
  | Some (_, e) => last_keyframe_request e
  | None => None
  end.

Lemma requested_recently_false now t0 :
  requested_recently now (Some t0) = false -> t0 + KEYFRAME_REQUEST_MIN_GAP <= now.
Proof.
  unfold requested_recently, duration_since, KEYFRAME_REQUEST_MIN_GAP, second.
  intros. bool_props. lia.
Qed.

(** Marking the first track of [mid] moves only that mid's gate. *)
Lemma last_on_mark mid mid' now i e c :
  find_track_in mid c = Some (i, e) ->
  last_on mid' (put_tracks_in (alter (mark_requested now) i (tracks_in c)) c) =
  if decide (mid' = mid) then Some now else last_on mid' c.
Proof.
  unfold last_on, find_track_in. cbn.
  intros (Hi & Hm & Hfirst)%list_find_Some.
  revert i Hi Hfirst. induction (tracks_in c) as [|x l IH]; intros i Hi Hfirst; [done|].
  destruct i as [|i]; cbn in Hi.
  - injection Hi as ->. cbn. rewrite Hm.
    destruct (decide (mid = mid')) as [->|Hne]; [by rewrite decide_True|].
    by rewrite decide_False.
  - assert (ti_mid (tie_id x) <> mid) as Hx by (apply (Hfirst 0%nat x); [done | lia]).
    specialize (IH i Hi (fun j y Hj Hlt => Hfirst (S j) y Hj (proj1 (Nat.succ_lt_mono _ _) Hlt))).
    cbn. destruct (decide (ti_mid (tie_id x) = mid')) as [Hxm|Hxm].
    + rewrite decide_False by congruence. done.
    + clear - IH. destruct (list_find _ (alter _ i l)) as [[? ?]|], (list_find _ l) as [[? ?]|];
        cbn in *; exact IH.
Qed.

Lemma run_pub_cases op c :
  (run_pub op c = (c, [])) \/
  exists i e es,
    find_track_in (op_mid op) c = Some (i, e) /\
    requested_recently (op_time op) (last_keyframe_request e) = false /\
    run_pub op c = (put_tracks_in (alter (mark_requested (op_time op)) i (tracks_in c)) c, es) /\
    (es = [] \/ exists rid, es = [RtcRequestKeyframe (id c) (op_mid op) rid]).
Proof.
  destruct op as [w now req m | w now m rid]; cbn [run_pub op_mid op_time];
    unfold handle_keyframe_request, request_keyframe_throttled;
    destruct w; cbn [negb]; destruct (find_track_in m c) as [[i e]|] eqn:Hf; auto;
    destruct (requested_recently now (last_keyframe_request e)) eqn:Hr; auto;
    right; exists i, e; eexists; split_and!; eauto.
Qed.

(** The publisher-side gate: over any sequence of relayed and raised
    keyframe requests on one publisher, in any order and with any number of
    subscribers, the requests that str0m is asked to send on a given track are
    pairwise at least [KEYFRAME_REQUEST_MIN_GAP] apart. *)
Theorem publisher_requests_gapped ops c mid :
  StronglySorted (fun a b => a + KEYFRAME_REQUEST_MIN_GAP <= b)
    (firings (fun op c => (run_pub op c).1) (sends_on mid) ops c).
Proof.
  apply firings_gap with (gate := last_on mid); [unfold KEYFRAME_REQUEST_MIN_GAP, second; lia | |].
  - intros op s t Hs. unfold sends_on in Hs.
    destruct (run_pub_cases op s) as [E|(i & e & es & Hf & Hr & E & Hes)]; rewrite E in *; [done|].
    cbn [fst snd] in *. destruct Hes as [->|[rid ->]]; [done|].
    case_decide as Hm; [|done]. injection Hs as <-. subst mid.
    rewrite (last_on_mark _ _ _ _ _ _ Hf), decide_True by done. split; [done|].
    intros t0 Ht0. unfold last_on in Ht0. rewrite Hf in Ht0. rewrite Ht0 in Hr.
    by apply requested_recently_false.
  - intros op s _ t0 Ht0.
    destruct (run_pub_cases op s) as [E|(i & e & es & Hf & Hr & E & _)]; rewrite E; cbn [fst].
    { by exists t0. }
    rewrite (last_on_mark _ _ _ _ _ _ Hf). case_decide as Hm; [|by exists t0].
    subst mid. exists (op_time op). split; [done|]. unfold last_on in Ht0. rewrite Hf in Ht0.
    rewrite Ht0 in Hr. apply requested_recently_false in Hr.
    unfold KEYFRAME_REQUEST_MIN_GAP, second in Hr. lia.
Qed.

(** ** The layer-switch gate *)

(** When a switch of the subscriber to [rid] makes it request keyframes. *)
Definition switch_fires (h : TrackStore) (rid : Rid) (op : Instant * Rid) (c : Client)
    : option Instant :=
  let '(now, r) := op in
  match (emit_keyframe_on_layer_switch h now r c).1.2 with
  | [] => None
  | _ => if decide (r = rid) then Some now else None
  end.

(** The layer-switch gate: over any sequence of simulcast switches of a
    subscriber, the ones that request a keyframe for a given layer are
    pairwise at least one gap apart (a different layer has its own gate), and a
    switch that passes sends exactly one request per live video track, on the
    target layer, to that track's publisher. *)
Theorem layer_switch_gapped h ops c rid :
  StronglySorted (fun a b => a + KEYFRAME_REQUEST_MIN_GAP <= b)
    (firings (fun '(now, r) c => (emit_keyframe_on_layer_switch h now r c).1.1)
       (switch_fires h rid) ops c) /\
  (forall now c', switch_fires h rid (now, rid) c' = Some now ->
     (emit_keyframe_on_layer_switch h now rid c').2 =
     (fun t => PKeyframeRequest (id c') (mkKeyframeRequest (ti_mid t) (Some rid) Pli)
                 (ti_origin t) (ti_mid t)) <$>
     filter (fun t => ti_kind t = Video) (omap (upgrade h) (to_track_in <$> tracks_out c'))).
Proof.
  split.
  - apply firings_gap with (gate := fun c => last_switch_keyframe_request c !! rid);
      [unfold KEYFRAME_REQUEST_MIN_GAP, second; lia | |]; intros [now r] s;
      unfold switch_fires, emit_keyframe_on_layer_switch;
      destruct (requested_recently now _) eqn:Hq; cbn [fst snd].
    + done.
    + intros t. case_decide as Hr; [|done]. subst r. intros [= ->]. cbn.
      rewrite lookup_insert_eq. split; [done|]. intros t0 Ht0. rewrite Ht0 in Hq.
      by apply requested_recently_false.
    + intros _ t0 Ht0. by exists t0.
    + case_decide as Hr; [done|]. intros _ t0 Ht0. cbn. exists t0. by rewrite lookup_insert_ne.
  - intros now c' Hf. unfold switch_fires, emit_keyframe_on_layer_switch in *.
    destruct (requested_recently _ _); [done|]. clear Hf. cbn [snd].
    induction (tracks_out c') as [|o l IH]; [done|]. cbn.
    destruct (upgrade h (to_track_in o)) as [t|]; cbn; [|done].
    destruct (decide (ti_kind t = Video)) as [Hv|Hv]; cbn; by rewrite ?IH.
Qed.

(** ** A concrete subscriber *)

Definition demo_track : TrackIn := mkTrackIn 7 "v0" Video None.
Definition demo_store : TrackStore := {[ 1%nat := demo_track ]}.

(** Subscriber 9 receives track "v0" of publisher 7 and starts waiting at 0. *)
Definition demo_subscriber : Client :=
  (start_keyframe_waits_for_open_video_tracks demo_store 0
     (put_tracks_out [mkTrackOut 1%nat (Open "o0")] (client_new 9 150000))).1.

Definition demo_passes : list (TrackStore * Instant) :=
  (fun n => (demo_store, n * second)) <$> [1; 2; 3; 4; 5; 6].

Lemma demo_subscriber_inv : kf_inv demo_subscriber.
Proof.
  apply kf_inv_start_all. split; cbn; constructor.
Qed.

(** It starts its wait and is pumped once, a second later. *)
Lemma demo_life :
  wait_life (put_tracks_out [mkTrackOut 1%nat (Open "o0")] (client_new 9 150000))
    (pump_keyframe_waits demo_store second demo_subscriber).1
    [PKeyframeRequest 9 (mkKeyframeRequest "v0" None Pli) 7 "v0"]
    [PKeyframeRequest 9 (mkKeyframeRequest "v0" None Pli) 7 "v0"].
Proof.
  apply (wl_pump _ demo_subscriber [PKeyframeRequest 9 (mkKeyframeRequest "v0" None Pli) 7 "v0"] []
    demo_store second); [|done|vm_compute; reflexivity].
  apply (wl_start _ (put_tracks_out [mkTrackOut 1%nat (Open "o0")] (client_new 9 150000)) [] []
    demo_store 0); [by constructor|done|vm_compute; reflexivity].
Qed.

Lemma pump_never_storms_witness :
  spent (7, "v0") [PKeyframeRequest 9 (mkKeyframeRequest "v0" None Pli) 7 "v0"] <=
    4 * spent (7, "v0") [PKeyframeRequest 9 (mkKeyframeRequest "v0" None Pli) 7 "v0"] /\
  spent (7, "v0") (pending_propagated (pump_many demo_passes demo_subscriber)) = 5.
Proof.
  split; [|vm_compute; reflexivity].
  exact (proj1 (pump_never_storms _ _ _ _ (7, "v0") demo_life)).
Defined.

Lemma pump_terminates_witness :
  keyframe_waits (pump_many demo_passes demo_subscriber) = [].
Proof.
  apply (pump_terminates demo_passes demo_subscriber 0 demo_subscriber_inv).
  - repeat constructor. vm_compute. discriminate.
  - cbn. unfold KEYFRAME_REQUEST_MIN_GAP, second. lia.
  - vm_compute. discriminate.
Defined.

Lemma layer_switch_gapped_witness :
  length (emit_keyframe_on_layer_switch demo_store 5 HIGH demo_subscriber).2 = 1%nat.
Proof.
  rewrite (proj2 (layer_switch_gapped demo_store [] demo_subscriber HIGH) 5 demo_subscriber eq_refl).
  reflexivity.
Defined.
