(* ===== verification/SfuMedia.v ===== *)
(** * Downstream media path of one subscriber
      (crates/sfu/src/client/{fanout,layer,mod}.rs)

    Temporal-layer caps with their Schmitt trigger, simulcast layer selection
    by the pacer, and the forwarding of one media packet: temporal drop,
    layer filter, track lookup, write, keyframe observation. *)

From Stdlib Require Import ZArith Lia.
From stdpp Require Import base option numbers gmap strings list.
From S2P Require Import Prelude DdParse DdParseFacts DdCache SfuTypes SfuKeyframe.

(** ** Temporal caps *)

Definition effective_temporal_cap (c : Client) : Z :=
  Z.min (max_vfm_temporal_layer c) (bwe_vfm_temporal_cap c).

Definition invalidate_dd_cache_on_cap_engage (before : Z) (c : Client) : Client :=
  if (before =? u8_max) && (effective_temporal_cap c <? u8_max)
  then put_dd_structure_cache (cache_clear (dd_structure_cache c)) c
  else c.

Definition set_max_vfm_temporal_layer (max : Z) (c : Client) : Client :=
  let before := effective_temporal_cap c in
  invalidate_dd_cache_on_cap_engage before (put_max_vfm_temporal_layer max c).

(** The [match] of [bwe_select_temporal_cap]: the next cap from the current one. *)
Definition next_bwe_cap (lo hi cap : Z) (budget_bps : option Z) : Z :=
  let hi_reenter := saturating_sub hi (saturating_sub hi lo / 5) in
  match budget_bps with
  | None => u8_max
  | Some b =>
      if b <? lo then 0
      else if hi <=? b then u8_max
      else if cap =? 0 then 0
      else if (cap =? u8_max) && (hi_reenter <=? b) then u8_max
      else 1
  end.

Definition bwe_select_temporal_cap (budget_bps : option Z) (c : Client) : Client * Z :=
  let next := next_bwe_cap (bwe_cap_audio_only_bps c) (bwe_cap_low_min_bps c)
                (bwe_vfm_temporal_cap c) budget_bps in
  let before := effective_temporal_cap c in
  (invalidate_dd_cache_on_cap_engage before (put_bwe_vfm_temporal_cap next c), next).

(** ** Simulcast layer selection *)

Definition pacer_tick_ready (now : Instant) (min_interval : Z) (c : Client) : Client * bool :=
  match last_pacer_tick c with
  | Some last => if duration_since now last <? min_interval then (c, false)
                 else (put_last_pacer_tick (Some now) c, true)
  | None => (put_last_pacer_tick (Some now) c, true)
  end.

Definition set_desired_layer (rid : Rid) (c : Client) : Client :=
  put_chosen_rid None (put_desired_layer rid c).

Definition rank (r : Rid) : Z :=
  if decide (r = HIGH) then 2 else if decide (r = MEDIUM) then 1 else 0.

Definition clamp_to_available (target : Rid) (available : list Rid) : Rid :=
  match list_find (fun candidate => rank candidate <= rank target /\ candidate ∈ available)
          [HIGH; MEDIUM; LOW] with
  | Some (_, candidate) => candidate
  | None => default LOW (head available)
  end.

(** [oxpulse_sfu_kit::PacerAction]; the enum is open, [OtherAction] stands for
    a future variant. *)
Inductive PacerAction :=
| NoChange
| ChangeLayer (rid : Rid)
| SuspendVideo
| GoAudioOnly
| RestoreAudio
| RestoreVideo
| OtherAction.

Section Pacer.
(** The kit's pacer: the action it answers to a budget after the budgets it
    was given before. *)
Context (pacer_update : list Z -> Z -> PacerAction).

Definition pacer_select_layer (budget_bps : option Z) (available_rids : list Rid) (c : Client)
    : Client * option Rid :=
  match budget_bps with
  | None => (c, Some (desired_layer c))
  | Some budget =>
      let action := pacer_update (pacer c) budget in
      let c := put_pacer (pacer c ++ [budget]) c in
      match action with
      | NoChange => (c, Some (desired_layer c))
      | ChangeLayer target =>
          let rid := clamp_to_available target available_rids in
          let c := if decide (rid = desired_layer c) then c else set_desired_layer rid c in
          (put_pending_tier_emit (Some VideoMax) c, Some rid)
      | SuspendVideo => (put_pending_tier_emit (Some AudioNormal) c, None)
      | GoAudioOnly => (put_pending_tier_emit (Some AudioLow) c, None)
      | RestoreAudio => (c, Some (desired_layer c))
      | RestoreVideo =>
          let c := put_pending_tier_emit (Some VideoMax) c in
          (set_desired_layer LOW c, Some LOW)
      | OtherAction => (c, Some (desired_layer c))
      end
  end.

End Pacer.

(** ** Layer filter (client/layer.rs) *)

Definition matches (desired : Rid) (data : MediaData) : bool :=
  match md_rid data with
  | None => true
  | Some rid => bool_decide (rid = desired)
  end.

(** ** Temporal drop *)

Definition tid_label (tid : Z) : string :=
  if tid =? 0 then "0" else if tid =? 1 then "1" else if tid =? 2 then "2" else "3plus".

(** The descriptor block of [handle_media_data_out] under a cap: the store
    after the packet, and the temporal id that exceeds the cap, if any. *)
Definition dd_step {C} `{StructureStore StreamKey C} (cap : Z) (stream_key : StreamKey)
    (dd_bytes : list Z) (store : C) : C * option Z :=
  match parsed (parse_dependency_descriptor dd_bytes (store_get store stream_key)) with
  | None => (store, None)
  | Some d =>
      let store := match structure d with
                   | Some s => store_insert store stream_key s
                   | None => store
                   end in
      match temporal_id d with
      | Some tid => if cap <? tid then (store, Some tid) else (store, None)
      | None => (store, None)
      end
  end.

(** ** Forwarding one packet *)

(** What str0m answers to [writer(mid)], [match_params] and [write]. *)
Inductive WriteOutcome :=
| NoWriter
| NoParams
| WriteWithoutPoll
| WriteErr
| Written.

(** The publisher track an outbound entry mirrors, while it lives. *)
Definition stream_of (h : TrackStore) (o : TrackOut) : option StreamKey :=
  (fun t => (ti_origin t, ti_mid t)) <$> upgrade h (to_track_in o).

(** The first outbound entry that mirrors the packet's track. *)
Definition matched_out (h : TrackStore) (origin : ClientId) (mid : Mid) (c : Client)
    : option TrackOut :=
  snd <$> list_find (fun o => stream_of h o = Some (origin, mid)) (tracks_out c).

Definition forward_decision (origin : ClientId) (c : Client) (kind action : string) : Effect :=
  Inc "sfu_forward_decisions_total" [label_of origin; label_of (id c); kind; action].

(** The part of the handler after the temporal drop. *)
Definition forward_packet (h : TrackStore) (write : Mid -> WriteOutcome) (now : Instant)
    (origin : ClientId) (data : MediaData) (c : Client) : Client * list Effect :=
  if negb (matches (desired_layer c) data) then (c, [])
  else
    let matched := matched_out h origin (md_mid data) c in
    let kind := match (o ← matched; upgrade h (to_track_in o)) with
                | Some t => kind_label (ti_kind t)
                | None => "other"
                end in
    let es := match md_rid data with
              | Some rid => [Inc "layer_selection_total" [rid_label_for rid]]
              | None => []
              end in
    match (o ← matched; out_mid o) with
    | None => (c, es ++ [forward_decision origin c kind "skipped_no_track"])
    | Some mid =>
        let c := if bool_decide (is_Some (md_rid data)) && bool_decide (chosen_rid c <> md_rid data)
                 then put_chosen_rid (md_rid data) c else c in
        match write mid with
        | NoWriter | NoParams => (c, es ++ [forward_decision origin c kind "skipped_no_track"])
        | WriteWithoutPoll =>
            (put_alive false c,
             es ++ [Inc "sfu_writer_write_errors_total" ["write_without_poll"];
                    forward_decision origin c kind "write_err"])
        | WriteErr =>
            (put_alive false c,
             es ++ [Inc "sfu_writer_write_errors_total" ["other"];
                    forward_decision origin c kind "write_err"])
        | Written =>
            let c' := put_delivered_media (wrap_u64 (delivered_media c + 1)) c in
            let '(c', es') := observe_keyframe now origin data c' in
            (c', es ++ [RtpWrite (id c) mid data;
                        forward_decision origin c kind "forwarded";
                        Inc "forwarded_packets_total" [kind];
                        Inc "sfu_wire_written_total" [kind]] ++ es')
        end
    end.

Definition handle_media_data_out (h : TrackStore) (write : Mid -> WriteOutcome) (now : Instant)
    (origin : ClientId) (data : MediaData) (c : Client) : Client * list Effect :=
  let dd_present := bool_decide (is_Some (md_ext data)) in
  let es := [Inc "sfu_dd_frames_total" [if dd_present then "true" else "false"]] in
  match md_ext data with
  | Some dd_bytes =>
      if effective_temporal_cap c <? u8_max then
        let '(cache, dropped) :=
          dd_step (effective_temporal_cap c) (origin, md_mid data) dd_bytes
            (dd_structure_cache c) in
        let c := put_dd_structure_cache cache c in
        match dropped with
        | Some tid => (c, es ++ [Inc "sfu_dd_temporal_drops_total" [tid_label tid]])
        | None => let '(c, es') := forward_packet h write now origin data c in (c, es ++ es')
        end
      else let '(c, es') := forward_packet h write now origin data c in (c, es ++ es')
  | None => let '(c, es') := forward_packet h write now origin data c in (c, es ++ es')
  end.
