(* ===== verification/SfuMediaFacts.v ===== *)
(** * Theorems on the downstream media path

    Decode safety of the temporal drop over whole histories, the Schmitt
    trigger of the bandwidth cap, the pacer's layer choice, and exactly when a
    packet reaches the wire. *)

From Stdlib Require Import ZArith Lia Sorting.Sorted.
From stdpp Require Import base option numbers gmap strings list.
From S2P Require Import Prelude DdParse DdParseFacts DdEncode DdCache SfuTypes SfuKeyframe.
From S2P Require Import SfuKeyframeFacts SfuMedia.

(** ** A frame that carries its structure does not need the cached one *)

Lemma extended_fields_attached p1 p2 r s flags r' :
  extended_fields p1 r = PSome (Some s, flags) r' -> extended_fields p2 r = PSome (Some s, flags) r'.
Proof.
  unfold extended_fields, pbind. intros H.
  repeat (step_in H); try done.
  all: repeat match goal with E : _ = PSome _ _ |- _ => rewrite ?E; revert E end; done.
Qed.

Lemma parse_fields_attached sz p1 p2 r d r' :
  parse_fields sz p1 r = PSome d r' -> is_Some (structure d) -> parse_fields sz p2 r = PSome d r'.
Proof.
  unfold parse_fields, pbind. intros H Hs.
  destruct (read_bool r) as [sof r1| | |]; try done.
  destruct (read_bool r1) as [eof r2| | |]; try done.
  destruct (read_u8 6 r2) as [tid r3| | |]; try done.
  destruct (read_bits 16 r3) as [v r4| | |]; try done. cbn [pret] in *.
  destruct (Nat.ltb 3 sz).
  2: { cbn [pret] in *. repeat (step_in H); unfold pret in H; simplify_eq/=; by destruct Hs. }
  destruct (extended_fields p1 r4) as [[[s|] flags] r5| | |] eqn:He; try done.
  - by rewrite (extended_fields_attached p1 p2 _ _ _ _ He).
  - repeat (step_in H); unfold pret in H; simplify_eq/=; by destruct Hs.
Qed.

Lemma parse_attached bs p1 p2 d :
  parsed (parse_dependency_descriptor bs p1) = Some d -> is_Some (structure d) ->
  parsed (parse_dependency_descriptor bs p2) = Some d.
Proof.
  unfold parse_dependency_descriptor. destruct (Nat.ltb _ 3); [done|]. intros H Hs.
  destruct (parse_fields _ p1 _) as [d' r'| | |] eqn:E; try done. cbn in H. simplify_eq.
  by rewrite (parse_fields_attached _ _ p2 _ _ _ E Hs).
Qed.

(** Without any structure the layer is unknown. *)
Lemma parse_unresolved bs d :
  parsed (parse_dependency_descriptor bs None) = Some d -> structure d = None ->
  temporal_id d = None.
Proof.
  intros H Hs. destruct (parse_dependency_descriptor_safe_core bs None I) as [E|(d' & r & E & Hwf)];
    rewrite E in H; [done|]. cbn in H. simplify_eq.
  destruct Hwf as (_ & _ & _ & Hres). rewrite Hs in Hres. apply Hres.
Qed.

Lemma parse_structure_wf bs prior d s :
  prior_wf prior -> parsed (parse_dependency_descriptor bs prior) = Some d ->
  structure d = Some s -> structure_wf s.
Proof.
  intros Hp H Hs. destruct (parse_dependency_descriptor_safe_core bs prior Hp) as [E|(d' & r & E & Hwf)];
    rewrite E in H; [done|]. cbn in H. simplify_eq.
  destruct Hwf as (_ & _ & Hst & _). by rewrite Hs in Hst.
Qed.

(** ** The ideal observer *)

(** Per stream, the structure its last structure-carrying frame attached. *)
Definition truth := StreamKey -> option TemplateDependencyStructure.

Definition no_truth : truth := fun _ => None.

(** The observer sees every frame, capped or not, and forgets nothing. *)
Definition learn (t : truth) (k : StreamKey) (bs : list Z) : truth :=
  match (d ← parsed (parse_dependency_descriptor bs (t k)); structure d) with
  | Some s => fun k' => if decide (k' = k) then Some s else t k'
  | None => t
  end.

Section Store.
Context {C : Type} `{StructureStore StreamKey C}.

Definition store_sound (store : C) (t : truth) : Prop :=
  forall k s, store_get store k = Some s -> t k = Some s.

(** Under a sound store a frame is read as the observer reads it, or the store
    has forgotten the stream and the frame carries nothing. *)
Lemma store_reading store t k bs :
  store_sound store t ->
  parsed (parse_dependency_descriptor bs (store_get store k)) =
    parsed (parse_dependency_descriptor bs (t k)) \/
  store_get store k = None /\ learn t k bs = t /\
  (forall d, parsed (parse_dependency_descriptor bs None) = Some d ->
             structure d = None /\ temporal_id d = None).
Proof.
  intros Hs. destruct (store_get store k) as [s|] eqn:Hg.
  { left. by rewrite (Hs _ _ Hg). }
  destruct (parsed (parse_dependency_descriptor bs (t k))) as [d|] eqn:Ht;
    [destruct (structure d) as [s|] eqn:Hst|].
  - left. symmetry. rewrite <- Ht. symmetry. rewrite Ht. eapply parse_attached; [exact Ht | by rewrite Hst].
  - right. unfold learn. rewrite Ht. cbn. rewrite Hst. split_and!; [done | done |].
    intros d' Hd'. destruct (structure d') as [s'|] eqn:Hst'.
    + eapply parse_attached in Hd' as Hd2; [|by rewrite Hst']. rewrite Hd2 in Ht. by simplify_eq.
    + split; [done|]. by eapply parse_unresolved.
  - right. unfold learn. rewrite Ht. cbn. split_and!; [done | done |].
    intros d' Hd'. destruct (structure d') as [s'|] eqn:Hst'.
    + eapply parse_attached in Hd' as Hd2; [|by rewrite Hst']. by rewrite Hd2 in Ht.
    + split; [done|]. by eapply parse_unresolved.
Qed.

(** The descriptor block keeps the store sound and drops only what the
    observer would drop. *)
Lemma dd_step_sound cap k bs store t :
  store_inv store -> store_sound store t ->
  store_inv (dd_step cap k bs store).1 /\
  store_sound (dd_step cap k bs store).1 (learn t k bs) /\
  (forall tid, (dd_step cap k bs store).2 = Some tid ->
     exists d, parsed (parse_dependency_descriptor bs (t k)) = Some d /\
               temporal_id d = Some tid /\ cap < tid).
Proof.
  intros Hinv Hs.
  assert (prior_wf (store_get store k)) as Hp.
  { destruct (store_get store k) eqn:Hg; [|done]. by eapply store_get_wf. }
  unfold dd_step. destruct (store_reading store t k bs Hs) as [Hr|(Hg & Hl & Hn)].
  - unfold learn. rewrite <- Hr.
    destruct (parsed _) as [d|] eqn:Hd; [|by split_and!].
    destruct (structure d) as [s|] eqn:Hst; cbn; rewrite ?Hst.
    + assert (structure_wf s) by (by eapply parse_structure_wf).
      assert (store_sound (store_insert store k s)
                (fun k' => if decide (k' = k) then Some s else t k')) as Hs'.
      { intros k' s' Hk'. destruct (decide (k' = k)) as [->|Hne].
        - by rewrite store_get_insert in Hk'.
        - apply Hs. by eapply store_get_insert_ne. }
      destruct (temporal_id d) as [tid|] eqn:Htid; [destruct (Z.ltb_spec cap tid)|];
        cbn; split_and!; try done; try (by apply store_inv_insert);
        intros ? [= <-]; by exists d.
    + destruct (temporal_id d) as [tid|] eqn:Htid; [destruct (Z.ltb_spec cap tid)|];
        cbn; split_and!; try done. intros ? [= <-]. by exists d.
  - rewrite Hg, Hl. destruct (parsed _) as [d|] eqn:Hd; [|by split_and!].
    destruct (Hn d eq_refl) as [-> ->]. by split_and!.
Qed.

Lemma store_sound_clear store t : store_sound (store_clear store) t.
Proof. intros k s. by rewrite store_get_clear. Qed.

End Store.

(** The bounded cache is such a store. *)
Lemma cache_dd_step_sound (cap : Z) (k : StreamKey) (bs : list Z) (cache : DdStructureCache StreamKey) (t : truth) :
  cache_inv cache -> store_sound cache t ->
  cache_inv (dd_step cap k bs cache).1 /\
  store_sound (dd_step cap k bs cache).1 (learn t k bs) /\
  (forall tid, (dd_step cap k bs cache).2 = Some tid ->
     exists d, parsed (parse_dependency_descriptor bs (t k)) = Some d /\
               temporal_id d = Some tid /\ cap < tid).
Proof. exact (dd_step_sound (H := cache_store) cap k bs cache t). Qed.

(** ** Histories of a subscriber *)

(** What changes a subscriber's caps or descriptor cache: a cap requested by
    the peer (a [u8]), a bandwidth tick, a packet. *)
Inductive sub_op :=
| SetCap (max : Z)
| BweTick (budget_bps : option Z)
| Packet (h : TrackStore) (write : Mid -> WriteOutcome) (now : Instant)
         (origin : ClientId) (data : MediaData).

Definition run_sub (c : Client) (op : sub_op) : Client :=
  match op with
  | SetCap max => set_max_vfm_temporal_layer (wrap_u8 max) c
  | BweTick b => (bwe_select_temporal_cap b c).1
  | Packet h w now origin data => (handle_media_data_out h w now origin data c).1
  end.

Definition observe (t : truth) (op : sub_op) : truth :=
  match op with
  | Packet _ _ _ origin data =>
      match md_ext data with
      | Some bs => learn t (origin, md_mid data) bs
      | None => t
      end
  | _ => t
  end.

(** While a cap is engaged the cache agrees with the observer. *)
Definition media_inv (c : Client) (t : truth) : Prop :=
  effective_temporal_cap c <= u8_max /\ cache_inv (dd_structure_cache c) /\
  (effective_temporal_cap c < u8_max -> store_sound (dd_structure_cache c) t).

(** The part of a client the media invariant reads. *)
Definition same_svc (c c' : Client) : Prop :=
  max_vfm_temporal_layer c' = max_vfm_temporal_layer c /\
  bwe_vfm_temporal_cap c' = bwe_vfm_temporal_cap c /\
  dd_structure_cache c' = dd_structure_cache c.

Lemma media_inv_same c c' t : same_svc c c' -> media_inv c t -> media_inv c' t.
Proof. unfold media_inv, effective_temporal_cap. by intros (-> & -> & ->). Qed.

Lemma observe_keyframe_svc now o d c : same_svc c (observe_keyframe now o d c).1.
Proof.
  unfold observe_keyframe. destruct (md_is_keyframe d), (md_codec d);
    rewrite ?terminate_waits_ref; done.
Qed.

Lemma forward_packet_svc h w now o d c : same_svc c (forward_packet h w now o d c).1.
Proof.
  unfold forward_packet. destruct (negb _); [done|]. destruct (_ ≫= out_mid) as [mid|]; [|done].
  set (c1 := if _ && _ then _ else c).
  assert (same_svc c c1) as H1 by (unfold c1; by destruct (_ && _)).
  destruct (w mid); try done.
  pose proof (observe_keyframe_svc now o d
    (put_delivered_media (wrap_u64 (delivered_media c1 + 1)) c1)) as H2.
  destruct (observe_keyframe _ _ _ _) as [c2 es2]. cbn [fst] in *.
  destruct H1 as (E1 & E2 & E3), H2 as (F1 & F2 & F3). cbn in F1, F2, F3.
  split_and!; congruence.
Qed.

Lemma media_inv_engage before c t :
  before <= u8_max -> effective_temporal_cap c <= u8_max -> cache_inv (dd_structure_cache c) ->
  (before < u8_max -> store_sound (dd_structure_cache c) t) ->
  media_inv (invalidate_dd_cache_on_cap_engage before c) t.
Proof.
  intros Hb He Hc Hs. unfold invalidate_dd_cache_on_cap_engage, media_inv.
  destruct (Z.eqb_spec before u8_max); cbn [andb].
  - destruct (Z.ltb_spec (effective_temporal_cap c) u8_max); cbn.
    + split_and!; [done | apply cache_inv_clear|]. intros _.
      exact (store_sound_clear (dd_structure_cache c) t).
    + split_and!; [done | done | lia].
  - split_and!; [done | done|]. intros _. apply Hs. lia.
Qed.

Lemma next_bwe_cap_cases lo hi cap b : next_bwe_cap lo hi cap b ∈ [0; 1; u8_max].
Proof.
  unfold next_bwe_cap. destruct b as [b|]; [|set_solver].
  repeat case_match; set_solver.
Qed.

Lemma handle_media_cases h w now o d c :
  (exists bs tid,
     md_ext d = Some bs /\ effective_temporal_cap c < u8_max /\
     (dd_step (effective_temporal_cap c) (o, md_mid d) bs (dd_structure_cache c)).2 = Some tid /\
     handle_media_data_out h w now o d c =
       (put_dd_structure_cache
          (dd_step (effective_temporal_cap c) (o, md_mid d) bs (dd_structure_cache c)).1 c,
        [Inc "sfu_dd_frames_total" ["true"];
         Inc "sfu_dd_temporal_drops_total" [tid_label tid]])) \/
  (exists c1,
     handle_media_data_out h w now o d c =
       ((forward_packet h w now o d c1).1,
        Inc "sfu_dd_frames_total" [if bool_decide (is_Some (md_ext d)) then "true" else "false"]
        :: (forward_packet h w now o d c1).2) /\
     (c1 = c /\ (md_ext d = None \/ u8_max <= effective_temporal_cap c) \/
      exists bs, md_ext d = Some bs /\ effective_temporal_cap c < u8_max /\
        c1 = put_dd_structure_cache
               (dd_step (effective_temporal_cap c) (o, md_mid d) bs (dd_structure_cache c)).1 c /\
        (dd_step (effective_temporal_cap c) (o, md_mid d) bs (dd_structure_cache c)).2 = None)).
Proof.
  unfold handle_media_data_out. destruct (md_ext d) as [bs|] eqn:Hx.
  2: { right. exists c. destruct (forward_packet h w now o d c). split; [done|]. left. auto. }
  destruct (Z.ltb_spec (effective_temporal_cap c) u8_max) as [Hcap|Hcap].
  2: { right. exists c. destruct (forward_packet h w now o d c). split; [done|]. left. auto. }
  destruct (dd_step _ _ _ _) as [cache [tid|]] eqn:Hd.
  - left. exists bs, tid. rewrite Hd. by split_and!.
  - right. exists (put_dd_structure_cache cache c).
    destruct (forward_packet h w now o d (put_dd_structure_cache cache c)).
    split; [done|]. right. exists bs. rewrite Hd. by split_and!.
Qed.

Lemma media_inv_step c t op : media_inv c t -> media_inv (run_sub c op) (observe t op).
Proof.
  intros (Hcap & Hc & Hs). destruct op as [max | b | h w now o d]; cbn [run_sub observe].
  - apply media_inv_engage; try done. unfold effective_temporal_cap; cbn.
    pose proof (wrap_u8_range max). lia.
  - unfold bwe_select_temporal_cap; cbn [fst]. apply media_inv_engage; try done.
    unfold effective_temporal_cap; cbn.
    pose proof (next_bwe_cap_cases (bwe_cap_audio_only_bps c) (bwe_cap_low_min_bps c)
                  (bwe_vfm_temporal_cap c) b) as H.
    rewrite !elem_of_cons, elem_of_nil in H. unfold u8_max in *. lia.
  - destruct (handle_media_cases h w now o d c)
      as [(bs & tid & Hx & Hlt & Hd & ->)|(c1 & -> & [[-> Hno]|(bs & Hx & Hlt & -> & Hd)])].
    + rewrite Hx. cbn [fst]. destruct (cache_dd_step_sound (effective_temporal_cap c) (o, md_mid d) bs
        (dd_structure_cache c) t Hc (Hs Hlt)) as (? & ? & _). by split_and!.
    + cbn [fst]. eapply media_inv_same; [apply forward_packet_svc|].
      split_and!; [done | done|]. intros Hlt.
      destruct Hno as [->|Hno]; [by apply Hs | lia].
    + rewrite Hx. cbn [fst]. eapply media_inv_same; [apply forward_packet_svc|].
      destruct (cache_dd_step_sound (effective_temporal_cap c) (o, md_mid d) bs
        (dd_structure_cache c) t Hc (Hs Hlt))
        as (? & ? & _). by split_and!.
Qed.

Lemma media_inv_run ops c t :
  media_inv c t -> media_inv (fold_left run_sub ops c) (fold_left observe ops t).
Proof.
  revert c t. induction ops as [|op ops IH]; intros c t H; [done|]. by apply IH, media_inv_step.
Qed.

Lemma media_inv_new cid low_min_bps : media_inv (client_new cid low_min_bps) no_truth.
Proof.
  unfold media_inv, effective_temporal_cap; cbn. split_and!; [lia | apply cache_inv_new | lia].
Qed.

(** Effects of a keyframe observation. *)
Definition observation_effect (e : Effect) : Prop :=
  match e with
  | Inc f _ => f = "sfu_keyframe_on_subscribe_outcome_total"
  | Observe _ _ => True
  | _ => False
  end.

Lemma terminate_waits_effects now o m outcome rec c :
  Forall observation_effect (terminate_waits now o m outcome rec c).2.
Proof.
  unfold terminate_waits. match goal with |- context [fold_left ?f0 _ _] => set (f := f0) end.
  assert (forall l st, Forall observation_effect st.2 ->
            Forall observation_effect (fold_left f l st).2) as H; [|apply H; constructor].
  induction l as [|i l IH]; intros [c' es] Hes; [done|]. cbn [fold_left]. apply IH.
  unfold f. destruct (keyframe_waits c' !! i); [|done]. cbn [snd] in *.
  rewrite !Forall_app. split_and!; [done | by constructor | destruct rec; by repeat constructor].
Qed.

Lemma observe_keyframe_effects now o d c :
  Forall observation_effect (observe_keyframe now o d c).2.
Proof.
  unfold observe_keyframe. destruct (md_is_keyframe d), (md_codec d);
    try apply terminate_waits_effects; constructor.
Qed.

(** ** When a packet reaches the wire *)

(** The outbound mid the packet is written to. *)
Definition route (h : TrackStore) (origin : ClientId) (data : MediaData) (c : Client)
    : option Mid :=
  if matches (desired_layer c) data then o ← matched_out h origin (md_mid data) c; out_mid o
  else None.

(** The packets an effect log writes, and the temporal drops it counts. *)
Definition writes (es : list Effect) : list (ClientId * Mid * MediaData) :=
  omap (fun e => match e with RtpWrite to mid d => Some (to, mid, d) | _ => None end) es.

Definition drops (es : list Effect) : list (list string) :=
  omap (fun e => match e with
                 | Inc f l => if decide (f = "sfu_dd_temporal_drops_total") then Some l else None
                 | _ => None
                 end) es.

Lemma drops_in es l : Inc "sfu_dd_temporal_drops_total" l ∈ es -> l ∈ drops es.
Proof. intros H. apply list_elem_of_omap. eexists. split; [exact H|]. reflexivity. Qed.

Lemma observation_silent es : Forall observation_effect es -> writes es = [] /\ drops es = [].
Proof.
  induction 1 as [|e es He _ [IH1 IH2]]; [done|]. unfold writes, drops in *.
  destruct e; cbn in He |- *; try done. subst family. by rewrite IH1, IH2.
Qed.

(** What [forward_packet] writes to the wire, on every branch. *)
Lemma forward_packet_effects h w now o d c :
  drops (forward_packet h w now o d c).2 = [] /\
  writes (forward_packet h w now o d c).2 =
    match route h o d c with
    | Some mid => match w mid with Written => [(id c, mid, d)] | _ => [] end
    | None => []
    end.
Proof.
  unfold forward_packet, route. destruct (matches (desired_layer c) d); [|done]. cbn [negb].
  set (es0 := match md_rid d with Some _ => _ | None => _ end).
  assert (writes es0 = [] /\ drops es0 = []) as [H1 H2] by (unfold es0; by destruct (md_rid d)).
  unfold writes, drops in *.
  destruct (matched_out h o (md_mid d) c ≫= out_mid) as [mid|].
  2: { cbn [snd]. by rewrite !omap_app, H1, H2. }
  set (c1 := if _ && _ then _ else c).
  assert (id c1 = id c) as Hid by (unfold c1; by destruct (_ && _)).
  destruct (w mid); cbn [snd]; try (by rewrite !omap_app, H1, H2).
  pose proof (observation_silent _ (observe_keyframe_effects now o d
    (put_delivered_media (wrap_u64 (delivered_media c1 + 1)) c1))) as [H3 H4].
  destruct (observe_keyframe _ _ _ _) as [c2 es2]. unfold writes, drops in *. cbn [snd] in *.
  by rewrite !omap_app, H1, H2, H3, H4, Hid.
Qed.

(** C1. Decode safety of the temporal drop: whatever sequence of cap changes,
    bandwidth ticks and packets a subscriber went through, a packet it drops
    for its temporal layer is one whose layer, read against the structure its
    stream attached last, exceeds the cap in force; a structure cached before
    the cap was lifted, or evicted from the bounded cache, never decides. *)
Theorem temporal_drop_safe cid low_min_bps ops h w now origin data label :
  let c := fold_left run_sub ops (client_new cid low_min_bps) in
  let t := fold_left observe ops no_truth in
  Inc "sfu_dd_temporal_drops_total" [label] ∈ (handle_media_data_out h w now origin data c).2 ->
  exists bs d tid,
    md_ext data = Some bs /\
    parsed (parse_dependency_descriptor bs (t (origin, md_mid data))) = Some d /\
    temporal_id d = Some tid /\ effective_temporal_cap c < tid /\ label = tid_label tid.
Proof.
  intros c t Hin. destruct (media_inv_run ops _ _ (media_inv_new cid low_min_bps)) as (_ & Hc & Hs).
  fold c t in Hc, Hs.
  destruct (handle_media_cases h w now origin data c)
    as [(bs & tid & Hx & Hlt & Hd & E)|(c1 & E & _)]; rewrite E in Hin; cbn [snd] in Hin.
  - destruct (cache_dd_step_sound (effective_temporal_cap c) (origin, md_mid data) bs
        (dd_structure_cache c) t Hc (Hs Hlt))
      as (_ & _ & Hdrop). destruct (Hdrop tid Hd) as (d & Hp & Ht & Hcap).
    exists bs, d, tid. split_and!; try done. set_solver.
  - apply elem_of_cons in Hin as [?|Hin]; [done|].
    apply drops_in in Hin. rewrite (proj1 (forward_packet_effects h w now origin data c1)) in Hin.
    by apply elem_of_nil in Hin.
Qed.

Lemma temporal_drop_safe_witness :
  let kf := mkMediaData "v0" None (Some (to_bytes (enc_frame None (l1t3_keyframe 7 0)))) true Av1 true None 0 in
  let delta := mkMediaData "v0" None
    (Some (to_bytes (enc_frame (Some l1t3_structure) (l1t3_delta 8 2)))) false Av1 true None 0 in
  let ops := [SetCap 1; Packet ∅ (fun _ => NoWriter) 0 7 kf] in
  exists bs d tid,
    md_ext delta = Some bs /\
    parsed (parse_dependency_descriptor bs (fold_left observe ops no_truth (7, "v0"))) = Some d /\
    temporal_id d = Some tid /\
    effective_temporal_cap (fold_left run_sub ops (client_new 9 150000)) < tid /\
    "2" = tid_label tid.
Proof.
  intros kf delta ops.
  apply (temporal_drop_safe 9 150000 ops ∅ (fun _ => NoWriter) 0 7 delta "2").
  vm_compute. right. left.
Defined.

(** The temporal id for which the packet is dropped, if any. *)
Definition temporal_drop (origin : ClientId) (data : MediaData) (c : Client) : option Z :=
  bs ← md_ext data;
  if effective_temporal_cap c <? u8_max
  then (dd_step (effective_temporal_cap c) (origin, md_mid data) bs (dd_structure_cache c)).2
  else None.

(** A packet reaches the wire exactly once and exactly when it should: the
    handler writes it once, to [mid] and to nobody else, when it is not dropped
    for its temporal layer, its simulcast layer is the one the subscriber wants
    (or it has none), the first outbound entry that mirrors its live track is
    open on [mid] and str0m accepts the write; otherwise it writes nothing. *)
Theorem media_written_iff h w now origin data c :
  writes (handle_media_data_out h w now origin data c).2 =
  match temporal_drop origin data c, route h origin data c with
  | None, Some mid => match w mid with Written => [(id c, mid, data)] | _ => [] end
  | _, _ => []
  end.
Proof.
  destruct (handle_media_cases h w now origin data c)
    as [(bs & tid & Hx & Hlt & Hd & ->)|(c1 & -> & Hc1)]; unfold temporal_drop; cbn [snd].
  - rewrite Hx. cbn. apply Z.ltb_lt in Hlt. by rewrite Hlt, Hd.
  - unfold writes. cbn [omap list_omap]. fold (writes (forward_packet h w now origin data c1).2).
    rewrite (proj2 (forward_packet_effects h w now origin data c1)).
    destruct Hc1 as [[-> [Hx|Hcap]]|(bs & Hx & Hlt & -> & Hd)].
    + by rewrite Hx.
    + apply Z.ltb_ge in Hcap. destruct (md_ext data); cbn; [by rewrite Hcap | done].
    + rewrite Hx. cbn. apply Z.ltb_lt in Hlt. by rewrite Hlt, Hd.
Qed.

(** ** The Schmitt trigger *)

Definition cap_run (lo hi cap : Z) (bs : list (option Z)) : Z :=
  fold_left (fun cap b => next_bwe_cap lo hi cap b) bs cap.

Definition reenter (lo hi : Z) : Z := saturating_sub hi (saturating_sub hi lo / 5).

Lemma reenter_bounds lo hi : 0 <= lo -> 0 <= hi ->
  0 <= reenter lo hi <= hi /\ (lo < hi -> lo < reenter lo hi).
Proof.
  intros Hlo Hhi. unfold reenter, saturating_sub.
  pose proof (Z.mul_div_le (Z.max 0 (hi - lo)) 5 ltac:(lia)).
  pose proof (Z.div_pos (Z.max 0 (hi - lo)) 5 ltac:(lia) ltac:(lia)). lia.
Qed.

(** The bandwidth cap is a Schmitt trigger on any rails, misconfigured
    ones included: it takes only the values 0, 1 and uncapped; for a given
    state it is monotone in the budget; a budget that stays in the re-enter
    band never changes it; a degraded subscriber (cap 0) stays degraded until
    the budget reaches the upper rail; and from any state the upper rail uncaps
    and the lower rail degrades at once. *)
Theorem bwe_cap_schmitt lo hi :
  0 <= lo -> 0 <= hi ->
  (forall cap b, next_bwe_cap lo hi cap b ∈ [0; 1; u8_max]) /\
  (lo <= hi -> forall cap b b', b <= b' ->
     next_bwe_cap lo hi cap (Some b) <= next_bwe_cap lo hi cap (Some b')) /\
  (forall cap bs, cap ∈ [0; 1; u8_max] ->
     Forall (fun b => exists x, b = Some x /\ lo <= x /\ reenter lo hi <= x < hi) bs ->
     cap_run lo hi cap bs = cap) /\
  (forall bs, Forall (fun b => exists x, b = Some x /\ x < hi) bs ->
     cap_run lo hi 0 bs = 0) /\
  (forall cap b, lo <= b -> hi <= b -> next_bwe_cap lo hi cap (Some b) = u8_max) /\
  (forall cap b, b < lo -> next_bwe_cap lo hi cap (Some b) = 0).
Proof.
  intros Hlo Hhi. split_and!.
  - intros. apply next_bwe_cap_cases.
  - intros Hrails cap b b' Hb. unfold next_bwe_cap, u8_max.
    repeat case_match; bool_props; lia.
  - intros cap bs Hcap Hall. induction Hall as [|b bs (x & -> & Hx & Hx1) _ IH]; [done|].
    unfold cap_run in *. cbn [fold_left].
    replace (next_bwe_cap lo hi cap (Some x)) with cap; [done|].
    unfold next_bwe_cap, reenter in *. rewrite !elem_of_cons, elem_of_nil in Hcap.
    unfold u8_max in *. repeat case_match; bool_props; try lia.
  - intros bs Hall. induction Hall as [|b bs (x & -> & Hx) _ IH]; [done|].
    unfold cap_run in *. cbn [fold_left].
    replace (next_bwe_cap lo hi 0 (Some x)) with 0; [done|].
    unfold next_bwe_cap. repeat case_match; bool_props; lia.
  - intros cap b Hl Hh. unfold next_bwe_cap. repeat case_match; bool_props; try lia.
  - intros cap b Hl. unfold next_bwe_cap. by replace (b <? lo) with true by lia.
Qed.

Lemma bwe_cap_schmitt_witness :
  cap_run 100000 150000 u8_max [Some 149000; Some 141000] = u8_max /\
  cap_run 100000 150000 0 [Some 149000; Some 120000] = 0.
Proof.
  destruct (bwe_cap_schmitt 100000 150000 ltac:(lia) ltac:(lia)) as (_ & _ & H1 & H2 & _).
  split.
  - apply H1; [set_solver|]. repeat constructor; eexists; (split; [done|]); vm_compute; intuition discriminate.
  - apply H2. repeat constructor; eexists; (split; [done|]); lia.
Defined.

(** ** Layer choice *)

(** The pacer's layer choice is the best available one: when the publisher
    sends some ladder layer at or below the target, the choice is the highest
    such layer; otherwise it is a layer the publisher sends, if it sends any. *)
Theorem clamp_to_available_best target available :
  let rid := clamp_to_available target available in
  (forall r, r ∈ [HIGH; MEDIUM; LOW] -> r ∈ available -> rank r <= rank target ->
     rid ∈ available /\ rank r <= rank rid <= rank target) /\
  (available <> [] -> rid ∈ available).
Proof.
  intros rid.
  assert (forall x, x ∈ [HIGH; MEDIUM; LOW] -> 0 <= rank x <= 2) as _
    by (intros x; unfold rank; repeat case_decide; lia).
  unfold rid, clamp_to_available.
  destruct (list_find _ _) as [[i y]|] eqn:Hf.
  - apply list_find_Some in Hf as (Hy & [Hrank Hin] & Hfirst). split; [|done].
    intros r Hr Hav Hle. split; [done|]. split; [|done].
    destruct (decide (rank r <= rank y)) as [|Hgt]; [done|exfalso].
    apply list_elem_of_lookup in Hr as [j Hj].
    destruct (decide (j < i)%nat) as [Hlt|Hge]; [by apply (Hfirst j r Hj Hlt)|].
    assert (rank r <= rank y) as Hbad; [|done].
    destruct i as [|[|[|i]]], j as [|[|[|j]]]; cbn in Hy, Hj; try lia; simplify_eq;
      vm_compute; discriminate.
  - apply list_find_None in Hf. rewrite Forall_forall in Hf. split.
    + intros r Hr Hav Hle. exfalso. by apply (Hf r Hr).
    + intros Hne. destruct available as [|a l]; [done|]. cbn. left.
Qed.

Lemma clamp_to_available_best_witness :
  clamp_to_available HIGH [LOW; MEDIUM] ∈ [LOW; MEDIUM] /\ rank MEDIUM <= rank (clamp_to_available HIGH [LOW; MEDIUM]).
Proof.
  destruct (proj1 (clamp_to_available_best HIGH [LOW; MEDIUM]) MEDIUM) as [H1 H2];
    [set_solver | set_solver | vm_compute; discriminate|].
  split; [exact H1 | exact (proj1 H2)].
Defined.

(** ** The pacer tick *)

(** The pacer floor: over any sequence of ticks of a subscriber, the ticks
    that are let through are pairwise at least [min_interval] apart, and the
    first one always is. *)
Theorem pacer_ticks_spaced min_interval ops c :
  0 < min_interval ->
  StronglySorted (fun a b => a + min_interval <= b)
    (firings (fun now c => (pacer_tick_ready now min_interval c).1)
       (fun now c => if (pacer_tick_ready now min_interval c).2 then Some now else None) ops c) /\
  (last_pacer_tick c = None -> forall now, (pacer_tick_ready now min_interval c).2 = true).
Proof.
  intros Hmin. split.
  - apply firings_gap with (gate := last_pacer_tick); [lia | |]; intros now s;
      unfold pacer_tick_ready, duration_since;
      destruct (last_pacer_tick s) as [t0|] eqn:Ht;
      try (destruct (Z.ltb_spec (Z.max 0 (now - t0)) min_interval)); cbn [fst snd];
      try (intros ? [= <-]); try (intros [=]).
    + split; [done|]. intros ? [= <-]. lia.
    + split; [done|]. intros ? [=].
    + intros t1 Ht1. rewrite Ht in *. by exists t1.
  - intros Hn now. unfold pacer_tick_ready. by rewrite Hn.
Qed.

Lemma pacer_ticks_spaced_witness :
  firings (fun now c => (pacer_tick_ready now 100 c).1)
    (fun now c => if (pacer_tick_ready now 100 c).2 then Some now else None)
    [10; 50; 120; 200; 230] (client_new 1 150000) = [10; 120; 230] /\
  StronglySorted (fun a b => a + 100 <= b) [10; 120; 230].
Proof.
  split; [reflexivity|].
  exact (proj1 (pacer_ticks_spaced 100 [10; 50; 120; 200; 230] (client_new 1 150000) eq_refl)).
Defined.
