(* ===== verification/SfuRenegotiation.v ===== *)
(** * SDP renegotiation of outbound tracks (crates/sfu/src/client/renegotiation.rs)

    The per-subscriber state machine ToOpen / Negotiating / Open with its
    single offer slot and its queue.  str0m's and the WebSocket queue's answers
    are arguments.  The file proves the single-offer invariant for every
    transition that keeps it, and shows the two transitions that break it. *)

From Stdlib Require Import ZArith Lia.
From stdpp Require Import base option numbers gmap strings list.
From S2P Require Import Prelude DdParse DdParseFacts DdCache SfuTypes SfuKeyframe.

(** ** Environment *)

(** Outcome of a [try_send]. *)
Inductive SendResult := SendOk | SendFull | SendClosed.

(** Answers to one [start_renegotiation]: the mid of [add_media], the result
    of [apply], whether the offer frame and the map frame fit the queue. *)
Record StartEnv := mkStartEnv {
  se_mid : Mid;
  se_apply : option SdpPendingOffer;
  se_offer_sent : bool;
  se_map_sent : SendResult;
}.

(** Answers to one [accept_renegotiation_answer]: does the SDP parse, does
    str0m accept it, and the environment of the offer it may start next. *)
Record AnswerEnv := mkAnswerEnv {
  ae_parses : bool;
  ae_accepted : bool;
  ae_next : StartEnv;
}.

(** ** Operations *)

Definition is_negotiating (o : TrackOut) : bool :=
  match to_state o with Negotiating _ => true | _ => false end.

Definition start_renegotiation (h : TrackStore) (now : Instant) (env : StartEnv)
    (track_in : TrackRef) (c : Client) : Client * list Effect :=
  match upgrade h track_in with
  | None => (c, [])
  | Some t =>
      let kind := kind_label (ti_kind t) in
      match se_apply env with
      | None => (c, [])
      | Some pending =>
          let c := put_tracks_out
                     (tracks_out c ++ [mkTrackOut track_in (Negotiating (se_mid env))]) c in
          let es := [Inc "sfu_track_out_state_transitions_total" ["to_open"; "negotiating"];
                     Inc "sfu_renegotiation_offers_sent_total" [kind]] in
          let c := put_pending_offer_at (Some now) (put_pending_offer (Some pending) c) in
          if ws_msg_tx c then
            if negb (se_offer_sent env) then
              let c := put_pending_offer_at None (put_pending_offer None c) in
              let c := put_tracks_out (removelast (tracks_out c)) c in
              let c := put_renegotiation_queue (track_in :: renegotiation_queue c) c in
              (c, es ++ [Inc "sfu_renegotiation_offers_dropped_total" [kind]])
            else
              (c, es ++ [WsSend (id c) (OfferRenegotiate (se_mid env))] ++
                  match ti_external_peer_id t with
                  | None => []
                  | Some publisher_peer_id =>
                      match se_map_sent env with
                      | SendOk => [WsSend (id c)
                                     (TracksMapUpdate (se_mid env) publisher_peer_id (ti_kind t))]
                      | SendFull => [Inc "sfu_renegotiation_tracks_map_update_dropped_total"
                                       ["ws_tx_full"]]
                      | SendClosed => [Inc "sfu_renegotiation_tracks_map_update_dropped_total"
                                         ["channel_closed"]]
                      end
                  end)
          else (c, es)
      end
  end.

Definition handle_track_open (h : TrackStore) (now : Instant) (env : StartEnv)
    (track_in : TrackRef) (c : Client) : Client * list Effect :=
  if negb (ws_msg_tx c) then
    (put_tracks_out (tracks_out c ++ [mkTrackOut track_in ToOpen]) c, [])
  else match pending_offer c with
       | Some _ => (put_renegotiation_queue (renegotiation_queue c ++ [track_in]) c, [])
       | None => start_renegotiation h now env track_in c
       end.

Definition flip_state (o : TrackOut) : TrackOut :=
  match to_state o with
  | Negotiating mid => mkTrackOut (to_track_in o) (Open mid)
  | _ => o
  end.

(** The client, one transition effect per flipped entry, and whether any was. *)
Definition flip_negotiating_to_open_all (c : Client) : Client * list Effect * bool :=
  (put_tracks_out (flip_state <$> tracks_out c) c,
   (fun _ => Inc "sfu_track_out_state_transitions_total" ["negotiating"; "open"]) <$>
     filter (fun o => is_negotiating o = true) (tracks_out c),
   existsb is_negotiating (tracks_out c)).

Definition remove_negotiating (c : Client) : Client :=
  put_tracks_out (filter (fun o => is_negotiating o = false) (tracks_out c)) c.

Definition handle_zero_transition_after_accept (c : Client) : Client * list Effect :=
  (put_pending_offer_at None (put_pending_offer None c),
   [Inc "sfu_renegotiation_answers_total" ["state_mismatch"]]).

(** [if let Some(next) = queue.pop_front() { start_renegotiation(next) }] *)
Definition start_next (h : TrackStore) (now : Instant) (env : StartEnv) (c : Client)
    : Client * list Effect :=
  match renegotiation_queue c with
  | [] => (c, [])
  | next :: rest => start_renegotiation h now env next (put_renegotiation_queue rest c)
  end.

Definition accept_renegotiation_answer (h : TrackStore) (now : Instant) (env : AnswerEnv)
    (c : Client) : Client * list Effect :=
  let c := put_pending_offer_at None c in
  match pending_offer c with
  | None => (c, [])
  | Some _ =>
      let c := put_pending_offer None c in
      if negb (ae_parses env) then (c, [Inc "sfu_renegotiation_answers_total" ["err"]])
      else if negb (ae_accepted env) then
        let '(c, es) := start_next h now (ae_next env) (remove_negotiating c) in
        (c, Inc "sfu_renegotiation_answers_total" ["err"] :: es)
      else
        let '(c, es, transitioned) := flip_negotiating_to_open_all c in
        if negb transitioned then
          let '(c, es') := handle_zero_transition_after_accept c in (c, es ++ es')
        else
          let '(c, es1) := start_keyframe_waits_for_open_video_tracks h now c in
          let '(c, es2) := start_next h now (ae_next env) c in
          (c, es ++ [Inc "sfu_renegotiation_answers_total" ["ok"]] ++ es1 ++ es2)
  end.

Definition offer_timeout : Z := 10 * second.

(** Start an offer for each of [queue], the [i]-th in environment [envs i]. *)
Fixpoint start_each (h : TrackStore) (now : Instant) (envs : nat -> StartEnv)
    (queue : list TrackRef) (c : Client) : Client * list Effect :=
  match queue with
  | [] => (c, [])
  | w :: rest =>
      let '(c, es) := start_renegotiation h now (envs O) w c in
      let '(c, es') := start_each h now (fun i => envs (S i)) rest c in
      (c, es ++ es')
  end.

Fixpoint accept_each (h : TrackStore) (now : Instant) (answers : list AnswerEnv) (c : Client)
    : Client * list Effect :=
  match answers with
  | [] => (c, [])
  | a :: rest =>
      let '(c, es) := accept_renegotiation_answer h now a c in
      let '(c, es') := accept_each h now rest c in
      (c, es ++ es')
  end.

(** [answers] are the messages [try_recv] yields, [closed] whether it ends with
    [Disconnected]. *)
Definition drain_ws_ctrl (h : TrackStore) (now : Instant) (envs : nat -> StartEnv)
    (answers : list AnswerEnv) (closed : bool) (c : Client) : Client * list Effect :=
  let timed_out := match pending_offer_at c with
                   | Some sent_at => offer_timeout <? duration_since now sent_at
                   | None => false
                   end in
  if timed_out then
    let c := remove_negotiating (put_pending_offer_at None (put_pending_offer None c)) in
    let pending := renegotiation_queue c in
    let c := put_renegotiation_queue [] c in
    let '(c, es) := start_each h now envs pending c in
    (c, Inc "sfu_renegotiation_answers_total" ["timeout"] :: es)
  else if negb (ws_ctrl_rx c) then (c, [])
  else
    let '(c, es) :=
      if closed then
        let c := put_ws_ctrl_rx false c in
        match pending_offer_at c with
        | Some _ =>
            let c := remove_negotiating (put_pending_offer_at None (put_pending_offer None c)) in
            (put_renegotiation_queue [] c, [Inc "sfu_renegotiation_answers_total" ["ws_closed"]])
        | None => (c, [])
        end
      else (c, []) in
    let '(c, es') := accept_each h now answers c in
    (c, es ++ es').

(** ** The single-offer invariant *)

Definition negotiating_count (c : Client) : nat :=
  length (filter (fun o => is_negotiating o = true) (tracks_out c)).

(** One entry is negotiating when an offer is in flight, none otherwise, and
    the watchdog's clock runs exactly while it is. *)
Definition nego_inv (c : Client) : Prop :=
  negotiating_count c = match pending_offer c with Some _ => 1%nat | None => 0%nat end /\
  (pending_offer c = None <-> pending_offer_at c = None).

Lemma filter_negotiating_none l :
  filter (fun o => is_negotiating o = true) (filter (fun o => is_negotiating o = false) l) = [].
Proof.
  apply filter_none. apply Forall_forall. intros o [Ho _]%list_elem_of_filter. congruence.
Qed.

Lemma remove_negotiating_count c : negotiating_count (remove_negotiating c) = 0%nat.
Proof. unfold negotiating_count; cbn. by rewrite filter_negotiating_none. Qed.

Lemma flip_count l :
  filter (fun o => is_negotiating o = true) (flip_state <$> l) = [].
Proof.
  apply filter_none. apply Forall_fmap, Forall_true. intros [w st]. by destruct st.
Qed.

(** A client with no offer in flight and nothing negotiating. *)
Definition idle (c : Client) : Prop :=
  negotiating_count c = 0%nat /\ pending_offer c = None /\ pending_offer_at c = None.

Lemma idle_nego_inv c : idle c -> nego_inv c.
Proof. intros (H1 & H2 & H3). split; [by rewrite H2 | by rewrite H2, H3]. Qed.

Lemma start_inv h now env w c : idle c -> nego_inv (start_renegotiation h now env w c).1.
Proof.
  intros Hi. pose proof Hi as (Hn & Hp & Ha). unfold start_renegotiation.
  destruct (upgrade h w); [|by apply idle_nego_inv].
  destruct (se_apply env) as [pending|]; [|by apply idle_nego_inv]. cbn.
  assert (length (filter (fun o => is_negotiating o = true)
            (tracks_out c ++ [mkTrackOut w (Negotiating (se_mid env))])) = 1%nat) as Hone.
  { rewrite filter_app, length_app. unfold negotiating_count in Hn. rewrite Hn. done. }
  destruct (ws_msg_tx c); [destruct (se_offer_sent env)|]; cbn.
  - split; [exact Hone | done].
  - split; [|done]. unfold negotiating_count; cbn. by rewrite removelast_last.
  - split; [exact Hone | done].
Qed.

Lemma handle_track_open_inv h now env w c :
  nego_inv c -> nego_inv (handle_track_open h now env w c).1.
Proof.
  intros [Hc Ha]. unfold handle_track_open. destruct (ws_msg_tx c); cbn [negb].
  - destruct (pending_offer c) as [p|] eqn:Hp.
    + cbn. split; cbn; by rewrite Hp.
    + apply start_inv. unfold idle. rewrite Hp in *. split_and!; [done | done | by apply Ha].
  - cbn. split; [|done]. unfold negotiating_count in *; cbn.
    rewrite filter_app, length_app, Hc, filter_cons, decide_False by done. cbn. lia.
Qed.

Lemma start_next_inv h now env c : idle c -> nego_inv (start_next h now env c).1.
Proof.
  intros H. unfold start_next. destruct (renegotiation_queue c); [by apply idle_nego_inv|].
  by apply start_inv.
Qed.

(** Starting keyframe waits touches neither tracks nor offers. *)
Lemma start_waits_same_nego h now c :
  let c' := (start_keyframe_waits_for_open_video_tracks h now c).1 in
  tracks_out c' = tracks_out c /\ pending_offer c' = pending_offer c /\
  pending_offer_at c' = pending_offer_at c /\ renegotiation_queue c' = renegotiation_queue c /\
  ws_msg_tx c' = ws_msg_tx c.
Proof.
  unfold start_keyframe_waits_for_open_video_tracks.
  match goal with |- context [fold_left ?f0 _ _] => set (f := f0) end.
  assert (forall l st, let c' := (fold_left f l st).1 in
    tracks_out c' = tracks_out st.1 /\ pending_offer c' = pending_offer st.1 /\
    pending_offer_at c' = pending_offer_at st.1 /\
    renegotiation_queue c' = renegotiation_queue st.1 /\ ws_msg_tx c' = ws_msg_tx st.1) as H.
  { induction l as [|[o m] l IH]; intros [c1 es1]; [done|]. cbn [fold_left].
    specialize (IH (f (c1, es1) (o, m))). cbv zeta in *.
    replace (tracks_out (f (c1, es1) (o, m)).1) with (tracks_out c1) in IH
      by (unfold f, start_keyframe_wait; by case_decide).
    replace (pending_offer (f (c1, es1) (o, m)).1) with (pending_offer c1) in IH
      by (unfold f, start_keyframe_wait; by case_decide).
    replace (pending_offer_at (f (c1, es1) (o, m)).1) with (pending_offer_at c1) in IH
      by (unfold f, start_keyframe_wait; by case_decide).
    replace (renegotiation_queue (f (c1, es1) (o, m)).1) with (renegotiation_queue c1) in IH
      by (unfold f, start_keyframe_wait; by case_decide).
    replace (ws_msg_tx (f (c1, es1) (o, m)).1) with (ws_msg_tx c1) in IH
      by (unfold f, start_keyframe_wait; by case_decide). exact IH. }
  apply (H _ (c, [])).
Qed.

Lemma accept_inv h now env c :
  nego_inv c -> ae_parses env = true -> nego_inv (accept_renegotiation_answer h now env c).1.
Proof.
  intros [Hc Ha] Hp. unfold accept_renegotiation_answer.
  change (pending_offer (put_pending_offer_at None c)) with (pending_offer c).
  destruct (pending_offer c) as [p|] eqn:Hpo.
  2: { split; cbn; [unfold negotiating_count in *; cbn; by rewrite Hpo | by rewrite Hpo]. }
  rewrite Hp. cbn [negb]. destruct (ae_accepted env); cbn [negb].
  - cbn [flip_negotiating_to_open_all]. destruct (existsb _ _); cbn [negb].
    + match goal with |- context [start_keyframe_waits_for_open_video_tracks h now ?c0] =>
        pose proof (start_waits_same_nego h now c0) as (H1 & H2 & H3 & _ & _);
        destruct (start_keyframe_waits_for_open_video_tracks h now c0) as [c1 es1] end.
      cbn [fst] in *. pose proof (start_next_inv h now (ae_next env) c1) as Hn.
      destruct (start_next h now (ae_next env) c1). apply Hn.
      unfold idle, negotiating_count. rewrite H1, H2, H3. cbn. by rewrite flip_count.
    + cbn. split; [|done]. unfold negotiating_count; cbn. by rewrite flip_count.
  - pose proof (start_next_inv h now (ae_next env)
      (remove_negotiating (put_pending_offer None (put_pending_offer_at None c)))) as Hn.
    destruct (start_next h now (ae_next env) _). apply Hn.
    unfold idle. by rewrite remove_negotiating_count.
Qed.

(** A client as the registry drives it: tracks open, answers arrive, the drain
    runs (with any number of answers, with the channel closing, at any time).
    Excluded are an answer that does not parse, and a drain more than ten seconds
    after the offer was sent with more than one track queued behind it. *)
Inductive nego_step : Client -> Client -> Prop :=
| step_open h now env w c :
    nego_step c (handle_track_open h now env w c).1
| step_answer h now env c :
    ae_parses env = true ->
    nego_step c (accept_renegotiation_answer h now env c).1
| step_drain h now envs answers closed c :
    Forall (fun a => ae_parses a = true) answers ->
    (forall sent_at, pending_offer_at c = Some sent_at -> 10 * second < now - sent_at ->
       (length (renegotiation_queue c) <= 1)%nat) ->
    nego_step c (drain_ws_ctrl h now envs answers closed c).1.

Lemma accept_each_inv h now answers : forall c,
  Forall (fun a => ae_parses a = true) answers -> nego_inv c ->
  nego_inv (accept_each h now answers c).1.
Proof.
  induction answers as [|a answers IH]; intros c Hall Hc; [done|].
  apply Forall_cons in Hall as [Ha Hall]. cbn [accept_each].
  pose proof (accept_inv h now a c Hc Ha) as H.
  destruct (accept_renegotiation_answer h now a c) as [c1 es1]. cbn [fst] in H.
  specialize (IH c1 Hall H). by destruct (accept_each h now answers c1).
Qed.

Lemma drain_inv h now envs answers closed c :
  nego_inv c -> Forall (fun a => ae_parses a = true) answers ->
  (forall sent_at, pending_offer_at c = Some sent_at -> 10 * second < now - sent_at ->
     (length (renegotiation_queue c) <= 1)%nat) ->
  nego_inv (drain_ws_ctrl h now envs answers closed c).1.
Proof.
  intros Hc Hall Hlate. unfold drain_ws_ctrl. cbv zeta.
  match goal with |- context [if ?b then _ else _] => destruct b eqn:Htimed end.
  { assert (length (renegotiation_queue c) <= 1)%nat as Hq.
    { destruct (pending_offer_at c) as [sent|]; [|done]. apply (Hlate sent); [done|].
      unfold offer_timeout, duration_since, second in *. lia. }
    clear Htimed. change (renegotiation_queue (remove_negotiating _)) with (renegotiation_queue c).
    set (c0 := put_renegotiation_queue [] _).
    assert (idle c0) as Hi by (unfold idle, c0, negotiating_count; cbn; by rewrite filter_negotiating_none).
    destruct (renegotiation_queue c) as [|w [|w2 q]]; cbn in Hq; [| |lia]; cbn [start_each].
    - by apply idle_nego_inv.
    - pose proof (start_inv h now (envs 0%nat) w c0 Hi) as H.
      by destruct (start_renegotiation h now (envs 0%nat) w c0). }
  destruct (ws_ctrl_rx c); cbn [negb]; [|done].
  destruct closed.
  - change (pending_offer_at (put_ws_ctrl_rx false c)) with (pending_offer_at c).
    destruct (pending_offer_at c) as [t|] eqn:Ht.
    + match goal with |- context [accept_each h now answers ?c0] =>
        pose proof (accept_each_inv h now answers c0 Hall) as H;
        destruct (accept_each h now answers c0) end.
      apply H, idle_nego_inv. unfold idle, negotiating_count; cbn. by rewrite filter_negotiating_none.
    + match goal with |- context [accept_each h now answers ?c0] =>
        pose proof (accept_each_inv h now answers c0 Hall) as H;
        destruct (accept_each h now answers c0) end. by apply H.
  - pose proof (accept_each_inv h now answers c Hall Hc) as H.
    by destruct (accept_each h now answers c).
Qed.

(** C11. Single offer in flight: from a fresh browser client, through any
    sequence of track openings, answers that parse, drains with any queue, any such
    answers and any channel closure, and timeouts of the offer with at most one
    track queued behind it, one outbound entry is negotiating while an offer is
    pending and none otherwise, and the no-answer watchdog runs exactly while an
    offer is pending.  (With more queued a timeout starts an offer for each of
    them.) *)
Theorem single_offer_invariant cid low_min_bps c :
  rtc nego_step (with_ws_ctrl_rx (with_ws_msg_tx (client_new cid low_min_bps))) c ->
  nego_inv c.
Proof.
  assert (forall c0, rtc nego_step c0 c -> nego_inv c0 -> nego_inv c) as H.
  { intros c0. induction 1 as [|c1 c2 c3 Hstep _ IH]; [done|]. intros Hc. apply IH.
    destruct Hstep; [by apply handle_track_open_inv | by apply accept_inv | by apply drain_inv]. }
  intros Hr. by eapply H.
Qed.

(** Starting an offer keeps the waits and the tracks already there. *)
Lemma start_keeps h now env w c :
  let c' := (start_renegotiation h now env w c).1 in
  keyframe_waits c' = keyframe_waits c /\ (forall o, o ∈ tracks_out c -> o ∈ tracks_out c').
Proof.
  unfold start_renegotiation. destruct (upgrade h w); [|done]. destruct (se_apply env); [|done].
  cbn. destruct (ws_msg_tx c); [destruct (se_offer_sent env)|]; cbn; split; try done;
    intros o Ho; rewrite ?removelast_last, ?elem_of_app; auto.
Qed.

Lemma start_next_keeps h now env c :
  let c' := (start_next h now env c).1 in
  keyframe_waits c' = keyframe_waits c /\ (forall o, o ∈ tracks_out c -> o ∈ tracks_out c').
Proof.
  unfold start_next. destruct (renegotiation_queue c); [done|].
  exact (start_keeps h now env t (put_renegotiation_queue l c)).
Qed.

(** Every open video track with a live publisher is waited on. *)
Lemma start_waits_covers h now c k :
  k ∈ open_video_tracks h c ->
  k ∈ (wait_key <$> keyframe_waits (start_keyframe_waits_for_open_video_tracks h now c).1).
Proof.
  unfold start_keyframe_waits_for_open_video_tracks. generalize (open_video_tracks h c) as l.
  match goal with |- context [fold_left ?f0 _ _] => set (f := f0) end.
  assert (forall st o m,
    (o, m) ∈ (wait_key <$> keyframe_waits (f st (o, m)).1) /\
    forall k', k' ∈ (wait_key <$> keyframe_waits st.1) ->
               k' ∈ (wait_key <$> keyframe_waits (f st (o, m)).1)) as Hf.
  { intros [c1 es1] o m. unfold f, start_keyframe_wait. case_decide as Hex; cbn.
    - split; [|done]. apply Exists_exists in Hex as (w & Hw & <-). by apply list_elem_of_fmap_2.
    - rewrite fmap_app. split; [|intros; apply elem_of_app; by left].
      apply elem_of_app. right. left. }
  assert (forall l st, (forall k', k' ∈ (wait_key <$> keyframe_waits st.1) ->
            k' ∈ (wait_key <$> keyframe_waits (fold_left f l st).1)) /\
          (forall k', k' ∈ l -> k' ∈ (wait_key <$> keyframe_waits (fold_left f l st).1))) as H.
  { induction l as [|[o m] l IH]; intros st; cbn [fold_left]; [split; [done | set_solver]|].
    destruct (Hf st o m) as [Hf1 Hf2], (IH (f st (o, m))) as [IH1 IH2].
    split; [auto|]. intros k' [->|Hk]%elem_of_cons; auto. }
  intros l Hk. by apply H.
Qed.

(** An accepted answer opens every track that was negotiating, drops none,
    and starts a keyframe wait for each of them that is a video track whose
    publisher is still there. *)
Theorem accepted_answer_opens h now env c p :
  pending_offer c = Some p -> existsb is_negotiating (tracks_out c) = true ->
  ae_parses env = true -> ae_accepted env = true ->
  let c' := (accept_renegotiation_answer h now env c).1 in
  (forall o, o ∈ tracks_out c -> flip_state o ∈ tracks_out c') /\
  (forall o t, o ∈ tracks_out c -> is_negotiating o = true ->
     upgrade h (to_track_in o) = Some t -> ti_kind t = Video ->
     is_Some (out_mid (flip_state o)) /\
     (ti_origin t, ti_mid t) ∈ (wait_key <$> keyframe_waits c')).
Proof.
  intros Hpo Hex Hp Ha. unfold accept_renegotiation_answer.
  change (pending_offer (put_pending_offer_at None c)) with (pending_offer c).
  rewrite Hpo, Hp, Ha. cbn [negb flip_negotiating_to_open_all].
  set (c0 := put_pending_offer None (put_pending_offer_at None c)).
  change (tracks_out c0) with (tracks_out c). rewrite Hex. cbn [negb].
  set (c1 := put_tracks_out (flip_state <$> tracks_out c) c0).
  pose proof (start_waits_same_nego h now c1) as (Ht & _).
  pose proof (start_waits_covers h now c1) as Hw.
  destruct (start_keyframe_waits_for_open_video_tracks h now c1) as [c2 es2]. cbn [fst] in *.
  destruct (start_next_keeps h now (ae_next env) c2) as [Hk Ho].
  destruct (start_next h now (ae_next env) c2) as [c3 es3]. cbn [fst] in *.
  split.
  - intros o Hin. apply Ho. rewrite Ht. by apply list_elem_of_fmap_2.
  - intros [w st] t Hin Hneg Hup Hv. destruct st; try done. split; [by eexists|].
    rewrite Hk. apply Hw. unfold open_video_tracks. apply list_elem_of_omap.
    exists (mkTrackOut w (Open mid)). cbn in *. split.
    + change (mkTrackOut w (Open mid)) with (flip_state (mkTrackOut w (Negotiating mid))).
      by apply list_elem_of_fmap_2.
    + rewrite Hup. cbn. by rewrite decide_True.
Qed.

(** ** Where the invariant is lost *)

Definition quiet_drains (evs : list (TrackStore * Instant * (nat -> StartEnv))) (c : Client)
    : Client :=
  fold_left (fun c '(h, now, envs) => (drain_ws_ctrl h now envs [] false c).1) evs c.

(** An answer that does not parse strands its track and the queue: the
    offer slot and the watchdog are cleared, the entry stays negotiating, and
    no number of later drains, however late, removes it or starts a queued
    offer. *)
Theorem unparsable_answer_strands h now env c p evs :
  nego_inv c -> pending_offer c = Some p -> ae_parses env = false ->
  let c' := quiet_drains evs (accept_renegotiation_answer h now env c).1 in
  negotiating_count c' = 1%nat /\ pending_offer c' = None /\ pending_offer_at c' = None /\
  renegotiation_queue c' = renegotiation_queue c.
Proof.
  intros [Hc _] Hpo Hp. unfold accept_renegotiation_answer.
  change (pending_offer (put_pending_offer_at None c)) with (pending_offer c).
  rewrite Hpo in *. rewrite Hp. cbn [negb fst].
  set (c1 := put_pending_offer None _).
  assert (quiet_drains evs c1 = c1) as ->; [|by split_and!].
  induction evs as [|[[h' now'] envs] evs IH]; [done|]. cbn [quiet_drains fold_left].
  assert ((drain_ws_ctrl h' now' envs [] false c1).1 = c1) as ->; [|exact IH].
  unfold drain_ws_ctrl. cbn. by destruct (ws_ctrl_rx c).
Qed.

(** A timeout with several queued tracks starts an offer for each of them:
    with two live tracks queued, the drain leaves two entries negotiating and a
    single offer slot, which holds the second offer. *)
Theorem timeout_breaks_single_offer h now envs answers closed c p sent w1 w2 t1 t2 o1 o2 :
  nego_inv c -> pending_offer c = Some p -> pending_offer_at c = Some sent ->
  offer_timeout < now - sent -> ws_msg_tx c = true ->
  renegotiation_queue c = [w1; w2] -> upgrade h w1 = Some t1 -> upgrade h w2 = Some t2 ->
  se_apply (envs 0%nat) = Some o1 -> se_apply (envs 1%nat) = Some o2 ->
  se_offer_sent (envs 0%nat) = true -> se_offer_sent (envs 1%nat) = true ->
  let c' := (drain_ws_ctrl h now envs answers closed c).1 in
  negotiating_count c' = 2%nat /\ pending_offer c' = Some o2 /\ ~ nego_inv c'.
Proof.
  intros _ Hp Hat Hlate Hws Hq H1 H2 A1 A2 S1 S2 c'.
  assert (negotiating_count c' = 2%nat /\ pending_offer c' = Some o2) as [Hn Ho].
  { unfold c', drain_ws_ctrl. rewrite Hat.
    replace (offer_timeout <? duration_since now sent) with true
      by (unfold duration_since, offer_timeout, second in *; lia).
    change (renegotiation_queue (remove_negotiating _)) with (renegotiation_queue c). rewrite Hq.
    cbn [start_each]. unfold start_renegotiation. rewrite H1, A1, S1. cbn. rewrite Hws. cbn.
    rewrite H2, A2, S2. cbn. rewrite Hws. cbn. unfold negotiating_count. cbn.
    by rewrite !filter_app, filter_negotiating_none. }
  split_and!; [done | done|]. intros [Hc _]. rewrite Hn, Ho in Hc. done.
Qed.

(** ** Concrete runs *)

Definition nego_store : TrackStore :=
  {[ 1%nat := mkTrackIn 7 "v0" Video (Some 70);
     2%nat := mkTrackIn 8 "a0" Audio (Some 80);
     3%nat := mkTrackIn 8 "v1" Video None ]}.

Definition nego_env (mid : Mid) (n : nat) : StartEnv := mkStartEnv mid (Some n) true SendOk.

Definition nego_client : Client := with_ws_ctrl_rx (with_ws_msg_tx (client_new 9 150000)).

(** Track 1 offered at time 0, tracks 2 and 3 queued behind it. *)
Definition nego_waiting : Client :=
  let open w c := (handle_track_open nego_store 0 (nego_env "o0" 1) w c).1 in
  open 3%nat (open 2%nat (open 1%nat nego_client)).

Lemma nego_waiting_reachable : rtc nego_step nego_client nego_waiting.
Proof.
  unfold nego_waiting. eapply rtc_l; [apply step_open|]. eapply rtc_l; [apply step_open|].
  eapply rtc_l; [apply step_open|]. apply rtc_refl.
Qed.

(** Its answer is drained, with two tracks queued. *)
Definition nego_drained : Client :=
  (drain_ws_ctrl nego_store 5 (fun _ => nego_env "o9" 9) [mkAnswerEnv true true (nego_env "o1" 2)] false
     nego_waiting).1.

Lemma single_offer_invariant_witness :
  negotiating_count nego_drained = 1%nat /\ renegotiation_queue nego_drained = [3%nat].
Proof.
  split; [|vm_compute; reflexivity].
  refine (proj1 (single_offer_invariant 9 150000 nego_drained _)).
  eapply rtc_r; [exact nego_waiting_reachable|]. apply step_drain; [by repeat constructor|].
  intros sent E Hlate. exfalso. vm_compute in E. injection E as <-. vm_compute in Hlate. discriminate.
Defined.

Lemma nego_waiting_inv : nego_inv nego_waiting.
Proof. by repeat apply handle_track_open_inv. Qed.

Lemma accepted_answer_opens_witness :
  (7, "v0") ∈ (wait_key <$> keyframe_waits
    (accept_renegotiation_answer nego_store 5 (mkAnswerEnv true true (nego_env "o1" 2))
       nego_waiting).1).
Proof.
  refine (proj2 (proj2 (accepted_answer_opens nego_store 5
    (mkAnswerEnv true true (nego_env "o1" 2)) nego_waiting 1%nat eq_refl eq_refl eq_refl eq_refl)
    (mkTrackOut 1%nat (Negotiating "o0")) (mkTrackIn 7 "v0" Video (Some 70)) _ eq_refl eq_refl eq_refl)).
  left.
Defined.

Lemma unparsable_answer_strands_witness :
  let c' := quiet_drains [(nego_store, 3600 * second, fun _ => nego_env "o1" 2)]
    (accept_renegotiation_answer nego_store 5 (mkAnswerEnv false false (nego_env "o1" 2))
       nego_waiting).1 in
  negotiating_count c' = 1%nat /\ pending_offer_at c' = None /\
  renegotiation_queue c' = [2%nat; 3%nat].
Proof.
  destruct (unparsable_answer_strands nego_store 5 (mkAnswerEnv false false (nego_env "o1" 2))
    nego_waiting 1%nat [(nego_store, 3600 * second, fun _ => nego_env "o1" 2)]
    nego_waiting_inv eq_refl eq_refl) as (H1 & _ & H3 & H4).
  split; [exact H1|]. split; [exact H3 | exact H4].
Defined.

Lemma timeout_breaks_single_offer_witness :
  negotiating_count (drain_ws_ctrl nego_store (11 * second) (fun i => nego_env "o1" (2 + i)) [] false
    nego_waiting).1 = 2%nat.
Proof.
  refine (proj1 (timeout_breaks_single_offer nego_store (11 * second)
    (fun i => nego_env "o1" (2 + i)) [] false nego_waiting 1%nat 0 2%nat 3%nat
    (mkTrackIn 8 "a0" Audio (Some 80)) (mkTrackIn 8 "v1" Video None) 2%nat 3%nat
    nego_waiting_inv eq_refl eq_refl _ eq_refl eq_refl eq_refl eq_refl eq_refl eq_refl
    eq_refl eq_refl)).
  unfold offer_timeout, second. lia.
Defined.
