(* ===== verification/SfuRelayOut.v ===== *)
(** * Per-peer data-channel relays
      (crates/sfu/src/client/{chat,voice,keys}.rs, client/mod.rs, sfu_events.rs)

    Outbound writers of chat, voice, key-exchange and SFU-event frames.  What
    str0m answers to [rtc.channel(cid)] and [write] is the argument [ch]. *)

From Stdlib Require Import ZArith Lia.
From stdpp Require Import base option numbers gmap strings pretty list.
From S2P Require Import Prelude RustStr DdParse DdParseFacts DdCache SfuTypes.

(** A data channel as the writer finds it: not there, or there with an amount
    of buffered bytes and a write that succeeds or fails. *)
Inductive Channel :=
| ChClosed
| ChOpen (buffered : Z) (write_ok : bool).

(** ** Chat (client/chat.rs) *)

Definition CHAT_FRAME_MAX_BYTES : Z := 256 * 1024.

Definition write_chat_frame (ch : Channel) (dc_label : string) (opened : bool)
    (payload : list Z) (c : Client) : list Effect :=
  if CHAT_FRAME_MAX_BYTES <? len payload then
    [Inc "chat_relay_dropped_total" [dc_label; "oversize"]]
  else if negb opened then [Inc "chat_relay_dropped_total" [dc_label; "no_channel"]]
  else match ch with
       | ChClosed => [Inc "chat_relay_dropped_total" [dc_label; "no_channel"]]
       | ChOpen _ true =>
           [DcWrite (id c) dc_label payload;
            IncBy "chat_relay_tx_bytes_total" [dc_label; label_of (id c)] (len payload)]
       | ChOpen _ false => [Inc "chat_relay_dropped_total" [dc_label; "write_err"]]
       end.

Definition handle_chat_data_out (ch : Channel) (origin : ClientId) (payload : list Z)
    (c : Client) : list Effect :=
  if decide (id c = origin) then []
  else write_chat_frame ch "data" (chat_data_cid c) payload c.

Definition handle_chat_ctrl_out (ch : Channel) (origin : ClientId) (payload : list Z)
    (c : Client) : list Effect :=
  if decide (id c = origin) then []
  else write_chat_frame ch "ctrl" (chat_ctrl_cid c) payload c.

(** ** Voice (client/voice.rs) *)

Definition VOICE_FRAME_MAX_BYTES : Z := 64 * 1024.
Definition VOICE_BUFFERED_AMOUNT_MAX : Z := VOICE_FRAME_MAX_BYTES.

Definition voice_dropped (reason : string) : list Effect :=
  [Inc "voice_relay_dropped" [reason]].

Definition handle_voice_data_out (ch : Channel) (origin : ClientId) (payload : list Z)
    (c : Client) : list Effect :=
  if decide (id c = origin) then []
  else if VOICE_FRAME_MAX_BYTES <? len payload then voice_dropped "frame_malformed"
  else if negb (voice_data_cid c) then voice_dropped "subscriber_dc_not_open"
  else match ch with
       | ChClosed => voice_dropped "dc_closed"
       | ChOpen buffered write_ok =>
           if VOICE_BUFFERED_AMOUNT_MAX <? buffered then voice_dropped "buffered_amount_too_high"
           else if write_ok then
             [DcWrite (id c) "voice" payload;
              IncBy "voice_relay_tx_bytes_total" [label_of (id c)] (len payload)]
           else voice_dropped "dc_send_failed"
       end.

(** ** Key exchange (client/keys.rs) *)

Definition SFRAME_KEYS_FRAME_MAX_BYTES : Z := 64 * 1024.

Definition handle_keys_data_out (ch : Channel) (origin : ClientId) (payload : list Z)
    (c : Client) : list Effect :=
  if decide (id c = origin) then []
  else if SFRAME_KEYS_FRAME_MAX_BYTES <? len payload then []
  else if negb (keys_dc_cid c) then []
  else match ch with
       | ChOpen _ true => [DcWrite (id c) "sframe-keys" payload]
       | _ => []
       end.

(** ** SFU events (sfu_events.rs, client/mod.rs) *)

Definition MAX_FRAME_SIZE : nat := 256.

Definition as_wire_str (t : SuspendTier) : string :=
  match t with
  | AudioNormal => "audio-normal"
  | AudioLow => "audio-low"
  | VideoMax => "video-max"
  end.

(** The double quote. *)
Definition dq : string := String (Ascii.ascii_of_nat 34) EmptyString.

Definition quoted (s : string) : string := dq +:+ s +:+ dq.

(** The JSON text of a [PeerSuspendedFrame], fields in declaration order. *)
Definition build_peer_suspended (now_ms : Z) (peer_id : ClientId) (tier : SuspendTier) : string :=
  "{" +:+ quoted "kind" +:+ ":" +:+ quoted "peer-suspended" +:+ "," +:+
  quoted "from" +:+ ":" +:+ quoted (label_of peer_id) +:+ "," +:+
  quoted "ts" +:+ ":" +:+ label_of now_ms +:+ "," +:+
  quoted "tier" +:+ ":" +:+ quoted (as_wire_str tier) +:+ "}".

Definition handle_sfu_event_out (ch : Channel) (now_ms : Z) (peer_id : ClientId)
    (tier : SuspendTier) (c : Client) : list Effect :=
  if negb (sfu_events_cid c) then []
  else if (MAX_FRAME_SIZE <? String.length (build_peer_suspended now_ms peer_id tier))%nat then []
  else match ch with
       | ChOpen _ true => [TierNotice (id c) peer_id tier]
       | _ => []
       end.

(** ** Theorems *)

Lemma pretty_N_go_length k : forall x s,
  (x < 10 ^ N.of_nat k)%N -> (String.length (pretty_N_go x s) <= k + String.length s)%nat.
Proof.
  induction k as [|k IH]; intros x s Hx.
  - assert (x = 0%N) as -> by (simpl in Hx; lia). rewrite pretty_N_go_0. lia.
  - destruct (decide (x = 0%N)) as [->|Hne]; [rewrite pretty_N_go_0; lia|].
    rewrite pretty_N_go_step by lia.
    etransitivity; [apply IH|].
    + apply N.Div0.div_lt_upper_bound. rewrite Nat2N.inj_succ, N.pow_succ_r' in Hx. lia.
    + simpl. lia.
Qed.

(** A [u64] prints in at most twenty digits. *)
Lemma label_of_length z : 0 <= z <= u64_max -> (String.length (label_of z) <= 20)%nat.
Proof.
  unfold u64_max. intros Hz. unfold label_of, pretty, pretty_Z.
  assert (forall n : N, (n < 10 ^ 20)%N -> (String.length (pretty n) <= 20)%nat) as Hn.
  { intros n Hlt. unfold pretty, pretty_N. case_decide; [simpl; lia|].
    pose proof (pretty_N_go_length 20 n EmptyString Hlt) as Hl. simpl in Hl. lia. }
  destruct z as [|p|p]; [simpl; lia | | lia]. apply Hn. lia.
Qed.

Lemma length_append (a b : string) : String.length (a +:+ b) = (String.length a + String.length b)%nat.
Proof. induction a as [|x a IH]; simpl; auto. Qed.

(** A tier notice always fits its frame: for every peer id and clock
    reading that are [u64]s the JSON frame is below [MAX_FRAME_SIZE], so a
    subscriber whose event channel is open always receives the notice. *)
Theorem tier_notice_delivered now_ms peer_id tier buffered c :
  0 <= now_ms <= u64_max -> 0 <= peer_id <= u64_max -> sfu_events_cid c = true ->
  handle_sfu_event_out (ChOpen buffered true) now_ms peer_id tier c =
    [TierNotice (id c) peer_id tier].
Proof.
  intros Hts Hp Hc. unfold handle_sfu_event_out. rewrite Hc. cbn [negb].
  pose proof (label_of_length now_ms Hts). pose proof (label_of_length peer_id Hp).
  assert (String.length (as_wire_str tier) <= 12)%nat by (destruct tier; simpl; lia).
  destruct (Nat.ltb_spec MAX_FRAME_SIZE (String.length (build_peer_suspended now_ms peer_id tier)));
    [exfalso|done].
  unfold build_peer_suspended, quoted, MAX_FRAME_SIZE in *.
  rewrite !length_append in *. simpl String.length in *. lia.
Qed.

Lemma tier_notice_delivered_witness :
  handle_sfu_event_out (ChOpen 0 true) u64_max u64_max AudioNormal
    (with_sfu_events_dc (client_new 9 150000)) = [TierNotice 9 u64_max AudioNormal].
Proof.
  apply (tier_notice_delivered u64_max u64_max AudioNormal 0 (with_sfu_events_dc (client_new 9 150000)));
    [unfold u64_max; lia | unfold u64_max; lia | reflexivity].
Defined.

(** A frame reached the peer on channel [dc]. *)
Definition delivers (es : list Effect) (dc : string) (to : ClientId) (payload : list Z) : Prop :=
  DcWrite to dc payload ∈ es.

Lemma delivers_nil dc to p : ~ delivers [] dc to p.
Proof. by intros H%elem_of_nil. Qed.

Lemma delivers_inc f l dc to p : ~ delivers [Inc f l] dc to p.
Proof. by intros H%list_elem_of_singleton. Qed.

Lemma delivers_counted a dc' q f l n dc to p :
  delivers [DcWrite a dc' q; IncBy f l n] dc to p <-> dc = dc' /\ to = a /\ p = q.
Proof.
  unfold delivers. rewrite elem_of_cons, list_elem_of_singleton. split.
  - intros [[= -> -> ->]|?]; done.
  - intros (-> & -> & ->). by left.
Qed.

Lemma delivers_plain a dc' q dc to p :
  delivers [DcWrite a dc' q] dc to p <-> dc = dc' /\ to = a /\ p = q.
Proof.
  unfold delivers. rewrite list_elem_of_singleton.
  split; [by intros [= -> -> ->] | by intros (-> & -> & ->)].
Qed.

(** Close a goal in which nothing is delivered and some condition fails. *)
Ltac undelivered :=
  split; [intros Hd; exfalso; by first [apply delivers_inc in Hd | apply delivers_nil in Hd]
         | intros; deep_destruct; first [discriminate | lia | congruence]].

(** Close a goal in which the frame is delivered and every condition holds. *)
Ltac delivered :=
  first [rewrite delivers_counted | rewrite delivers_plain];
  split; [intros (-> & -> & ->); by eauto 12 | by intros (-> & -> & -> & _)].

(** [ch] takes a frame. *)
Definition takes (ch : Channel) : Prop := exists b, ch = ChOpen b true.

Lemma chat_delivers ch label opened payload c dc to p :
  delivers (write_chat_frame ch label opened payload c) dc to p <->
  dc = label /\ to = id c /\ p = payload /\ len payload <= CHAT_FRAME_MAX_BYTES /\
  opened = true /\ takes ch.
Proof.
  unfold write_chat_frame, takes.
  destruct (Z.ltb_spec CHAT_FRAME_MAX_BYTES (len payload)); [undelivered|].
  destruct opened; cbn [negb]; [|undelivered].
  destruct ch as [|b [|]]; [undelivered | delivered | undelivered].
Qed.

Lemma chat_drops ch dc opened payload c :
  ~ delivers (write_chat_frame ch dc opened payload c) dc (id c) payload ->
  exists reason, write_chat_frame ch dc opened payload c =
                 [Inc "chat_relay_dropped_total" [dc; reason]].
Proof.
  unfold write_chat_frame. destruct (CHAT_FRAME_MAX_BYTES <? len payload); [by eauto|].
  destruct opened; cbn [negb]; [|by eauto]. destruct ch as [|b [|]]; [by eauto | | by eauto].
  intros Hn. exfalso. apply Hn. by apply delivers_counted.
Qed.

Lemma voice_delivers ch origin payload c dc to p :
  delivers (handle_voice_data_out ch origin payload c) dc to p <->
  dc = "voice" /\ to = id c /\ p = payload /\ id c <> origin /\
  len payload <= VOICE_FRAME_MAX_BYTES /\ voice_data_cid c = true /\
  exists b, ch = ChOpen b true /\ b <= VOICE_BUFFERED_AMOUNT_MAX.
Proof.
  unfold handle_voice_data_out, voice_dropped. case_decide; [undelivered|].
  destruct (Z.ltb_spec VOICE_FRAME_MAX_BYTES (len payload)); [undelivered|].
  destruct (voice_data_cid c); cbn [negb]; [|undelivered]. destruct ch as [|b w]; [undelivered|].
  destruct (Z.ltb_spec VOICE_BUFFERED_AMOUNT_MAX b).
  { split; [by intros ?%delivers_inc|]. intros (_ & _ & _ & _ & _ & _ & b' & [= <-] & ?). lia. }
  destruct w; [delivered | undelivered].
Qed.

Lemma voice_drops ch origin payload c :
  id c <> origin -> ~ delivers (handle_voice_data_out ch origin payload c) "voice" (id c) payload ->
  exists reason, handle_voice_data_out ch origin payload c = [Inc "voice_relay_dropped" [reason]].
Proof.
  intros Hne. unfold handle_voice_data_out, voice_dropped. rewrite decide_False by done.
  destruct (VOICE_FRAME_MAX_BYTES <? len payload); [by eauto|].
  destruct (voice_data_cid c); cbn [negb]; [|by eauto]. destruct ch as [|b w]; [by eauto|].
  destruct (VOICE_BUFFERED_AMOUNT_MAX <? b); [by eauto|]. destruct w; [|by eauto].
  intros Hn. exfalso. apply Hn. by apply delivers_counted.
Qed.

Lemma keys_delivers ch origin payload c dc to p :
  delivers (handle_keys_data_out ch origin payload c) dc to p <->
  dc = "sframe-keys" /\ to = id c /\ p = payload /\ id c <> origin /\
  len payload <= SFRAME_KEYS_FRAME_MAX_BYTES /\ keys_dc_cid c = true /\ takes ch.
Proof.
  unfold handle_keys_data_out, takes. case_decide; [undelivered|].
  destruct (Z.ltb_spec SFRAME_KEYS_FRAME_MAX_BYTES (len payload)); [undelivered|].
  destruct (keys_dc_cid c); cbn [negb]; [|undelivered].
  destruct ch as [|b [|]]; [undelivered | delivered | undelivered].
Qed.

(** The relays deliver exactly what they should: a chat, chat-control, voice
    or key frame is written to the peer, on the channel of its kind, if and only
    if the peer is not its sender, the frame is within the channel's size cap,
    the peer opened the channel, and the channel takes it (for voice, with at
    most one frame worth buffered); and a chat, chat-control or voice frame that
    is not written to another peer is counted under exactly one drop reason. *)
Theorem relays_deliver ch origin payload c dc to p :
  (delivers (handle_chat_data_out ch origin payload c) dc to p <->
     dc = "data" /\ to = id c /\ p = payload /\ id c <> origin /\
     len payload <= CHAT_FRAME_MAX_BYTES /\ chat_data_cid c = true /\ takes ch) /\
  (delivers (handle_chat_ctrl_out ch origin payload c) dc to p <->
     dc = "ctrl" /\ to = id c /\ p = payload /\ id c <> origin /\
     len payload <= CHAT_FRAME_MAX_BYTES /\ chat_ctrl_cid c = true /\ takes ch) /\
  (delivers (handle_voice_data_out ch origin payload c) dc to p <->
     dc = "voice" /\ to = id c /\ p = payload /\ id c <> origin /\
     len payload <= VOICE_FRAME_MAX_BYTES /\ voice_data_cid c = true /\
     exists b, ch = ChOpen b true /\ b <= VOICE_BUFFERED_AMOUNT_MAX) /\
  (delivers (handle_keys_data_out ch origin payload c) dc to p <->
     dc = "sframe-keys" /\ to = id c /\ p = payload /\ id c <> origin /\
     len payload <= SFRAME_KEYS_FRAME_MAX_BYTES /\ keys_dc_cid c = true /\ takes ch) /\
  (id c <> origin ->
     (~ delivers (handle_chat_data_out ch origin payload c) "data" (id c) payload ->
        exists reason, handle_chat_data_out ch origin payload c =
                       [Inc "chat_relay_dropped_total" ["data"; reason]]) /\
     (~ delivers (handle_chat_ctrl_out ch origin payload c) "ctrl" (id c) payload ->
        exists reason, handle_chat_ctrl_out ch origin payload c =
                       [Inc "chat_relay_dropped_total" ["ctrl"; reason]]) /\
     (~ delivers (handle_voice_data_out ch origin payload c) "voice" (id c) payload ->
        exists reason, handle_voice_data_out ch origin payload c =
                       [Inc "voice_relay_dropped" [reason]])).
Proof.
  split_and!.
  - unfold handle_chat_data_out. case_decide; [undelivered|]. rewrite chat_delivers. tauto.
  - unfold handle_chat_ctrl_out. case_decide; [undelivered|]. rewrite chat_delivers. tauto.
  - apply voice_delivers.
  - apply keys_delivers.
  - intros Hne. unfold handle_chat_data_out, handle_chat_ctrl_out. rewrite !decide_False by done.
    split_and!; [apply chat_drops | apply chat_drops | by apply voice_drops].
Qed.

Lemma relays_deliver_witness :
  exists reason,
    handle_voice_data_out (ChOpen 70000 true) 1 [1; 2] (with_voice_dc (client_new 9 150000)).1 =
    [Inc "voice_relay_dropped" [reason]].
Proof.
  refine (proj2 (proj2 (proj2 (proj2 (proj2 (proj2 (relays_deliver (ChOpen 70000 true) 1 [1; 2]
    (with_voice_dc (client_new 9 150000)).1 "voice" 9 [1; 2]))))  _)) _); [discriminate|].
  intros Hd. unfold delivers in Hd. vm_compute in Hd. by apply list_elem_of_singleton in Hd.
Defined.
