(* ===== verification/SfuRegistry.v ===== *)
(** * The registry of connected peers
      (crates/sfu/src/registry/{mod,bwe,poll}.rs, crates/sfu/src/fanout.rs,
       client/dispatch.rs)

    Joining, session steal, reaping, the solo-room clock, the per-packet pacer
    pass, cross-client fanout and its event queue.  The tracks that are alive
    are those owned by the clients in the registry. *)

From Stdlib Require Import ZArith Lia.
From stdpp Require Import base option numbers gmap strings list.
From S2P Require Import Prelude RustStr DdParse DdParseFacts DdCache SfuTypes SfuKeyframe SfuMedia.
From S2P Require Import SfuRenegotiation SfuRelayOut.

(** [bandwidth] is the kit's estimator, as the calls made on it, oldest first:
    what it answers is a function of them. *)
Record Registry := mkRegistry {
  clients : list Client;
  to_propagate : list Propagated;
  solo_since : option Instant;
  bandwidth : list Effect;
}.

Definition registry_new : Registry := mkRegistry [] [] None [].

(** The [Arc<TrackIn>]s owned by the clients. *)
Definition live_tracks (cs : list Client) : TrackStore :=
  list_to_map (cs ≫= fun c => (fun e => (tie_ref e, tie_id e)) <$> tracks_in c).

(** Everything outside the process, while one event is handled or one client
    joins: what str0m's writers and channels answer, the renegotiation environment,
    the wall clock.  Within that call every client and media line is asked once. *)
Record Env := mkEnv {
  env_now : Instant;
  env_now_ms : Z;
  env_write : ClientId -> Mid -> WriteOutcome;
  env_writer : ClientId -> Mid -> bool;
  env_channel : ClientId -> string -> Channel;
  env_start : ClientId -> TrackRef -> StartEnv;
}.

(** ** Reaping *)

Definition PACER_RID_LABELS : list string := ["q"; "h"; "f"; "other"].

(** The [remove_label_values] calls for a departed peer. *)
Definition scrub_labels (peer : string) : list Effect :=
  [RemoveLabels "bandwidth_estimate_bps" [peer];
   RemoveLabels "client_delivered_media_count" [peer];
   RemoveLabels "pacer_tick_throttled_total" [peer]] ++
  (PACER_RID_LABELS ≫= fun rid =>
     RemoveLabels "pacer_layer_total" [peer; rid] ::
     ((fun to => RemoveLabels "layer_transitions_total" [rid; to; peer]) <$> PACER_RID_LABELS)) ++
  (["data"; "ctrl"] ≫= fun dc =>
     [RemoveLabels "chat_relay_tx_bytes_total" [dc; peer];
      RemoveLabels "chat_relay_rx_bytes_total" [dc; peer]]) ++
  [RemoveLabels "voice_relay_tx_bytes_total" [peer];
   RemoveLabels "voice_relay_rx_bytes_total" [peer];
   RemoveLabels "sfu_bwe_hint_received_total" [peer];
   RemoveLabels "sfu_bwe_hint_throttled_total" [peer]].

(** The channel gauges the peer had raised. *)
Definition lower_gauges (c : Client) : list Effect :=
  (if voice_data_cid c then [Dec "voice_relay_active_channels" ["voice"]] else []) ++
  (if chat_data_cid c then [Dec "chat_relay_active_channels" ["data"]] else []) ++
  (if chat_ctrl_cid c then [Dec "chat_relay_active_channels" ["ctrl"]] else []) ++
  (if reactions_dc_opened c then [Dec "chat_relay_active_channels" ["reactions"]] else []).

(** What the [retain] closure does for a dead client. *)
Definition reap_client (c : Client) : list Effect :=
  [DetectorRemove (id c); BweReap (id c); Inc "client_disconnect_total" [];
   Dec "active_participants" []] ++
  scrub_labels (label_of (id c)) ++ lower_gauges c.

Definition reap_dead (now : Instant) (r : Registry) : Registry * list Effect :=
  let cs := filter (fun c => alive c = true) (clients r) in
  let es := filter (fun c => alive c = false) (clients r) ≫= reap_client in
  let es := es ++ match cs with [] => [SetGauge "active_rooms" [] 0] | _ => [] end in
  let solo := match cs with
              | [] => None
              | [_] => match solo_since r with None => Some now | Some t => Some t end
              | _ => None
              end in
  let reaped := (fun c => BweReap (id c)) <$> filter (fun c => alive c = false) (clients r) in
  (mkRegistry cs (to_propagate r) solo (bandwidth r ++ reaped), es).

(** ** Session steal *)

(** [Vec::swap_remove]. *)
Definition swap_remove {A} (i : nat) (l : list A) : list A :=
  match last l with
  | None => l
  | Some x => if (S i =? length l)%nat then removelast l else <[i := x]> (removelast l)
  end.

Definition evict_for_steal (i : nat) (r : Registry) : Registry * list Effect :=
  match clients r !! i with
  | None => (r, [])
  | Some old =>
      let cs := swap_remove i (clients r) in
      (mkRegistry cs (to_propagate r) (solo_since r) (bandwidth r ++ [BweReap (id old)]),
       (if close_signal old then [CloseSession (id old)] else []) ++
       [DetectorRemove (id old); BweReap (id old)] ++
       scrub_labels (label_of (id old)) ++ lower_gauges old ++
       [Inc "client_disconnect_total" []; Dec "active_participants" [];
        Inc "session_replaced_total" []] ++
       match cs with [] => [SetGauge "active_rooms" [] 0] | _ => [] end)
  end.

(** ** Joining *)

(** Announce every track of [pubs] to the newcomer. *)
Definition cross_advertise (env : Env) (h : TrackStore) (pubs : list Client) (c : Client)
    : Client * list Effect :=
  fold_left (fun '(c, es) '(publisher, e) =>
      let '(c, es') := handle_track_open h (env_now env) (env_start env (id c) (tie_ref e))
                         (tie_ref e) c in
      (c, es ++ es' ++ [Inc "sfu_subscription_setup_total"
                          [label_of publisher; label_of (id c); "wired"]]))
    (pubs ≫= fun p => (fun e => (id p, e)) <$> tracks_in p) (c, []).

Definition registry_insert (env : Env) (client : Client) (r : Registry) : Registry * list Effect :=
  let '(r, es0) :=
    match external_peer_id client with
    | None => (r, [])
    | Some new_pid =>
        match list_find (fun c => external_peer_id c = Some new_pid) (clients r) with
        | Some (idx, _) => evict_for_steal idx r
        | None => (r, [])
        end
    end in
  let '(client, es1) := cross_advertise env (live_tracks (clients r)) (clients r) client in
  let cs := clients r ++ [client] in
  (mkRegistry cs
     (to_propagate r ++ [PAudioCodecHint (id client) true true])
     (match cs with [_] => Some (env_now env) | _ => None end)
     (bandwidth r ++ [BweEnable (id client)]),
   es0 ++ es1 ++
   [DetectorAdd (id client); Inc "client_connect_total" []; Inc "active_participants" [];
    SetGauge "active_rooms" [] 1; BweEnable (id client)]).

(** ** Solo rooms *)

Definition check_solo_timeout (timeout : Z) (now : Instant) (r : Registry)
    : Registry * list Effect :=
  match clients r with
  | [c] =>
      match solo_since r with
      | None => (r, [])
      | Some since =>
          if duration_since now since <? timeout then (r, [])
          else (mkRegistry [put_alive false c] (to_propagate r) None (bandwidth r),
                [Inc "sfu_solo_room_kicked_total" []])
      end
  | _ => (r, [])
  end.

Definition mark_relay_source (cid : ClientId) (r : Registry) : Registry * list Effect :=
  match list_find (fun c => id c = cid) (clients r) with
  | None => (r, [])
  | Some (i, c) =>
      (mkRegistry (<[i := put_is_relay true c]> (clients r)) (to_propagate r) (solo_since r) (bandwidth r),
       [DetectorRemove cid])
  end.

(** ** Incoming tracks and media (client/dispatch.rs) *)

(** [ref] is the address of the new [Arc]. *)
Definition track_in_added (ref : TrackRef) (mid : Mid) (kind : MediaKind) (c : Client)
    : Client * Propagated :=
  (put_tracks_in (tracks_in c ++
     [mkTrackInEntry ref (mkTrackIn (id c) mid kind (external_peer_id c)) None]) c,
   PTrackOpen (id c) ref).

Definition track_in_media (writer : bool) (now : Instant) (data : MediaData) (c : Client)
    : Client * list Effect * Propagated :=
  let '(c, es) := if negb (md_contiguous data)
                  then request_keyframe_throttled writer now (md_mid data) (md_rid data) c
                  else (c, []) in
  let c := match md_rid data with
           | Some rid => if decide (rid ∈ active_rids c) then c
                         else put_active_rids (active_rids c ++ [rid]) c
           | None => c
           end in
  (c, es, PMediaData (id c) data).

(** ** The pacer pass (registry/bwe.rs) *)

Definition DEFAULT_SIMULCAST_LADDER : list Rid := [LOW; MEDIUM; HIGH].

Definition cap_label (cap : Z) : string :=
  if cap =? 0 then "0" else if cap =? 1 then "1" else "uncapped".

Section Pacing.
(** The kit's pacer and bandwidth estimator (the estimate with its binding
    term), the two process-wide switches and the kit's tick interval. *)
Context (pacer_update : list Z -> Z -> PacerAction)
        (estimate : list Effect -> Instant -> ClientId -> option (Z * string))
        (floor_enabled bwe_cap_enabled : bool)
        (min_tick : Z).

(** Emit a tier change, on a transition only. *)
Definition emit_tier (c : Client) : Client * list Propagated :=
  match pending_tier_emit c with
  | None => (c, [])
  | Some new_tier =>
      let c := put_pending_tier_emit None c in
      let changed := match last_emitted_tier c with
                     | Some prev => bool_decide (prev <> new_tier)
                     | None => bool_decide (new_tier <> VideoMax)
                     end in
      if changed then (put_last_emitted_tier (Some new_tier) c, [PPeerSuspended (id c) new_tier])
      else (c, [])
  end.

(** The shared min-tick floor. *)
Definition tick_stage (now : Instant) (c : Client) : Client * bool :=
  if floor_enabled || bwe_cap_enabled then pacer_tick_ready now min_tick c else (c, true).

(** The layer of this pass: kept on a throttled tick, the pacer's otherwise. *)
Definition layer_stage (budget : option Z) (available : list Rid) (tick_ready : bool) (c : Client)
    : Client * option Rid * list Effect :=
  if floor_enabled && negb tick_ready
  then (c, Some (desired_layer c), [Inc "pacer_tick_throttled_total" [label_of (id c)]])
  else let '(c, chosen) := pacer_select_layer pacer_update budget available c in
       (c, chosen, []).

(** A keyframe request on an actual layer switch. *)
Definition switch_stage (h : TrackStore) (now : Instant) (prev_layer : Rid) (chosen : option Rid)
    (c : Client) : Client * list Effect * list Propagated :=
  match chosen with
  | Some new_rid => if decide (new_rid = prev_layer) then (c, [], [])
                    else emit_keyframe_on_layer_switch h now new_rid c
  | None => (c, [], [])
  end.

(** The bandwidth-driven temporal cap. *)
Definition cap_stage (budget : option Z) (tick_ready : bool) (c : Client)
    : Client * list Effect :=
  if bwe_cap_enabled && tick_ready
  then let '(c, cap) := bwe_select_temporal_cap budget c in
       (c, [Inc "bwe_temporal_cap_total" [cap_label cap]])
  else (c, []).

(** The gauges and counters of one pass. *)
Definition pass_metrics (est : option (Z * string)) (prev_layer : Rid) (chosen : option Rid)
    (c : Client) : list Effect :=
  let peer := label_of (id c) in
  match est with
  | Some (bps, term) => [SetGauge "bandwidth_estimate_bps" [peer] (wrap_i64 bps);
                         Inc "combined_bps_binding_term" [term]]
  | None => []
  end ++
  [SetGauge "client_delivered_media_count" [peer] (wrap_i64 (delivered_media c))] ++
  match chosen with
  | Some rid =>
      Inc "pacer_layer_total" [peer; rid_label_for rid] ::
      (if decide (rid = prev_layer) then []
       else [Inc "layer_transitions_total"
               [rid_label_for prev_layer; rid_label_for rid; peer]])
  | None => []
  end.

(** One turn of the client loop of [update_pacer_layers]. *)
Definition pacer_pass (bw : list Effect) (h : TrackStore) (now : Instant) (available : list Rid)
    (c : Client)
    : Client * list Effect * list Propagated :=
  let est := estimate bw now (id c) in
  let budget := fst <$> est in
  let prev_layer := desired_layer c in
  let '(c, tick_ready) := tick_stage now c in
  let '(c, chosen, es1) := layer_stage budget available tick_ready c in
  let '(c, es2, ps1) := switch_stage h now prev_layer chosen c in
  let '(c, ps2) := emit_tier c in
  let es3 := pass_metrics est prev_layer chosen c in
  let '(c, es4) := cap_stage budget tick_ready c in
  (c, es1 ++ es2 ++ es3 ++ es4, ps1 ++ ps2).

Fixpoint pacer_loop (bw : list Effect) (h : TrackStore) (now : Instant) (available : list Rid)
    (cs : list Client)
    : list Client * list Effect * list Propagated :=
  match cs with
  | [] => ([], [], [])
  | c :: cs' =>
      let '(c, es, ps) := pacer_pass bw h now available c in
      let '(cs', es', ps') := pacer_loop bw h now available cs' in
      (c :: cs', es ++ es', ps ++ ps')
  end.

Definition update_pacer_layers (origin : ClientId) (now : Instant) (r : Registry)
    : Registry * list Effect :=
  let publisher_rids := match list_find (fun c => id c = origin) (clients r) with
                        | Some (_, c) => active_rids c
                        | None => []
                        end in
  let available := match publisher_rids with [] => DEFAULT_SIMULCAST_LADDER | l => l end in
  let '(cs, es, ps) := pacer_loop (bandwidth r) (live_tracks (clients r)) now available (clients r) in
  (mkRegistry cs (to_propagate r ++ ps) (solo_since r) (bandwidth r), es).

(** ** Fanout (fanout.rs) *)

Definition propagated_client_id (p : Propagated) : option ClientId :=
  match p with
  | PTrackOpen c _ | PMediaData c _ | PKeyframeRequest c _ _ _ | PBandwidthEstimate c _
  | PClientBudgetHint c _ | PChatData c _ | PChatCtrl c _ | PVoiceData c _ | PKeysData c _
  | PPeerSuspended c _ | PVfmLayerCap c _ | PPublisherLayerHint c _ => Some c
  | PNoop | PTimeout _ | PActiveSpeakerChanged _ | PTopSpeakers _ | PAudioCodecHint _ _ _
  | PMarkRelaySource _ _ | PUpstreamKeyframeRequest _ _ _
  | PPublisherLayerHintForUpstream _ _ => None
  end.

(** Delivery of a speaker notice on the [sfu-active-speaker] channel. *)
Definition speaker_notice (env : Env) (peers : list Z) (c : Client) : list Effect :=
  match env_channel env (id c) "sfu-active-speaker" with
  | ChOpen _ true => [SpeakerNotice (id c) peers]
  | _ => []
  end.

(** The [match] of the fanout loop for one non-origin client. *)
Definition deliver (env : Env) (h : TrackStore) (p : Propagated) (origin : ClientId) (c : Client)
    : Client * list Effect :=
  match p with
  | PTrackOpen _ w => handle_track_open h (env_now env) (env_start env (id c) w) w c
  | PMediaData _ data =>
      handle_media_data_out h (env_write env (id c)) (env_now env) origin data c
  | PKeyframeRequest _ req source mid_in =>
      if decide (source = id c)
      then handle_keyframe_request (env_writer env (id c) mid_in) (env_now env) req mid_in c
      else (c, [])
  | PChatData _ payload =>
      (c, handle_chat_data_out (env_channel env (id c) "data") origin payload c)
  | PChatCtrl _ payload =>
      (c, handle_chat_ctrl_out (env_channel env (id c) "ctrl") origin payload c)
  | PVoiceData _ payload =>
      (c, handle_voice_data_out (env_channel env (id c) "voice") origin payload c)
  | PKeysData _ payload =>
      (c, handle_keys_data_out (env_channel env (id c) "sframe-keys") origin payload c)
  | PPeerSuspended peer_id tier =>
      (c, handle_sfu_event_out (env_channel env (id c) "sfu-events") (env_now_ms env)
            peer_id tier c)
  | _ => (c, [])
  end.

(** Apply [f] to each client in turn. *)
Fixpoint for_clients (f : Client -> Client * list Effect) (cs : list Client)
    : list Client * list Effect :=
  match cs with
  | [] => ([], [])
  | c :: cs' =>
      let '(c, es) := f c in
      let '(cs', es') := for_clients f cs' in
      (c :: cs', es ++ es')
  end.

Definition fanout (env : Env) (p : Propagated) (cs : list Client) : list Client * list Effect :=
  match p with
  | PActiveSpeakerChanged peer_id =>
      for_clients (fun c => if decide (id c = peer_id) then (c, [])
                            else (c, speaker_notice env [peer_id] c)) cs
  | PTopSpeakers speakers => for_clients (fun c => (c, speaker_notice env speakers c)) cs
  | PAudioCodecHint _ _ _ => (cs, [])
  | _ =>
      match propagated_client_id p with
      | None => (cs, [])
      | Some origin =>
          let h := live_tracks cs in
          for_clients (fun c => if decide (id c = origin) then (c, [])
                                else deliver env h p origin c) cs
      end
  end.

(** Update the client with the given id. *)
Definition on_client (cid : ClientId) (f : Client -> Client) (r : Registry) : Registry :=
  match list_find (fun c => id c = cid) (clients r) with
  | None => r
  | Some (i, c) => mkRegistry (<[i := f c]> (clients r)) (to_propagate r) (solo_since r) (bandwidth r)
  end.

(** A sample handed to the estimator. *)
Definition record_bwe (e : Effect) (r : Registry) : Registry :=
  mkRegistry (clients r) (to_propagate r) (solo_since r) (bandwidth r ++ [e]).

(** One turn of the drain loop: the event is off the queue already. *)
Definition drain_one (env : Env) (p : Propagated) (r : Registry) : Registry * list Effect :=
  let fan r es :=
    let '(cs, es') := fanout env p (clients r) in
    (mkRegistry cs (to_propagate r) (solo_since r) (bandwidth r), es ++ es') in
  match p with
  | PBandwidthEstimate cid bps => (record_bwe (BweNative cid bps) r, [BweNative cid bps])
  | PClientBudgetHint cid bps => (record_bwe (BweHint cid bps) r, [BweHint cid bps])
  | PVfmLayerCap cid max_tid => (on_client cid (set_max_vfm_temporal_layer max_tid) r, [])
  | PMarkRelaySource cid _ => mark_relay_source cid r
  | PUpstreamKeyframeRequest _ _ _ | PPublisherLayerHintForUpstream _ _
  | PPublisherLayerHint _ _ => (r, [])
  | PMediaData origin _ =>
      let '(r, es) := update_pacer_layers origin (env_now env) r in fan r es
  | PVoiceData sender payload =>
      fan r [IncBy "voice_relay_rx_bytes_total" [label_of sender] (len payload)]
  | _ => fan r []
  end.

(** [while let Some(p) = self.to_propagate.pop_front()]; [None] when the fuel
    is spent with events left.  Every event meets an environment of its own:
    [envs n] answers for the [n]th event drained, so str0m may answer the same
    client and media line differently each time. *)
Fixpoint fanout_loop (fuel : nat) (envs : nat -> Env) (r : Registry) : option (Registry * list Effect) :=
  match to_propagate r with
  | [] => Some (r, [])
  | p :: rest =>
      match fuel with
      | O => None
      | S fuel' =>
          let '(r, es) := drain_one (envs O) p (mkRegistry (clients r) rest (solo_since r) (bandwidth r)) in
          match fanout_loop fuel' (fun n => envs (S n)) r with
          | Some (r, es') => Some (r, es ++ es')
          | None => None
          end
      end
  end.

End Pacing.

(** ** Speaker tick and dynacast hints (registry/poll.rs) *)

Definition hint_rank (r : Rid) : Z :=
  if decide (r = LOW) then 0 else if decide (r = MEDIUM) then 1 else 2.

(** [max_per_publisher] after the scan of all subscribers. *)
Definition max_per_publisher (h : TrackStore) (cs : list Client) : gmap ClientId Rid :=
  fold_left (fun m '(sub_desired, o) =>
      match upgrade h (to_track_in o) with
      | None => m
      | Some t =>
          let entry := default LOW (m !! ti_origin t) in
          <[ti_origin t := if hint_rank entry <? hint_rank sub_desired then sub_desired else entry]> m
      end)
    (cs ≫= fun s => (fun o => (desired_layer s, o)) <$> tracks_out s) ∅.

Definition emit_publisher_layer_hints (r : Registry) : Registry :=
  mkRegistry (clients r)
    (to_propagate r ++
     ((fun '(p, rid) => PPublisherLayerHint p rid) <$>
        map_to_list (max_per_publisher (live_tracks (clients r)) (clients r))))
    (solo_since r) (bandwidth r).

(** ** The control pump (registry/poll.rs) *)

(** What a client's WebSocket yields in one pump: offers' environments, the
    answers received, whether the channel closed. *)
Record WsEnv := mkWsEnv {
  ws_starts : nat -> StartEnv;
  ws_answers : list AnswerEnv;
  ws_closed : bool;
}.

Definition pump_ws_ctrl (now : Instant) (ws : ClientId -> WsEnv) (r : Registry)
    : Registry * list Effect :=
  let h := live_tracks (clients r) in
  let '(cs, es) := for_clients (fun c =>
      let w := ws (id c) in
      let '(c, es) := drain_ws_ctrl h now (ws_starts w) (ws_answers w) (ws_closed w) c in
      let '(c, es') := pump_keyframe_waits h now c in
      (c, es ++ es')) (clients r) in
  (mkRegistry (put_pending_propagated [] <$> cs)
     (to_propagate r ++ (cs ≫= pending_propagated)) (solo_since r) (bandwidth r), es).
