(* ===== verification/SfuRegistryFacts.v ===== *)
(** * Theorems on the registry

    Identity and steal, gauges that stay in step with the population, the
    solo-room clock, fanout that never echoes, termination of the event drain,
    dynacast hints and tier notices. *)

From Stdlib Require Import ZArith Lia.
From stdpp Require Import base option numbers gmap strings list.
From S2P Require Import Prelude RustStr DdParse DdParseFacts DdCache SfuTypes SfuKeyframe.
From S2P Require Import SfuKeyframeFacts SfuMedia SfuMediaFacts SfuRenegotiation SfuRelayOut.
From S2P Require Import SfuRegistry.

(** ** Identity is kept by every handler *)

(** The fields the channel gauges count. *)
Definition same_channels (c c' : Client) : Prop :=
  voice_data_cid c' = voice_data_cid c /\ chat_data_cid c' = chat_data_cid c /\
  chat_ctrl_cid c' = chat_ctrl_cid c /\ reactions_dc_opened c' = reactions_dc_opened c.

#[export] Instance same_channels_preorder : PreOrder same_channels.
Proof.
  split; [by intros c|]. intros a b c (?&?&?&?) (?&?&?&?). split_and!; congruence.
Qed.

(** The same peer, with the same channels, and dead if it was. *)
Definition same_peer (c c' : Client) : Prop :=
  id c' = id c /\ external_peer_id c' = external_peer_id c /\ same_channels c c' /\
  (alive c = false -> alive c' = false).

#[export] Instance same_peer_preorder : PreOrder same_peer.
Proof.
  split; [by intros c|]. intros a b c (? & ? & H1 & H2) (? & ? & H3 & H4).
  split_and!; [congruence | congruence | by etransitivity | auto].
Qed.

Lemma start_same_peer h now env w c : same_peer c (start_renegotiation h now env w c).1.
Proof.
  unfold start_renegotiation. destruct (upgrade h w); [|done]. destruct (se_apply env); [|done].
  cbn. by destruct (ws_msg_tx c), (se_offer_sent env).
Qed.

Lemma track_open_same_peer h now env w c : same_peer c (handle_track_open h now env w c).1.
Proof.
  unfold handle_track_open. destruct (ws_msg_tx c); cbn [negb]; [|done].
  destruct (pending_offer c); [done|]. apply start_same_peer.
Qed.

Lemma observe_same_peer now o d c : same_peer c (observe_keyframe now o d c).1.
Proof.
  unfold observe_keyframe. destruct (md_is_keyframe d), (md_codec d);
    rewrite ?terminate_waits_ref; done.
Qed.

Lemma forward_same_peer h w now o d c : same_peer c (forward_packet h w now o d c).1.
Proof.
  unfold forward_packet. destruct (negb _); [done|]. destruct (_ ≫= out_mid) as [mid|]; [|done].
  set (c1 := if _ && _ then _ else c).
  assert (same_peer c c1) as H1 by (unfold c1; by destruct (_ && _)).
  destruct (w mid); try done; try (by etransitivity; [exact H1|]).
  pose proof (observe_same_peer now o d
    (put_delivered_media (wrap_u64 (delivered_media c1 + 1)) c1)) as H2.
  destruct (observe_keyframe _ _ _ _) as [c2 es2]. cbn [fst] in *. by etransitivity; [exact H1|].
Qed.

Lemma media_same_peer h w now o d c : same_peer c (handle_media_data_out h w now o d c).1.
Proof.
  destruct (handle_media_cases h w now o d c) as [(bs & tid & _ & _ & _ & ->)|(c1 & -> & Hc1)];
    cbn [fst]; [done|].
  destruct Hc1 as [[-> _]|(bs & _ & _ & -> & _)]; [apply forward_same_peer|].
  etransitivity; [|apply forward_same_peer]. done.
Qed.

Lemma keyframe_same_peer w now req m c : same_peer c (handle_keyframe_request w now req m c).1.
Proof.
  unfold handle_keyframe_request. destruct (find_track_in m c) as [[i e]|]; [|done].
  destruct (requested_recently _ _); [done|]. by destruct w.
Qed.

Lemma deliver_same_peer env h p o c : same_peer c (deliver env h p o c).1.
Proof.
  destruct p; cbn [deliver]; try done;
    [apply track_open_same_peer | apply media_same_peer|].
  case_decide; [apply keyframe_same_peer | done].
Qed.

Lemma for_clients_same_peer f cs :
  (forall c, same_peer c (f c).1) -> Forall2 same_peer cs (for_clients f cs).1.
Proof.
  intros Hf. induction cs as [|c cs IH]; cbn [for_clients]; [constructor|].
  specialize (Hf c). destruct (f c) as [c' es]. destruct (for_clients f cs) as [cs' es'].
  by constructor.
Qed.

Lemma fanout_same_peer env p cs : Forall2 same_peer cs (fanout env p cs).1.
Proof.
  assert (Forall2 same_peer cs cs) as Hrefl by (by apply Forall_Forall2_diag, Forall_true).
  destruct p; cbn [fanout propagated_client_id]; try exact Hrefl;
    apply for_clients_same_peer; intros cl; try (case_decide; try done); try done;
    apply deliver_same_peer.
Qed.

Lemma emit_keyframe_same_peer h now rid c :
  same_peer c (emit_keyframe_on_layer_switch h now rid c).1.1.
Proof. unfold emit_keyframe_on_layer_switch. by destruct (requested_recently _ _). Qed.

Lemma emit_tier_same_peer c : same_peer c (emit_tier c).1.
Proof.
  unfold emit_tier. destruct (pending_tier_emit c); [|done]. by case_match.
Qed.

Lemma pacer_select_same_peer pu b av c : same_peer c (pacer_select_layer pu b av c).1.
Proof.
  unfold pacer_select_layer. destruct b as [b|]; [|done]. destruct (pu (pacer c) b); try done.
  by case_decide.
Qed.

Lemma bwe_select_same_peer b c : same_peer c (bwe_select_temporal_cap b c).1.
Proof.
  unfold bwe_select_temporal_cap, invalidate_dd_cache_on_cap_engage. cbn. by case_match.
Qed.

Lemma tick_same_peer now mt c : same_peer c (pacer_tick_ready now mt c).1.
Proof. unfold pacer_tick_ready. destruct (last_pacer_tick c); [by case_match | done]. Qed.

(** Events a pacer pass queues. *)
Definition pacer_event (p : Propagated) : Prop :=
  match p with PKeyframeRequest _ _ _ _ | PPeerSuspended _ _ => True | _ => False end.

Lemma emit_keyframe_events h now rid c :
  Forall pacer_event (emit_keyframe_on_layer_switch h now rid c).2.
Proof.
  unfold emit_keyframe_on_layer_switch. destruct (requested_recently _ _); [constructor|].
  apply Forall_forall. intros p (o & _ & Ho)%list_elem_of_omap.
  destruct (upgrade h (to_track_in o)); cbn in Ho; [|done]. case_decide; by simplify_eq.
Qed.

Lemma emit_tier_events c : Forall pacer_event (emit_tier c).2.
Proof.
  unfold emit_tier. destruct (pending_tier_emit c); [|constructor].
  case_match; repeat constructor.
Qed.

Section PacingFacts.
Context (pacer_update : list Z -> Z -> PacerAction)
        (estimate : list Effect -> Instant -> ClientId -> option (Z * string))
        (floor_enabled bwe_cap_enabled : bool)
        (min_tick : Z).

Lemma pacer_pass_facts bw h now av c :
  let res := pacer_pass pacer_update estimate floor_enabled bwe_cap_enabled min_tick bw h now av c in
  same_peer c res.1.1 /\ Forall pacer_event res.2.
Proof.
  unfold pacer_pass.
  assert (same_peer c (tick_stage floor_enabled bwe_cap_enabled min_tick now c).1) as H1
    by (unfold tick_stage; destruct (_ || _); [apply tick_same_peer | done]).
  destruct (tick_stage _ _ _ now c) as [c1 tick]. cbn [fst] in H1.
  assert (same_peer c1 (layer_stage pacer_update floor_enabled (fst <$> estimate bw now (id c)) av tick c1).1.1)
    as H2.
  { unfold layer_stage. destruct (_ && _); [done|].
    pose proof (pacer_select_same_peer pacer_update (fst <$> estimate bw now (id c)) av c1).
    by destruct (pacer_select_layer _ _ _ c1). }
  destruct (layer_stage _ _ _ av tick c1) as [[c2 chosen] es1]. cbn [fst] in H2.
  assert (same_peer c2 (switch_stage h now (desired_layer c) chosen c2).1.1 /\
          Forall pacer_event (switch_stage h now (desired_layer c) chosen c2).2) as [H3 H4].
  { unfold switch_stage. destruct chosen as [rid|]; [|by split]. case_decide; [by split|].
    split; [apply emit_keyframe_same_peer | apply emit_keyframe_events]. }
  destruct (switch_stage _ _ _ chosen c2) as [[c3 es2] ps1]. cbn [fst snd] in *.
  pose proof (emit_tier_same_peer c3) as H5. pose proof (emit_tier_events c3) as H6.
  destruct (emit_tier c3) as [c4 ps2]. cbn [fst snd] in *.
  assert (same_peer c4 (cap_stage bwe_cap_enabled (fst <$> estimate bw now (id c)) tick c4).1) as H7.
  { unfold cap_stage. destruct (_ && _); [|done].
    pose proof (bwe_select_same_peer (fst <$> estimate bw now (id c)) c4).
    by destruct (bwe_select_temporal_cap _ c4). }
  destruct (cap_stage _ _ tick c4) as [c5 es4]. cbn [fst snd] in *.
  split; [|by apply Forall_app]. by do 4 (etransitivity; [eassumption|]).
Qed.

Lemma pacer_loop_facts bw h now av cs :
  let res := pacer_loop pacer_update estimate floor_enabled bwe_cap_enabled min_tick bw h now av cs in
  Forall2 same_peer cs res.1.1 /\ Forall pacer_event res.2.
Proof.
  induction cs as [|c cs IH]; cbn [pacer_loop]; [by repeat constructor|].
  pose proof (pacer_pass_facts bw h now av c) as [H1 H2].
  destruct (pacer_pass _ _ _ _ _ bw h now av c) as [[c' es] ps].
  destruct (pacer_loop _ _ _ _ _ bw h now av cs) as [[cs' es'] ps']. cbn [fst snd] in *.
  destruct IH as [IH1 IH2]. split; [by constructor | by apply Forall_app].
Qed.

(** ** The event drain ends *)

Definition is_media (p : Propagated) : bool :=
  match p with PMediaData _ _ => true | _ => false end.

Definition media_count (ps : list Propagated) : nat :=
  length (filter (fun p => is_media p = true) ps).

Lemma drain_one_queue env p r :
  let r' := (drain_one pacer_update estimate floor_enabled bwe_cap_enabled min_tick env p r).1 in
  (is_media p = false -> to_propagate r' = to_propagate r) /\
  exists ps, to_propagate r' = to_propagate r ++ ps /\ Forall pacer_event ps.
Proof.
  assert (exists ps, to_propagate r = to_propagate r ++ ps /\ Forall pacer_event ps) as Hnil
    by (exists []; by rewrite app_nil_r).
  destruct p; cbn [drain_one is_media]; cbv zeta;
    try (destruct (fanout env _ _); by split); try (by split).
  - (* media *)
    unfold update_pacer_layers. cbv zeta.
    match goal with |- context [pacer_loop _ _ _ _ _ ?b ?h ?n ?a ?cs] =>
      pose proof (pacer_loop_facts b h n a cs) as [_ Hps];
      destruct (pacer_loop _ _ _ _ _ b h n a cs) as [[cs' es'] ps'] end.
    destruct (fanout env _ _). cbn in *. split; [done|]. by exists ps'.
  - unfold on_client. destruct (list_find _ _) as [[i c']|]; by split.
  - unfold mark_relay_source. destruct (list_find _ _) as [[i c']|]; by split.
Qed.

Lemma fanout_drains envs r :
  exists fuel r' es,
    fanout_loop pacer_update estimate floor_enabled bwe_cap_enabled min_tick fuel envs r =
      Some (r', es) /\ to_propagate r' = [].
Proof.
  remember (media_count (to_propagate r)) as n eqn:Hn. revert r envs Hn.
  induction n as [n IHn] using lt_wf_ind. intros r envs Hn.
  remember (length (to_propagate r)) as m eqn:Hm. revert r envs Hn Hm.
  induction m as [m IHm] using lt_wf_ind. intros r envs Hn Hm.
  destruct (to_propagate r) as [|p rest] eqn:Hq.
  { exists O, r, []. cbn. by rewrite Hq. }
  set (r0 := mkRegistry (clients r) rest (solo_since r) (bandwidth r)).
  pose proof (drain_one_queue (envs O) p r0) as [Hsame (ps & Hps & Hall)].
  destruct (drain_one _ _ _ _ _ (envs O) p r0) as [r1 es1] eqn:Hd. cbn [fst] in *.
  assert (exists fuel r' es, fanout_loop pacer_update estimate floor_enabled bwe_cap_enabled
            min_tick fuel (fun n => envs (S n)) r1 = Some (r', es) /\ to_propagate r' = []) as (fuel & r' & es & Hf & He).
  { destruct (is_media p) eqn:Hp.
    - apply (IHn (media_count (to_propagate r1))); [|done]. subst n. rewrite Hps.
      unfold media_count. rewrite filter_app, length_app, (filter_cons_True _ p) by done.
      rewrite (filter_none (fun p => is_media p = true) ps); [cbn; lia|].
      eapply Forall_impl; [exact Hall|]. by intros [].
    - rewrite Hsame in * by done. cbn [to_propagate r0] in *.
      apply (IHm (length rest)); [subst m; cbn; lia | |]; rewrite (Hsame eq_refl); [|done].
      subst n. unfold media_count. rewrite filter_cons_False; [done|]. by rewrite Hp. }
  exists (S fuel), r', (es1 ++ es). split; [|done].
  cbn [fanout_loop]. rewrite Hq. fold r0. rewrite Hd, Hf. done.
Qed.

(** The event drain ends: from any registry and in any environments,
    draining the propagation queue, during which media packets may queue further
    requests and notices, reaches an empty queue. *)
Theorem fanout_pending_terminates envs r :
  exists fuel r' es,
    fanout_loop pacer_update estimate floor_enabled bwe_cap_enabled min_tick fuel envs r =
      Some (r', es) /\ to_propagate r' = [].
Proof. apply fanout_drains. Qed.

End PacingFacts.

(** ** Steal *)

Lemma swap_remove_perm {A} (l : list A) i x :
  l !! i = Some x -> l ≡ₚ x :: swap_remove i l.
Proof.
  intros Hi. pose proof (lookup_lt_Some _ _ _ Hi) as Hlt. unfold swap_remove.
  destruct l as [|y l _] using rev_ind; [done|].
  rewrite last_snoc, removelast_last. rewrite length_app in *. cbn [length] in *.
  destruct (Nat.eqb_spec (S i) (length l + 1)) as [Heq|Hne].
  - rewrite lookup_app_r in Hi by lia. replace (i - length l)%nat with 0%nat in Hi by lia.
    injection Hi as ->. symmetry. apply Permutation_cons_append.
  - rewrite lookup_app_l in Hi by lia.
    rewrite Permutation_app_comm. cbn.
    rewrite (insert_take_drop l i y) by lia.
    rewrite <- (take_drop_middle l i x Hi) at 1.
    rewrite <- !Permutation_middle. apply Permutation_swap.
Qed.

(** The peers of a registry are told apart, and the solo clock runs only in a
    room of one. *)
Record registry_inv (r : Registry) : Prop := {
  ri_ids : NoDup (id <$> clients r);
  ri_peers : NoDup (omap external_peer_id (clients r));
  ri_solo : is_Some (solo_since r) -> length (clients r) = 1%nat;
}.

Lemma evict_clients i r c :
  clients r !! i = Some c ->
  clients r ≡ₚ c :: clients (evict_for_steal i r).1 /\
  to_propagate (evict_for_steal i r).1 = to_propagate r.
Proof.
  intros Hi. unfold evict_for_steal. rewrite Hi. cbn. split; [|done]. by apply swap_remove_perm.
Qed.

Lemma cross_advertise_same_peer env h pubs c : same_peer c (cross_advertise env h pubs c).1.
Proof.
  unfold cross_advertise. match goal with |- context [fold_left ?f0 ?l0 _] =>
    set (f := f0); generalize l0 as l end.
  assert (forall l st, same_peer st.1 (fold_left f l st).1) as H; [|intros l; apply (H l (c, []))].
  induction l as [|[pid e] l IH]; intros [c1 es1]; [done|]. cbn [fold_left].
  etransitivity; [|apply IH]. unfold f.
  pose proof (track_open_same_peer h (env_now env) (env_start env (id c1) (tie_ref e)) (tie_ref e) c1).
  by destruct (handle_track_open _ _ _ _ c1).
Qed.

(** The registry a newcomer joins: the old session of the same peer is gone. *)
Definition after_steal (new : Client) (r : Registry) : Registry * list Effect :=
  match external_peer_id new with
  | None => (r, [])
  | Some pid =>
      match list_find (fun c => external_peer_id c = Some pid) (clients r) with
      | Some (idx, _) => evict_for_steal idx r
      | None => (r, [])
      end
  end.

Lemma registry_insert_eq env new r :
  registry_insert env new r =
  let '(r1, es0) := after_steal new r in
  let '(c, es1) := cross_advertise env (live_tracks (clients r1)) (clients r1) new in
  (mkRegistry (clients r1 ++ [c]) (to_propagate r1 ++ [PAudioCodecHint (id c) true true])
     (match clients r1 ++ [c] with [_] => Some (env_now env) | _ => None end)
     (bandwidth r1 ++ [BweEnable (id c)]),
   es0 ++ es1 ++ [DetectorAdd (id c); Inc "client_connect_total" []; Inc "active_participants" [];
                  SetGauge "active_rooms" [] 1; BweEnable (id c)]).
Proof. done. Qed.

Lemma after_steal_cases new r :
  (after_steal new r = (r, []) /\
   forall pid, external_peer_id new = Some pid ->
     Forall (fun c => external_peer_id c <> Some pid) (clients r)) \/
  exists i old pid, external_peer_id new = Some pid /\ external_peer_id old = Some pid /\
    clients r !! i = Some old /\ after_steal new r = evict_for_steal i r /\
    clients r ≡ₚ old :: clients (evict_for_steal i r).1.
Proof.
  unfold after_steal. destruct (external_peer_id new) as [pid|] eqn:Hpid; [|by left].
  destruct (list_find _ _) as [[i old]|] eqn:Hf.
  - right. apply list_find_Some in Hf as (Hi & Ho & _). exists i, old, pid.
    split_and!; try done. by apply evict_clients.
  - left. split; [done|]. intros pid' [= <-].
    by apply list_find_None in Hf.
Qed.

Lemma omap_perm {A B} (f : A -> option B) l l' : l ≡ₚ l' -> omap f l ≡ₚ omap f l'.
Proof. intros ->. done. Qed.

Lemma insert_inv env new r :
  registry_inv r -> id new ∉ (id <$> clients r) ->
  let r' := (registry_insert env new r).1 in
  registry_inv r' /\
  (forall c, c ∈ clients r -> external_peer_id c = None \/ external_peer_id c <> external_peer_id new ->
     c ∈ clients r') /\
  (forall c', c' ∈ clients r' -> c' ∈ clients r \/ same_peer new c') /\
  (forall pid c', external_peer_id new = Some pid -> c' ∈ clients r' ->
     external_peer_id c' = Some pid -> id c' = id new).
Proof.
  intros [Hids Hpeers Hsolo] Hfresh. rewrite registry_insert_eq.
  assert (exists gone, clients r ≡ₚ gone ++ clients (after_steal new r).1 /\
    Forall (fun c => is_Some (external_peer_id new) /\ external_peer_id c = external_peer_id new) gone /\
    (forall pid, external_peer_id new = Some pid ->
       Forall (fun c => external_peer_id c <> Some pid) (clients (after_steal new r).1)))
    as (gone & Hperm & Hgone & Hnone).
  { destruct (after_steal_cases new r) as [[-> Hn]|(i & old & pid & Hn & Ho & Hi & -> & Hp)].
    - exists []. split_and!; [done | constructor | exact Hn].
    - exists [old]. split_and!; [exact Hp | |].
      + constructor; [|constructor]. rewrite Hn, Ho. by split.
      + intros pid' E. assert (pid' = pid) as -> by congruence.
        rewrite (omap_perm external_peer_id _ _ Hp) in Hpeers. cbn in Hpeers.
        rewrite Ho in Hpeers. apply NoDup_cons in Hpeers as [Hnin _].
        apply Forall_forall. intros c Hc Hcp. apply Hnin. apply list_elem_of_omap. by exists c. }
  destruct (after_steal new r) as [r1 es0]. cbn [fst] in *.
  pose proof (cross_advertise_same_peer env (live_tracks (clients r1)) (clients r1) new) as Hsame.
  pose proof Hsame as (Hid & Hpid & _).
  destruct (cross_advertise _ _ _ new) as [c es1]. cbn [fst clients solo_since] in *.
  rewrite Hperm, fmap_app in Hids. rewrite (omap_perm external_peer_id _ _ Hperm), omap_app in Hpeers.
  apply NoDup_app in Hids as (_ & _ & Hids), Hpeers as (_ & _ & Hpeers).
  rewrite Hperm, fmap_app, elem_of_app in Hfresh.
  split_and!.
  - split; cbn.
    + rewrite fmap_app. apply NoDup_app. split_and!; [done | | apply NoDup_singleton].
      intros x Hx Hx'%list_elem_of_singleton. subst x. rewrite Hid in Hx. tauto.
    + rewrite omap_app. cbn. rewrite Hpid. destruct (external_peer_id new) as [pid|] eqn:Hp.
      2: { by rewrite app_nil_r. }
      apply NoDup_app. split_and!; [done | | apply NoDup_singleton].
      intros x (c0 & Hc0 & Hx0)%list_elem_of_omap Hx'%list_elem_of_singleton. subst x.
      specialize (Hnone pid eq_refl). rewrite Forall_forall in Hnone. by apply (Hnone c0).
    + destruct (clients r1) as [|c0 [|]]; cbn; [done | by intros [? ?] | by intros [? ?]].
  - intros c0 Hc0 Hne. rewrite Hperm, elem_of_app in Hc0. apply elem_of_app. left.
    destruct Hc0 as [Hg|]; [|done]. rewrite Forall_forall in Hgone.
    destruct (Hgone _ Hg) as [[pid Hs] He]. destruct Hne as [Hne|Hne]; congruence.
  - intros c' [Hc'|Hc'%list_elem_of_singleton]%elem_of_app.
    + left. rewrite Hperm. apply elem_of_app. by right.
    + right. by subst c'.
  - intros pid c' Hp [Hc'|Hc'%list_elem_of_singleton]%elem_of_app Hcp; [|by subst c'].
    specialize (Hnone pid Hp). rewrite Forall_forall in Hnone. by destruct (Hnone c').
Qed.

(** Joining: inserting a client with a fresh id keeps the registry's
    invariant (distinct ids, at most one session per external peer, the solo
    clock running only in a room of one); afterwards the newcomer is the only
    session of its peer, every session of another peer is still there, and the
    only session that may have left is an older one of the same peer. *)
Theorem registry_insert_inv env new r :
  registry_inv r -> id new ∉ (id <$> clients r) ->
  let r' := (registry_insert env new r).1 in
  registry_inv r' /\
  (forall c, c ∈ clients r -> external_peer_id c = None \/ external_peer_id c <> external_peer_id new ->
     c ∈ clients r') /\
  (forall c', c' ∈ clients r' -> c' ∈ clients r \/ same_peer new c') /\
  (forall pid c', external_peer_id new = Some pid -> c' ∈ clients r' ->
     external_peer_id c' = Some pid -> id c' = id new).
Proof. apply insert_inv. Qed.

(** ** Gauges *)

(** Evaluate every decision between closed labels. *)
Ltac decide_closed :=
  repeat match goal with
  | |- context [@decide ?P _] =>
      first [rewrite (decide_True (P := P)) by reflexivity
            | rewrite (decide_False (P := P)) by discriminate]
  end.

(** Net change of a gauge over a list of effects. *)
Fixpoint net (family : string) (labels : list string) (es : list Effect) : Z :=
  match es with
  | [] => 0
  | e :: es' =>
      match e with
      | Inc f l => if decide ((f, l) = (family, labels)) then 1 else 0
      | Dec f l => if decide ((f, l) = (family, labels)) then -1 else 0
      | _ => 0
      end + net family labels es'
  end.

Lemma net_app f l a b : net f l (a ++ b) = net f l a + net f l b.
Proof. induction a as [|e a IH]; cbn [net app]; [lia|]. rewrite IH. lia. Qed.

(** Effects that touch no gauge of interest here. *)
Definition gaugeless (e : Effect) : Prop :=
  match e with
  | Inc f _ => f <> "active_participants" /\ f <> "voice_relay_active_channels" /\
               f <> "chat_relay_active_channels"
  | Dec _ _ => False
  | _ => True
  end.

Definition population_gauge (f : string) : Prop :=
  f = "active_participants" \/ f = "voice_relay_active_channels" \/
  f = "chat_relay_active_channels".

Lemma net_gaugeless f l es : population_gauge f -> Forall gaugeless es -> net f l es = 0.
Proof.
  intros Hf. induction 1 as [|e es He _ IH]; [done|]. cbn [net]. rewrite IH.
  destruct e; try done. destruct He as (? & ? & ?).
  rewrite decide_False; [done|]. intros [= ? ?]. destruct Hf as [?|[?|?]]; congruence.
Qed.

Lemma scrub_gaugeless peer : Forall gaugeless (scrub_labels peer).
Proof. unfold scrub_labels. cbn. repeat constructor. Qed.

Definition b2z (b : bool) : Z := Z.b2z b.

(** The channels a client holds, by gauge and label. *)
Definition holds (f : string) (l : list string) (c : Client) : Z :=
  if decide ((f, l) = ("active_participants", [])) then 1
  else if decide ((f, l) = ("voice_relay_active_channels", ["voice"])) then b2z (voice_data_cid c)
  else if decide ((f, l) = ("chat_relay_active_channels", ["data"])) then b2z (chat_data_cid c)
  else if decide ((f, l) = ("chat_relay_active_channels", ["ctrl"])) then b2z (chat_ctrl_cid c)
  else if decide ((f, l) = ("chat_relay_active_channels", ["reactions"]))
  then b2z (reactions_dc_opened c)
  else 0.

Fixpoint held (f : string) (l : list string) (cs : list Client) : Z :=
  match cs with [] => 0 | c :: cs' => holds f l c + held f l cs' end.

Lemma held_app f l a b : held f l (a ++ b) = held f l a + held f l b.
Proof. induction a as [|c a IH]; cbn [held app]; [lia|]. rewrite IH. lia. Qed.

Lemma held_perm f l a b : a ≡ₚ b -> held f l a = held f l b.
Proof. induction 1; cbn [held]; lia. Qed.

(** The gauges of the population and their labels. *)
Definition gauges : list (string * list string) :=
  [("active_participants", []); ("voice_relay_active_channels", ["voice"]);
   ("chat_relay_active_channels", ["data"]); ("chat_relay_active_channels", ["ctrl"]);
   ("chat_relay_active_channels", ["reactions"])].

Lemma gauges_population f l : (f, l) ∈ gauges -> population_gauge f.
Proof. unfold gauges, population_gauge. set_solver. Qed.

Lemma net_lower_gauges f l c :
  (f, l) ∈ gauges -> f <> "active_participants" -> net f l (lower_gauges c) = - holds f l c.
Proof.
  intros Hg Hf. unfold gauges in Hg. rewrite !elem_of_cons, elem_of_nil in Hg.
  unfold lower_gauges. destruct_or! Hg; try done; injection Hg as -> ->; try done;
    destruct (voice_data_cid c) eqn:E1, (chat_data_cid c) eqn:E2, (chat_ctrl_cid c) eqn:E3,
      (reactions_dc_opened c) eqn:E4; unfold holds; cbn; rewrite ?E1, ?E2, ?E3, ?E4; reflexivity.
Qed.

Lemma net_lower_participants l c : net "active_participants" l (lower_gauges c) = 0.
Proof.
  unfold lower_gauges. destruct (voice_data_cid c), (chat_data_cid c), (chat_ctrl_cid c),
    (reactions_dc_opened c); reflexivity.
Qed.

Lemma net_reap_client f l c : (f, l) ∈ gauges -> net f l (reap_client c) = - holds f l c.
Proof.
  intros Hg. unfold reap_client. rewrite !net_app.
  rewrite (net_gaugeless f l (scrub_labels _)) by
    (by eauto using gauges_population, scrub_gaugeless).
  destruct (decide (f = "active_participants")) as [->|Hf].
  - rewrite net_lower_participants. unfold gauges in Hg.
    rewrite !elem_of_cons, elem_of_nil in Hg. destruct_or! Hg; try done. by injection Hg as ->.
  - rewrite (net_lower_gauges f l c Hg Hf). cbn [net].
    rewrite !decide_False by (intros [= ? ?]; subst; unfold gauges in Hg; set_solver). lia.
Qed.

Lemma net_evict f l i r old :
  (f, l) ∈ gauges -> clients r !! i = Some old ->
  net f l (evict_for_steal i r).2 = - holds f l old.
Proof.
  intros Hg Hi. unfold evict_for_steal. rewrite Hi. cbn [snd]. rewrite !net_app.
  rewrite (net_gaugeless f l (scrub_labels (label_of (id old)))) by
    (by eauto using gauges_population, scrub_gaugeless).
  assert (net f l (if close_signal old then [CloseSession (id old)] else []) = 0) as ->
    by (by destruct (close_signal old)).
  assert (net f l match swap_remove i (clients r) with
                  | [] => [SetGauge "active_rooms" [] 0] | _ => [] end = 0) as ->
    by (by destruct (swap_remove i (clients r))).
  destruct (decide (f = "active_participants")) as [->|Hf].
  - rewrite net_lower_participants. unfold gauges in Hg.
    rewrite !elem_of_cons, elem_of_nil in Hg. destruct_or! Hg; try done. by injection Hg as ->.
  - rewrite (net_lower_gauges f l old Hg Hf). cbn [net].
    rewrite !decide_False by (intros [= ? ?]; subst; unfold gauges in Hg; set_solver). lia.
Qed.

Lemma start_gaugeless h now env w c : Forall gaugeless (start_renegotiation h now env w c).2.
Proof.
  unfold start_renegotiation. destruct (upgrade h w) as [t|]; [|constructor].
  destruct (se_apply env); [|constructor]. cbn.
  destruct (ws_msg_tx c), (se_offer_sent env), (ti_external_peer_id t), (se_map_sent env);
    cbn; repeat constructor; done.
Qed.

Lemma track_open_gaugeless h now env w c : Forall gaugeless (handle_track_open h now env w c).2.
Proof.
  unfold handle_track_open. destruct (ws_msg_tx c); cbn [negb]; [|constructor].
  destruct (pending_offer c); [constructor|]. apply start_gaugeless.
Qed.

Lemma cross_advertise_gaugeless env h pubs c : Forall gaugeless (cross_advertise env h pubs c).2.
Proof.
  unfold cross_advertise. match goal with |- context [fold_left ?f0 ?l0 _] =>
    set (f := f0); generalize l0 as l end.
  assert (forall l st, Forall gaugeless st.2 -> Forall gaugeless (fold_left f l st).2) as H;
    [|intros l; apply (H l (c, [])); constructor].
  induction l as [|[pid e] l IH]; intros [c1 es1] Hes; [done|]. cbn [fold_left]. apply IH.
  unfold f. pose proof (track_open_gaugeless h (env_now env) (env_start env (id c1) (tie_ref e)) (tie_ref e) c1) as G.
  destruct (handle_track_open _ _ _ _ c1) as [c2 es2]. cbn [fst snd] in *.
  rewrite !Forall_app. split_and!; try done. by repeat constructor.
Qed.

Lemma holds_same f l c c' : same_channels c c' -> holds f l c' = holds f l c.
Proof. intros (E1 & E2 & E3 & E4). unfold holds. by rewrite E1, E2, E3, E4. Qed.

Lemma reap_net now r f l :
  (f, l) ∈ gauges ->
  net f l (reap_dead now r).2 = held f l (clients (reap_dead now r).1) - held f l (clients r).
Proof.
  intros Hg. unfold reap_dead. cbn [fst snd clients]. rewrite net_app.
  assert (net f l match filter (fun c => alive c = true) (clients r) with
                  | [] => [SetGauge "active_rooms" [] 0] | _ => [] end = 0) as ->
    by (by destruct (filter _ (clients r))).
  induction (clients r) as [|c cs IH]; [done|].
  rewrite !filter_cons. cbn [held]. destruct (alive c) eqn:Ha.
  + rewrite decide_False, decide_True by done. cbn [held]. lia.
  + rewrite decide_True, decide_False by done. cbn [mbind list_bind].
    rewrite net_app, (net_reap_client f l c Hg). lia.
Qed.

Lemma insert_net env new r f l :
  (f, l) ∈ gauges ->
  net f l (registry_insert env new r).2 =
    held f l (clients (registry_insert env new r).1) - held f l (clients r)
    - (if decide (f = "active_participants") then 0 else holds f l new).
Proof.
  intros Hg. rewrite registry_insert_eq.
  assert (net f l (after_steal new r).2 =
          held f l (clients (after_steal new r).1) - held f l (clients r)) as Hsteal.
  { destruct (after_steal_cases new r) as [[-> _]|(i & old & pid & _ & _ & Hi & -> & Hp)].
    - cbn. lia.
    - rewrite (net_evict f l i r old Hg Hi), (held_perm f l _ _ Hp). cbn [held]. lia. }
  destruct (after_steal new r) as [r1 es0]. cbn [fst snd] in Hsteal.
  pose proof (cross_advertise_gaugeless env (live_tracks (clients r1)) (clients r1) new) as G.
  pose proof (cross_advertise_same_peer env (live_tracks (clients r1)) (clients r1) new) as (_ & _ & S & _).
  destruct (cross_advertise _ _ _ new) as [c es1]. cbn [fst snd clients] in *.
  rewrite !net_app, held_app, (net_gaugeless f l es1) by eauto using gauges_population.
  cbn [held]. rewrite (holds_same f l new c S), Hsteal. cbn [net].
  unfold gauges in Hg. rewrite !elem_of_cons, elem_of_nil in Hg.
  destruct_or! Hg; try done; injection Hg as -> ->; unfold holds; decide_closed; lia.
Qed.

(** The population gauges never drift: over a join (with or without a
    session steal) and over a reap, the participant gauge moves by the change
    in the number of clients, and each data-channel gauge by the channels of the
    clients that left, a newcomer's own channels having been counted when they
    were opened. *)
Theorem population_gauges_exact env new now r f l :
  (f, l) ∈ gauges ->
  net f l (reap_dead now r).2 = held f l (clients (reap_dead now r).1) - held f l (clients r) /\
  net f l (registry_insert env new r).2 =
    held f l (clients (registry_insert env new r).1) - held f l (clients r)
    - (if decide (f = "active_participants") then 0 else holds f l new).
Proof. intros Hg. by split; [apply reap_net | apply insert_net]. Qed.

(** ** Reaping and solo rooms *)

Lemma sublist_omap {A B} (f : A -> option B) l k :
  l `sublist_of` k -> omap f l `sublist_of` omap f k.
Proof.
  induction 1 as [|x l k _ IH|x l k _ IH]; cbn; [done | |].
  - destruct (f x); [by apply sublist_skip | done].
  - destruct (f x); [by apply sublist_cons | done].
Qed.

Lemma reap_dead_inv now r : registry_inv r -> registry_inv (reap_dead now r).1.
Proof.
  intros [Hids Hpeers Hsolo]. unfold reap_dead. split; cbn.
  - eapply sublist_NoDup; [exact Hids|]. apply fmap_sublist, sublist_filter.
  - eapply sublist_NoDup; [exact Hpeers|]. apply sublist_omap, sublist_filter.
  - destruct (filter _ (clients r)) as [|c [|]]; [by intros [? ?] | done | by intros [? ?]].
Qed.

Lemma check_solo_inv timeout now r :
  registry_inv r -> registry_inv (check_solo_timeout timeout now r).1.
Proof.
  intros Hr. pose proof Hr as [Hids Hpeers Hsolo]. unfold check_solo_timeout.
  destruct (clients r) as [|c [|]] eqn:Hc; try done. destruct (solo_since r) as [t|]; [|done].
  destruct (_ <? timeout); [done|]. split; cbn.
  - apply NoDup_singleton.
  - destruct (external_peer_id c); [apply NoDup_singleton | constructor].
  - by intros [? ?].
Qed.

Lemma reap_empty_room now r :
  clients (reap_dead now r).1 = [] -> SetGauge "active_rooms" [] 0 ∈ (reap_dead now r).2.
Proof.
  unfold reap_dead. cbn [fst snd clients]. intros ->. apply elem_of_app. right. left.
Qed.

(** ** Fanout *)

(** The client an effect is addressed to. *)
Definition addressee (e : Effect) : option ClientId :=
  match e with
  | WsSend c _ | RtpWrite c _ _ | RtcRequestKeyframe c _ _ | DcWrite c _ _
  | SpeakerNotice c _ | TierNotice c _ _ => Some c
  | _ => None
  end.

Definition to_self (c : Client) (e : Effect) : Prop :=
  match addressee e with Some a => a = id c | None => True end.

Lemma start_to_self h now env w c : Forall (to_self c) (start_renegotiation h now env w c).2.
Proof.
  unfold start_renegotiation. destruct (upgrade h w) as [t|]; [|constructor].
  destruct (se_apply env); [|constructor]. cbn.
  destruct (ws_msg_tx c), (se_offer_sent env), (ti_external_peer_id t), (se_map_sent env);
    cbn; repeat constructor; done.
Qed.

Lemma observation_to_self c es : Forall observation_effect es -> Forall (to_self c) es.
Proof. intros H. eapply Forall_impl; [exact H|]. by intros []. Qed.

Lemma forward_to_self h w now o d c : Forall (to_self c) (forward_packet h w now o d c).2.
Proof.
  unfold forward_packet. destruct (negb _); [constructor|].
  assert (Forall (to_self c) match md_rid d with
    | Some rid => [Inc "layer_selection_total" [rid_label_for rid]] | None => [] end) as H0
    by (destruct (md_rid d); repeat constructor).
  destruct (_ ≫= out_mid) as [mid|].
  2: { cbn. apply Forall_app. split; [done|]. by repeat constructor. }
  set (c1 := if _ && _ then _ else c).
  assert (id c1 = id c) as Hid by (unfold c1; by destruct (_ && _)).
  destruct (w mid); cbn [snd]; try (apply Forall_app; split; [done | by repeat constructor]).
  pose proof (observe_keyframe_effects now o d
    (put_delivered_media (wrap_u64 (delivered_media c1 + 1)) c1)) as Hobs.
  destruct (observe_keyframe _ _ _ _) as [c2 es2]. cbn [snd] in *.
  apply Forall_app. split; [done|]. repeat constructor; try done.
  by apply observation_to_self.
Qed.

Lemma media_to_self h w now o d c : Forall (to_self c) (handle_media_data_out h w now o d c).2.
Proof.
  destruct (handle_media_cases h w now o d c) as [(bs & tid & _ & _ & _ & ->)|(c1 & -> & Hc1)];
    cbn [snd]; [by repeat constructor|].
  constructor; [done|].
  replace (to_self c) with (to_self c1); [apply forward_to_self|].
  unfold to_self. by destruct Hc1 as [[-> _]|(bs & _ & _ & -> & _)].
Qed.

Lemma keyframe_to_self w now req m c : Forall (to_self c) (handle_keyframe_request w now req m c).2.
Proof.
  unfold handle_keyframe_request. destruct (find_track_in m c) as [[i e]|]; [|constructor].
  destruct (requested_recently _ _); [constructor|]. destruct w; by repeat constructor.
Qed.

Lemma deliver_to_self env h p o c : Forall (to_self c) (deliver env h p o c).2.
Proof.
  destruct p; cbn [deliver snd]; try (by constructor).
  - unfold handle_track_open. destruct (ws_msg_tx c); cbn [negb]; [|constructor].
    destruct (pending_offer c); [constructor | apply start_to_self].
  - apply media_to_self.
  - case_decide; [apply keyframe_to_self | constructor].
  - unfold handle_chat_data_out, write_chat_frame. repeat case_match; by repeat constructor.
  - unfold handle_chat_ctrl_out, write_chat_frame. repeat case_match; by repeat constructor.
  - unfold handle_voice_data_out. repeat case_match; by repeat constructor.
  - unfold handle_keys_data_out. repeat case_match; by repeat constructor.
  - unfold handle_sfu_event_out. repeat case_match; by repeat constructor.
Qed.

Lemma for_clients_effects f cs e :
  e ∈ (for_clients f cs).2 -> exists c, c ∈ cs /\ e ∈ (f c).2.
Proof.
  induction cs as [|c cs IH]; cbn [for_clients]; [by intros ?%elem_of_nil|].
  destruct (f c) as [c' es] eqn:Hf. destruct (for_clients f cs) as [cs' es']. cbn [snd] in *.
  intros [He|He]%elem_of_app.
  - exists c. rewrite Hf. split; [left | done].
  - destruct (IH He) as (c0 & ? & ?). exists c0. split; [by right | done].
Qed.

Lemma for_clients_effects_2 f cs c e :
  c ∈ cs -> e ∈ (f c).2 -> e ∈ (for_clients f cs).2.
Proof.
  induction cs as [|c0 cs IH]; [by intros ?%elem_of_nil|]. cbn [for_clients].
  destruct (f c0) as [c' es] eqn:Hf. destruct (for_clients f cs) as [cs' es']. cbn [snd] in *.
  intros [->|Hc]%elem_of_cons He; apply elem_of_app; [left; by rewrite Hf in He | right; by apply IH].
Qed.

(** The client an event comes from. *)
Definition sender (p : Propagated) : option ClientId :=
  match p with
  | PTrackOpen o _ | PMediaData o _ | PKeyframeRequest o _ _ _ | PChatData o _ | PChatCtrl o _
  | PVoiceData o _ | PKeysData o _ | PPeerSuspended o _ | PActiveSpeakerChanged o => Some o
  | _ => None
  end.

(** What an event owes a client that is not its sender: the frame on the channel
    of its kind, if the client opened that channel, the frame is within the size
    limit and str0m's channel takes it; a notice on the channel for it. *)
Definition due (env : Env) (p : Propagated) (c : Client) (e : Effect) : Prop :=
  match p with
  | PChatData _ payload => e = DcWrite (id c) "data" payload /\ len payload <= 262144 /\
      chat_data_cid c = true /\ takes (env_channel env (id c) "data")
  | PChatCtrl _ payload => e = DcWrite (id c) "ctrl" payload /\ len payload <= 262144 /\
      chat_ctrl_cid c = true /\ takes (env_channel env (id c) "ctrl")
  | PVoiceData _ payload => e = DcWrite (id c) "voice" payload /\ len payload <= 65536 /\
      voice_data_cid c = true /\
      exists buffered, env_channel env (id c) "voice" = ChOpen buffered true /\ buffered <= 65536
  | PKeysData _ payload => e = DcWrite (id c) "sframe-keys" payload /\ len payload <= 65536 /\
      keys_dc_cid c = true /\ takes (env_channel env (id c) "sframe-keys")
  | PPeerSuspended peer tier => e = TierNotice (id c) peer tier /\ sfu_events_cid c = true /\
      takes (env_channel env (id c) "sfu-events")
  | PActiveSpeakerChanged peer => e = SpeakerNotice (id c) [peer] /\
      takes (env_channel env (id c) "sfu-active-speaker")
  | PTopSpeakers peers => e = SpeakerNotice (id c) peers /\
      takes (env_channel env (id c) "sfu-active-speaker")
  | _ => False
  end.

(** Frames and notices, as opposed to media, signalling and counters. *)
Definition is_frame (e : Effect) : Prop :=
  match e with DcWrite _ _ _ | SpeakerNotice _ _ | TierNotice _ _ _ => True | _ => False end.

(** The numbers a tier notice prints are 64-bit. *)
Definition notice_sized (env : Env) (p : Propagated) : Prop :=
  match p with
  | PPeerSuspended peer _ => 0 <= env_now_ms env <= u64_max /\ 0 <= peer <= u64_max
  | _ => True
  end.

Lemma speaker_notice_spec env peers c e :
  e ∈ speaker_notice env peers c <->
  e = SpeakerNotice (id c) peers /\ takes (env_channel env (id c) "sfu-active-speaker").
Proof.
  unfold speaker_notice, takes. destruct (env_channel _ _ _) as [|b []]; split.
  - by intros ?%elem_of_nil.
  - by intros [_ [? ?]].
  - intros ->%list_elem_of_singleton. eauto.
  - intros [-> _]. by left.
  - by intros ?%elem_of_nil.
  - by intros [_ [? ?]].
Qed.

Lemma sfu_event_spec ch now_ms peer tier c e :
  0 <= now_ms <= u64_max -> 0 <= peer <= u64_max ->
  e ∈ handle_sfu_event_out ch now_ms peer tier c <->
  e = TierNotice (id c) peer tier /\ sfu_events_cid c = true /\ takes ch.
Proof.
  intros Hn Hp. unfold takes. destruct ch as [|b w].
  { unfold handle_sfu_event_out. repeat case_match; (split; [by intros ?%elem_of_nil | by intros (_ & _ & ? & ?)]). }
  destruct (sfu_events_cid c) eqn:Ho.
  2: { unfold handle_sfu_event_out. rewrite Ho. split; [by intros ?%elem_of_nil | by intros (_ & ? & _)]. }
  destruct w.
  - rewrite (tier_notice_delivered now_ms peer tier b c Hn Hp Ho), list_elem_of_singleton. naive_solver.
  - unfold handle_sfu_event_out. rewrite Ho. cbn [negb].
    repeat case_match; (split; [by intros ?%elem_of_nil | by intros (_ & _ & ? & ?)]).
Qed.

(** Which of the effects of a writer are frames. *)
Ltac frames Hf :=
  rewrite ?elem_of_cons, ?elem_of_nil; split;
  [intros Hin; destruct_or? Hin; try done; subst; first [by destruct Hf | by eauto 8]
  | intros Hd; deep_destruct; subst; first [by left | discriminate | lia | congruence]].

Lemma chat_frames ch dc opened payload c e :
  is_frame e -> e ∈ write_chat_frame ch dc opened payload c <->
  e = DcWrite (id c) dc payload /\ len payload <= 262144 /\ opened = true /\ takes ch.
Proof.
  intros Hf. unfold write_chat_frame, takes. change CHAT_FRAME_MAX_BYTES with 262144.
  destruct (Z.ltb_spec 262144 (len payload)); [frames Hf|].
  destruct opened; cbn [negb]; [|frames Hf]. destruct ch as [|b []]; frames Hf.
Qed.

Lemma voice_frames ch origin payload c e :
  is_frame e -> id c <> origin -> e ∈ handle_voice_data_out ch origin payload c <->
  e = DcWrite (id c) "voice" payload /\ len payload <= 65536 /\ voice_data_cid c = true /\
  exists b, ch = ChOpen b true /\ b <= 65536.
Proof.
  intros Hf Hne. unfold handle_voice_data_out, voice_dropped. rewrite decide_False by done.
  change VOICE_BUFFERED_AMOUNT_MAX with 65536. change VOICE_FRAME_MAX_BYTES with 65536.
  destruct (Z.ltb_spec 65536 (len payload)); [frames Hf|].
  destruct (voice_data_cid c); cbn [negb]; [|frames Hf]. destruct ch as [|b w]; [frames Hf|].
  destruct (Z.ltb_spec 65536 b); [|destruct w; frames Hf].
  rewrite list_elem_of_singleton. split; [by intros ->|]. intros (_ & _ & _ & b' & [= <- _] & ?). lia.
Qed.

Lemma keys_frames ch origin payload c e :
  id c <> origin -> e ∈ handle_keys_data_out ch origin payload c <->
  e = DcWrite (id c) "sframe-keys" payload /\ len payload <= 65536 /\ keys_dc_cid c = true /\ takes ch.
Proof.
  intros Hne. unfold handle_keys_data_out, takes. rewrite decide_False by done.
  change SFRAME_KEYS_FRAME_MAX_BYTES with 65536.
  destruct (Z.ltb_spec 65536 (len payload)); [frames Hne|].
  destruct (keys_dc_cid c); cbn [negb]; [|frames Hne]. destruct ch as [|b []]; frames Hne.
Qed.

(** What is fanned out is what the clients that are not skipped produce. *)
Lemma for_clients_mem f cs e : e ∈ (for_clients f cs).2 <-> exists c, c ∈ cs /\ e ∈ (f c).2.
Proof.
  split; [apply for_clients_effects|]. intros (c & Hc & He). by eapply for_clients_effects_2.
Qed.

Lemma skipping o (f : Client -> Client * list Effect) cs e :
  e ∈ (for_clients (fun c => if decide (id c = o) then (c, []) else f c) cs).2 <->
  exists c, c ∈ cs /\ id c <> o /\ e ∈ (f c).2.
Proof.
  rewrite for_clients_mem. split; intros (c & Hc & He); exists c.
  - case_decide; [by apply elem_of_nil in He | done].
  - destruct He as [Hne He]. by rewrite decide_False.
Qed.

(** Events that owe their receivers a frame or a notice. *)
Definition framed (p : Propagated) : Prop :=
  match p with
  | PChatData _ _ | PChatCtrl _ _ | PVoiceData _ _ | PKeysData _ _ | PPeerSuspended _ _
  | PActiveSpeakerChanged _ | PTopSpeakers _ => True
  | _ => False
  end.

Lemma fanout_frames env p cs e :
  framed p -> notice_sized env p -> is_frame e ->
  e ∈ (fanout env p cs).2 <-> exists c, c ∈ cs /\ sender p <> Some (id c) /\ due env p c e.
Proof.
  intros Hp Hsz Hf.
  assert (forall o (P Q : Client -> Prop), (forall c, id c <> o -> P c <-> Q c) ->
    (exists c, c ∈ cs /\ id c <> o /\ P c) <-> (exists c, c ∈ cs /\ Some o <> Some (id c) /\ Q c)) as Hex.
  { intros o P Q H. split; intros (c & Hc & Hne & Hx); exists c; (split; [done|]).
    - split; [congruence | by apply H].
    - assert (id c <> o) by congruence. split; [done | by apply H]. }
  destruct p; try done; cbn [fanout propagated_client_id sender due notice_sized] in *;
    rewrite ?skipping; try (apply Hex; intros cl Hne; cbn [deliver snd]).
  - by apply speaker_notice_spec.
  - rewrite for_clients_mem. split; intros (cl & Hc & He); exists cl; (split; [done|]);
      [split; [done|]|destruct He as [_ He]]; by apply speaker_notice_spec.
  - unfold handle_chat_data_out. rewrite decide_False by done. by apply chat_frames.
  - unfold handle_chat_ctrl_out. rewrite decide_False by done. by apply chat_frames.
  - by apply voice_frames.
  - by apply keys_frames.
  - destruct Hsz; by apply sfu_event_spec.
Qed.

(** Nothing goes to the sender or out of the room. *)
Lemma fanout_addressed env p cs e a :
  e ∈ (fanout env p cs).2 -> addressee e = Some a -> a ∈ (id <$> cs) /\ sender p <> Some a.
Proof.
  intros He Ha.
  assert (forall f, (forall c, Forall (to_self c) (f c).2) ->
    (forall c, sender p = Some (id c) -> (f c).2 = []) ->
    e ∈ (for_clients f cs).2 -> a ∈ (id <$> cs) /\ sender p <> Some a) as H.
  { intros f Hself Hskip (c & Hc & Hin)%for_clients_effects.
    specialize (Hself c). rewrite Forall_forall in Hself. specialize (Hself e Hin).
    unfold to_self in Hself. rewrite Ha in Hself. subst a. split; [by apply list_elem_of_fmap_2|].
    intros Ho. rewrite (Hskip c Ho) in Hin. by apply elem_of_nil in Hin. }
  assert (forall peers c, Forall (to_self c) (speaker_notice env peers c)) as Hsn.
  { intros peers c. unfold speaker_notice. repeat case_match; by repeat constructor. }
  destruct p; cbn [fanout propagated_client_id] in He; try (by apply elem_of_nil in He);
    (eapply H; [| |exact He]); intros cl; cbv beta; try (intros [= ->]);
    try (rewrite decide_True by done; done); try (case_decide; [constructor|]); try done;
    try apply Hsn; try apply deliver_to_self.
Qed.

(** C9. Fanout never echoes, never misroutes and leaves nobody out.  Everything a
    fanned-out event sends goes to a client of the room other than its sender (for
    a speaker change, other than the speaker), and a keyframe request goes to no
    client but the publisher it names.  A chat, chat-control, voice or key frame
    and a tier notice is written, and only on the channel of its kind, to exactly
    the other clients that opened that channel, if it is within the size limit and
    str0m's channel takes it (voice: with at most 64 KiB buffered); a speaker
    change to every other client, and the top speakers to every client, whose
    speaker channel takes it.  A track announcement and a media packet go through
    the track and media handler of every other client.  Every client keeps its
    identity and its place.  (The peer and the clock of a tier notice are 64-bit
    numbers.) *)
Theorem fanout_never_echoes env p cs :
  notice_sized env p ->
  (forall e a, e ∈ (fanout env p cs).2 -> addressee e = Some a ->
     a ∈ (id <$> cs) /\ sender p <> Some a) /\
  (forall o req source mid e a, p = PKeyframeRequest o req source mid ->
     e ∈ (fanout env p cs).2 -> addressee e = Some a -> a = source) /\
  (forall e, framed p -> is_frame e ->
     e ∈ (fanout env p cs).2 <-> exists c, c ∈ cs /\ sender p <> Some (id c) /\ due env p c e) /\
  (forall o w e, p = PTrackOpen o w ->
     e ∈ (fanout env p cs).2 <-> exists c, c ∈ cs /\ id c <> o /\
       e ∈ (handle_track_open (live_tracks cs) (env_now env) (env_start env (id c) w) w c).2) /\
  (forall o d e, p = PMediaData o d ->
     e ∈ (fanout env p cs).2 <-> exists c, c ∈ cs /\ id c <> o /\
       e ∈ (handle_media_data_out (live_tracks cs) (env_write env (id c)) (env_now env) o d c).2) /\
  Forall2 same_peer cs (fanout env p cs).1.
Proof.
  intros Hsz. split_and!; [apply fanout_addressed | | | | |apply fanout_same_peer].
  - intros o req source mid e a -> He Ha. cbn [fanout propagated_client_id] in He.
    apply skipping in He as (c & _ & _ & Hin). cbn [deliver] in Hin.
    case_decide as Hs; [|by apply elem_of_nil in Hin]. subst source.
    pose proof (keyframe_to_self (env_writer env (id c) mid) (env_now env) req mid c) as Hk.
    rewrite Forall_forall in Hk. specialize (Hk e Hin). unfold to_self in Hk. by rewrite Ha in Hk.
  - intros e Hp Hf. by apply fanout_frames.
  - intros o w e ->. cbn [fanout propagated_client_id]. apply skipping.
  - intros o d e ->. cbn [fanout propagated_client_id]. apply skipping.
Qed.

(** ** Dynacast hints *)

Section Hints.
Variables (h : gmap TrackRef TrackIn) (l : list (Rid * TrackOut)).

(** One step of the fold that computes the highest layer wanted per publisher. *)
Definition hint_step (m : gmap ClientId Rid) (x : Rid * TrackOut) : gmap ClientId Rid :=
  let '(sub_desired, o) := x in
  match upgrade h (to_track_in o) with
  | None => m
  | Some t =>
      let entry := default LOW (m !! ti_origin t) in
      <[ti_origin t := if hint_rank entry <? hint_rank sub_desired then sub_desired else entry]> m
  end.

(** [(d, o)] is a wish of [l] for a live track of publisher [p]. *)
Definition wish (p : ClientId) (d : Rid) (o : TrackOut) (t : TrackIn) : Prop :=
  (d, o) ∈ l /\ upgrade h (to_track_in o) = Some t /\ ti_origin t = p.

Definition hint_justified (m : gmap ClientId Rid) : Prop :=
  forall p rid, m !! p = Some rid ->
    (exists d o t, wish p d o t) /\ (rid = LOW \/ exists o t, wish p rid o t).

Definition hint_covers (k : list (Rid * TrackOut)) (m : gmap ClientId Rid) : Prop :=
  forall d o t, (d, o) ∈ k -> upgrade h (to_track_in o) = Some t ->
    exists rid, m !! ti_origin t = Some rid /\ hint_rank d <= hint_rank rid.

Lemma hint_step_justified m x : x ∈ l -> hint_justified m -> hint_justified (hint_step m x).
Proof.
  intros Hx Hm. destruct x as [d o]. unfold hint_step.
  destruct (upgrade h (to_track_in o)) as [t|] eqn:Hup; [|done].
  intros p rid. destruct (decide (p = ti_origin t)) as [->|Hne];
    [|rewrite lookup_insert_ne by done; apply Hm].
  rewrite lookup_insert_eq. intros [= <-]. split; [by exists d, o, t|].
  destruct (_ <? _); [right; by exists o, t|].
  destruct (m !! ti_origin t) as [rid|] eqn:Hr; cbn; [exact (proj2 (Hm _ _ Hr)) | by left].
Qed.

Lemma hint_step_covers k m x : hint_covers k m -> hint_covers (k ++ [x]) (hint_step m x).
Proof.
  intros Hm d o t Hin Ht. destruct x as [d0 o0]. unfold hint_step.
  apply elem_of_app in Hin as [Hin|[= -> ->]%list_elem_of_singleton].
  - destruct (Hm d o t Hin Ht) as (rid & Hrid & Hle).
    destruct (upgrade h (to_track_in o0)) as [t0|]; [|by exists rid].
    destruct (decide (ti_origin t0 = ti_origin t)) as [E|Hne];
      [|rewrite lookup_insert_ne by done; by exists rid].
    rewrite E, lookup_insert_eq, Hrid. eexists; split; [done|]. cbn.
    destruct (Z.ltb_spec (hint_rank rid) (hint_rank d0)); lia.
  - rewrite Ht, lookup_insert_eq. eexists; split; [done|]. cbv zeta.
    destruct (Z.ltb_spec (hint_rank (default LOW (m !! ti_origin t))) (hint_rank d0)); lia.
Qed.

Lemma hint_fold k : (forall x, x ∈ k -> x ∈ l) ->
  hint_covers k (fold_left hint_step k ∅) /\ hint_justified (fold_left hint_step k ∅).
Proof.
  induction k as [|x k IH] using rev_ind; intros Hk.
  { split; [intros d o t Hin; by apply elem_of_nil in Hin|].
    intros p rid Hp. cbn [fold_left] in Hp. by rewrite lookup_empty in Hp. }
  rewrite fold_left_app. cbn [fold_left].
  destruct IH as [IH1 IH2]; [intros y Hy; apply Hk; apply elem_of_app; by left|].
  split; [by apply hint_step_covers|]. apply hint_step_justified; [|done].
  apply Hk, elem_of_app. right. by apply list_elem_of_singleton.
Qed.
End Hints.

(** [s] mirrors, through [o], the live track [t] of publisher [p]. *)
Definition mirrors (r : Registry) (p : ClientId) (s : Client) : Prop :=
  exists o t, s ∈ clients r /\ o ∈ tracks_out s /\
    upgrade (live_tracks (clients r)) (to_track_in o) = Some t /\ ti_origin t = p.

Lemma wishes_mirror r p d :
  (exists o t, wish (live_tracks (clients r))
     (clients r ≫= fun s => (fun o => (desired_layer s, o)) <$> tracks_out s) p d o t) <->
  (exists s, mirrors r p s /\ d = desired_layer s).
Proof.
  unfold wish, mirrors. split.
  - intros (o & t & Hin & Hup & Hp). apply list_elem_of_bind in Hin as (s & Hin & Hs).
    apply list_elem_of_fmap in Hin as (o' & [= -> ->] & Ho). exists s. split; [|done]. by exists o', t.
  - intros (s & (o & t & Hs & Ho & Hup & Hp) & ->). exists o, t. split_and!; try done.
    apply list_elem_of_bind. exists s. split; [|done]. by apply list_elem_of_fmap_2.
Qed.

(** Dynacast hints are exact: every publisher with a live track some
    subscriber mirrors gets one hint, no other publisher gets one, and the
    hinted layer is at least every such subscriber's desired layer and is either
    the lowest layer or one some subscriber of that publisher desires. *)
Theorem publisher_hints_exact r :
  let m := max_per_publisher (live_tracks (clients r)) (clients r) in
  to_propagate (emit_publisher_layer_hints r) =
    to_propagate r ++ ((fun '(p, rid) => PPublisherLayerHint p rid) <$> map_to_list m) /\
  (forall p s, mirrors r p s ->
     exists rid, m !! p = Some rid /\ hint_rank (desired_layer s) <= hint_rank rid) /\
  (forall p rid, m !! p = Some rid ->
     (exists s, mirrors r p s) /\
     (rid = LOW \/ exists s, mirrors r p s /\ rid = desired_layer s)).
Proof.
  intros m. split; [done|].
  set (l := clients r ≫= fun s => (fun o => (desired_layer s, o)) <$> tracks_out s).
  destruct (hint_fold (live_tracks (clients r)) l l ltac:(done)) as [Hc Hj]. split.
  - intros p s Hs. destruct (proj2 (wishes_mirror r p (desired_layer s)) ltac:(by exists s))
      as (o & t & Hin & Hup & <-). exact (Hc _ o t Hin Hup).
  - intros p rid Hm. destruct (Hj p rid Hm) as [(d & Hw) Hor]. split.
    + destruct (proj1 (wishes_mirror r p d) Hw) as (s & Hs & _). by exists s.
    + destruct Hor as [->|Hw']; [by left | right; by apply wishes_mirror].
Qed.

(** ** Tier notices *)

(** Successive passes: the tier the pacer left pending in each, if any; the
    client after them and the tiers announced. *)
Fixpoint tier_run (pending : list (option SuspendTier)) (c : Client)
    : Client * list SuspendTier :=
  match pending with
  | [] => (c, [])
  | p :: rest =>
      let '(c, ps) := emit_tier (put_pending_tier_emit p c) in
      let '(c, tiers) := tier_run rest c in
      (c, omap (fun e => match e with PPeerSuspended _ t => Some t | _ => None end) ps ++ tiers)
  end.

(** What the other peers believe: a peer starts out with full video. *)
Definition known_tier (c : Client) : SuspendTier := default VideoMax (last_emitted_tier c).

Fixpoint alternates (prev : SuspendTier) (l : list SuspendTier) : Prop :=
  match l with
  | [] => True
  | t :: l' => t <> prev /\ alternates t l'
  end.

Lemma emit_tier_pending t c :
  exists c1, (emit_tier (put_pending_tier_emit (Some t) c) = (c1, []) /\
              known_tier c1 = known_tier c /\ t = known_tier c) \/
            (emit_tier (put_pending_tier_emit (Some t) c) = (c1, [PPeerSuspended (id c) t]) /\
              known_tier c1 = t /\ t <> known_tier c).
Proof.
  destruct c as []. unfold emit_tier, known_tier. cbn.
  destruct last_emitted_tier as [prev|]; cbn; case_bool_decide as Hd; cbn; eexists.
  all: first [right; split_and!; [done|done|congruence] | left; split_and!; [done|done|]].
  all: by apply dec_stable; try (intros ?; congruence).
Qed.

(** Tier notices are exactly the changes: over any sequence of pacer passes
    each announced tier differs from the one announced before it (the first one
    from full video), and afterwards the other peers know the tier the pacer
    reported last. *)
Theorem tier_notices_are_changes pending c :
  alternates (known_tier c) (tier_run pending c).2 /\
  known_tier (tier_run pending c).1 =
    default (known_tier c) (last (omap (fun p => p) pending)).
Proof.
  revert c. induction pending as [|p rest IH]; intros c; [by split|]. cbn [tier_run].
  destruct p as [t|]; cbn [omap list_omap].
  - pose proof (emit_tier_pending t c) as [c1 Hc1].
    destruct Hc1 as [(-> & Hk & Ht)|(-> & Hk & Ht)]; specialize (IH c1) as [IH1 IH2];
      destruct (tier_run rest c1) as [c2 ts]; cbn [fst snd omap list_omap app] in *.
    + rewrite Hk in *. split; [done|]. rewrite IH2, last_cons.
      destruct (last (omap (fun p => p) rest)); [done|]. cbn. congruence.
    + rewrite Hk in *. split; [by split|]. rewrite IH2, last_cons.
      by destruct (last (omap (fun p => p) rest)).
  - change (emit_tier (put_pending_tier_emit None c)) with (put_pending_tier_emit None c, @nil Propagated).
    specialize (IH (put_pending_tier_emit None c)) as [IH1 IH2].
    destruct (tier_run rest (put_pending_tier_emit None c)) as [c2 ts]. by split.
Qed.

(** ** A concrete room *)

Definition room_env : Env :=
  mkEnv 0 0 (fun _ _ => Written) (fun _ _ => true) (fun _ _ => ChOpen 0 true)
    (fun _ _ => nego_env "o0" 1).

Definition room_publisher : Client :=
  (track_in_added 1%nat "v0" Video
     (with_external_peer_id 70 (with_voice_dc (with_ws_msg_tx (client_new 7 150000))).1)).1.

Definition room_old : Client := with_external_peer_id 80 (with_ws_msg_tx (client_new 8 150000)).
Definition room_new : Client := with_external_peer_id 80 (with_ws_msg_tx (client_new 9 150000)).

Definition room : Registry :=
  (registry_insert room_env room_old (registry_insert room_env room_publisher registry_new).1).1.

Lemma room_inv : registry_inv room.
Proof.
  split; cbn.
  - repeat constructor; set_solver.
  - repeat constructor; set_solver.
  - by intros [? ?].
Qed.

Lemma registry_insert_inv_witness :
  (forall c', c' ∈ clients (registry_insert room_env room_new room).1 ->
     external_peer_id c' = Some 80 -> id c' = 9) /\
  (id <$> clients (registry_insert room_env room_new room).1) = [7; 9].
Proof.
  split; [|reflexivity].
  intros c' Hc' Hp.
  exact (proj2 (proj2 (proj2 (registry_insert_inv room_env room_new room room_inv
    ltac:(cbn; set_solver)))) 80 c' eq_refl Hc' Hp).
Defined.

Lemma population_gauges_exact_witness :
  net "active_participants" [] (registry_insert room_env room_new room).2 = 0.
Proof.
  rewrite (proj2 (population_gauges_exact room_env room_new 0 room "active_participants" []
    ltac:(unfold gauges; set_solver))). reflexivity.
Defined.

(** A speaker change in a room of two. *)
Lemma fanout_never_echoes_witness :
  (fanout room_env (PActiveSpeakerChanged 7) (clients room)).2 = [SpeakerNotice 8 [7]] /\
  8 ∈ (id <$> clients room) /\ sender (PActiveSpeakerChanged 7) <> Some 8.
Proof.
  split; [reflexivity|].
  apply (proj1 (fanout_never_echoes room_env (PActiveSpeakerChanged 7) (clients room) I)
    (SpeakerNotice 8 [7]) 8); [|reflexivity].
  vm_compute. constructor.
Defined.

Lemma publisher_hints_exact_witness :
  exists rid, max_per_publisher (live_tracks (clients room)) (clients room) !! 7 = Some rid /\
    hint_rank (desired_layer (default room_old (clients room !! 1%nat))) <= hint_rank rid.
Proof.
  apply (proj1 (proj2 (publisher_hints_exact room))).
  eexists _, _. split_and!.
  - vm_compute. right. left.
  - vm_compute. left.
  - vm_compute. reflexivity.
  - vm_compute. reflexivity.
Defined.
