(* ===== verification/RoomAuth.v ===== *)
(** * Room tokens (crates/sfu/src/room_auth.rs)

    The binding policy ([RoomTokenPolicy]), the two room-token verifiers and
    the credential-rollout rule that every place which accepts a token follows.

    Signature checking belongs to the crate [jsonwebtoken]: the class [Jwt]
    holds its operations and [JwtLaws] what its documentation promises about a
    token that decodes.  The clock a decode reads is an argument, in Unix
    seconds.  Log lines are dropped; an error text becomes a constructor. *)

From Stdlib Require Import ZArith Lia.
From stdpp Require Import base option numbers gmap strings list.
From S2P Require Import Prelude RustStr.

(** ** The token library *)

Inductive Algorithm := HS256 | EdDSA.
#[export] Instance Algorithm_eq_dec : EqDecision Algorithm.
Proof. solve_decision. Defined.

(** The fields of [jsonwebtoken::Validation] this crate sets;
    [Validation::new(alg)] accepts exactly [alg]. *)
Record Validation := mkValidation {
  v_alg : Algorithm;
  v_validate_exp : bool;
  v_leeway : Z;
  v_required_spec_claims : gset string;
  v_aud : option (list str);
  v_iss : option (list str);
}.

(** [jsonwebtoken::errors::ErrorKind], as far as the callers tell kinds apart. *)
Inductive ErrorKind :=
| KExpiredSignature
| KInvalidSignature
| KInvalidAlgorithmName
| KInvalidAlgorithm
| KInvalidKeyFormat
| KOther.

(** Claims of a room token. *)
Record RoomClaims := mkRoomClaims {
  rc_sub : Z;
  rc_room : str;
  rc_iat : Z;
  rc_exp : Z;
}.

(** Claims of a relay grant (relay/mod.rs). *)
Record RelayJwt := mkRelayJwt {
  rj_room_id : str;
  rj_upstream_url : str;
  rj_upstream_room_token : str;
  rj_iat : Z;
  rj_exp : Z;
  rj_jti : str;
  rj_upstream_candidates : list str;
}.

(** The operations of [jsonwebtoken]: keys, and [decode] at the two claim types. *)
Class Jwt := {
  DecodingKey : Type;
  from_secret : list Z -> DecodingKey;
  from_ed_pem : str -> option DecodingKey;
  decode_room : Z -> str -> DecodingKey -> Validation -> result RoomClaims ErrorKind;
  decode_relay : Z -> str -> DecodingKey -> Validation -> result RelayJwt ErrorKind;
}.

(** What the registered claims of a token say, for a validation that passed:
    an expiry that is past, a required claim that is missing, an audience or
    an issuer that matches none of the accepted ones is refused. *)
Record claims_pass (v : Validation) (now exp : Z) (iss aud : option (list str)) : Prop := {
  cp_exp : v_validate_exp v = true -> now <= exp + v_leeway v;
  cp_aud_required : "aud" ∈ v_required_spec_claims v -> is_Some aud;
  cp_iss_required : "iss" ∈ v_required_spec_claims v -> is_Some iss;
  cp_aud : forall carried accepted, aud = Some carried -> v_aud v = Some accepted ->
    exists a, a ∈ carried /\ a ∈ accepted;
  cp_iss : forall carried accepted, iss = Some carried -> v_iss v = Some accepted ->
    exists i, i ∈ carried /\ i ∈ accepted;
}.

(** Documented behaviour of [decode]: a decoded token carries a signature of
    the accepted algorithm under the key, what is returned is the payload of the
    token (the claims its middle part spells, a function of the token alone), and
    its registered claims pass. *)
Class JwtLaws `{Jwt} := {
  signed : str -> Algorithm -> DecodingKey -> Prop;
  room_payload : str -> option RoomClaims;
  relay_payload : str -> option RelayJwt;
  token_iss : str -> option (list str);
  token_aud : str -> option (list str);
  decode_room_sound now token key v c :
    decode_room now token key v = Ok c ->
    signed token (v_alg v) key /\ room_payload token = Some c /\
    claims_pass v now (rc_exp c) (token_iss token) (token_aud token);
  decode_relay_sound now token key v c :
    decode_relay now token key v = Ok c ->
    signed token (v_alg v) key /\ relay_payload token = Some c /\
    claims_pass v now (rj_exp c) (token_iss token) (token_aud token);
}.

(** ** The binding policy *)

Definition DEFAULT_ROOM_TOKEN_AUDIENCE : str := lit "oxpulse-sfu".

Record RoomTokenPolicy := mkPolicy {
  issuers : list str;
  audience : str;
  require_binding : bool;
}.

Inductive PolicyError :=
| EmptyAudience
| BindingWithoutIssuers
| UnrecognisedFlag (value : str)
| AlreadyInitialised.

Definition policy_new (iss : list str) (aud : str) (req : bool) : result RoomTokenPolicy PolicyError :=
  if is_empty aud then Err EmptyAudience
  else if req && match iss with [] => true | _ => false end then Err BindingWithoutIssuers
  else Ok (mkPolicy iss aud req).

Definition transitional : RoomTokenPolicy := mkPolicy [] DEFAULT_ROOM_TOKEN_AUDIENCE false.

Definition COMMA : Z := 44.

Definition binding_flag (v : str) : result bool PolicyError :=
  if decide (v = [] \/ v = lit "0" \/ v = lit "false") then Ok false
  else if decide (v = lit "1" \/ v = lit "true") then Ok true
  else Err (UnrecognisedFlag v).

Definition from_lookup (get : string -> option str) : result RoomTokenPolicy PolicyError :=
  let iss := filter (fun s => s <> [])
               (trim <$> split_on COMMA (default [] (get "SFU_ROOM_TOKEN_ISSUERS"))) in
  let aud := match get "SFU_ROOM_TOKEN_AUDIENCE" with
             | Some v => if is_empty v then DEFAULT_ROOM_TOKEN_AUDIENCE else v
             | None => DEFAULT_ROOM_TOKEN_AUDIENCE
             end in
  let? req := binding_flag (to_ascii_lowercase (trim (default [] (get "SFU_REQUIRE_TOKEN_BINDING")))) in
  policy_new iss aud req.

Definition validation (p : RoomTokenPolicy) (alg : Algorithm) : Validation :=
  {| v_alg := alg;
     v_validate_exp := true;
     v_leeway := 0;
     v_required_spec_claims :=
       if require_binding p then {["exp"; "iss"; "aud"]} else {["exp"]};
     v_aud := Some [audience p];
     v_iss := match issuers p with [] => None | _ => Some (issuers p) end |}.

(** The process-wide policy is a write-once cell: [init_policy] fills it, and
    the first verification fills it with the transitional policy otherwise. *)
Definition PolicyCell := option RoomTokenPolicy.

Definition init_policy (p : RoomTokenPolicy) (cell : PolicyCell) : result PolicyCell PolicyError :=
  match cell with
  | Some _ => Err AlreadyInitialised
  | None => Ok (Some p)
  end.

Definition effective_policy (cell : PolicyCell) : RoomTokenPolicy * PolicyCell :=
  let p := default transitional cell in (p, Some p).

(** ** Verification *)

Inductive RoomAuthError :=
| RaInvalidSignature
| RaExpired
| RaMalformed
| RaRoomMismatch (token_room request_room : str).

Definition map_jwt_error (k : ErrorKind) : RoomAuthError :=
  match k with
  | KExpiredSignature => RaExpired
  | KInvalidSignature | KInvalidAlgorithmName | KInvalidAlgorithm => RaInvalidSignature
  | KInvalidKeyFormat | KOther => RaMalformed
  end.

Section verify.
Context `{Jwt}.
Variable now : Z.

Definition decode_and_match (token room_id : str) (key : DecodingKey) (v : Validation)
    : result RoomClaims RoomAuthError :=
  match decode_room now token key v with
  | Err k => Err (map_jwt_error k)
  | Ok c =>
      if decide (rc_room c = room_id) then Ok c else Err (RaRoomMismatch (rc_room c) room_id)
  end.

Definition verify_room_token_with (p : RoomTokenPolicy) (token room_id : str) (secret : list Z)
    : result RoomClaims RoomAuthError :=
  decode_and_match token room_id (from_secret secret) (validation p HS256).

Definition verify_room_token_ed25519_with (p : RoomTokenPolicy) (token room_id pem : str)
    : result RoomClaims RoomAuthError :=
  match from_ed_pem pem with
  | None => Err RaMalformed
  | Some key => decode_and_match token room_id key (validation p EdDSA)
  end.

(** The entry points read the process-wide policy. *)
Definition verify_room_token (cell : PolicyCell) (token room_id : str) (secret : list Z)
    : result RoomClaims RoomAuthError :=
  verify_room_token_with (effective_policy cell).1 token room_id secret.

Definition verify_room_token_ed25519 (cell : PolicyCell) (token room_id pem : str)
    : result RoomClaims RoomAuthError :=
  verify_room_token_ed25519_with (effective_policy cell).1 token room_id pem.
End verify.

(** ** The credential rollout, specified once

    [eddsa] is the verdict of the Ed25519 verifier when a public key is
    configured; [hs256] the verdict of the shared-secret verifier when it may
    be consulted.  Only a verdict that says the token was not signed with
    Ed25519 moves on to the shared secret. *)
Definition rollout {A E : Type} (not_eddsa : E -> bool) (refused : E)
    (eddsa hs256 : option (result A E)) : result (A * Algorithm) E :=
  let fallback :=
    match hs256 with
    | Some (Ok a) => Ok (a, HS256)
    | Some (Err e) => Err e
    | None => Err refused
    end in
  match eddsa with
  | Some (Ok a) => Ok (a, EdDSA)
  | Some (Err e) => if not_eddsa e then fallback else Err e
  | None => fallback
  end.

Definition room_not_eddsa (e : RoomAuthError) : bool :=
  match e with RaInvalidSignature => true | _ => false end.

(** ** Facts *)

(** A token that satisfied the policy when it was checked: [c] is what the token
    itself says. *)
Record token_bound `{JwtLaws} (p : RoomTokenPolicy) (now : Z) (token room : str)
    (alg : Algorithm) (key : DecodingKey) (c : RoomClaims) : Prop := {
  tb_signed : signed token alg key;
  tb_payload : room_payload token = Some c;
  tb_room : rc_room c = room;
  tb_live : now <= rc_exp c;
  tb_audience : forall carried, token_aud token = Some carried -> audience p ∈ carried;
  tb_issuer : forall carried, token_iss token = Some carried -> issuers p <> [] ->
    exists i, i ∈ carried /\ i ∈ issuers p;
  tb_strict : require_binding p = true -> is_Some (token_aud token) /\ is_Some (token_iss token);
}.

Lemma claims_pass_bound `{JwtLaws} p now token alg key c :
  signed token alg key -> room_payload token = Some c ->
  claims_pass (validation p alg) now (rc_exp c) (token_iss token) (token_aud token) ->
  token_bound p now token (rc_room c) alg key c.
Proof.
  intros Hs Hc [He Ha Hi Hca Hci]. simpl in *. split; [done|done|done| | | |].
  - specialize (He eq_refl). lia.
  - intros carried Hcar. destruct (Hca _ _ Hcar eq_refl) as (a & Hin & ->%list_elem_of_singleton). done.
  - intros carried Hcar Hne. destruct (issuers p) eqn:Hp; [done|]. by eapply Hci.
  - intros Hreq. rewrite Hreq in *. split; [apply Ha | apply Hi]; set_solver.
Qed.

Lemma decode_room_bound `{JwtLaws} p alg now token key c :
  decode_room now token key (validation p alg) = Ok c ->
  token_bound p now token (rc_room c) alg key c.
Proof. intros (Hs & Hc & Hp)%decode_room_sound. by apply claims_pass_bound. Qed.

Lemma decode_and_match_sound `{JwtLaws} p alg now token room key c :
  decode_and_match now token room key (validation p alg) = Ok c ->
  token_bound p now token room alg key c.
Proof.
  unfold decode_and_match. intros Hd. step_in Hd. case_decide as Hr; simplify_eq.
  by apply decode_room_bound.
Qed.

(** A mismatch is told only of a token that is good for the room it names. *)
Lemma decode_and_match_mismatch `{JwtLaws} p alg now token room key a b :
  decode_and_match now token room key (validation p alg) = Err (RaRoomMismatch a b) ->
  exists c, rc_room c <> room /\ token_bound p now token (rc_room c) alg key c.
Proof.
  unfold decode_and_match. destruct (decode_room _ _ _ _) as [c|[]] eqn:Hd; try done.
  case_decide as Hr; [done|]. intros _. exists c. split; [done|]. by apply decode_room_bound.
Qed.

Lemma verify_room_token_sound `{JwtLaws} now cell token room secret c :
  verify_room_token now cell token room secret = Ok c ->
  token_bound (effective_policy cell).1 now token room HS256 (from_secret secret) c.
Proof. apply decode_and_match_sound. Qed.

Lemma verify_room_token_ed25519_sound `{JwtLaws} now cell token room pem c :
  verify_room_token_ed25519 now cell token room pem = Ok c ->
  exists key, from_ed_pem pem = Some key /\
    token_bound (effective_policy cell).1 now token room EdDSA key c.
Proof.
  unfold verify_room_token_ed25519, verify_room_token_ed25519_with. intros Hv.
  step_in Hv. eexists. split; [done|]. by apply decode_and_match_sound.
Qed.

(** The rollout rule accepts a token only on the word of a verifier that ran. *)
Lemma rollout_Ok {A E} (not_eddsa : E -> bool) refused eddsa hs256 (a : A) alg :
  rollout not_eddsa refused eddsa hs256 = Ok (a, alg) ->
  (alg = EdDSA /\ eddsa = Some (Ok a)) \/
  (alg = HS256 /\ hs256 = Some (Ok a) /\
   (eddsa = None \/ exists e, eddsa = Some (Err e) /\ not_eddsa e = true)).
Proof.
  unfold rollout. destruct eddsa as [[a'|e]|].
  - naive_solver.
  - destruct (not_eddsa e) eqn:He, hs256 as [[]|]; naive_solver.
  - destruct hs256 as [[]|]; naive_solver.
Qed.

Lemma policy_new_Ok iss aud req p :
  policy_new iss aud req = Ok p ->
  p = mkPolicy iss aud req /\ aud <> [] /\ (req = true -> iss <> []).
Proof. unfold policy_new. destruct aud, req, iss; naive_solver. Qed.

(** A policy read from the environment names an audience, and when binding is
    required it has an issuer that can match. *)
Lemma from_lookup_wf get p :
  from_lookup get = Ok p ->
  audience p <> [] /\ (require_binding p = true -> issuers p <> []) /\
  Forall (fun i => i <> []) (issuers p).
Proof.
  unfold from_lookup. intros (req & _ & (-> & Ha & Hi)%policy_new_Ok)%rbind_Ok.
  split; [done|]. split; [done|].
  apply Forall_forall. intros i Hin. by apply list_elem_of_filter in Hin as [].
Qed.

(** Start-up order: a policy that was installed is the one in force, and one
    that comes after the first verification is refused. *)
Lemma init_policy_wins p cell cell' :
  init_policy p cell = Ok cell' -> cell = None /\ effective_policy cell' = (p, Some p).
Proof. unfold init_policy. destruct cell; naive_solver. Qed.

Lemma late_init_refused p cell :
  init_policy p (effective_policy cell).2 = Err AlreadyInitialised.
Proof. done. Qed.

(** ** A decoder over a table of minted tokens

    An implementation of the interface on which the theorems that assume it
    are evaluated: the library's checks in the library's order, over tokens
    looked up in a table instead of parsed and verified cryptographically. *)
Module Minted.

Record grant := mkGrant {
  g_alg : Algorithm;
  g_key : list Z;
  g_iss : option (list str);
  g_aud : option (list str);
  g_room : option RoomClaims;
  g_relay : option RelayJwt;
}.

Definition mint_table := list (str * grant).

Fixpoint find_grant (t : mint_table) (token : str) : option grant :=
  match t with
  | [] => None
  | (k, g) :: t' => if decide (k = token) then Some g else find_grant t' token
  end.

Definition shares (carried accepted : option (list str)) : bool :=
  match carried, accepted with
  | Some c, Some a => existsb (fun x => bool_decide (x ∈ a)) c
  | _, _ => true
  end.

Definition claims_ok (v : Validation) (g : grant) : bool :=
  implb (bool_decide ("aud" ∈ v_required_spec_claims v)) (bool_decide (is_Some (g_aud g))) &&
  implb (bool_decide ("iss" ∈ v_required_spec_claims v)) (bool_decide (is_Some (g_iss g))) &&
  shares (g_aud g) (v_aud v) && shares (g_iss g) (v_iss v).

Definition decode_with {A} (t : mint_table) (claims : grant -> option A) (exp : A -> Z)
    (now : Z) (token : str) (key : Algorithm * list Z) (v : Validation) : result A ErrorKind :=
  match find_grant t token with
  | None => Err KOther
  | Some g =>
      if negb (bool_decide (g_alg g = v_alg v)) then Err KInvalidAlgorithm
      else if negb (bool_decide ((g_alg g, g_key g) = key)) then Err KInvalidSignature
      else match claims g with
           | None => Err KOther
           | Some c =>
               if v_validate_exp v && (exp c + v_leeway v <? now) then Err KExpiredSignature
               else if claims_ok v g then Ok c else Err KOther
           end
  end.

#[export] Instance jwt (t : mint_table) : Jwt := {|
  DecodingKey := Algorithm * list Z;
  from_secret := fun s => (HS256, s);
  from_ed_pem := fun pem => if is_empty pem then None else Some (EdDSA, pem);
  decode_room := decode_with t g_room rc_exp;
  decode_relay := decode_with t g_relay rj_exp;
|}.

Definition minted (t : mint_table) (token : str) (alg : Algorithm) (key : Algorithm * list Z) : Prop :=
  exists g, find_grant t token = Some g /\ g_alg g = alg /\ (g_alg g, g_key g) = key.

Lemma shares_true c a : shares (Some c) (Some a) = true -> exists x, x ∈ c /\ x ∈ a.
Proof.
  simpl. intros (x & Hx & Hin)%existsb_exists. exists x.
  split; [by apply list_elem_of_In | by apply bool_decide_eq_true in Hin].
Qed.

Lemma implb_decide (P Q : Prop) `{Decision P, Decision Q} :
  implb (bool_decide P) (bool_decide Q) = true -> P -> Q.
Proof. do 2 case_bool_decide; naive_solver. Qed.

Lemma decode_with_sound {A} t (claims : grant -> option A) exp now token key v c :
  decode_with t claims exp now token key v = Ok c ->
  minted t token (v_alg v) key /\ find_grant t token ≫= claims = Some c /\
  claims_pass v now (exp c) (find_grant t token ≫= g_iss) (find_grant t token ≫= g_aud).
Proof.
  unfold decode_with. destruct (find_grant t token) as [g|] eqn:Hg; [|done].
  destruct (bool_decide (g_alg g = v_alg v)) eqn:Ha; [|done].
  destruct (bool_decide ((g_alg g, g_key g) = key)) eqn:Hk; [|done]. simpl.
  apply bool_decide_eq_true in Ha, Hk. cbn [mbind option_bind]. destruct (claims g) as [c'|]; [|done].
  destruct (_ && _) eqn:He; [done|]. destruct (claims_ok v g) eqn:Hc; [|done].
  intros [= ->]. unfold claims_ok in Hc. bool_props.
  split; [by exists g|]. split; [done|]. split.
  - intros Hv. rewrite Hv in He. simpl in He. bool_props. lia.
  - by eapply implb_decide.
  - by eapply implb_decide.
  - intros carried accepted Hca Hav. apply shares_true. by rewrite <- Hca, <- Hav.
  - intros carried accepted Hca Hav. apply shares_true. by rewrite <- Hca, <- Hav.
Qed.

#[export] Instance jwt_laws (t : mint_table) : @JwtLaws (jwt t).
Proof.
  refine (@Build_JwtLaws (jwt t) (minted t) (fun k => find_grant t k ≫= g_room)
            (fun k => find_grant t k ≫= g_relay) (fun k => find_grant t k ≫= g_iss)
            (fun k => find_grant t k ≫= g_aud) _ _).
  - intros now token key v c. apply decode_with_sound.
  - intros now token key v c. apply decode_with_sound.
Defined.

End Minted.
