(* ===== verification/SfuChannelData.v ===== *)
(** * Inbound data-channel messages (crates/sfu/src/client/dc.rs)

    What the SFU does with a message a peer sends on one of its data channels:
    the relay promotion and its token check, the opaque relays with their size
    limits, and the budget channel with its hand-written JSON scanner.  The
    payload is a list of bytes, a [str] the list of its scalar values, and
    [from_utf8] the strict decoder of the standard library.  The cargo feature
    [vfm] and the clock are arguments. *)

From Stdlib Require Import ZArith Lia.
From stdpp Require Import base option numbers gmap strings list.
From S2P Require Import Prelude RustStr DdParse DdCache SfuTypes SfuRelayOut RoomAuth.

(** ** UTF-8 *)

Definition in_range (lo hi b : Z) : bool := (lo <=? b) && (b <=? hi).
Definition continuation (b : Z) : bool := in_range 128 191 b.

(** The range of the second byte, by the first: no overlong form, no
    surrogate, nothing above U+10FFFF. *)
Definition second_byte (b0 b1 : Z) : bool :=
  if b0 =? 224 then in_range 160 191 b1
  else if b0 =? 237 then in_range 128 159 b1
  else if b0 =? 240 then in_range 144 191 b1
  else if b0 =? 244 then in_range 128 143 b1
  else continuation b1.

Fixpoint from_utf8 (bs : list Z) : option str :=
  match bs with
  | [] => Some []
  | b0 :: r0 =>
      if in_range 0 127 b0 then cons b0 <$> from_utf8 r0
      else match r0 with
      | [] => None
      | b1 :: r1 =>
          if in_range 194 223 b0 then
            if continuation b1
            then cons (64 * (b0 - 192) + (b1 - 128)) <$> from_utf8 r1 else None
          else match r1 with
          | [] => None
          | b2 :: r2 =>
              if in_range 224 239 b0 then
                if second_byte b0 b1 && continuation b2
                then cons (4096 * (b0 - 224) + 64 * (b1 - 128) + (b2 - 128)) <$> from_utf8 r2
                else None
              else match r2 with
              | [] => None
              | b3 :: r3 =>
                  if in_range 240 244 b0 && second_byte b0 b1 && continuation b2 && continuation b3
                  then cons (262144 * (b0 - 240) + 4096 * (b1 - 128) + 64 * (b2 - 128) + (b3 - 128))
                         <$> from_utf8 r3
                  else None
              end
          end
      end
  end.

(** ** The JSON scanner *)

Definition QUOTE : Z := 34.
Definition COLON : Z := 58.
Definition SLASH : Z := 47.

(** [str::find] of a pattern: the text before its first occurrence and the
    text after it. *)
Fixpoint find_str (needle s : str) : option (str * str) :=
  match strip_prefix needle s with
  | Some rest => Some ([], rest)
  | None =>
      match s with
      | [] => None
      | x :: t => match find_str needle t with
                  | Some (a, b) => Some (x :: a, b)
                  | None => None
                  end
      end
  end.

Fixpoint take_while (p : Z -> bool) (s : str) : str :=
  match s with
  | [] => []
  | x :: t => if p x then x :: take_while p t else []
  end.

Definition trim_start (s : str) : str := drop_while is_whitespace s.

Definition needle (key : string) : str := QUOTE :: lit key ++ [QUOTE].

(** The text after the colon that follows the first occurrence of the key. *)
Definition after_key (json : str) (key : string) : option str :=
  match find_str (needle key) json with
  | None => None
  | Some (_, rest) =>
      match split_once COLON rest with
      | None => None
      | Some (_, v) => Some (trim_start v)
      end
  end.

Definition extract_str_value (json : str) (key : string) : option str :=
  match after_key json key with
  | Some (c :: inner) =>
      if c =? QUOTE then fst <$> split_once QUOTE inner else None
  | _ => None
  end.

Definition extract_num_value (json : str) (key : string) : option Z :=
  match after_key json key with
  | None => None
  | Some v => let ds := take_while is_ascii_digit v in
              if is_empty ds then None else parse_u64 ds
  end.

Definition contains (s pat : str) : bool :=
  match find_str pat s with Some _ => true | None => false end.

Definition parse_budget_bps (s : str) : option Z :=
  if negb (contains s (needle "type")) || negb (contains s (needle "bps")) then None
  else if bool_decide (extract_str_value s "type" = Some (lit "budget"))
       then extract_num_value s "bps" else None.

(** [upstream_url.rsplit('/').next()] *)
Definition last_segment (url : str) : str := default [] (last (split_on SLASH url)).

(** ** Labels *)

Definition BUDGET_CHANNEL_LABEL : string := "sfu-budget".
Definition CHAT_DATA_CHANNEL_LABEL : string := "chat-data".
Definition CHAT_CTRL_CHANNEL_LABEL : string := "chat-ctrl".
Definition VOICE_CHANNEL_LABEL : string := "voice".
Definition SFRAME_KEYS_CHANNEL_LABEL : string := "sframe-keys".
Definition SFU_EVENTS_CHANNEL_LABEL : string := "sfu-events".

(** ** Size limits of the inbound gate *)

Definition IN_CHAT_FRAME_MAX_BYTES : Z := 256 * 1024.
Definition IN_VOICE_FRAME_MAX_BYTES : Z := 64 * 1024.
Definition IN_SFRAME_KEYS_FRAME_MAX_BYTES : Z := 64 * 1024.

(** ** The handler *)

Section handler.
Context `{Jwt}.
Variable now : Z.
Variable cell : PolicyCell.
Variable vfm : bool.

(** The token check of a relay promotion, when a credential is configured. *)
Definition verify_promotion (token room_id : str) (relay_auth_secret : option (list Z))
    (relay_signing_pubkey : option str) (hs256_fallback_enabled : bool)
    : result RoomClaims RoomAuthError :=
  match relay_signing_pubkey, relay_auth_secret with
  | Some pubkey, maybe_secret =>
      match verify_room_token_ed25519 now cell token room_id pubkey with
      | Ok claims => Ok claims
      | Err RaInvalidSignature =>
          match maybe_secret with
          | Some secret =>
              if hs256_fallback_enabled then verify_room_token now cell token room_id secret
              else Err RaInvalidSignature
          | None => Err RaInvalidSignature
          end
      | Err e => Err e
      end
  | None, Some secret => verify_room_token now cell token room_id secret
  | None, None => Err RaMalformed
  end.

Definition promote_with_token (client_id : ClientId) (s upstream_url : str)
    (relay_auth_secret : option (list Z)) (relay_signing_pubkey : option str)
    (hs256_fallback_enabled : bool) : Propagated :=
  match extract_str_value s "roomToken" with
  | None => PNoop
  | Some token =>
      let room_id := last_segment upstream_url in
      if is_empty room_id then PNoop
      else match verify_promotion token room_id relay_auth_secret relay_signing_pubkey
                   hs256_fallback_enabled with
           | Err _ => PNoop
           | Ok _ => PMarkRelaySource client_id upstream_url
           end
  end.

Definition handle_relay_source (client_id : ClientId) (s : str) (relay_auth_secret : option (list Z))
    (relay_signing_pubkey : option str) (hs256_fallback_enabled : bool) : Propagated :=
  match extract_str_value s "upstreamUrl" with
  | None => PNoop
  | Some upstream_url =>
      let auth_required :=
        bool_decide (is_Some relay_signing_pubkey) || bool_decide (is_Some relay_auth_secret) in
      if auth_required
      then promote_with_token client_id s upstream_url relay_auth_secret relay_signing_pubkey
             hs256_fallback_enabled
      else PMarkRelaySource client_id upstream_url
  end.

(** A control message of the budget channel. *)
Definition handle_budget (client_id : ClientId) (text : str) : Propagated :=
  if vfm && bool_decide (extract_str_value text "type" = Some (lit "max_temporal_layer")) then
    match extract_num_value text "vfm" with
    | Some max_tid => PVfmLayerCap client_id (wrap_u8 max_tid)
    | None => PNoop
    end
  else match parse_budget_bps text with
       | Some bps => PClientBudgetHint client_id bps
       | None => PNoop
       end.

Definition handle_by_label (client_id : ClientId) (label : string) (data : list Z) : Propagated :=
  if decide (label = CHAT_DATA_CHANNEL_LABEL) then
    if IN_CHAT_FRAME_MAX_BYTES <? len data then PNoop else PChatData client_id data
  else if decide (label = CHAT_CTRL_CHANNEL_LABEL) then
    if IN_CHAT_FRAME_MAX_BYTES <? len data then PNoop else PChatCtrl client_id data
  else if decide (label = VOICE_CHANNEL_LABEL) then
    if IN_VOICE_FRAME_MAX_BYTES <? len data then PNoop else PVoiceData client_id data
  else if decide (label = SFRAME_KEYS_CHANNEL_LABEL) then
    if IN_SFRAME_KEYS_FRAME_MAX_BYTES <? len data then PNoop else PKeysData client_id data
  else if decide (label = SFU_EVENTS_CHANNEL_LABEL) then PNoop
  else if decide (label <> BUDGET_CHANNEL_LABEL) then PNoop
  else match from_utf8 data with
       | None => PNoop
       | Some text => handle_budget client_id text
       end.

Definition handle_channel_data (client_id : ClientId) (label : string) (data : list Z)
    (relay_auth_secret : option (list Z)) (relay_signing_pubkey : option str)
    (hs256_fallback_enabled : bool) : Propagated :=
  match from_utf8 data with
  | Some s =>
      if bool_decide (extract_str_value s "type" = Some (lit "relay_source"))
      then handle_relay_source client_id s relay_auth_secret relay_signing_pubkey
             hs256_fallback_enabled
      else handle_by_label client_id label data
  | None => handle_by_label client_id label data
  end.

End handler.

(** ** Encoding text *)

Definition is_scalar (c : Z) : bool := in_range 0 55295 c || in_range 57344 1114111 c.

Ltac utf8_ranges :=
  repeat match goal with
  | |- context [in_range ?lo ?hi ?b] =>
      first [ replace (in_range lo hi b) with true
                by (symmetry; unfold in_range; apply andb_true_iff; split; apply Z.leb_le; lia)
            | replace (in_range lo hi b) with false
                by (symmetry; unfold in_range; apply andb_false_iff;
                    first [left; apply Z.leb_gt; lia | right; apply Z.leb_gt; lia]) ]
  end.

Lemma second_byte_ok b0 b1 :
  128 <= b1 <= 191 -> (b0 = 224 -> 160 <= b1) -> (b0 = 237 -> b1 <= 159) ->
  (b0 = 240 -> 144 <= b1) -> (b0 = 244 -> b1 <= 143) -> second_byte b0 b1 = true.
Proof.
  intros. unfold second_byte, continuation.
  repeat match goal with |- context [?a =? ?b] => destruct (Z.eqb_spec a b) end;
    utf8_ranges; done.
Qed.

Lemma from_utf8_char c rest :
  is_scalar c = true -> from_utf8 (utf8_char c ++ rest) = cons c <$> from_utf8 rest.
Proof.
  unfold is_scalar, utf8_char. intros Hc.
  assert (0 <= c <= 55295 \/ 57344 <= c <= 1114111) as Hr.
  { unfold in_range in Hc. apply orb_true_iff in Hc as [Hc|Hc]; bool_props; lia. }
  clear Hc.
  destruct (Z.ltb_spec c 128); [simpl; by utf8_ranges|].
  pose proof (Z.mod_pos_bound c 64 ltac:(lia)).
  pose proof (Z.mod_pos_bound (c / 64) 64 ltac:(lia)).
  pose proof (Z.mod_pos_bound (c / 4096) 64 ltac:(lia)).
  destruct (Z.ltb_spec c 2048); [|destruct (Z.ltb_spec c 65536)]; simpl; unfold continuation.
  - assert (2 <= c / 64 <= 31) by (split; [apply Z.div_le_lower_bound | apply Z.lt_succ_r, Z.div_lt_upper_bound]; lia).
    utf8_ranges. do 2 f_equal. Z.to_euclidean_division_equations; lia.
  - assert (0 <= c / 4096 <= 15) by (split; [apply Z.div_le_lower_bound | apply Z.lt_succ_r, Z.div_lt_upper_bound]; lia).
    utf8_ranges. rewrite second_byte_ok by (Z.to_euclidean_division_equations; lia). simpl. do 2 f_equal.
    Z.to_euclidean_division_equations; lia.
  - assert (0 <= c / 262144 <= 4) by (split; [apply Z.div_le_lower_bound | apply Z.lt_succ_r, Z.div_lt_upper_bound]; lia).
    utf8_ranges. rewrite second_byte_ok by (Z.to_euclidean_division_equations; lia). simpl. do 2 f_equal.
    Z.to_euclidean_division_equations; lia.
Qed.

Lemma from_utf8_as_bytes s :
  Forall (fun c => is_scalar c = true) s -> from_utf8 (as_bytes s) = Some s.
Proof.
  induction 1 as [|c s Hc _ IH]; [done|].
  change (as_bytes (c :: s)) with (utf8_char c ++ as_bytes s). by rewrite from_utf8_char, IH.
Qed.

(** ** Scanning quoted text *)

Lemma find_str_miss n x t :
  strip_prefix n (x :: t) = None ->
  find_str n (x :: t) = (fun p => (x :: p.1, p.2)) <$> find_str n t.
Proof. intros Hm. cbn [find_str]. rewrite Hm. by destruct (find_str n t) as [[]|]. Qed.

(** The scanner's pattern opens with a quote, so it starts at no other
    character. *)
Lemma find_str_skip k s r :
  QUOTE ∉ s ->
  find_str (needle k) (s ++ r) = (fun p => (s ++ p.1, p.2)) <$> find_str (needle k) r.
Proof.
  induction s as [|x s IH]; intros Hq.
  { simpl. by destruct (find_str (needle k) r) as [[]|]. }
  apply not_elem_of_cons in Hq as [Hx Hs].
  assert (strip_prefix (needle k) (x :: s ++ r) = None) as Hmiss.
  { unfold needle. cbn [strip_prefix]. by apply Z.eqb_neq in Hx as ->. }
  change ((x :: s) ++ r) with (x :: s ++ r). rewrite find_str_miss, IH by done.
  by destruct (find_str (needle k) r) as [[]|].
Qed.

(** A quoted text that is not the key is passed over. *)
Lemma find_str_other k s r :
  QUOTE ∉ s -> QUOTE ∉ lit k -> s <> lit k ->
  find_str (needle k) (QUOTE :: s ++ QUOTE :: r) =
  (fun p => (QUOTE :: s ++ p.1, p.2)) <$> find_str (needle k) (QUOTE :: r).
Proof.
  intros Hs Hk Hne.
  assert (strip_prefix (needle k) (QUOTE :: s ++ QUOTE :: r) = None) as Hmiss.
  { destruct (strip_prefix _ _) as [r'|] eqn:He; [|done]. exfalso.
    apply strip_prefix_Some in He. unfold needle in He. simpl in He. injection He as He.
    rewrite <- (assoc_L (++)) in He. simpl in He. apply Hne.
    assert (split_once QUOTE (s ++ QUOTE :: r) = Some (s, r)) as H1 by (by apply split_once_Some).
    assert (split_once QUOTE (lit k ++ QUOTE :: r') = Some (lit k, r')) as H2
      by (by apply split_once_Some).
    congruence. }
  rewrite find_str_miss, find_str_skip by done.
  by destruct (find_str (needle k) (QUOTE :: r)) as [[]|].
Qed.

Lemma find_str_hit k r : find_str (needle k) (QUOTE :: lit k ++ QUOTE :: r) = Some ([], r).
Proof.
  replace (QUOTE :: lit k ++ QUOTE :: r) with (needle k ++ r)
    by (unfold needle; simpl; by rewrite <- (assoc_L (++))).
  unfold find_str at 1. destruct (needle k ++ r) eqn:He; [done|].
  by rewrite <- He, strip_prefix_app.
Qed.

(** ** Compact JSON objects of string members *)

Definition LBRACE : Z := 123.
Definition RBRACE : Z := 125.

Definition member : Type := (string * str)%type.

Definition render_member (m : member) : str :=
  QUOTE :: lit (m.1) ++ QUOTE :: COLON :: QUOTE :: m.2 ++ [QUOTE].

Fixpoint render_members (ms : list member) : str :=
  match ms with
  | [] => []
  | [m] => render_member m
  | m :: ms' => render_member m ++ COMMA :: render_members ms'
  end.

Definition render_object (ms : list member) : str := LBRACE :: render_members ms ++ [RBRACE].

(** A key the scanner looks up, and a member whose text it can pass over. *)
Definition scannable_key (k : string) : Prop :=
  (QUOTE ∉ lit k) /\ lit k <> [COLON] /\ lit k <> [COMMA].

Definition scannable (k : string) (m : member) : Prop :=
  (QUOTE ∉ lit (m.1)) /\ (QUOTE ∉ m.2) /\ m.2 <> lit k.

Lemma render_member_app m r :
  render_member m ++ r = QUOTE :: lit (m.1) ++ QUOTE :: [COLON] ++ QUOTE :: m.2 ++ QUOTE :: r.
Proof. unfold render_member. simpl. f_equal. rewrite <- !(assoc_L (++)). simpl. by rewrite <- !(assoc_L (++)). Qed.

Lemma render_members_head m ms tail :
  exists r, render_members (m :: ms) ++ tail = QUOTE :: r.
Proof.
  destruct ms; cbn [render_members]; [|rewrite <- (assoc_L (++))]; rewrite render_member_app; eauto.
Qed.

Lemma find_member ms k v tail :
  scannable_key k -> Forall (scannable k) ms -> NoDup (fst <$> ms) -> (k, v) ∈ ms ->
  exists a r, find_str (needle k) (render_members ms ++ tail)
              = Some (a, COLON :: QUOTE :: v ++ QUOTE :: r).
Proof.
  intros (Hk & Hcol & Hcom) Hall. revert tail.
  induction Hall as [|m ms (Hm1 & Hm2 & Hm3) Hall IH]; intros tail Hnd Hin.
  { by apply not_elem_of_nil in Hin. }
  destruct (decide (m.1 = k)) as [Heq|Hne].
  - assert (m = (k, v)) as ->.
    { apply elem_of_cons in Hin as [->|Hin]; [done|]. apply NoDup_cons in Hnd as [Hn _].
      destruct Hn. apply list_elem_of_fmap. exists (k, v). by rewrite Heq. }
    destruct ms as [|m' ms]; cbn [render_members];
      [|rewrite <- (assoc_L (++))]; rewrite render_member_app; eexists _, _; exact (find_str_hit _ _).
  - assert ((k, v) ∈ ms) as Hin'.
    { apply elem_of_cons in Hin as [<-|]; [by destruct Hne|done]. }
    destruct ms as [|m' ms]; [by apply not_elem_of_nil in Hin'|].
    apply NoDup_cons in Hnd as [_ Hnd].
    change (render_members (m :: m' :: ms))
      with (render_member m ++ COMMA :: render_members (m' :: ms)).
    destruct (IH tail Hnd Hin') as (a & r & Hf).
    destruct (render_members_head m' ms tail) as [r' Hr'].
    rewrite <- (assoc_L (++)), render_member_app.
    replace ((COMMA :: render_members (m' :: ms)) ++ tail) with ([COMMA] ++ QUOTE :: r')
      by (rewrite <- Hr'; done).
    rewrite find_str_other; [|done|done|intros ?%lit_inj; done].
    rewrite find_str_other; [|set_solver|done|done].
    rewrite find_str_other by done.
    rewrite find_str_other; [|set_solver|done|done].
    rewrite <- Hr', Hf. simpl. eauto.
Qed.

Lemma extract_member ms k v :
  scannable_key k -> Forall (scannable k) ms -> NoDup (fst <$> ms) -> (k, v) ∈ ms ->
  extract_str_value (render_object ms) k = Some v.
Proof.
  intros Hk Hall Hnd Hin. destruct (find_member ms k v [RBRACE] Hk Hall Hnd Hin) as (a & r & Hf).
  unfold extract_str_value, after_key, render_object.
  change (LBRACE :: render_members ms ++ [RBRACE])
    with ([LBRACE] ++ render_members ms ++ [RBRACE]).
  rewrite find_str_skip, Hf by set_solver. simpl.
  assert (QUOTE ∉ v) as Hv by (rewrite Forall_forall in Hall; by destruct (Hall _ Hin) as (_ & ? & _)).
  assert (split_once QUOTE (v ++ QUOTE :: r) = Some (v, r)) as -> by (by apply split_once_Some).
  done.
Qed.

(** ** What the sending edge announces (relay/client.rs)

    [to_json] is serde_json's serializer on an object of strings.  It writes
    the members without white space, in an order of its own, and leaves text
    without quotes, backslashes and control characters as it is. *)

Definition relay_source_message (to_json : list member -> str) (upstream_url room_token : str) : str :=
  to_json [("type", lit "relay_source"); ("upstreamUrl", upstream_url); ("roomToken", room_token)].

Definition plain_char (c : Z) : bool :=
  is_scalar c && (32 <=? c) && negb (c =? QUOTE) && negb (c =? 92).

Definition plain (s : str) : Prop := Forall (fun c => plain_char c = true) s.

Definition serializes (to_json : list member -> str) : Prop :=
  forall ms, Forall (fun m => plain (lit (m.1)) /\ plain (m.2)) ms ->
    exists ms', ms' ≡ₚ ms /\ to_json ms = render_object ms'.

Lemma plain_char_spec c : plain_char c = true -> is_scalar c = true /\ c <> QUOTE.
Proof. unfold plain_char. intros Hc. bool_props. done. Qed.

Lemma plain_no_quote s : plain s -> QUOTE ∉ s.
Proof. unfold plain. intros Hs Hin. rewrite Forall_forall in Hs. by apply Hs, plain_char_spec in Hin as []. Qed.

Lemma plain_scalar s : plain s -> Forall (fun c => is_scalar c = true) s.
Proof. intros Hs. eapply Forall_impl; [exact Hs|]. intros c Hc. by apply plain_char_spec. Qed.

Lemma plain_check s : forallb plain_char s = true -> plain s.
Proof. intros Hs. apply Forall_forall. intros c Hc. by eapply forallb_forall, list_elem_of_In. Qed.

#[local] Ltac literal := first [by apply plain_check | apply plain_no_quote; by apply plain_check].

Lemma render_object_scalar ms :
  Forall (fun m => plain (lit (m.1)) /\ plain (m.2)) ms ->
  Forall (fun c => is_scalar c = true) (render_object ms).
Proof.
  intros Hall. constructor; [done|]. apply Forall_app. split; [|by constructor].
  induction Hall as [|m ms [H1 H2] Hall IH]; [constructor|].
  assert (Forall (fun c => is_scalar c = true) (render_member m)).
  { unfold render_member. constructor; [done|]. apply Forall_app. split; [by apply plain_scalar|].
    do 3 (constructor; [done|]). apply Forall_app. split; [by apply plain_scalar|by constructor]. }
  destruct ms; [done|]. apply Forall_app. split; [done|]. by constructor.
Qed.

Definition announcement (upstream_url room_token : str) : list member :=
  [("type", lit "relay_source"); ("upstreamUrl", upstream_url); ("roomToken", room_token)].

(** A text the scanner cannot take for one of the three member names. *)
Definition not_a_name (s : str) : Prop :=
  s <> lit "type" /\ s <> lit "upstreamUrl" /\ s <> lit "roomToken".

Lemma announcement_extract to_json url token k v :
  serializes to_json -> plain url -> plain token -> not_a_name url -> not_a_name token ->
  (k, v) ∈ announcement url token ->
  from_utf8 (as_bytes (relay_source_message to_json url token))
    = Some (relay_source_message to_json url token) /\
  extract_str_value (relay_source_message to_json url token) k = Some v.
Proof.
  intros Hser Hurl Htok (Hu1 & Hu2 & Hu3) (Ht1 & Ht2 & Ht3) Hin.
  unfold announcement in Hin.
  assert (Forall (fun m => plain (lit (m.1)) /\ plain (m.2)) (announcement url token)) as Hp.
  { repeat (constructor; [split; first [done | literal]|]). constructor. }
  destruct (Hser _ Hp) as (ms & Hperm & Hms). unfold relay_source_message.
  fold (announcement url token). rewrite Hms.
  assert (Forall (fun m => plain (lit (m.1)) /\ plain (m.2)) ms) as Hp' by (by rewrite Hperm).
  split; [by apply from_utf8_as_bytes, render_object_scalar|].
  assert (NoDup (fst <$> ms)) as Hnd.
  { rewrite Hperm. apply (bool_decide_unpack (NoDup ["type"; "upstreamUrl"; "roomToken"])). done. }
  apply extract_member; [| |done|by rewrite Hperm].
  - repeat setoid_rewrite elem_of_cons in Hin. rewrite elem_of_nil in Hin.
    destruct Hin as [[= -> ->]|[[= -> ->]|[[= -> ->]|[]]]];
      (split; [literal|done]).
  - rewrite Hperm. repeat setoid_rewrite elem_of_cons in Hin. rewrite elem_of_nil in Hin.
    destruct Hin as [[= -> ->]|[[= -> ->]|[[= -> ->]|[]]]];
    repeat (constructor;
      [split; [literal|]; split; [first [by apply plain_no_quote | literal]|done]|]); constructor.
Qed.

(** ** Theorems *)

(** [room] is the text after the last slash of [url], or all of it. *)
Definition ends_in (url room : str) : Prop :=
  SLASH ∉ room /\ (url = room \/ exists before, url = before ++ SLASH :: room).

Lemma last_segment_ends url : ends_in url (last_segment url).
Proof.
  unfold last_segment. destruct (decide (SLASH ∈ url)) as [Hin|Hn].
  - apply list_elem_of_split_r in Hin as (a & b & -> & Hb).
    rewrite split_on_join, (split_on_clean _ b) by done. rewrite last_snoc. split; [done|]. right. by exists a.
  - rewrite split_on_clean by done. split; [done | by left].
Qed.

(** What a relay promotion was granted on: [claims] is the payload of the token,
    and a configured key vouches for it. *)
Definition promotion_warrant `{JwtLaws} (p : RoomTokenPolicy) (now : Z) (token room : str)
    (secret : option (list Z)) (pubkey : option str) (fallback : bool) (claims : RoomClaims) : Prop :=
  (exists pem key, pubkey = Some pem /\ from_ed_pem pem = Some key /\
     token_bound p now token room EdDSA key claims) \/
  (exists k, secret = Some k /\ (pubkey = None \/ fallback = true) /\
     token_bound p now token room HS256 (from_secret k) claims).

Lemma promotion_warrant_claims `{JwtLaws} p now token room secret pubkey fallback claims :
  promotion_warrant p now token room secret pubkey fallback claims ->
  room_payload token = Some claims /\ rc_room claims = room /\ now <= rc_exp claims.
Proof. by intros [(pem & key & _ & _ & [])|(k & _ & _ & [])]. Qed.

Lemma verify_promotion_sound `{JwtLaws} now cell token room secret pubkey fallback c :
  verify_promotion now cell token room secret pubkey fallback = Ok c ->
  promotion_warrant (effective_policy cell).1 now token room secret pubkey fallback c.
Proof.
  unfold verify_promotion, promotion_warrant. intros Hv.
  destruct pubkey as [pem|].
  - destruct (verify_room_token_ed25519 _ _ _ _ pem) as [c'|[]] eqn:He; try discriminate Hv.
    + injection Hv as ->. left. apply verify_room_token_ed25519_sound in He as (key & ? & ?). by eauto.
    + destruct secret as [k|]; [|discriminate Hv]. destruct fallback; [|discriminate Hv].
      right. apply verify_room_token_sound in Hv. by eauto.
  - destruct secret as [k|]; [|discriminate Hv].
    right. apply verify_room_token_sound in Hv. by eauto.
Qed.

Lemma handle_by_label_no_promotion vfm cid label data o url :
  handle_by_label vfm cid label data <> PMarkRelaySource o url.
Proof.
  unfold handle_by_label, handle_budget. intros Hh. repeat step_in Hh.
Qed.

Lemma promote_with_token_sound `{JwtLaws} now cell cid s u secret pubkey fallback o url :
  promote_with_token now cell cid s u secret pubkey fallback = PMarkRelaySource o url ->
  o = cid /\ url = u /\ exists token claims,
    extract_str_value s "roomToken" = Some token /\ last_segment u <> [] /\
    promotion_warrant (effective_policy cell).1 now token (last_segment u) secret pubkey fallback claims.
Proof.
  unfold promote_with_token. intros Hp.
  destruct (extract_str_value s "roomToken") as [token|]; [|done]. cbv zeta in Hp.
  destruct (is_empty (last_segment u)) eqn:Hl; [done|].
  destruct (verify_promotion _ _ _ _ _ _ _) as [c|] eqn:Hv; [|done]. injection Hp as <- <-.
  split; [done|]. split; [done|]. exists token, c. split; [done|]. split; [by destruct (last_segment u)|].
  by apply verify_promotion_sound.
Qed.

(** What a promotion rests on, with the configured credentials. *)
Lemma channel_promotion_sound `{JwtLaws} now cell vfm cid label data secret pubkey fallback o url :
  handle_channel_data now cell vfm cid label data secret pubkey fallback = PMarkRelaySource o url ->
  o = cid /\
  (secret = None /\ pubkey = None \/
   exists text token claims,
     from_utf8 data = Some text /\ extract_str_value text "roomToken" = Some token /\
     extract_str_value text "upstreamUrl" = Some url /\ last_segment url <> [] /\
     promotion_warrant (effective_policy cell).1 now token (last_segment url) secret pubkey fallback claims).
Proof.
  unfold handle_channel_data. intros Hh.
  destruct (from_utf8 data) as [s|]; [|by apply handle_by_label_no_promotion in Hh].
  case_bool_decide; [|by apply handle_by_label_no_promotion in Hh].
  unfold handle_relay_source in Hh.
  destruct (extract_str_value s "upstreamUrl") as [u|] eqn:Hu; [|done]. cbv zeta in Hh.
  destruct (_ || _) eqn:Hauth.
  - apply promote_with_token_sound in Hh as (-> & -> & token & claims & Ht & Hl & Hw).
    split; [done|]. right. by exists s, token, claims.
  - injection Hh as <- <-. split; [done|]. left. by destruct secret, pubkey.
Qed.

(** C14. A peer becomes a cascade relay only on a valid token: when the SFU has
    a credential configured, every promotion (on whatever channel the message
    came) carries a room token whose own payload names the room the promoted URL
    ends in and an expiry that was not past when it was checked; which satisfied
    the issuer and audience binding in force; and which was signed by the Ed25519
    key, or under the shared secret when no Ed25519 key is configured or the
    fallback switch is on. *)
Theorem promotion_requires_token `{JwtLaws} now cell vfm cid label data secret pubkey fallback o url :
  handle_channel_data now cell vfm cid label data secret pubkey fallback = PMarkRelaySource o url ->
  o = cid /\
  (secret = None /\ pubkey = None \/
   exists text token claims,
     from_utf8 data = Some text /\ extract_str_value text "roomToken" = Some token /\
     extract_str_value text "upstreamUrl" = Some url /\ room_payload token = Some claims /\
     rc_room claims <> [] /\ ends_in url (rc_room claims) /\ now <= rc_exp claims /\
     promotion_warrant (effective_policy cell).1 now token (rc_room claims) secret pubkey fallback claims).
Proof.
  intros [-> [Ho|(text & token & claims & Hs & Ht & Hu & Hl & Hw)]]%channel_promotion_sound;
    (split; [done|]); [by left|right]. exists text, token, claims.
  destruct (promotion_warrant_claims _ _ _ _ _ _ _ _ Hw) as (? & -> & ?).
  split_and!; try done; apply last_segment_ends.
Qed.

(** The tokens of the examples: an Ed25519-signed and an HS256-signed one, both
    for room [r1] and both live until second 1000. *)
Definition demo_claims : RoomClaims := mkRoomClaims 7 (lit "r1") 900 1000.
Definition demo_table : Minted.mint_table :=
  [(lit "tok-ed", Minted.mkGrant EdDSA (lit "PEM") (Some [lit "central"]) (Some [lit "oxpulse-sfu"])
                    (Some demo_claims) None);
   (lit "tok-hs", Minted.mkGrant HS256 (lit "secret") None None (Some demo_claims) None)].

Definition demo_message (token : string) : list Z :=
  as_bytes (render_object [("type", lit "relay_source"); ("upstreamUrl", lit "wss://a.oxpulse.chat/ws/r1");
                           ("roomToken", lit token)]).

Lemma promotion_requires_token_witness :
  exists claims, Minted.find_grant demo_table (lit "tok-ed") ≫= Minted.g_room = Some claims /\
    ends_in (lit "wss://a.oxpulse.chat/ws/r1") (rc_room claims) /\ 950 <= rc_exp claims /\
    promotion_warrant (H0 := Minted.jwt_laws demo_table) transitional 950 (lit "tok-ed") (rc_room claims)
      (Some (lit "secret")) (Some (lit "PEM")) false claims.
Proof.
  destruct (promotion_requires_token (H0 := Minted.jwt_laws demo_table) 950 None false 3 "chat-ctrl"
    (demo_message "tok-ed") (Some (lit "secret")) (Some (lit "PEM")) false 3
    (lit "wss://a.oxpulse.chat/ws/r1") ltac:(vm_compute; reflexivity))
    as [_ [[? _]|(s & t & c & Hs & Ht & _ & Hp & _ & Hr & He & Hw)]]; [discriminate|].
  vm_compute in Hs. injection Hs as <-. vm_compute in Ht. injection Ht as <-.
  exists c. split; [exact Hp|]. split; [exact Hr|]. split; [exact He|]. exact Hw.
Defined.

(** Whether a receiver promotes the sender of a well-formed announcement. *)
Definition promotion_granted `{Jwt} (now : Z) (cell : PolicyCell) (url token : str)
    (secret : option (list Z)) (pubkey : option str) (fallback : bool) : bool :=
  if bool_decide (is_Some pubkey) || bool_decide (is_Some secret)
  then negb (is_empty (last_segment url)) &&
       is_ok (verify_promotion now cell token (last_segment url) secret pubkey fallback)
  else true.

(** An announcement is understood by the SFU it reaches: whatever order the
    serializer writes the members in and whatever channel carries it, the
    receiver finds exactly the URL and the token that were announced. *)
Lemma announcement_understood `{Jwt} to_json now cell vfm cid label url token secret pubkey fallback :
  serializes to_json -> plain url -> plain token -> not_a_name url -> not_a_name token ->
  handle_channel_data now cell vfm cid label (as_bytes (relay_source_message to_json url token))
    secret pubkey fallback =
  if promotion_granted now cell url token secret pubkey fallback
  then PMarkRelaySource cid url else PNoop.
Proof.
  intros Hser Hu Ht Hnu Hnt.
  assert (forall k v, (k, v) ∈ announcement url token ->
    extract_str_value (relay_source_message to_json url token) k = Some v) as Hx.
  { intros k v Hin. by apply announcement_extract. }
  unfold handle_channel_data.
  rewrite (proj1 (announcement_extract to_json url token "type" (lit "relay_source")
             Hser Hu Ht Hnu Hnt ltac:(left))).
  rewrite (Hx "type" (lit "relay_source")) by left.
  rewrite bool_decide_true by done. unfold handle_relay_source.
  rewrite (Hx "upstreamUrl" url) by (right; left). cbv zeta.
  unfold promotion_granted. destruct (_ || _); [|done]. unfold promote_with_token.
  rewrite (Hx "roomToken" token) by (right; right; left). cbv zeta.
  destruct (is_empty _); [done|]. by destruct (verify_promotion _ _ _ _ _ _ _).
Qed.

(** The events a message of [cid] on channel [label] may give rise to, with
    what the receiving side relies on. *)
Definition inbound_typed (vfm : bool) (cid : ClientId) (label : string) (data : list Z)
    (ev : Propagated) : Prop :=
  match ev with
  | PNoop => True
  | PMarkRelaySource o _ => o = cid
  | PChatData o p =>
      o = cid /\ p = data /\ label = "chat-data" /\
      forall c ch, id c <> cid -> chat_data_cid c = true -> takes ch ->
        delivers (handle_chat_data_out ch o p c) "data" (id c) data
  | PChatCtrl o p =>
      o = cid /\ p = data /\ label = "chat-ctrl" /\
      forall c ch, id c <> cid -> chat_ctrl_cid c = true -> takes ch ->
        delivers (handle_chat_ctrl_out ch o p c) "ctrl" (id c) data
  | PVoiceData o p =>
      o = cid /\ p = data /\ label = "voice" /\
      forall c, id c <> cid -> voice_data_cid c = true ->
        delivers (handle_voice_data_out (ChOpen 0 true) o p c) "voice" (id c) data
  | PKeysData o p =>
      o = cid /\ p = data /\ label = "sframe-keys" /\
      forall c ch, id c <> cid -> keys_dc_cid c = true -> takes ch ->
        delivers (handle_keys_data_out ch o p c) "sframe-keys" (id c) data
  | PClientBudgetHint o bps => o = cid /\ label = "sfu-budget" /\ 0 <= bps <= u64_max
  | PVfmLayerCap o tid => o = cid /\ label = "sfu-budget" /\ vfm = true /\ 0 <= tid <= u8_max
  | _ => False
  end.

Lemma dec_value_nonneg ds : Forall (fun c => 48 <= c <= 57) ds -> 0 <= dec_value ds.
Proof.
  intros Hds. assert (forall acc, 0 <= acc ->
    0 <= fold_left (fun acc c => 10 * acc + (c - 48)) ds acc) as Hacc; [|by apply Hacc].
  induction Hds as [|c ds Hc _ IH]; intros acc Ha; simpl; [done|]. apply IH. lia.
Qed.

Lemma parse_u64_bound s n : parse_u64 s = Some n -> 0 <= n <= u64_max.
Proof.
  assert (forall t, parse_dec u64_max t = Some n -> 0 <= n <= u64_max) as Hd.
  { unfold parse_dec. intros t Ht. step_in Ht. injection Ht as <-. bool_props.
    apply digits_spec in H as [_ H]. split; [by apply dec_value_nonneg|done]. }
  destruct s as [|c t]; [done|]. simpl. destruct (c =? PLUS); apply Hd.
Qed.

Lemma extract_num_value_bound s k n : extract_num_value s k = Some n -> 0 <= n <= u64_max.
Proof.
  unfold extract_num_value. destruct (after_key s k); [|done]. cbv zeta.
  destruct (is_empty _); [done|]. apply parse_u64_bound.
Qed.

Lemma handle_budget_typed vfm cid data text :
  inbound_typed vfm cid "sfu-budget" data (handle_budget vfm cid text).
Proof.
  unfold handle_budget, parse_budget_bps. destruct vfm; cbn [andb].
  1: case_bool_decide; [destruct (extract_num_value text "vfm"); [|done];
       split_and!; try done; apply wrap_u8_range|].
  all: destruct (negb _ || negb _); [done|]; case_bool_decide; [|done];
    destruct (extract_num_value text "bps") as [n|] eqn:Hn; [|done];
    apply extract_num_value_bound in Hn; done.
Qed.

Lemma handle_by_label_typed vfm cid label data :
  inbound_typed vfm cid label data (handle_by_label vfm cid label data).
Proof.
  unfold handle_by_label.
  case_decide as Hl; [subst label; destruct (Z.ltb_spec IN_CHAT_FRAME_MAX_BYTES (len data)) as [|Hle]; [done|]|].
  { split_and!; try done. intros c ch Hc Ho Ht. unfold handle_chat_data_out.
    rewrite decide_False by done. by apply chat_delivers. }
  case_decide as Hl2; [subst label; destruct (Z.ltb_spec IN_CHAT_FRAME_MAX_BYTES (len data)) as [|Hle]; [done|]|].
  { split_and!; try done. intros c ch Hc Ho Ht. unfold handle_chat_ctrl_out.
    rewrite decide_False by done. by apply chat_delivers. }
  case_decide as Hl3; [subst label; destruct (Z.ltb_spec IN_VOICE_FRAME_MAX_BYTES (len data)) as [|Hle]; [done|]|].
  { split_and!; try done. intros c Hc Ho. apply voice_delivers. split_and!; try done. by exists 0. }
  case_decide as Hl4; [subst label; destruct (Z.ltb_spec IN_SFRAME_KEYS_FRAME_MAX_BYTES (len data)) as [|Hle]; [done|]|].
  { split_and!; try done. intros c ch Hc Ho Ht. by apply keys_delivers. }
  case_decide; [done|]. case_decide as Hb; [done|]. rewrite Hb.
  destruct (from_utf8 data); [|done]. apply handle_budget_typed.
Qed.

Lemma handle_relay_source_shape `{Jwt} now cell cid s secret pubkey fallback :
  handle_relay_source now cell cid s secret pubkey fallback = PNoop \/
  exists u, handle_relay_source now cell cid s secret pubkey fallback = PMarkRelaySource cid u.
Proof.
  unfold handle_relay_source, promote_with_token.
  destruct (extract_str_value s "upstreamUrl"); [|by left]. cbv zeta. destruct (_ || _); [|by eauto].
  destruct (extract_str_value s "roomToken"); [|by left]. destruct (is_empty _); [by left|].
  destruct (verify_promotion _ _ _ _ _ _ _); by eauto.
Qed.

(** Inbound messages are typed: whatever bytes arrive on whatever channel,
    the handler produces nothing but an event of that channel attributed to the
    sender.  An opaque frame is passed on byte for byte, and one that passed the
    inbound limit also passes the outbound one, so every other peer with the
    channel open and taking writes receives it; a budget is a [u64] and a layer
    cap a [u8]. *)
Theorem inbound_events_typed `{Jwt} now cell vfm cid label data secret pubkey fallback :
  inbound_typed vfm cid label data
    (handle_channel_data now cell vfm cid label data secret pubkey fallback).
Proof.
  assert (inbound_typed vfm cid label data (handle_by_label vfm cid label data)) as Hlabel
    by apply handle_by_label_typed.
  unfold handle_channel_data. destruct (from_utf8 data) as [s|]; [|exact Hlabel].
  case_bool_decide; [|exact Hlabel].
  destruct (handle_relay_source_shape now cell cid s secret pubkey fallback) as [->|[u ->]]; done.
Qed.

(** ** Budget messages *)

(** A budget report as a client writes it, with the white space [sp] it may
    put around the colons and after the comma. *)
Definition budget_text (sp : str) (bps : Z) : str :=
  [LBRACE] ++ QUOTE :: lit "type" ++ QUOTE :: (sp ++ COLON :: sp) ++
  QUOTE :: lit "budget" ++ QUOTE :: (COMMA :: sp) ++
  QUOTE :: lit "bps" ++ QUOTE :: (sp ++ COLON :: sp) ++ to_string bps ++ [RBRACE].

Lemma drop_while_all p s r :
  Forall (fun c => p c = true) s -> drop_while p (s ++ r) = drop_while p r.
Proof. induction 1 as [|c s Hc _ IH]; simpl; [done|]. by rewrite Hc. Qed.

Lemma take_while_all p s c r :
  Forall (fun x => p x = true) s -> p c = false -> take_while p (s ++ c :: r) = s.
Proof. induction 1 as [|x s Hx _ IH]; intros Hc; simpl; [by rewrite Hc|]. rewrite Hx. by rewrite IH. Qed.

(** The value part after a key: white space, the colon, white space. *)
Lemma after_colon sp v :
  Forall (fun c => is_whitespace c = true) sp ->
  (fun p => trim_start p.2) <$> split_once COLON ((sp ++ COLON :: sp) ++ v) = Some (trim_start v).
Proof.
  intros Hsp.
  assert (COLON ∉ sp) as Hc.
  { intros Hin. rewrite Forall_forall in Hsp. by apply Hsp in Hin. }
  rewrite <- (assoc_L (++)). simpl.
  assert (split_once COLON (sp ++ COLON :: sp ++ v) = Some (sp, sp ++ v)) as ->
    by (by apply split_once_Some).
  simpl. f_equal. by apply drop_while_all.
Qed.

Lemma space_no_quote sp : Forall (fun c => is_whitespace c = true) sp -> QUOTE ∉ sp.
Proof. intros Hsp Hin. rewrite Forall_forall in Hsp. by apply Hsp in Hin. Qed.

Lemma space_scalar c : is_whitespace c = true -> is_scalar c = true.
Proof.
  unfold is_whitespace, is_scalar, in_range. intros Hc.
  assert (0 <= c <= 55295); [|apply orb_true_iff; left; apply andb_true_iff; split; apply Z.leb_le; lia].
  apply orb_true_iff in Hc as [Hc|Hc]; [apply orb_true_iff in Hc as [Hc|Hc]; bool_props; lia|].
  apply existsb_exists in Hc as (x & Hx & ->%Z.eqb_eq). simpl in Hx. intuition lia.
Qed.

Lemma to_string_digits n : 0 <= n -> Forall (fun c => 48 <= c <= 57) (to_string n) /\ to_string n <> [].
Proof. intros Hn. destruct (to_string_nonneg n Hn) as [Hd _]. apply digits_spec in Hd as [??]. done. Qed.

Lemma ascii_digits ds :
  Forall (fun c => 48 <= c <= 57) ds -> Forall (fun c => is_ascii_digit c = true) ds.
Proof.
  intros Hds. eapply Forall_impl; [exact Hds|]. intros c Hc. unfold is_ascii_digit.
  apply andb_true_iff. split; apply Z.leb_le; simpl in Hc; lia.
Qed.

Lemma budget_scalar sp bps :
  Forall (fun c => is_whitespace c = true) sp -> 0 <= bps ->
  Forall (fun c => is_scalar c = true) (budget_text sp bps).
Proof.
  intros Hsp Hn. destruct (to_string_digits bps Hn) as [Hds _].
  assert (Forall (fun c => is_scalar c = true) sp) as Hs.
  { eapply Forall_impl; [exact Hsp|]. apply space_scalar. }
  assert (Forall (fun c => is_scalar c = true) (to_string bps)) as Hd.
  { eapply Forall_impl; [exact Hds|]. intros c Hc. unfold is_scalar, in_range. apply orb_true_iff. left.
    apply andb_true_iff. split; apply Z.leb_le; simpl in Hc; lia. }
  assert (forall t, forallb plain_char t = true -> Forall (fun c => is_scalar c = true) t) as Hl.
  { intros t Ht. by apply plain_scalar, plain_check. }
  unfold budget_text. repeat first [apply Forall_app; split | apply Forall_cons; split];
    first [done | by apply Hl | by constructor].
Qed.

Lemma budget_type sp bps :
  Forall (fun c => is_whitespace c = true) sp ->
  find_str (needle "type") (budget_text sp bps) =
    Some ([LBRACE], (sp ++ COLON :: sp) ++ QUOTE :: lit "budget" ++ QUOTE :: (COMMA :: sp) ++
      QUOTE :: lit "bps" ++ QUOTE :: (sp ++ COLON :: sp) ++ to_string bps ++ [RBRACE]).
Proof.
  intros Hsp. unfold budget_text.
  rewrite (find_str_skip _ [LBRACE]) by set_solver. by rewrite find_str_hit.
Qed.

Lemma budget_bps sp bps :
  Forall (fun c => is_whitespace c = true) sp ->
  exists a, find_str (needle "bps") (budget_text sp bps) =
    Some (a, (sp ++ COLON :: sp) ++ to_string bps ++ [RBRACE]).
Proof.
  intros Hsp%space_no_quote. unfold budget_text.
  assert (QUOTE ∉ lit "bps") by literal.
  rewrite (find_str_skip _ [LBRACE]) by set_solver.
  rewrite find_str_other; [|literal|done|done].
  rewrite find_str_other; [|set_solver|done|]; cycle 1.
  { intros He. assert (COLON ∈ lit "bps") as Hin by (rewrite <- He; set_solver). revert Hin. clear.
    intros Hin. vm_compute in Hin. repeat (apply elem_of_cons in Hin as [Hin|Hin]; [done|]).
    by apply elem_of_nil in Hin. }
  rewrite find_str_other; [|literal|done|done].
  rewrite find_str_other; [|set_solver|done|done].
  rewrite find_str_hit. simpl. eauto.
Qed.

Lemma budget_extract sp bps :
  Forall (fun c => is_whitespace c = true) sp -> 0 <= bps ->
  extract_str_value (budget_text sp bps) "type" = Some (lit "budget") /\
  extract_num_value (budget_text sp bps) "bps" = parse_dec u64_max (to_string bps).
Proof.
  intros Hsp Hn. destruct (to_string_digits bps Hn) as [Hds Hne].
  destruct (budget_bps sp bps Hsp) as [a Hb]. split.
  - unfold extract_str_value, after_key. rewrite budget_type by done.
    pose proof (after_colon sp (QUOTE :: lit "budget" ++ QUOTE :: (COMMA :: sp) ++
      QUOTE :: lit "bps" ++ QUOTE :: (sp ++ COLON :: sp) ++ to_string bps ++ [RBRACE]) Hsp) as Hc.
    destruct (split_once COLON _) as [[x y]|]; [|done]. simpl in Hc. injection Hc as Hc.
    rewrite Hc. done.
  - unfold extract_num_value, after_key. rewrite Hb.
    pose proof (after_colon sp (to_string bps ++ [RBRACE]) Hsp) as Hc.
    destruct (split_once COLON _) as [[x y]|]; [|done]. simpl in Hc. injection Hc as Hc.
    rewrite Hc. unfold trim_start.
    rewrite drop_while_none.
    2: { destruct (to_string bps) as [|d ds]; [done|]. inversion_clear Hds as [|? ? Hd _].
         by apply digit_not_space. }
    cbv zeta. rewrite take_while_all by (by try apply ascii_digits).
    destruct (to_string bps) as [|d ds] eqn:Ht; [done|]. simpl.
    inversion_clear Hds as [|? ? Hd _].
    destruct (Z.eqb_spec d PLUS) as [->|]; [unfold PLUS in Hd; lia|done].
Qed.

(** A budget report is read back as it was written: for every bandwidth
    that is a [u64], with any white space around it, the budget channel turns
    the report into exactly that hint for the sender; a larger number is
    dropped, never truncated. *)
Theorem budget_report_roundtrip `{Jwt} now cell vfm cid sp bps secret pubkey fallback :
  Forall (fun c => is_whitespace c = true) sp -> 0 <= bps ->
  handle_channel_data now cell vfm cid "sfu-budget" (as_bytes (budget_text sp bps)) secret pubkey fallback
  = if bps <=? u64_max then PClientBudgetHint cid bps else PNoop.
Proof.
  intros Hsp Hn. unfold handle_channel_data, handle_by_label.
  rewrite from_utf8_as_bytes by (by apply budget_scalar).
  destruct (budget_extract sp bps Hsp Hn) as [Ht Hb].
  rewrite Ht, bool_decide_false by done. rewrite !decide_False by naive_solver.
  unfold handle_budget. rewrite Ht, (bool_decide_false (Some _ = _)), andb_false_r by done.
  unfold parse_budget_bps, contains. rewrite Ht, Hb, budget_type by done.
  destruct (budget_bps sp bps Hsp) as [a ->]. rewrite bool_decide_true by done. simpl.
  unfold parse_dec. destruct (to_string_nonneg bps Hn) as [-> ->]. simpl.
  by destruct (bps <=? u64_max).
Qed.

Lemma budget_report_roundtrip_witness :
  handle_channel_data (H := Minted.jwt []) 0 None false 3 "sfu-budget"
    (as_bytes (budget_text [32; 9] 18446744073709551615)) None None true
    = PClientBudgetHint 3 18446744073709551615 /\
  handle_channel_data (H := Minted.jwt []) 0 None false 3 "sfu-budget"
    (as_bytes (budget_text [] 18446744073709551616)) None None true = PNoop.
Proof.
  split.
  - rewrite (budget_report_roundtrip (H := Minted.jwt []) 0 None false 3 [32; 9]
      18446744073709551615 None None true); [reflexivity | by repeat constructor | lia].
  - rewrite (budget_report_roundtrip (H := Minted.jwt []) 0 None false 3 []
      18446744073709551616 None None true); [reflexivity | constructor | lia].
Defined.

(** A layer cap that does not fit a byte is not refused: it wraps, and a
    report of 256 caps the subscriber at the base layer. *)
Lemma layer_cap_wraps :
  handle_channel_data (H := Minted.jwt []) 0 None true 3 "sfu-budget"
    (as_bytes (lit "{" ++ needle "type" ++ lit ":" ++ needle "max_temporal_layer" ++ lit "," ++
               needle "vfm" ++ lit ":256}")) None None true = PVfmLayerCap 3 0.
Proof. vm_compute. reflexivity. Qed.
