(* ===== verification/RelayApi.v ===== *)
(** * The cascade-relay API (crates/sfu/src/relay/*.rs, relay_connect_failover of main.rs)

    A relay grant is a signed token that tells this edge to join a room on
    another SFU.  The file models the start-up decision whether the API runs
    and under which credentials, the verification of a grant, the upstream
    allow-list, the choice of candidates, the request handler with its replay
    cache, and the failover loop that dials the candidates.

    Parameters: the token library ([Jwt]), the URL parser of the crate [http],
    and what the dialled hub answers.  Every clock reading of a request is an
    argument ([RelayClock]); the wall clock need not be monotone. *)

From Stdlib Require Import ZArith Lia.
From stdpp Require Import base option numbers gmap strings list.
From S2P Require Import Prelude RustStr DdParse DdCache SfuTypes SfuRelayOut RoomAuth SfuChannelData.

(** ** Activation (relay/activation.rs) *)

Definition RELAY_AUTH_BOTH : string := "both".
Definition RELAY_AUTH_EDDSA : string := "eddsa".
Definition RELAY_AUTH_HS256 : string := "hs256".

Record RelayActivation := mkActivation {
  ac_enabled : bool;
  ac_secret : list Z;
  ac_hs256_fallback_effective : bool;
  ac_auth_mode : option string;
}.

Inductive ActivationError := PlaceholderSecret | ShortSecret (bytes : Z).

Definition PLACEHOLDER_SECRET : str := lit "change-me-in-production".

Definition compute_relay_activation (relay_jwt_secret signing_public_key : option str)
    (hs256_fallback_config : bool) : result RelayActivation ActivationError :=
  let? has_hs256_secret :=
    match relay_jwt_secret with
    | None => Ok false
    | Some s =>
        if decide (s = PLACEHOLDER_SECRET) then Err PlaceholderSecret
        else if len (as_bytes s) <? 32 then Err (ShortSecret (len (as_bytes s)))
        else Ok true
    end in
  let has_eddsa_key := bool_decide (is_Some signing_public_key) in
  Ok {| ac_enabled := has_hs256_secret || has_eddsa_key;
        ac_secret := match relay_jwt_secret with
                     | Some s => if has_hs256_secret then as_bytes s else []
                     | None => []
                     end;
        ac_hs256_fallback_effective := has_hs256_secret && hs256_fallback_config;
        ac_auth_mode := match has_eddsa_key, has_hs256_secret with
                        | true, true => Some RELAY_AUTH_BOTH
                        | true, false => Some RELAY_AUTH_EDDSA
                        | false, true => Some RELAY_AUTH_HS256
                        | false, false => None
                        end |}.

(** ** The upstream allow-list (relay/allowlist.rs) *)

(** The part of [http::Uri] the guard reads. *)
Record Uri := mkUri {
  uri_scheme : option str;
  uri_host : option str;
}.

Definition DOT : Z := 46.

(** [Ipv4Addr::from_str]: four decimal octets of at most three digits, without
    leading zeros. *)
Definition parse_octet (s : str) : option Z :=
  if digits s && (len s <=? 3) && ((len s =? 1) || negb (bool_decide (head s = Some 48))) &&
     (dec_value s <=? 255)
  then Some (dec_value s) else None.

Definition ipv4_bits (a b c d : Z) : Z :=
  Z.lor (Z.shiftl a 24) (Z.lor (Z.shiftl b 16) (Z.lor (Z.shiftl c 8) d)).

Definition parse_ipv4 (s : str) : option Z :=
  match split_on DOT s with
  | [sa; sb; sc; sd] =>
      match parse_octet sa, parse_octet sb, parse_octet sc, parse_octet sd with
      | Some a, Some b, Some c, Some d => Some (ipv4_bits a b c d)
      | _, _, _, _ => None
      end
  | _ => None
  end.

Definition MESH_V4 : Z * Z := (ipv4_bits 10 9 0 0, 24).

Definition in_mesh (host : str) : bool :=
  match parse_ipv4 host with
  | Some ip =>
      let bits := MESH_V4.2 in
      let mask := if bits =? 0 then 0 else wrap_u32 (Z.shiftl u32_max (32 - bits)) in
      Z.land ip mask =? Z.land (MESH_V4.1) mask
  | None => false
  end.

Definition PUBLIC_WSS_ALLOWED : list str := [lit ".oxpulse.chat"; lit "localhost"; lit "127.0.0.1"].

Definition ends_with (s suffix : str) : bool :=
  bool_decide (is_Some (strip_prefix (rev suffix) (rev s))).

Definition wss_match (host p : str) : bool :=
  match strip_prefix [DOT] p with
  | Some sfx =>
      bool_decide (host = sfx) || ((len (as_bytes p) <? len (as_bytes host)) && ends_with host p)
  | None => bool_decide (host = p)
  end.

Section allowlist.
Variable parse_uri : str -> option Uri.

Definition is_allowed_upstream (url : str) : bool :=
  match parse_uri url with
  | None => false
  | Some uri =>
      match uri_scheme uri with
      | None => false
      | Some scheme =>
          match uri_host uri with
          | None => false
          | Some host =>
              if is_empty host then false
              else if decide (scheme = lit "wss") then existsb (wss_match host) PUBLIC_WSS_ALLOWED
              else if decide (scheme = lit "ws") then in_mesh host
              else false
          end
      end
  end.

(** ** Candidates (relay/handler.rs) *)

Definition MAX_RELAY_CANDIDATES : nat := 8.

(** [filter(|u| seen.insert(u))] *)
Fixpoint first_occurrences (seen : gset str) (l : list str) : list str :=
  match l with
  | [] => []
  | u :: l' => if decide (u ∈ seen) then first_occurrences seen l'
               else u :: first_occurrences ({[u]} ∪ seen) l'
  end.

Definition raw_candidates (jwt : RelayJwt) : list str :=
  match rj_upstream_candidates jwt with
  | [] => [rj_upstream_url jwt]
  | l => l
  end.

Definition select_candidates (jwt : RelayJwt) : list str :=
  take MAX_RELAY_CANDIDATES
    (first_occurrences ∅ (filter (fun u => is_allowed_upstream u = true) (raw_candidates jwt))).

(** ** Dialling (relay/client.rs, main.rs) *)

Record PendingRelay := mkPendingRelay {
  pr_room_id : str;
  pr_upstream_url : str;
  pr_upstream_room_token : str;
}.

(** How an attempt at a hub ends: the SDP exchange completed, it failed, or
    the timeout of the attempt fired first. *)
Inductive Attempt := Exchanged | Refused | Elapsed.

Section dial.
Variable hub : str -> Attempt.

(** [tokio::time::timeout(RELAY_CANDIDATE_CONNECT_TIMEOUT, connect_relay(..))]:
    the host is checked before anything is dialled. *)
Definition connect_relay (upstream_ws_url upstream_room_token room_id : str)
    : result PendingRelay Attempt :=
  if negb (is_allowed_upstream upstream_ws_url) then Err Refused
  else match hub upstream_ws_url with
       | Exchanged => Ok (mkPendingRelay room_id upstream_ws_url upstream_room_token)
       | a => Err a
       end.

Fixpoint relay_connect_failover (candidates : list str) (token room : str)
    : option PendingRelay * list Effect :=
  match candidates with
  | [] => (None, [Inc "relay_candidate_exhausted_total" []])
  | candidate :: rest =>
      match connect_relay candidate token room with
      | Ok pending => (Some pending, [Inc "relay_connect_success_total" []])
      | Err _ => relay_connect_failover rest token room
      end
  end.
End dial.
End allowlist.

(** ** Verification of a grant (relay/mod.rs) *)

Inductive RelayJwtError := RjMalformed | RjInvalidSignature | RjExpired | RjAlgorithmMismatch.

(** The clock readings of one request, in Unix seconds. *)
Record RelayClock := mkClock {
  at_eddsa : Z;
  at_hs256 : Z;
  at_iat : Z;
  at_replay : Z;
}.

Definition relay_validation (alg : Algorithm) : Validation :=
  mkValidation alg true 0 ∅ None None.

Definition hs256_error (k : ErrorKind) : RelayJwtError :=
  match k with
  | KExpiredSignature => RjExpired
  | KInvalidSignature | KInvalidAlgorithmName | KInvalidKeyFormat => RjInvalidSignature
  | KInvalidAlgorithm | KOther => RjMalformed
  end.

Definition eddsa_error (k : ErrorKind) : RelayJwtError :=
  match k with
  | KExpiredSignature => RjExpired
  | KInvalidSignature => RjInvalidSignature
  | KInvalidAlgorithm => RjAlgorithmMismatch
  | KInvalidAlgorithmName | KInvalidKeyFormat | KOther => RjMalformed
  end.

Section verify.
Context `{Jwt}.

(** A grant issued more than 30 s in the future is malformed. *)
Definition check_iat (now : Z) (claims : RelayJwt) : result RelayJwt RelayJwtError :=
  if wrap_u64 (now + 30) <? rj_iat claims then Err RjMalformed else Ok claims.

Definition relay_verify (k : RelayClock) (token : str) (secret : list Z) : result RelayJwt RelayJwtError :=
  match decode_relay (at_hs256 k) token (from_secret secret) (relay_validation HS256) with
  | Err e => Err (hs256_error e)
  | Ok claims => check_iat (at_iat k) claims
  end.

Definition relay_verify_ed25519 (k : RelayClock) (token pem : str) : result RelayJwt RelayJwtError :=
  match from_ed_pem pem with
  | None => Err RjMalformed
  | Some key =>
      match decode_relay (at_eddsa k) token key (relay_validation EdDSA) with
      | Err e => Err (eddsa_error e)
      | Ok claims => check_iat (at_iat k) claims
      end
  end.

Definition RELAY_JWT_ALG_EDDSA : string := "eddsa".
Definition RELAY_JWT_ALG_HS256 : string := "hs256".

Definition tag_hs256 (r : result RelayJwt RelayJwtError) : result (RelayJwt * string) RelayJwtError :=
  match r with Ok j => Ok (j, RELAY_JWT_ALG_HS256) | Err e => Err e end.

Definition verify_relay_jwt (k : RelayClock) (token : str) (secret : list Z)
    (signing_public_key : option str) (hs256_fallback_enabled : bool)
    : result (RelayJwt * string) RelayJwtError :=
  match signing_public_key with
  | Some pubkey =>
      match relay_verify_ed25519 k token pubkey with
      | Ok j => Ok (j, RELAY_JWT_ALG_EDDSA)
      | Err (RjInvalidSignature | RjAlgorithmMismatch) =>
          if hs256_fallback_enabled then tag_hs256 (relay_verify k token secret)
          else Err RjInvalidSignature
      | Err e => Err e
      end
  | None => tag_hs256 (relay_verify k token secret)
  end.

(** ** The request handler (relay/handler.rs, task.rs, types.rs) *)

Record RelayTask := mkTask {
  rt_room_id : str;
  rt_upstream_url : str;
  rt_upstream_room_token : str;
  rt_upstream_candidates : list str;
}.

Record RelayApiState := mkApi {
  ra_secret : list Z;
  ra_signing_public_key : option str;
  ra_hs256_fallback_enabled : bool;
}.

(** What requests share: the replay cache, and the task queue's contents. *)
Record RelayShared := mkShared {
  seen_jtis : gmap str Z;
  task_queue : list RelayTask;
}.

Inductive Status := OK_200 | BAD_REQUEST_400 | UNAUTHORIZED_401 | CONFLICT_409.
#[export] Instance Status_eq_dec : EqDecision Status.
Proof. solve_decision. Defined.

Record RelayConnectResponse := mkResponse {
  rs_code : Status;
  rs_relay_id : option str;
}.

Definition error_response : RelayConnectResponse := mkResponse BAD_REQUEST_400 None.

Definition retain_live (now : Z) (seen : gmap str Z) : gmap str Z :=
  filter (fun e => now < e.2) seen.

(** The critical section on the replay cache: evict what expired, then refuse
    an identifier that is still there, and record one that is not. *)
Definition check_replay (now : Z) (jwt : RelayJwt) (seen : gmap str Z) : bool * gmap str Z :=
  let live := retain_live now seen in
  match live !! rj_jti jwt with
  | Some _ => (false, live)
  | None => (true, <[rj_jti jwt := rj_exp jwt]> live)
  end.

Definition relay_id_of (jwt : RelayJwt) : str := lit "relay-" ++ take 8 (rj_room_id jwt).

Definition task_of (jwt : RelayJwt) (allowed : list str) : RelayTask :=
  mkTask (rj_room_id jwt) (default [] (head allowed)) (rj_upstream_room_token jwt) allowed.

Definition relay_connect (parse_uri : str -> option Uri) (api : RelayApiState) (k : RelayClock)
    (queue_open : bool) (relay_token : str) (sh : RelayShared)
    : RelayConnectResponse * RelayShared * list Effect :=
  match verify_relay_jwt k relay_token (ra_secret api) (ra_signing_public_key api)
          (ra_hs256_fallback_enabled api) with
  | Err RjExpired => (error_response, sh, [])
  | Err RjInvalidSignature => (mkResponse UNAUTHORIZED_401 None, sh, [])
  | Err (RjMalformed | RjAlgorithmMismatch) => (error_response, sh, [])
  | Ok (jwt, algorithm) =>
      let fx := [Inc "relay_jwt_verify_total" [algorithm]] in
      let allowed := select_candidates parse_uri jwt in
      match allowed with
      | [] => (error_response, sh, fx)
      | _ =>
          let '(fresh, seen) := check_replay (at_replay k) jwt (seen_jtis sh) in
          if negb fresh then (mkResponse CONFLICT_409 None, mkShared seen (task_queue sh), fx)
          else if queue_open
               then (mkResponse OK_200 (Some (relay_id_of jwt)),
                     mkShared seen (task_queue sh ++ [task_of jwt allowed]), fx)
               else (error_response, mkShared seen (task_queue sh), fx)
      end
  end.

(** The state [main] hands to the API when it is enabled. *)
Definition relay_api_state (act : RelayActivation) (signing_public_key : option str) : RelayApiState :=
  mkApi (ac_secret act) signing_public_key (ac_hs256_fallback_effective act).

(** A sequence of requests, in the order in which they pass the cache. *)
Record RelayRequest := mkRequest {
  rq_token : str;
  rq_clock : RelayClock;
  rq_queue_open : bool;
}.

Fixpoint relay_run (parse_uri : str -> option Uri) (api : RelayApiState) (rqs : list RelayRequest)
    (sh : RelayShared) : list RelayConnectResponse * RelayShared :=
  match rqs with
  | [] => ([], sh)
  | rq :: rest =>
      let '(resp, sh1, _) := relay_connect parse_uri api (rq_clock rq) (rq_queue_open rq) (rq_token rq) sh in
      let '(resps, sh2) := relay_run parse_uri api rest sh1 in
      (resp :: resps, sh2)
  end.
End verify.
