(* ===== verification/RelayApiFacts.v ===== *)
(** * Facts about the cascade-relay API

    The allow-list decides exactly the intended hosts; a queued task was
    authorised by a credential the operator configured and names only allowed
    hubs; a grant is used once while it is live; the failover loop takes the
    first hub that answers. *)

From Stdlib Require Import ZArith Lia.
From stdpp Require Import base option numbers gmap strings list.
From S2P Require Import Prelude RustStr DdParse DdCache SfuTypes SfuRelayOut RoomAuth SfuChannelData RelayApi.

(** ** Splitting *)

(** The pieces, put together again with the separator. *)
Fixpoint join_on (c : Z) (l : list str) : str :=
  match l with
  | [] => []
  | [p] => p
  | p :: l' => p ++ c :: join_on c l'
  end.

Lemma join_on_cons c p l : l <> [] -> join_on c (p :: l) = p ++ c :: join_on c l.
Proof. by destruct l. Qed.

Lemma join_split_on c s : join_on c (split_on c s) = s.
Proof.
  induction s as [|x s IH]; simpl; [done|]. pose proof (split_on_nonempty c s) as Hne.
  destruct (Z.eqb_spec x c) as [->|].
  - rewrite join_on_cons by done. simpl. by rewrite IH.
  - destruct (split_on c s) as [|p [|q l]]; [done|..]; simpl in *; by rewrite IH.
Qed.

(** ** The mesh subnet *)

(** The decimal text of an octet. *)
Definition octet_text (v : Z) : str :=
  if v <? 10 then [48 + v]
  else if v <? 100 then [48 + v / 10; 48 + v mod 10]
  else [48 + v / 100; 48 + v / 10 mod 10; 48 + v mod 10].

Lemma octet_text_to_string v : 0 <= v <= 255 -> octet_text v = to_string v.
Proof.
  intros Hv.
  assert (forallb (fun v => bool_decide (octet_text v = to_string v)) (seqZ 0 256) = true) as Hall
    by (vm_compute; reflexivity).
  rewrite forallb_forall in Hall. specialize (Hall v). apply bool_decide_eq_true in Hall; [done|].
  apply list_elem_of_In, elem_of_seqZ. lia.
Qed.

Lemma parse_octet_text s v : parse_octet s = Some v -> 0 <= v <= 255 /\ s = to_string v.
Proof.
  unfold parse_octet. intros Ho. step_in Ho. injection Ho as <-. bool_props.
  apply digits_spec in H as [Hne Hds].
  assert (0 <= dec_value s <= 255) as Hr by (split; [by apply dec_value_nonneg | done]).
  split; [done|]. rewrite <- octet_text_to_string by done.
  assert (len s = 1 \/ head s <> Some 48) as Hlead.
  { apply orb_true_iff in H1 as [H1|H1]; bool_props; [by left|].
    right. by apply bool_decide_eq_false in H1. }
  clear H1. unfold len, dec_value, octet_text in *.
  destruct s as [|a [|b [|c [|d s]]]]; simpl in *; [done|..|lia].
  - inversion_clear Hds as [|? ? Ha _].
    replace (10 * 0 + (a - 48)) with (a - 48) by lia.
    destruct (Z.ltb_spec (a - 48) 10); [|lia]. f_equal. lia.
  - inversion_clear Hds as [|? ? Ha Hds']. inversion_clear Hds' as [|? ? Hb _].
    destruct Hlead as [|Hlead]; [lia|]. assert (a <> 48) by congruence.
    destruct (Z.ltb_spec (10 * (10 * 0 + (a - 48)) + (b - 48)) 10); [lia|].
    destruct (Z.ltb_spec (10 * (10 * 0 + (a - 48)) + (b - 48)) 100); [|lia].
    f_equal; [|f_equal]; Z.to_euclidean_division_equations; lia.
  - inversion_clear Hds as [|? ? Ha Hds']. inversion_clear Hds' as [|? ? Hb Hds].
    inversion_clear Hds as [|? ? Hc _].
    destruct Hlead as [|Hlead]; [lia|]. assert (a <> 48) by congruence.
    destruct (Z.ltb_spec (10 * (10 * (10 * 0 + (a - 48)) + (b - 48)) + (c - 48)) 10); [lia|].
    destruct (Z.ltb_spec (10 * (10 * (10 * 0 + (a - 48)) + (b - 48)) + (c - 48)) 100); [lia|].
    f_equal; [|f_equal; [|f_equal]]; Z.to_euclidean_division_equations; lia.
Qed.

(** A value below [2^n] and a multiple of [2^n] share no bit. *)
Lemma ipv4_bits_value a b c d :
  0 <= b <= 255 -> 0 <= c <= 255 -> 0 <= d <= 255 ->
  ipv4_bits a b c d = a * 16777216 + b * 65536 + c * 256 + d.
Proof.
  intros. unfold ipv4_bits.
  rewrite (lor_shiftl_add c d 8) by lia. rewrite (lor_shiftl_add b _ 16) by lia.
  rewrite (lor_shiftl_add a _ 24) by lia. lia.
Qed.

(** The network part of an address under a 24-bit mask. *)
Lemma land_mask24 n :
  0 <= n < 4294967296 -> Z.land n (wrap_u32 (Z.shiftl u32_max 8)) = n / 256 * 256.
Proof.
  intros Hn. replace (wrap_u32 (Z.shiftl u32_max 8)) with (Z.shiftl (Z.ones 24) 8) by reflexivity.
  assert (Z.land n (Z.shiftl (Z.ones 24) 8) = Z.shiftl (Z.land (Z.shiftr n 8) (Z.ones 24)) 8) as ->.
  { apply Z.bits_inj'. intros i Hi. rewrite Z.land_spec. destruct (Z.lt_ge_cases i 8).
    - rewrite !Z.shiftl_spec_low by done. apply andb_false_r.
    - rewrite !Z.shiftl_spec by done. rewrite Z.land_spec, Z.shiftr_spec by lia.
      by replace (i - 8 + 8) with i by lia. }
  rewrite Z.land_ones, Z.shiftr_div_pow2, Z.shiftl_mul_pow2 by lia.
  rewrite Z.mod_small; [done|]. Z.to_euclidean_division_equations; lia.
Qed.

(** The hosts of the mesh are exactly the 256 texts [10.9.0.d]. *)
Lemma in_mesh_exact host :
  in_mesh host = true <-> exists d, 0 <= d <= 255 /\ host = lit "10.9.0." ++ to_string d.
Proof.
  split.
  - unfold in_mesh, parse_ipv4. pose proof (join_split_on DOT host) as Hj.
    destruct (split_on DOT host) as [|sa [|sb [|sc [|sd [|]]]]]; try done.
    destruct (parse_octet sa) as [a|] eqn:Ha; [|done]. destruct (parse_octet sb) as [b|] eqn:Hb; [|done].
    destruct (parse_octet sc) as [c|] eqn:Hc; [|done]. destruct (parse_octet sd) as [d|] eqn:Hd; [|done].
    apply parse_octet_text in Ha as [Ha ->], Hb as [Hb ->], Hc as [Hc ->], Hd as [Hd ->].
    simpl. change (32 - 24) with 8. intros Heq%Z.eqb_eq. rewrite !ipv4_bits_value in Heq by lia.
    rewrite !land_mask24 in Heq by lia.
    assert (a = 10 /\ b = 9 /\ c = 0) as (-> & -> & ->) by (Z.to_euclidean_division_equations; lia).
    exists d. split; [done|]. rewrite <- Hj. reflexivity.
  - intros (d & Hd & ->).
    assert (forallb (fun d => in_mesh (lit "10.9.0." ++ to_string d)) (seqZ 0 256) = true) as Hall
      by (vm_compute; reflexivity).
    rewrite forallb_forall in Hall. apply Hall, list_elem_of_In, elem_of_seqZ. lia.
Qed.

(** ** The allow-list *)

Lemma as_bytes_nil s : as_bytes s = [] <-> s = [].
Proof.
  split; [|by intros ->]. destruct s as [|c s]; [done|]. intros Hs.
  change (as_bytes (c :: s)) with (utf8_char c ++ as_bytes s) in Hs.
  apply app_nil in Hs as [Hc _]. unfold utf8_char in Hc.
  destruct (c <? 128); [done|]. destruct (c <? 2048); [done|]. by destruct (c <? 65536).
Qed.

Lemma ends_with_spec s p : ends_with s p = true <-> exists a, s = a ++ p.
Proof.
  unfold ends_with. rewrite bool_decide_eq_true. split.
  - intros [r Hr]. apply strip_prefix_Some in Hr. exists (rev r).
    rewrite <- (rev_involutive s), Hr, rev_app_distr, rev_involutive. done.
  - intros [a ->]. rewrite rev_app_distr, strip_prefix_app. by eexists.
Qed.

Lemma longer_suffix a p : (len (as_bytes p) <? len (as_bytes (a ++ p))) = true <-> a <> [].
Proof.
  unfold len. rewrite as_bytes_app, length_app, Z.ltb_lt. split.
  - intros Hl ->. simpl in Hl. lia.
  - intros Ha. destruct (as_bytes a) eqn:He; [by destruct Ha; apply as_bytes_nil|]. simpl. lia.
Qed.

(** The public hosts that may be dialled over TLS. *)
Definition public_host (h : str) : Prop :=
  h = lit "oxpulse.chat" \/ (exists sub, sub <> [] /\ h = sub ++ lit ".oxpulse.chat") \/
  h = lit "localhost" \/ h = lit "127.0.0.1".

Lemma wss_match_domain h sfx :
  wss_match h (DOT :: sfx) = true <-> h = sfx \/ exists sub, sub <> [] /\ h = sub ++ DOT :: sfx.
Proof.
  unfold wss_match. replace (strip_prefix [DOT] (DOT :: sfx)) with (Some sfx) by reflexivity.
  rewrite orb_true_iff, andb_true_iff, ends_with_spec, bool_decide_eq_true.
  split; (intros [->|Hx]; [by left|right]).
  - destruct Hx as [Hl [a ->]]. exists a. split; [by apply longer_suffix in Hl|done].
  - destruct Hx as (a & Ha & ->). split; [by apply longer_suffix|by eauto].
Qed.

Lemma wss_exact h : existsb (wss_match h) PUBLIC_WSS_ALLOWED = true <-> public_host h.
Proof.
  unfold public_host, PUBLIC_WSS_ALLOWED. cbn [existsb].
  change (lit ".oxpulse.chat") with (DOT :: lit "oxpulse.chat").
  rewrite orb_false_r, !orb_true_iff, wss_match_domain.
  assert (forall p, strip_prefix [DOT] p = None -> wss_match h p = true <-> h = p) as Hplain.
  { intros p Hp. unfold wss_match. by rewrite Hp, bool_decide_eq_true. }
  rewrite !Hplain by reflexivity. tauto.
Qed.

(** The hubs a node may dial: [wss://] to [oxpulse.chat], a proper subdomain of
    it, or the local host, or [ws://] to one of the 256 dotted-decimal texts of
    the mesh 10.9.0.0/24. *)
Definition allowed_hub (parse_uri : str -> option Uri) (url : str) : Prop :=
  exists uri scheme host, parse_uri url = Some uri /\ uri_scheme uri = Some scheme /\
    uri_host uri = Some host /\
    (scheme = lit "wss" /\ public_host host \/
     scheme = lit "ws" /\ exists d, 0 <= d <= 255 /\ host = lit "10.9.0." ++ to_string d).

(** The allow-list admits exactly the intended hubs, whatever scheme and host the
    URL parser finds; every other scheme, host and spelling is refused. *)
Theorem allowlist_exact parse_uri url :
  is_allowed_upstream parse_uri url = true <-> allowed_hub parse_uri url.
Proof.
  unfold is_allowed_upstream, allowed_hub. split.
  - intros Ha. destruct (parse_uri url) as [uri|]; [|done].
    destruct (uri_scheme uri) as [sch|] eqn:Hs; [|done].
    destruct (uri_host uri) as [host|] eqn:Hh; [|done].
    exists uri, sch, host. split_and!; [done..|]. destruct (is_empty host); [done|].
    case_decide; [left; by rewrite <- wss_exact|].
    case_decide; [right; by rewrite <- in_mesh_exact|done].
  - intros (uri & sch & host & -> & -> & -> & Hc).
    assert (is_empty host = false) as ->.
    { destruct host; [|done]. exfalso.
      destruct Hc as [[_ [?|[(sub & Hsub & Hx)|[?|?]]]]|(_ & d & _ & Hx)];
        [done| |done|done|done].
      by destruct sub. }
    destruct Hc as [[-> Hp]|[-> Hm]].
    + rewrite decide_True by done. by apply wss_exact.
    + rewrite decide_False, decide_True by done. by apply in_mesh_exact.
Qed.

(** ** Candidates *)

Lemma first_occurrences_sublist seen l : first_occurrences seen l `sublist_of` l.
Proof.
  revert seen. induction l as [|u l IH]; intros seen; simpl; [done|].
  case_decide; [by apply sublist_cons | by apply sublist_skip].
Qed.

Lemma elem_of_first_occurrences seen l u :
  u ∈ first_occurrences seen l <-> u ∈ l /\ u ∉ seen.
Proof.
  revert seen. induction l as [|x l IH]; intros seen; simpl; [set_solver|].
  case_decide; rewrite ?elem_of_cons, IH; [set_solver|].
  destruct (decide (u = x)) as [->|]; set_solver.
Qed.

Lemma first_occurrences_NoDup seen l : NoDup (first_occurrences seen l).
Proof.
  revert seen. induction l as [|u l IH]; intros seen; simpl; [constructor|].
  case_decide; [done|]. constructor; [|done]. rewrite elem_of_first_occurrences. set_solver.
Qed.

(** What stands before an entry of the list without repetitions is what stands
    before its first occurrence. *)
Lemma first_occurrences_before seen l before u after :
  first_occurrences seen l = before ++ u :: after ->
  exists pre post, l = pre ++ u :: post /\ forall w, w ∈ before <-> w ∈ pre /\ w ∉ seen.
Proof.
  revert seen before. induction l as [|x l IH]; intros seen before; simpl; [by destruct before|].
  case_decide as Hx.
  - intros (pre & post & -> & Hw)%IH. exists (x :: pre), post. split; [done|]. set_solver.
  - destruct before as [|b before].
    + intros [= -> _]. exists [], l. split; [done|]. set_solver.
    + intros [= <- (pre & post & -> & Hw)%IH]. exists (x :: pre), post. split; [done|].
      intros w. rewrite !elem_of_cons, Hw. destruct (decide (w = x)) as [->|]; set_solver.
Qed.

Lemma filter_before (f : str -> bool) l pre u post :
  filter (fun x => f x = true) l = pre ++ u :: post ->
  exists before after, l = before ++ u :: after /\ pre = filter (fun x => f x = true) before.
Proof.
  revert pre. induction l as [|x l IH]; intros pre; [by destruct pre|]. rewrite filter_cons.
  case_decide as Hx.
  - destruct pre as [|y pre].
    + intros [= <- _]. by exists [], l.
    + intros [= <- (b & a & -> & ->)%IH]. exists (x :: b), a. split; [done|].
      by rewrite filter_cons, decide_True.
  - intros (b & a & -> & ->)%IH. exists (x :: b), a. split; [done|]. by rewrite filter_cons, decide_False.
Qed.

(** The chosen hubs of a grant that lists [raw]: the first eight distinct allowed
    ones.  [cs_order]: what was chosen before a hub is what the grant lists before
    it and is allowed. *)
Record candidates_sound (allowed : str -> Prop) (raw chosen : list str) : Prop := {
  cs_allowed : Forall allowed chosen;
  cs_distinct : NoDup chosen;
  cs_order : forall before u after, chosen = before ++ u :: after ->
    exists pre post, raw = pre ++ u :: post /\ forall w, w ∈ before <-> w ∈ pre /\ allowed w;
  cs_bound : (length chosen <= 8)%nat;
  cs_complete : forall u, u ∈ raw -> allowed u -> u ∈ chosen \/ length chosen = 8%nat;
}.

Lemma select_candidates_sound parse_uri jwt :
  candidates_sound (allowed_hub parse_uri) (raw_candidates jwt) (select_candidates parse_uri jwt).
Proof.
  unfold select_candidates. set (fs := filter _ _). set (l := first_occurrences ∅ fs).
  assert (take MAX_RELAY_CANDIDATES l `sublist_of` l) as Ht by apply sublist_take.
  split.
  - apply Forall_forall. intros u Hu. rewrite <- allowlist_exact.
    assert (u ∈ l) as Hin by (eapply elem_of_submseteq; [exact Hu|]; by apply sublist_submseteq).
    apply elem_of_first_occurrences in Hin as [Hin _]. by apply list_elem_of_filter in Hin as [].
  - eapply sublist_NoDup; [apply first_occurrences_NoDup | exact Ht].
  - intros before u after Hc. assert (l = before ++ u :: after ++ drop MAX_RELAY_CANDIDATES l) as Hl.
    { rewrite <- (take_drop MAX_RELAY_CANDIDATES l) at 1. by rewrite Hc, <- app_assoc. }
    apply first_occurrences_before in Hl as (pre & post & (b & a & -> & ->)%filter_before & Hw).
    exists b, a. split; [done|]. intros w. rewrite Hw, list_elem_of_filter, allowlist_exact. set_solver.
  - rewrite length_take. unfold MAX_RELAY_CANDIDATES. lia.
  - intros u Hu Hok. rewrite length_take.
    destruct (decide (length l <= MAX_RELAY_CANDIDATES)%nat); unfold MAX_RELAY_CANDIDATES in *; [|right; lia].
    left. rewrite take_ge by done. apply elem_of_first_occurrences.
    split; [apply list_elem_of_filter; by rewrite allowlist_exact | set_solver].
Qed.

(** ** Authorisation *)

Lemma check_iat_Ok now c c' : check_iat now c = Ok c' -> c' = c /\ rj_iat c <= wrap_u64 (now + 30).
Proof. unfold check_iat. destruct (Z.ltb_spec (wrap_u64 (now + 30)) (rj_iat c)); [done|]. by intros [= <-]. Qed.

(** A grant that a decoder vouched for: [jwt] is what the token itself says. *)
Record grant_bound `{JwtLaws} (token : str) (alg : Algorithm) (key : DecodingKey)
    (decoded_at iat_at : Z) (jwt : RelayJwt) : Prop := {
  gb_signed : signed token alg key;
  gb_payload : relay_payload token = Some jwt;
  gb_live : decoded_at <= rj_exp jwt;
  gb_iat : rj_iat jwt <= wrap_u64 (iat_at + 30);
}.

Lemma decoded_grant_bound `{JwtLaws} now iat_at token key alg c jwt :
  decode_relay now token key (relay_validation alg) = Ok c -> check_iat iat_at c = Ok jwt ->
  grant_bound token alg key now iat_at jwt.
Proof.
  intros Hd [-> Hi]%check_iat_Ok. destruct (decode_relay_sound _ _ _ _ _ Hd) as (Hs & Hp & [He _ _ _ _]).
  split; [done|done| |done]. specialize (He eq_refl). simpl in He. lia.
Qed.

Lemma relay_verify_sound `{JwtLaws} k token secret jwt :
  relay_verify k token secret = Ok jwt ->
  grant_bound token HS256 (from_secret secret) (at_hs256 k) (at_iat k) jwt.
Proof. unfold relay_verify. intros Hv. step_in Hv. by eapply decoded_grant_bound. Qed.

Lemma relay_verify_ed25519_sound `{JwtLaws} k token pem jwt :
  relay_verify_ed25519 k token pem = Ok jwt ->
  exists key, from_ed_pem pem = Some key /\ grant_bound token EdDSA key (at_eddsa k) (at_iat k) jwt.
Proof.
  unfold relay_verify_ed25519. intros Hv. destruct (from_ed_pem pem) as [key|]; [|done].
  exists key. split; [done|]. step_in Hv. by eapply decoded_grant_bound.
Qed.

(** The credential that vouched for a grant, given the state of the API. *)
Definition grant_warrant `{JwtLaws} (api : RelayApiState) (k : RelayClock) (token : str)
    (jwt : RelayJwt) : Prop :=
  (exists pem key, ra_signing_public_key api = Some pem /\ from_ed_pem pem = Some key /\
     grant_bound token EdDSA key (at_eddsa k) (at_iat k) jwt) \/
  ((ra_signing_public_key api = None \/ ra_hs256_fallback_enabled api = true) /\
   grant_bound token HS256 (from_secret (ra_secret api)) (at_hs256 k) (at_iat k) jwt).

Lemma verify_relay_jwt_sound `{JwtLaws} api k token jwt alg :
  verify_relay_jwt k token (ra_secret api) (ra_signing_public_key api)
    (ra_hs256_fallback_enabled api) = Ok (jwt, alg) ->
  grant_warrant api k token jwt.
Proof.
  unfold verify_relay_jwt, grant_warrant. intros Hv.
  assert (tag_hs256 (relay_verify k token (ra_secret api)) = Ok (jwt, alg) ->
    grant_bound token HS256 (from_secret (ra_secret api)) (at_hs256 k) (at_iat k) jwt) as Hhs.
  { unfold tag_hs256. intros Ht. step_in Ht. injection Ht as <- _. by apply relay_verify_sound. }
  destruct (ra_signing_public_key api) as [pem|]; [|by auto].
  destruct (relay_verify_ed25519 k token pem) as [j|[]] eqn:He; try discriminate Hv.
  1: { injection Hv as <- _. left. apply relay_verify_ed25519_sound in He as (key & ? & ?). by eauto. }
  all: destruct (ra_hs256_fallback_enabled api); [by auto|discriminate Hv].
Qed.

(** What an accepted request did. *)
Lemma relay_connect_OK `{Jwt} parse_uri api k qo token sh resp sh' fx :
  relay_connect parse_uri api k qo token sh = (resp, sh', fx) -> rs_code resp = OK_200 ->
  exists jwt alg,
    verify_relay_jwt k token (ra_secret api) (ra_signing_public_key api)
      (ra_hs256_fallback_enabled api) = Ok (jwt, alg) /\
    select_candidates parse_uri jwt <> [] /\
    retain_live (at_replay k) (seen_jtis sh) !! rj_jti jwt = None /\
    seen_jtis sh' = <[rj_jti jwt := rj_exp jwt]> (retain_live (at_replay k) (seen_jtis sh)) /\
    task_queue sh' = task_queue sh ++ [task_of jwt (select_candidates parse_uri jwt)].
Proof.
  unfold relay_connect, check_replay. intros Hr Hok.
  destruct (verify_relay_jwt _ _ _ _ _) as [[jwt alg]|[]]; try (simplify_eq/=; discriminate).
  exists jwt, alg. destruct (select_candidates parse_uri jwt) eqn:Hs; [simplify_eq/=; discriminate|].
  destruct (retain_live _ _ !! _) eqn:Hl; simpl in Hr; [simplify_eq/=; discriminate|].
  by destruct qo; simplify_eq/=.
Qed.

Lemma activation_credentials secret pubkey cfg act :
  compute_relay_activation secret pubkey cfg = Ok act ->
  match secret with
  | Some s => s <> PLACEHOLDER_SECRET /\ 32 <= len (as_bytes s) /\
              ac_secret act = as_bytes s /\ ac_hs256_fallback_effective act = cfg
  | None => ac_secret act = [] /\ ac_hs256_fallback_effective act = false
  end /\
  (ac_enabled act = true <-> is_Some secret \/ is_Some pubkey) /\
  (ac_auth_mode act = None <-> ac_enabled act = false).
Proof.
  unfold compute_relay_activation. destruct secret as [s|].
  - case_decide; [done|]. destruct (Z.ltb_spec (len (as_bytes s)) 32); [done|]. cbn [rbind].
    intros [= <-]. simpl. destruct pubkey; simpl; naive_solver.
  - cbn [rbind]. intros [= <-]. simpl. destruct pubkey; simpl; naive_solver.
Qed.

(** C13. A relay task is authorised end to end, from the start-up decision to
    the queue: if the configured credentials let the API start and a request is
    accepted, then its token was signed by the configured Ed25519 key, or under
    a configured shared secret of at least 32 bytes that is not the documented
    placeholder (and, next to an Ed25519 key, only while the fallback switch is
    on) - never under the empty secret of an Ed25519-only node.  The grant is the
    payload of that token; it was not expired when decoded, and not issued more
    than 30 seconds (in 64-bit arithmetic) after the clock read next.  Exactly one
    task was queued: for the room and with the upstream token of the payload, and
    with at least one and at most eight distinct hubs, the first of them as
    primary: those the payload lists (the single upstream URL when its list is
    empty) that are allowed - TLS to oxpulse.chat, a subdomain of it or the local
    host, or plain to 10.9.0.0/24, by the scheme and host the URL parser finds -,
    in the payload's order, leaving out an allowed hub only after eight. *)
Theorem relay_task_authorised `{JwtLaws} parse_uri secret pubkey cfg act k qo token sh resp sh' fx :
  compute_relay_activation secret pubkey cfg = Ok act -> ac_enabled act = true ->
  relay_connect parse_uri (relay_api_state act pubkey) k qo token sh = (resp, sh', fx) ->
  rs_code resp = OK_200 ->
  exists jwt hubs,
    relay_payload token = Some jwt /\
    ((exists pem key, pubkey = Some pem /\ from_ed_pem pem = Some key /\
        grant_bound token EdDSA key (at_eddsa k) (at_iat k) jwt) \/
     (exists s, secret = Some s /\ s <> lit "change-me-in-production" /\ 32 <= len (as_bytes s) /\
        (pubkey = None \/ cfg = true) /\
        grant_bound token HS256 (from_secret (as_bytes s)) (at_hs256 k) (at_iat k) jwt)) /\
    candidates_sound (allowed_hub parse_uri)
      (match rj_upstream_candidates jwt with [] => [rj_upstream_url jwt] | listed => listed end) hubs /\
    (exists primary rest, hubs = primary :: rest /\
       task_queue sh' = task_queue sh ++
         [mkTask (rj_room_id jwt) primary (rj_upstream_room_token jwt) hubs]).
Proof.
  intros Hact Hen Hrc Hok.
  destruct (activation_credentials _ _ _ _ Hact) as (Hcred & Hon & _).
  destruct (relay_connect_OK _ _ _ _ _ _ _ _ _ Hrc Hok) as (jwt & alg & Hv & Hne & _ & _ & Hq).
  apply verify_relay_jwt_sound in Hv. exists jwt, (select_candidates parse_uri jwt). split_and!.
  - by destruct Hv as [(pem & key & _ & _ & [])|[_ []]].
  - destruct Hv as [Hed|[Hsw Hhs]]; [by left|right]. simpl in *.
    destruct secret as [s|].
    + destruct Hcred as (? & ? & Hs & Hf). rewrite Hs in Hhs. rewrite Hf in Hsw. by exists s.
    + exfalso. destruct Hcred as [_ Hoff]. rewrite Hoff in Hsw.
      destruct Hsw as [->|]; [|done]. apply Hon in Hen as [[]|[]]; done.
  - apply select_candidates_sound.
  - destruct (select_candidates parse_uri jwt) as [|p rest] eqn:Hs; [done|].
    exists p, rest. split; [done|]. by rewrite Hq.
Qed.

(** Tokens and URLs of the examples. *)
Definition demo_secret : str := lit "0123456789abcdef0123456789abcdef".
Definition demo_hub : str := lit "ws://10.9.0.2/ws/r1".
Definition demo_grant : RelayJwt :=
  mkRelayJwt (lit "room-one-of-many") demo_hub (lit "tok") 900 1000 (lit "jti-1")
    [lit "ws://evil"; demo_hub; demo_hub].
Definition demo_grants : Minted.mint_table :=
  [(lit "grant-hs", Minted.mkGrant HS256 demo_secret None None None (Some demo_grant))].
Definition demo_uri (url : str) : option Uri :=
  if decide (url = demo_hub) then Some (mkUri (Some (lit "ws")) (Some (lit "10.9.0.2")))
  else Some (mkUri (Some (lit "ws")) (Some (lit "evil"))).
Definition clock_at (t : Z) : RelayClock := mkClock t t t t.
Definition no_shared : RelayShared := mkShared ∅ [].

Lemma relay_task_authorised_witness :
  exists act resp sh' fx,
    compute_relay_activation (Some demo_secret) (Some (lit "PEM")) true = Ok act /\
    relay_connect (H := Minted.jwt demo_grants) demo_uri (relay_api_state act (Some (lit "PEM")))
      (clock_at 950) true (lit "grant-hs") no_shared = (resp, sh', fx) /\
    rs_code resp = OK_200 /\
    exists jwt hubs, jwt = demo_grant /\
      candidates_sound (allowed_hub demo_uri) [lit "ws://evil"; demo_hub; demo_hub] hubs /\
      hubs <> [].
Proof.
  eexists _, _, _, _. split; [reflexivity|]. split; [vm_compute; reflexivity|]. split; [reflexivity|].
  destruct (relay_task_authorised (H0 := Minted.jwt_laws demo_grants) demo_uri (Some demo_secret)
    (Some (lit "PEM")) true _ (clock_at 950) true (lit "grant-hs") no_shared _ _ _
    ltac:(reflexivity) ltac:(reflexivity) ltac:(vm_compute; reflexivity) ltac:(reflexivity))
    as (jwt & hubs & Hp & _ & Hc & p & rest & -> & _).
  vm_compute in Hp. injection Hp as <-. exists demo_grant, (p :: rest). split; [reflexivity|].
  split; [exact Hc | discriminate].
Defined.

(** ** Replay *)

Lemma retain_live_keeps now seen j e :
  seen !! j = Some e -> now < e -> retain_live now seen !! j = Some e.
Proof. intros Hs Hn. by apply map_lookup_filter_Some. Qed.

(** An identifier in the cache stays there, with its expiry, until a request
    reads a clock at or past that expiry. *)
Lemma relay_connect_keeps_jti `{Jwt} parse_uri api k qo token sh resp sh' fx j e :
  relay_connect parse_uri api k qo token sh = (resp, sh', fx) ->
  seen_jtis sh !! j = Some e -> at_replay k < e -> seen_jtis sh' !! j = Some e.
Proof.
  unfold relay_connect, check_replay. intros Hr Hs Hlt.
  pose proof (retain_live_keeps _ _ _ _ Hs Hlt) as Hlive.
  destruct (verify_relay_jwt _ _ _ _ _) as [[jwt alg]|[]]; [|by simplify_eq..].
  destruct (select_candidates parse_uri jwt); [by simplify_eq|].
  destruct (retain_live _ _ !! rj_jti jwt) eqn:Hl; simpl in Hr; [by simplify_eq/=|].
  assert (rj_jti jwt <> j) by congruence.
  destruct qo; simplify_eq/=; by rewrite lookup_insert_ne.
Qed.

Lemma relay_run_keeps_jti `{Jwt} parse_uri api rqs sh j e :
  seen_jtis sh !! j = Some e -> Forall (fun r => at_replay (rq_clock r) < e) rqs ->
  seen_jtis (relay_run parse_uri api rqs sh).2 !! j = Some e.
Proof.
  intros Hs Hall. revert sh Hs. induction Hall as [|r rqs Hr _ IH]; intros sh Hs; simpl; [done|].
  destruct (relay_connect _ _ _ _ _ _) as [[resp sh1] fx] eqn:Hc.
  eapply relay_connect_keeps_jti in Hc; [|done..]. specialize (IH _ Hc).
  by destruct (relay_run parse_uri api rqs sh1).
Qed.

(** C15. A grant is used at most once while it is live: after a request was
    accepted on a grant, whatever requests come in between, no later request
    with the same identifier is accepted or queues a task, as long as no clock
    read under the cache's lock since then had reached the first grant's expiry.
    The clock may jump; a changed token with the same identifier does not help. *)
Theorem relay_grant_used_once `{Jwt} parse_uri api rq mid rq' jwt jwt' alg alg'
    sh resp sh1 fx resp' sh3 fx' :
  relay_connect parse_uri api (rq_clock rq) (rq_queue_open rq) (rq_token rq) sh = (resp, sh1, fx) ->
  rs_code resp = OK_200 ->
  verify_relay_jwt (rq_clock rq) (rq_token rq) (ra_secret api) (ra_signing_public_key api)
    (ra_hs256_fallback_enabled api) = Ok (jwt, alg) ->
  verify_relay_jwt (rq_clock rq') (rq_token rq') (ra_secret api) (ra_signing_public_key api)
    (ra_hs256_fallback_enabled api) = Ok (jwt', alg') ->
  rj_jti jwt' = rj_jti jwt ->
  Forall (fun r => at_replay (rq_clock r) < rj_exp jwt) (mid ++ [rq']) ->
  relay_connect parse_uri api (rq_clock rq') (rq_queue_open rq') (rq_token rq')
    (relay_run parse_uri api mid sh1).2 = (resp', sh3, fx') ->
  rs_code resp' <> OK_200 /\ task_queue sh3 = task_queue (relay_run parse_uri api mid sh1).2.
Proof.
  intros Hc Hok Hv Hv' Hj [Hmid Hrq']%Forall_app Hc'. inversion_clear Hrq' as [|? ? Hlt _].
  destruct (relay_connect_OK _ _ _ _ _ _ _ _ _ Hc Hok) as (jwt0 & alg0 & Hv0 & _ & _ & Hs1 & _).
  rewrite Hv in Hv0. injection Hv0 as <- <-.
  assert (seen_jtis (relay_run parse_uri api mid sh1).2 !! rj_jti jwt' = Some (rj_exp jwt)) as Hin.
  { rewrite Hj. apply relay_run_keeps_jti; [|done]. by rewrite Hs1, lookup_insert_eq. }
  pose proof (retain_live_keeps _ _ _ _ Hin Hlt) as Hlive.
  revert Hc'. unfold relay_connect, check_replay. rewrite Hv'.
  destruct (select_candidates parse_uri jwt'); [intros [= <- <- _]; by split|].
  rewrite Hlive. simpl. intros [= <- <- _]. by split.
Qed.

Lemma relay_grant_used_once_witness :
  exists sh1 resp' sh3 fx',
    relay_connect (H := Minted.jwt demo_grants) demo_uri (mkApi demo_secret None true)
      (clock_at 999) true (lit "grant-hs") sh1 = (resp', sh3, fx') /\
    rs_code resp' <> OK_200 /\ task_queue sh3 = task_queue sh1.
Proof.
  pose (api := mkApi demo_secret None true).
  pose (r1 := relay_connect (H := Minted.jwt demo_grants) demo_uri api (clock_at 950) true
                (lit "grant-hs") no_shared).
  eexists r1.1.2, _, _, _. split; [vm_compute; reflexivity|].
  eapply (relay_grant_used_once (H := Minted.jwt demo_grants) demo_uri api
    (mkRequest (lit "grant-hs") (clock_at 950) true) [] (mkRequest (lit "grant-hs") (clock_at 999) true)
    demo_grant demo_grant "hs256" "hs256" no_shared).
  - vm_compute. reflexivity.
  - reflexivity.
  - vm_compute. reflexivity.
  - vm_compute. reflexivity.
  - reflexivity.
  - by repeat constructor.
  - vm_compute. reflexivity.
Defined.

(** The cache forgets a grant one second before the verifier does: a
    request whose grant still verifies is accepted although its identifier was
    recorded, as soon as the clock read under the lock has reached the recorded
    expiry.  A verifier that accepts a token in the second of its expiry, which
    is what the library does, lets a grant be used twice in that second. *)
Theorem relay_grant_reused_at_expiry `{Jwt} parse_uri api k token jwt alg sh e :
  verify_relay_jwt k token (ra_secret api) (ra_signing_public_key api)
    (ra_hs256_fallback_enabled api) = Ok (jwt, alg) ->
  select_candidates parse_uri jwt <> [] ->
  seen_jtis sh !! rj_jti jwt = Some e -> e <= at_replay k ->
  exists sh', relay_connect parse_uri api k true token sh =
    (mkResponse OK_200 (Some (relay_id_of jwt)), sh', [Inc "relay_jwt_verify_total" [alg]]) /\
    task_queue sh' = task_queue sh ++ [task_of jwt (select_candidates parse_uri jwt)].
Proof.
  intros Hv Hne Hs He. unfold relay_connect, check_replay. rewrite Hv.
  destruct (select_candidates parse_uri jwt) eqn:Hsel; [done|].
  assert (retain_live (at_replay k) (seen_jtis sh) !! rj_jti jwt = None) as ->.
  { apply map_lookup_filter_None. right. intros x Hx. simpl. rewrite Hs in Hx. injection Hx as <-. lia. }
  simpl. by eexists.
Qed.

Lemma relay_grant_reused_at_expiry_witness :
  exists sh', relay_connect (H := Minted.jwt demo_grants) demo_uri (mkApi demo_secret None true)
      (clock_at 1000) true (lit "grant-hs")
      (relay_connect (H := Minted.jwt demo_grants) demo_uri (mkApi demo_secret None true)
         (clock_at 1000) true (lit "grant-hs") no_shared).1.2
    = (mkResponse OK_200 (Some (lit "relay-room-one")), sh', [Inc "relay_jwt_verify_total" ["hs256"]]) /\
    length (task_queue sh') = 2%nat.
Proof.
  destruct (relay_grant_reused_at_expiry (H := Minted.jwt demo_grants) demo_uri
    (mkApi demo_secret None true) (clock_at 1000) (lit "grant-hs") demo_grant "hs256"
    (relay_connect (H := Minted.jwt demo_grants) demo_uri (mkApi demo_secret None true)
       (clock_at 1000) true (lit "grant-hs") no_shared).1.2 1000
    ltac:(vm_compute; reflexivity) ltac:(vm_compute; discriminate) ltac:(vm_compute; reflexivity)
    ltac:(simpl; lia)) as (sh' & He & Hq).
  exists sh'. split; [exact He|]. rewrite Hq. vm_compute. reflexivity.
Defined.

(** ** Failover *)

Lemma connect_relay_Ok parse_uri hub u token room p :
  connect_relay parse_uri hub u token room = Ok p ->
  p = mkPendingRelay room u token /\ is_allowed_upstream parse_uri u = true /\ hub u = Exchanged.
Proof.
  unfold connect_relay. destruct (is_allowed_upstream parse_uri u); simpl; [|done].
  destruct (hub u); [|done..]. by intros [= <-].
Qed.

(** The failover loop takes the first hub that answers: the pending relay
    it returns is for an allow-listed candidate that completed the exchange,
    every candidate before it was refused by the allow-list or did not answer,
    and room and token are the task's; it returns nothing exactly when no
    candidate can be had.  Each run counts one success or one exhaustion. *)
Theorem failover_takes_first parse_uri hub candidates token room :
  let reachable u := is_allowed_upstream parse_uri u = true /\ hub u = Exchanged in
  match relay_connect_failover parse_uri hub candidates token room with
  | (Some p, fx) =>
      pr_room_id p = room /\ pr_upstream_room_token p = token /\
      fx = [Inc "relay_connect_success_total" []] /\
      exists before after, candidates = before ++ pr_upstream_url p :: after /\
        Forall (fun u => ~ reachable u) before /\ reachable (pr_upstream_url p)
  | (None, fx) =>
      fx = [Inc "relay_candidate_exhausted_total" []] /\ Forall (fun u => ~ reachable u) candidates
  end.
Proof.
  cbv zeta. induction candidates as [|u l IH]; simpl; [by split|].
  destruct (connect_relay parse_uri hub u token room) as [p|a] eqn:Hc.
  - apply connect_relay_Ok in Hc as (-> & Ha & Hh). split_and!; try done. by exists [], l.
  - assert (~ (is_allowed_upstream parse_uri u = true /\ hub u = Exchanged)) as Hu.
    { intros [Ha Hh]. unfold connect_relay in Hc. by rewrite Ha, Hh in Hc. }
    destruct (relay_connect_failover parse_uri hub l token room) as [[p|] fx].
    + destruct IH as (-> & -> & -> & b & aft & -> & Hb & Hp). split_and!; try done.
      exists (u :: b), aft. split; [done|]. split; [by constructor | exact Hp].
    + destruct IH as [-> Hall]. split; [done|]. by constructor.
Qed.
