(* ===== verification/RelayClient.v ===== *)
(** * The outbound relay connection (relay/client.rs, main.rs)

    The WebSocket and SDP exchange of one attempt at an upstream edge, the timeout
    around it and the failover over the candidates, with the clock.  The hub, the
    network and str0m are a record of answers; serde_json is its parser and its
    serializer.  RelayApi.v has the same dialling with the exchange as one opaque
    answer of the hub. *)

From Stdlib Require Import ZArith Lia.
From stdpp Require Import base option numbers gmap strings list.
From S2P Require Import Prelude RustStr NetAddr DdParse DdCache SfuTypes RoomAuth SfuChannelData RelayApi.

(** ** JSON values *)

(** [JOther] is a number, a boolean or an array. *)
Inductive Json :=
| JNull
| JStr (s : str)
| JObj (members : list (str * Json))
| JOther.

(** [v["key"]], which is [Null] for a missing member or another value. *)
Definition json_get (v : Json) (key : string) : Json :=
  match v with
  | JObj ms => match list_find (fun m => m.1 = lit key) ms with Some (_, (_, x)) => x | None => JNull end
  | _ => JNull
  end.

Definition json_is (v : Json) (s : string) : bool :=
  match v with JStr t => bool_decide (t = lit s) | _ => false end.

Definition json_str (v : Json) : option str := match v with JStr t => Some t | _ => None end.

Definition is_object (v : Json) : bool := match v with JObj _ => true | _ => false end.

(** ** The exchange *)

(** How a step on the network ends, with the time since the attempt began. *)
Inductive NetStep := StepDone (at_ : Z) | StepFails (at_ : Z) | StepHangs.

(** A message of the upstream; [FError] is an error of the stream. *)
Inductive Frame := FText (t : str) | FOther | FError.

(** What the upstream, the network and str0m answer in one attempt. *)
Record Hub := mkHub {
  hub_open : NetStep;
  hub_join : NetStep;
  hub_sdp_offer : option str;
  hub_offer : NetStep;
  hub_frames : list (Z * Frame);
  hub_closes : option Z;
  hub_answer_parses : str -> bool;
  hub_answer_accepted : str -> bool;
  hub_candidate_ok : bool;
}.

Inductive RelayError :=
| NotAllowed | WsConnect | WsSendFailed | NoOffer | BadJson | WsClosed | BadAnswer | AnswerRefused.

Inductive Outcome {A : Type} := Finished (at_ : Z) (r : result A RelayError) | Never.
Arguments Outcome : clear implicits.

Inductive WsEffect :=
| WsOpen (url : str)
| WsSend (text : str)
| AcceptAnswer (sdp : str)
| LocalCandidate (addr : SocketAddr).

Definition join_message : str := render_object [("type", lit "join")].

Definition signal_value (kind : string) (sdp : str) : Json :=
  JObj [(lit "type", JStr (lit "signal"));
        (lit "payload", JObj [(lit "type", JStr (lit kind)); (lit "sdp", JStr sdp)])].

(** The answer a message carries, if it is one. *)
Definition answer_of (v : Json) : option str :=
  if json_is (json_get v "type") "signal" then
    let payload := json_get v "payload" in
    if is_object payload && json_is (json_get payload "type") "answer"
    then Some (default [] (json_str (json_get payload "sdp"))) else None
  else None.

Section exchange.
Variable parse_json : str -> option Json.
Variable to_string : Json -> str.
Variable parse_uri : str -> option Uri.

Definition offer_message (sdp : str) : str := to_string (signal_value "offer" sdp).

(** The loop that waits for the answer. *)
Fixpoint await_answer (frames : list (Z * Frame)) (closes : option Z) : Outcome str :=
  match frames with
  | [] => match closes with Some t => Finished t (Err WsClosed) | None => Never end
  | (t, FText text) :: rest =>
      match parse_json text with
      | None => Finished t (Err BadJson)
      | Some v => match answer_of v with
                  | Some sdp => Finished t (Ok sdp)
                  | None => await_answer rest closes
                  end
      end
  | (_, FOther) :: rest => await_answer rest closes
  | (t, FError) :: _ => Finished t (Err WsClosed)
  end.

(** A step that begins at [t0], its error, and what follows it. *)
Definition then_ {A} (t0 : Z) (s : NetStep) (e : RelayError) (fx : WsEffect)
    (next : Z -> Outcome A * list (Z * WsEffect)) : Outcome A * list (Z * WsEffect) :=
  let '(o, es) := match s with
                  | StepDone t => next t
                  | StepFails t => (Finished t (Err e), [])
                  | StepHangs => (Never, [])
                  end in
  (o, (t0, fx) :: es).

(** [connect_relay] *)
Definition connect_upstream (hub : Hub) (url token : str) (addr : SocketAddr) (room : str)
    : Outcome PendingRelay * list (Z * WsEffect) :=
  if negb (is_allowed_upstream parse_uri url) then (Finished 0 (Err NotAllowed), [])
  else
    then_ 0 (hub_open hub) WsConnect (WsOpen url) (fun t =>
    then_ t (hub_join hub) WsSendFailed (WsSend join_message) (fun t =>
    match hub_sdp_offer hub with
    | None => (Finished t (Err NoOffer), [])
    | Some offer =>
        then_ t (hub_offer hub) WsSendFailed (WsSend (offer_message offer)) (fun _ =>
        match await_answer (hub_frames hub) (hub_closes hub) with
        | Never => (Never, [])
        | Finished t (Err e) => (Finished t (Err e), [])
        | Finished t (Ok sdp) =>
            if negb (hub_answer_parses hub sdp) then (Finished t (Err BadAnswer), [])
            else if negb (hub_answer_accepted hub sdp) then (Finished t (Err AnswerRefused), [])
            else (Finished t (Ok (mkPendingRelay room url token)),
                  (t, AcceptAnswer sdp) ::
                  (if hub_candidate_ok hub then [(t, LocalCandidate addr)] else []))
        end)
    end)).

(** ** Failover (main.rs) *)

Definition RELAY_CANDIDATE_CONNECT_TIMEOUT : Z := 8000.

(** The attempt under its timeout: the result, the time it took, and what
    happened before it was dropped. *)
Definition attempt (hub : Hub) (url token : str) (addr : SocketAddr) (room : str)
    : option PendingRelay * Z * list (Z * WsEffect) :=
  let '(o, es) := connect_upstream hub url token addr room in
  match o with
  | Finished t r =>
      if t <=? RELAY_CANDIDATE_CONNECT_TIMEOUT
      then (match r with Ok p => Some p | Err _ => None end, t, es)
      else (None, RELAY_CANDIDATE_CONNECT_TIMEOUT,
            filter (fun x => x.1 <= RELAY_CANDIDATE_CONNECT_TIMEOUT) es)
  | Never => (None, RELAY_CANDIDATE_CONNECT_TIMEOUT,
              filter (fun x => x.1 <= RELAY_CANDIDATE_CONNECT_TIMEOUT) es)
  end.

(** [hubs u] answers for the upstream [u]. *)
Fixpoint dial (hubs : str -> Hub) (candidates : list str) (token : str) (addr : SocketAddr) (room : str)
    : option PendingRelay * list Effect * Z * list WsEffect :=
  match candidates with
  | [] => (None, [Inc "relay_candidate_exhausted_total" []], 0, [])
  | u :: rest =>
      match attempt (hubs u) u token addr room with
      | (Some p, t, es) => (Some p, [Inc "relay_connect_success_total" []], t, es.*2)
      | (None, t, es) =>
          let '(p, fx, t', es') := dial hubs rest token addr room in
          (p, fx, t + t', es.*2 ++ es')
      end
  end.
End exchange.
