(* ===== verification/RelayClientFacts.v ===== *)
(** * Theorems on the outbound relay connection

    Which hub a relay task ends up with, how long it can take, what it tells the
    hubs, and which answer it accepts.  The dialling of RelayApi.v is this one with
    the exchange hidden. *)

From Stdlib Require Import ZArith Lia.
From stdpp Require Import base option numbers gmap strings list.
From S2P Require Import Prelude RustStr NetAddr DdParse DdCache SfuTypes RoomAuth SfuChannelData RelayApi RelayApiFacts RelayClient.

Example join_message_text : join_message = lit "{" ++ [QUOTE] ++ lit "type" ++ [QUOTE] ++ lit ":" ++
  [QUOTE] ++ lit "join" ++ [QUOTE] ++ lit "}".
Proof. reflexivity. Qed.

Section facts.
Variable parse_json : str -> option Json.
Variable to_string : Json -> str.
Variable parse_uri : str -> option Uri.

(** What the opaque hub of RelayApi.v answers. *)
Definition attempt_of (hubs : str -> Hub) (token : str) (addr : SocketAddr) (room u : str) : Attempt :=
  match (connect_upstream parse_json to_string parse_uri (hubs u) u token addr room).1 with
  | Finished t (Ok _) => if t <=? RELAY_CANDIDATE_CONNECT_TIMEOUT then Exchanged else Elapsed
  | Finished t (Err _) => if t <=? RELAY_CANDIDATE_CONNECT_TIMEOUT then Refused else Elapsed
  | Never => Elapsed
  end.

(** Case on every answer of the hub. *)
Ltac walk hub :=
  unfold connect_upstream, then_;
  destruct (is_allowed_upstream parse_uri _) eqn:?; cbn [negb];
  [destruct (hub_open hub); [destruct (hub_join hub); [destruct (hub_sdp_offer hub) eqn:?;
    [destruct (hub_offer hub); [destruct (await_answer parse_json (hub_frames hub) (hub_closes hub)) as [?t [?sdp|?e]|];
      [destruct (hub_answer_parses hub _); cbn [negb]; [destruct (hub_answer_accepted hub _); cbn [negb]|]| | ]
      | | ] | ] | | ] | | ] | ].

(** A relay that comes out of the exchange is the one asked for. *)
Lemma exchanged_pending hub url token addr room t p :
  (connect_upstream parse_json to_string parse_uri hub url token addr room).1 = Finished t (Ok p) ->
  p = mkPendingRelay room url token /\ is_allowed_upstream parse_uri url = true.
Proof. walk hub; cbn; try discriminate. by intros [= _ <-]. Qed.

Lemma attempt_opaque hubs u token addr room :
  (attempt parse_json to_string parse_uri (hubs u) u token addr room).1.1 =
  match RelayApi.connect_relay parse_uri (attempt_of hubs token addr room) u token room with
  | Ok p => Some p | Err _ => None
  end.
Proof.
  unfold attempt, RelayApi.connect_relay, attempt_of.
  pose proof (exchanged_pending (hubs u) u token addr room) as H.
  assert (is_allowed_upstream parse_uri u = false ->
    (connect_upstream parse_json to_string parse_uri (hubs u) u token addr room).1 = Finished 0 (Err NotAllowed)) as H0.
  { intros E. unfold connect_upstream. by rewrite E. }
  destruct (connect_upstream _ _ _ (hubs u) u token addr room) as [[t [p|e]|] es]; cbn [fst] in *.
  - destruct (H t p eq_refl) as [-> ->]. cbn [negb]. by destruct (t <=? _).
  - destruct (is_allowed_upstream parse_uri u); cbn [negb]; by destruct (t <=? _).
  - destruct (is_allowed_upstream parse_uri u); cbn [negb]; done.
Qed.

(** The failover of RelayApi.v is this one when each of its hubs answers with the
    outcome of the exchange. *)
Lemma dial_refines hubs candidates token addr room :
  let d := dial parse_json to_string parse_uri hubs candidates token addr room in
  d.1.1 = relay_connect_failover parse_uri (attempt_of hubs token addr room) candidates token room.
Proof.
  cbn zeta. induction candidates as [|u l IH]; cbn [dial relay_connect_failover]; [done|].
  pose proof (attempt_opaque hubs u token addr room) as H.
  destruct (attempt _ _ _ (hubs u) u token addr room) as [[o t] es]. cbn [fst] in H. subst o.
  destruct (RelayApi.connect_relay _ _ u token room) as [p|a]; [done|].
  by destruct (dial _ _ _ hubs l token addr room) as [[[p fx] t'] es'].
Qed.

Lemma attempt_time hub u token addr room :
  (attempt parse_json to_string parse_uri hub u token addr room).1.2 <= RELAY_CANDIDATE_CONNECT_TIMEOUT.
Proof.
  unfold attempt. destruct (connect_upstream _ _ _ hub u token addr room) as [[t r|] es]; cbn; [|lia].
  destruct (Z.leb_spec t RELAY_CANDIDATE_CONNECT_TIMEOUT); cbn; lia.
Qed.

Lemma dial_time hubs candidates token addr room :
  (dial parse_json to_string parse_uri hubs candidates token addr room).1.2 <=
    RELAY_CANDIDATE_CONNECT_TIMEOUT * Z.of_nat (length candidates).
Proof.
  induction candidates as [|u l IH]; cbn [dial length]; [cbn; lia|].
  pose proof (attempt_time (hubs u) u token addr room) as H.
  destruct (attempt _ _ _ (hubs u) u token addr room) as [[[p|] t] es]; cbn [fst snd] in *.
  - unfold RELAY_CANDIDATE_CONNECT_TIMEOUT in *. lia.
  - destruct (dial _ _ _ hubs l token addr room) as [[[p fx] t'] es']. cbn [fst snd] in *.
    unfold RELAY_CANDIDATE_CONNECT_TIMEOUT in *. lia.
Qed.

(** A relay task ends: whatever the hubs do, also when they accept the
    connection and never answer, dialling all the candidates of a grant takes at
    most 64 seconds. *)
Theorem relay_task_bounded hubs jwt token addr room :
  (dial parse_json to_string parse_uri hubs (select_candidates parse_uri jwt) token addr room).1.2 <= 64000.
Proof.
  etransitivity; [apply dial_time|]. unfold select_candidates. rewrite length_take.
  unfold RELAY_CANDIDATE_CONNECT_TIMEOUT, MAX_RELAY_CANDIDATES. lia.
Qed.

(** What an attempt may do on the network: open a connection to an allowed hub,
    send it the text of the join message and str0m's offer in its envelope. *)
Definition signalling (hub : Hub) (url : str) (e : WsEffect) : Prop :=
  match e with
  | WsOpen u => u = url /\ allowed_hub parse_uri url
  | WsSend t =>
      t = lit "{" ++ [QUOTE] ++ lit "type" ++ [QUOTE] ++ lit ":" ++ [QUOTE] ++ lit "join" ++ [QUOTE] ++ lit "}" \/
      exists offer, hub_sdp_offer hub = Some offer /\
        t = to_string (JObj [(lit "type", JStr (lit "signal"));
                             (lit "payload", JObj [(lit "type", JStr (lit "offer")); (lit "sdp", JStr offer)])])
  | AcceptAnswer _ | LocalCandidate _ => True
  end.

Lemma connect_signalling hub url token addr room :
  Forall (fun x => signalling hub url x.2)
    (connect_upstream parse_json to_string parse_uri hub url token addr room).2.
Proof.
  pose proof (proj1 (allowlist_exact parse_uri url)) as Ha.
  walk hub; cbn [snd]; try destruct (hub_candidate_ok hub);
    repeat (apply List.Forall_cons;
      [first [exact I | by split; [|apply Ha] | by left | right; eexists; split; [eassumption|reflexivity]]|]);
    apply List.Forall_nil.
Qed.

(** Neither the outcome, but for the relay's fields, nor the effects look at the
    token and the room. *)
Lemma connect_blind hub url addr token room token' room' :
  let a := connect_upstream parse_json to_string parse_uri hub url token addr room in
  let b := connect_upstream parse_json to_string parse_uri hub url token' addr room' in
  a.2 = b.2 /\
  match a.1, b.1 with
  | Finished t (Ok _), Finished t' (Ok _) => t = t'
  | Finished t (Err e), Finished t' (Err e') => t = t' /\ e = e'
  | Never, Never => True
  | _, _ => False
  end.
Proof. walk hub; cbn; done. Qed.

Lemma attempt_blind hub url addr token room token' room' :
  let a := attempt parse_json to_string parse_uri hub url token addr room in
  let b := attempt parse_json to_string parse_uri hub url token' addr room' in
  a.2 = b.2 /\ a.1.2 = b.1.2 /\ (is_Some a.1.1 <-> is_Some b.1.1).
Proof.
  unfold attempt. pose proof (connect_blind hub url addr token room token' room') as [E O].
  destruct (connect_upstream _ _ _ hub url token addr room) as [[t [p|e]|] es],
    (connect_upstream _ _ _ hub url token' addr room') as [[t' [p'|e']|] es']; cbn [fst snd] in *; try done;
    destruct_and?; subst; try (destruct (_ <=? _)); cbn; split_and!; try done; split; by eexists.
Qed.

Lemma attempt_signalling hub url token addr room :
  Forall (signalling hub url) ((attempt parse_json to_string parse_uri hub url token addr room).2.*2).
Proof.
  pose proof (connect_signalling hub url token addr room) as H. unfold attempt.
  destruct (connect_upstream _ _ _ hub url token addr room) as [[t r|] es]; cbn [snd] in *;
    [destruct (t <=? _)|]; cbn [snd]; apply Forall_fmap; try exact H; by apply Forall_filter_keep.
Qed.

(** C18. The signalling connection does not carry the room token: only candidates
    on the allow-list are contacted, only the join message and str0m's offer are
    sent to them, and what is sent, to which of the given candidate URLs and in
    which order, stays the same when the token is replaced by any other, and also
    when the room argument is (the candidate URLs themselves, which end in the
    room's name, are given and the same). *)
Theorem token_not_signalled hubs candidates addr token room :
  let es := (dial parse_json to_string parse_uri hubs candidates token addr room).2 in
  Forall (fun e => exists u, u ∈ candidates /\ signalling (hubs u) u e) es /\
  forall token' room', (dial parse_json to_string parse_uri hubs candidates token' addr room').2 = es.
Proof.
  cbn zeta. split.
  - induction candidates as [|u l IH]; cbn [dial]; [constructor|].
    pose proof (attempt_signalling (hubs u) u token addr room) as H.
    assert (Forall (fun e => exists v, v ∈ u :: l /\ signalling (hubs v) v e)
      ((attempt parse_json to_string parse_uri (hubs u) u token addr room).2.*2)) as H1.
    { eapply Forall_impl; [exact H|]. intros e He. exists u. split; [by left | done]. }
    destruct (attempt _ _ _ (hubs u) u token addr room) as [[[p|] t] es]; [exact H1|].
    destruct (dial _ _ _ hubs l token addr room) as [[[p fx] t'] es']. cbn [snd] in *.
    apply Forall_app_2; [exact H1|]. eapply Forall_impl; [exact IH|].
    intros e (v & Hv & He). exists v. split; [by right | done].
  - intros token' room'. induction candidates as [|u l IH]; cbn [dial]; [done|].
    pose proof (attempt_blind (hubs u) u addr token room token' room') as (E1 & E2 & E3).
    destruct (attempt _ _ _ (hubs u) u token addr room) as [[[p|] t] es],
      (attempt _ _ _ (hubs u) u token' addr room') as [[[p'|] t'] es']; cbn [fst snd] in *; subst; try done.
    + destruct E3 as [E3 _]. by destruct (E3 ltac:(by eexists)).
    + destruct E3 as [_ E3]. by destruct (E3 ltac:(by eexists)).
    + destruct (dial _ _ _ hubs l token addr room) as [[[? ?] ?] ?],
        (dial _ _ _ hubs l token' addr room') as [[[? ?] ?] ?]. cbn [snd] in *. by rewrite IH.
Qed.

(** A message that is not an answer is passed over. *)
Definition passed (x : Z * Frame) : Prop :=
  match x.2 with
  | FText t => exists v, parse_json t = Some v /\ answer_of v = None
  | FOther => True
  | FError => False
  end.

Lemma await_passed before frames closes :
  Forall passed before -> await_answer parse_json (before ++ frames) closes = await_answer parse_json frames closes.
Proof.
  induction 1 as [|[t f] before Hp _ IH]; [done|]. cbn [app await_answer].
  destruct f as [text| |]; [|done..]. destruct Hp as (v & Hv & Ha). cbn in Hv. by rewrite Hv, Ha.
Qed.

(** The first answer is the one taken: the wait ends well exactly at the first
    message that is an answer, when no error, close or text that is not JSON came
    before it. *)
Theorem first_answer_taken frames closes t sdp :
  await_answer parse_json frames closes = Finished t (Ok sdp) <->
  exists before text v rest, frames = before ++ (t, FText text) :: rest /\ Forall passed before /\
    parse_json text = Some v /\ answer_of v = Some sdp.
Proof.
  split.
  - induction frames as [|[t0 f] frames IH]; cbn [await_answer]; [by destruct closes|].
    assert (passed (t0, f) -> await_answer parse_json frames closes = Finished t (Ok sdp) ->
      exists before text v rest, (t0, f) :: frames = before ++ (t, FText text) :: rest /\
        Forall passed before /\ parse_json text = Some v /\ answer_of v = Some sdp) as Hnext.
    { intros Hp (b & text & v & rest & -> & Hb & Hv & Ha)%IH.
      exists ((t0, f) :: b), text, v, rest. split_and!; [done | by constructor | done | done]. }
    destruct f as [text| |]; [|by apply Hnext|done].
    destruct (parse_json text) as [v|] eqn:Hv; [|done]. destruct (answer_of v) as [sdp'|] eqn:Ha.
    + intros [= -> ->]. exists [], text, v, frames. by split_and!.
    + apply Hnext. by exists v.
  - intros (b & text & v & rest & -> & Hb & Hv & Ha). rewrite await_passed by done.
    cbn [await_answer]. by rewrite Hv, Ha.
Qed.

(** ** The hub that is taken *)

(** The message carries an answer: an object with a string member [type] equal to
    [signal] and an object [payload] whose [type] is [answer]; [sdp] is the string
    member of that name, or empty. *)
Definition is_answer (v : Json) (sdp : str) : Prop :=
  json_get v "type" = JStr (lit "signal") /\
  exists ms, json_get v "payload" = JObj ms /\ json_get (JObj ms) "type" = JStr (lit "answer") /\
    (json_get (JObj ms) "sdp" = JStr sdp \/
     (forall s, json_get (JObj ms) "sdp" <> JStr s) /\ sdp = []).

Lemma json_is_true v s : json_is v s = true <-> v = JStr (lit s).
Proof.
  unfold json_is. destruct v; try (by split). rewrite bool_decide_eq_true. split; congruence.
Qed.

#[local] Opaque json_get.
Lemma answer_of_is v sdp : answer_of v = Some sdp <-> is_answer v sdp.
Proof.
  unfold answer_of, is_answer. destruct (json_is (json_get v "type") "signal") eqn:Ht.
  2: { split; [done|]. intros [E%json_is_true _]. congruence. }
  apply json_is_true in Ht. rewrite Ht.
  destruct (json_get v "payload") as [|s|ms|]; cbn [is_object andb]; try (split; [done|]; by intros [_ (ms & ? & _)]).
  destruct (json_is (json_get (JObj ms) "type") "answer") eqn:Ha.
  2: { split; [done|]. intros [_ (ms' & [= <-] & E%json_is_true & _)]. congruence. }
  apply json_is_true in Ha. split.
  - intros E. injection E as <-. split; [done|]. exists ms. split_and!; [done..|].
    destruct (json_get (JObj ms) "sdp"); cbn; [right | by left | right | right]; (split; [|done]; discriminate).
  - intros [_ (ms' & [= <-] & _ & [->|[Hn ->]])]; [done|].
    destruct (json_get (JObj ms) "sdp") as [|s| |]; cbn; try done. by destruct (Hn s).
Qed.
#[local] Transparent json_get.

(** An exchange with an allowed hub that ends well at [t]: connected, both
    messages sent, and the first text that is an answer arrives at [t], after
    nothing but JSON texts that are not answers and frames of other kinds; str0m
    takes the answer. *)
Definition exchange_ends (hub : Hub) (url : str) (t : Z) : Prop :=
  allowed_hub parse_uri url /\
  (exists t1, hub_open hub = StepDone t1) /\ (exists t2, hub_join hub = StepDone t2) /\
  (exists offer, hub_sdp_offer hub = Some offer) /\ (exists t3, hub_offer hub = StepDone t3) /\
  exists before text v rest sdp,
    hub_frames hub = before ++ (t, FText text) :: rest /\
    Forall (fun f => f.2 = FOther \/ exists s w, f.2 = FText s /\ parse_json s = Some w /\ forall a, ~ is_answer w a)
      before /\
    parse_json text = Some v /\ is_answer v sdp /\
    hub_answer_parses hub sdp = true /\ hub_answer_accepted hub sdp = true.

Lemma passed_over f :
  passed f <-> f.2 = FOther \/ exists s w, f.2 = FText s /\ parse_json s = Some w /\ forall a, ~ is_answer w a.
Proof.
  unfold passed. destruct f as [t [s| |]]; cbn; split; try naive_solver.
  - intros (v & Hv & Ha). right. exists s, v. split_and!; [done..|]. intros a E%answer_of_is. congruence.
  - intros [?|(s' & w & [= <-] & Hw & Hn)]; [done|]. exists w. split; [done|].
    destruct (answer_of w) as [a|] eqn:E; [|done]. by apply answer_of_is, Hn in E.
Qed.

Lemma exchange_ends_spec hub url token addr room t :
  exchange_ends hub url t <->
  (connect_upstream parse_json to_string parse_uri hub url token addr room).1
    = Finished t (Ok (mkPendingRelay room url token)).
Proof.
  unfold exchange_ends. rewrite <- allowlist_exact. split.
  - intros (Ha & [t1 H1] & [t2 H2] & [offer Ho] & [t3 H3] & before & text & v & rest & sdp & Hf & Hb & Hv & Hs & Hp & Hc).
    unfold connect_upstream, then_. rewrite Ha, H1, H2, Ho, H3. cbn [negb].
    rewrite (proj2 (first_answer_taken (hub_frames hub) (hub_closes hub) t sdp)).
    + by rewrite Hp, Hc.
    + exists before, text, v, rest. split_and!; [done| |done|by apply answer_of_is].
      eapply Forall_impl; [exact Hb|]. intros f Hx. by apply passed_over.
  - unfold connect_upstream, then_. destruct (is_allowed_upstream parse_uri url); [|done]. cbn [negb].
    destruct (hub_open hub); [|done..]. destruct (hub_join hub); [|done..].
    destruct (hub_sdp_offer hub); [|done]. destruct (hub_offer hub); [|done..].
    destruct (await_answer parse_json (hub_frames hub) (hub_closes hub)) as [t' [sdp|e]|] eqn:Hw; [|done..].
    destruct (hub_answer_parses hub sdp) eqn:Hp; [|done]. destruct (hub_answer_accepted hub sdp) eqn:Hc; [|done].
    cbn. intros [= ->]. apply first_answer_taken in Hw as (before & text & v & rest & Hf & Hb & Hv & Hs%answer_of_is).
    split_and!; eauto. exists before, text, v, rest, sdp. split_and!; try done.
    eapply Forall_impl; [exact Hb|]. intros f Hx. by apply passed_over.
Qed.

(** The hub completes the exchange within eight seconds. *)
Definition in_time (hub : Hub) (url : str) : Prop := exists t, exchange_ends hub url t /\ t <= 8000.

Lemma attempt_in_time hub url token addr room :
  match (attempt parse_json to_string parse_uri hub url token addr room).1.1 with
  | Some p => p = mkPendingRelay room url token /\ in_time hub url
  | None => ~ in_time hub url
  end.
Proof.
  pose proof (exchange_ends_spec hub url token addr room) as Hs.
  pose proof (exchanged_pending hub url token addr room) as He. unfold attempt, in_time.
  destruct (connect_upstream _ _ _ hub url token addr room) as [[t [p|e]|] es]; cbn [fst] in *.
  - destruct (He t p eq_refl) as [-> _]. destruct (Z.leb_spec t RELAY_CANDIDATE_CONNECT_TIMEOUT) as [Hl|Hl];
      unfold RELAY_CANDIDATE_CONNECT_TIMEOUT in Hl; cbn.
    + split; [done|]. exists t. split; [by apply Hs | done].
    + intros (t' & E%Hs & ?). simplify_eq. lia.
  - destruct (t <=? _); cbn; by intros (t' & E%Hs & _).
  - cbn. by intros (t' & E%Hs & _).
Qed.

(** C19. Failover takes the first candidate that works: the relay that is handed
    on is to the first candidate, in the given order, that is allow-listed and
    completes the WebSocket and SDP exchange within eight seconds, with the given
    room and token, and one success is counted; when there is none nothing is
    handed on and one exhaustion is counted.  Either way dialling ends, after at
    most eight seconds for each candidate, also when hubs accept the connection
    and never answer. *)
Theorem dial_takes_first hubs candidates token addr room :
  match dial parse_json to_string parse_uri hubs candidates token addr room with
  | (Some p, fx, t, _) =>
      t <= 8000 * Z.of_nat (length candidates) /\ fx = [Inc "relay_connect_success_total" []] /\
      exists before u after, candidates = before ++ u :: after /\
        p = mkPendingRelay room u token /\ in_time (hubs u) u /\
        Forall (fun w => ~ in_time (hubs w) w) before
  | (None, fx, t, _) =>
      t <= 8000 * Z.of_nat (length candidates) /\ fx = [Inc "relay_candidate_exhausted_total" []] /\
      Forall (fun w => ~ in_time (hubs w) w) candidates
  end.
Proof.
  pose proof (dial_time hubs candidates token addr room) as Ht. revert Ht.
  unfold RELAY_CANDIDATE_CONNECT_TIMEOUT.
  enough (match dial parse_json to_string parse_uri hubs candidates token addr room with
    | (Some p, fx, _, _) => fx = [Inc "relay_connect_success_total" []] /\
        exists before u after, candidates = before ++ u :: after /\
          p = mkPendingRelay room u token /\ in_time (hubs u) u /\
          Forall (fun w => ~ in_time (hubs w) w) before
    | (None, fx, _, _) => fx = [Inc "relay_candidate_exhausted_total" []] /\
        Forall (fun w => ~ in_time (hubs w) w) candidates
    end) as Hd by (by destruct (dial _ _ _ hubs candidates token addr room) as [[[[p|] fx] t] es]).
  induction candidates as [|u l IH]; cbn [dial]; [by split|].
  pose proof (attempt_in_time (hubs u) u token addr room) as Ha.
  destruct (attempt _ _ _ (hubs u) u token addr room) as [[[p|] t] es]; cbn [fst] in Ha.
  - destruct Ha as [-> Hi]. split; [done|]. by exists [], u, l.
  - destruct (dial _ _ _ hubs l token addr room) as [[[[p|] fx] t'] es'].
    + destruct IH as [-> (before & v & after & -> & -> & Hv & Hb)]. split; [done|].
      exists (u :: before), v, after. split_and!; try done. by constructor.
    + destruct IH as [-> Hl]. split; [done|]. by constructor.
Qed.

(** The answer in the format of the offer is understood. *)
Lemma answer_understood sdp : answer_of (signal_value "answer" sdp) = Some sdp.
Proof. reflexivity. Qed.
Lemma offer_is_no_answer sdp : answer_of (signal_value "offer" sdp) = None.
Proof. reflexivity. Qed.
End facts.

(** Two hubs of the mesh: the first accepts the connection and never answers, the
    second answers after 40 ms. *)
Example second_hub_taken :
  let parse t := if decide (t = lit "answer") then Some (signal_value "answer" (lit "v=0")) else Some JNull in
  let uri (_ : str) := Some (mkUri (Some (lit "ws")) (Some (lit "10.9.0.7"))) in
  let hub frames := mkHub (StepDone 5) (StepDone 6) (Some (lit "offer")) (StepDone 7) frames None
                      (fun _ => true) (fun _ => true) true in
  let hubs u := if decide (u = lit "a") then hub [(20, FOther)] else hub [(30, FText (lit "x")); (40, FText (lit "answer"))] in
  (dial parse (fun _ => lit "json") uri hubs [lit "a"; lit "b"; lit "c"] (lit "tok")
     (mkAddr (V4 0 0 0 0) 3478) (lit "r")).1 =
  (Some (mkPendingRelay (lit "r") (lit "b") (lit "tok")), [Inc "relay_connect_success_total" []], 8040).
Proof. vm_compute. reflexivity. Qed.
