(* ===== verification/ClientWs.v ===== *)
(** * Browser signalling (crates/sfu/src/client_ws/handler.rs, session.rs, bwe_hint.rs)

    The WebSocket endpoint: the bearer token in the subprotocol header, its
    verification, the admission cap, the session that exchanges SDP and then
    parks until it is closed or stolen, and the shared rate gate of bandwidth
    hints.

    Parameters: the token library; serde_json ([json] gives the string members
    of a text frame); str0m's answers ([accept_offer] and the like are fields of
    [SessionEnv]).  What arrives on the socket is a list of events. *)

From Stdlib Require Import ZArith Lia.
From stdpp Require Import base option numbers gmap strings list.
From S2P Require Import Prelude RustStr DdParse DdCache SfuTypes RoomAuth.

(** ** The bearer token *)

Definition bearer_of (part : str) : option str :=
  let trimmed := trim part in
  let nonempty (t : str) := if is_empty t then None else Some t in
  match strip_prefix (lit "bearer.") trimmed ≫= nonempty with
  | Some token => Some token
  | None => strip_prefix (lit "Bearer ") trimmed ≫= nonempty
  end.

Fixpoint first_some {A B} (f : A -> option B) (l : list A) : option B :=
  match l with
  | [] => None
  | x :: l' => match f x with Some y => Some y | None => first_some f l' end
  end.

(** [header] is the value of [Sec-WebSocket-Protocol], when it is there and
    visible ASCII. *)
Definition extract_bearer_from_subprotocols (header : option str) : option str :=
  match header with
  | None => None
  | Some raw => first_some bearer_of (split_on COMMA raw)
  end.

(** ** Verification *)

Record ClientWsState := mkWsState {
  ws_secret : list Z;
  ws_signing_pubkey : option str;
  ws_hs256_fallback_enabled : bool;
}.

Section endpoint.
Context `{Jwt}.
Variable now : Z.
Variable cell : PolicyCell.

Definition verify_counted (alg : string) : list Effect := [Inc "relay_jwt_verify_total" [alg]].

Definition verify_token (token room_id : str) (st : ClientWsState)
    : result RoomClaims RoomAuthError * list Effect :=
  let hs256 :=
    match verify_room_token now cell token room_id (ws_secret st) with
    | Ok c => (Ok c, verify_counted "hs256")
    | Err e => (Err e, [])
    end in
  match ws_signing_pubkey st with
  | Some pubkey =>
      match verify_room_token_ed25519 now cell token room_id pubkey with
      | Ok c => (Ok c, verify_counted "eddsa")
      | Err RaInvalidSignature =>
          if negb (ws_hs256_fallback_enabled st) then (Err RaInvalidSignature, []) else hs256
      | Err e => (Err e, [])
      end
  | None => hs256
  end.

(** ** The upgrade *)

Definition CLOSE_CODE_ROOM_MISMATCH : Z := 4001.

Inductive Upgrade :=
| Unauthorized
| ServiceUnavailable
| ClosedAfterUpgrade (code : Z)
| RunSession (peer_id : Z) (room_id : str).

Definition handshake_failure (reason : string) : list Effect :=
  [Inc "client_ws_handshake_failures_total" [reason]].

(** [active_sessions] is the gauge as the handler reads it. *)
Definition client_ws_upgrade (st : ClientWsState) (max_participants active_sessions : Z)
    (header : option str) (room_id : str) : Upgrade * list Effect :=
  match extract_bearer_from_subprotocols header with
  | None => (Unauthorized, handshake_failure "missing_token")
  | Some token =>
      let '(verdict, fx) := verify_token token room_id st in
      match verdict with
      | Err (RaRoomMismatch _ _) =>
          (ClosedAfterUpgrade CLOSE_CODE_ROOM_MISMATCH, fx ++ handshake_failure "room_mismatch")
      | Err RaExpired => (Unauthorized, fx ++ handshake_failure "expired_token")
      | Err (RaInvalidSignature | RaMalformed) =>
          (Unauthorized, fx ++ handshake_failure "invalid_token")
      | Ok claims =>
          if max_participants <=? active_sessions
          then (ServiceUnavailable, fx ++ [Inc "sfu_admission_rejected_total" ["at_capacity"]])
          else (RunSession (rc_sub claims) room_id, fx)
      end
  end.
End endpoint.

(** ** The offer *)

Inductive Recv :=
| RText (t : str)
| RPing (pong_ok : bool)
| RPong
| RBinary
| RClosed
| RElapsed.

Inductive OfferReadError := OfTimeout | OfWsClosed | OfJsonErr.

Definition offer_outcome (e : OfferReadError) : string :=
  match e with OfTimeout => "timeout" | OfWsClosed => "ws_closed" | OfJsonErr => "json_err" end.

Section session.
(** The string members of a JSON object. *)
Variable json : str -> option (string -> option str).

Definition decode_offer (t : str) : result str OfferReadError :=
  match json t with
  | None => Err OfJsonErr
  | Some get =>
      if bool_decide (get "kind" = Some (lit "offer")) then
        match get "sdp" with
        | None => Err OfJsonErr
        | Some sdp => if is_empty sdp then Err OfJsonErr else Ok sdp
        end
      else Err OfJsonErr
  end.

(** Frames before the offer; a socket that says nothing runs into the timeout. *)
Fixpoint read_offer (frames : list Recv) : result str OfferReadError :=
  match frames with
  | [] | RElapsed :: _ => Err OfTimeout
  | RText t :: _ => decode_offer t
  | RPing true :: rest | RPong :: rest | RBinary :: rest => read_offer rest
  | RPing false :: _ | RClosed :: _ => Err OfWsClosed
  end.

(** ** The rate gate of bandwidth hints *)

Definition HintRegistry := gmap Z Instant.

(** Check and update, under the lock: [true] is a throttled hint. *)
Definition hint_gate (interval : Z) (peer : Z) (now : Instant) (reg : HintRegistry)
    : bool * HintRegistry :=
  match reg !! peer with
  | Some t => if duration_since now t <? interval then (true, reg) else (false, <[peer := now]> reg)
  | None => (false, <[peer := now]> reg)
  end.

Definition scrub_hint_registry (peer : Z) (reg : HintRegistry) : HintRegistry := delete peer reg.

(** [hint_min_interval_ms], from the environment. *)
Definition hint_min_interval_ms (env : option str) : Z :=
  Z.max 1 (default 100 (env ≫= parse_u64)).

(** ** Parking *)

Inductive CloseReason := SessionReplaced | PeerLeft | ServerShutdown.

Definition ws_close_code (r : CloseReason) : Z :=
  match r with SessionReplaced => 4031 | PeerLeft => 4002 | ServerShutdown => 1001 end.

(** Answers to a renegotiation offer, for the media loop. *)
Record AnswerRenegotiate := mkAnswer { ar_sdp : str; ar_mid : str }.

(** How the bounded control channel takes an answer: at once, within the
    retry's 500 ms, or not at all. *)
Inductive CtrlSend := SentNow | SentOnRetry | NotSent.

Inductive ParkEvent :=
| EvSteal (reason : option CloseReason)
| EvPush (send_ok : bool)
| EvRecv (frame : Recv) (now : Instant) (ctrl : CtrlSend) (hint_fields : bool).

(** What a parked session has done so far. *)
Record Parked := mkParked {
  pk_hints : HintRegistry;
  pk_ctrl : list AnswerRenegotiate;
  pk_effects : list Effect;
}.

Definition with_effects (fx : list Effect) (p : Parked) : Parked :=
  mkParked (pk_hints p) (pk_ctrl p) (pk_effects p ++ fx).

Definition accept_answer (ctrl : CtrlSend) (a : AnswerRenegotiate) (p : Parked) : Parked :=
  match ctrl with
  | SentNow => mkParked (pk_hints p) (pk_ctrl p ++ [a]) (pk_effects p)
  | SentOnRetry =>
      mkParked (pk_hints p) (pk_ctrl p ++ [a])
        (pk_effects p ++ [Inc "sfu_renegotiation_answers_total" ["ctrl_tx_retry_ok"]])
  | NotSent => with_effects [Inc "sfu_renegotiation_answers_total" ["ctrl_tx_full"]] p
  end.

Definition take_hint (interval peer : Z) (now : Instant) (p : Parked) : Parked :=
  let '(throttled, reg) := hint_gate interval peer now (pk_hints p) in
  mkParked reg (pk_ctrl p)
    (pk_effects p ++
      [Inc (if throttled then "sfu_bwe_hint_throttled_total" else "sfu_bwe_hint_received_total")
           [label_of peer]]).

(** A text frame of a parked session; [hint_fields] says whether the numeric
    members of a hint are there. *)
Definition park_text (interval peer : Z) (t : str) (now : Instant) (ctrl : CtrlSend)
    (hint_fields : bool) (p : Parked) : Parked :=
  match json t with
  | None => p
  | Some get =>
      if bool_decide (get "kind" = Some (lit "ice")) then p
      else if bool_decide (get "type" = Some (lit "answer-renegotiate")) then
        match get "sdp" with
        | Some sdp => accept_answer ctrl (mkAnswer sdp (default [] (get "mid"))) p
        | None => p
        end
      else if bool_decide (get "kind" = Some (lit "bwe-hint")) then
        if bool_decide (is_Some (get "from")) && hint_fields then take_hint interval peer now p else p
      else p
  end.

(** [None] for the close code: the default of the guard stays. *)
Fixpoint park_until_close_or_steal (interval peer : Z) (evs : list ParkEvent) (p : Parked)
    : bool * option Z * Parked :=
  match evs with
  | [] => (false, None, p)
  | EvSteal reason :: _ => (true, Some (ws_close_code (default ServerShutdown reason)), p)
  | EvPush ok :: rest =>
      if ok then park_until_close_or_steal interval peer rest p else (false, None, p)
  | EvRecv (RText t) now ctrl hf :: rest =>
      park_until_close_or_steal interval peer rest (park_text interval peer t now ctrl hf p)
  | EvRecv (RPing true | RPong | RBinary) _ _ _ :: rest =>
      park_until_close_or_steal interval peer rest p
  | EvRecv (RPing false | RClosed | RElapsed) _ _ _ :: _ => (false, None, p)
  end.

(** ** A session *)

(** What the socket and str0m do in the course of one session. *)
Record SessionEnv := mkSessionEnv {
  se_frames : list Recv;
  se_candidate_ok : bool;
  se_offer_parses : bool;
  se_offer_accepted : bool;
  se_msids : bool;
  se_inject_ok : bool;
  se_answer_sent : bool;
  se_events : list ParkEvent;
  se_elapsed : Z;
}.

Inductive SessionEffect :=
| Metric (e : Effect)
| Inject (peer_id : Z) (room_id : str)
| SendAnswer
| CloseFrame (code : Z).

Definition BAD_OFFER : Z := 4002.
Definition SDP_INTERNAL : Z := 4003.
Definition SERVER_GOING_AWAY : Z := 1001.

Definition close_code_label (code : Z) : string :=
  if bool_decide (code ∈ [1000; 1001; 4001; 4002; 4003; 4031]) then label_of code else "other".

(** [ActiveSessionGuard]: counted in when it is built, out when it is dropped. *)
Definition guard_new : list SessionEffect := [Metric (Inc "client_ws_active_sessions" [])].
Definition guard_drop (elapsed code : Z) : list SessionEffect :=
  [Metric (Dec "client_ws_active_sessions" []);
   Metric (Observe "client_ws_session_duration_seconds" elapsed);
   Metric (Inc "client_ws_session_ended_total" [close_code_label code])].

Definition offer_processed (outcome : string) : SessionEffect :=
  Metric (Inc "client_ws_offer_processed_total" [outcome]).

(** The session between the guard's construction and its drop: what it does,
    the close code it leaves in the guard, and the shared hint registry. *)
Definition session_body (interval peer : Z) (room : str) (env : SessionEnv) (reg : HintRegistry)
    : list SessionEffect * Z * HintRegistry :=
  match read_offer (se_frames env) with
  | Err e => ([offer_processed (offer_outcome e); CloseFrame BAD_OFFER], BAD_OFFER, reg)
  | Ok _ =>
      if negb (se_candidate_ok env) then
        ([offer_processed "ice_err"; CloseFrame SDP_INTERNAL], SDP_INTERNAL, reg)
      else if negb (se_offer_parses env) then
        ([offer_processed "sdp_err"; CloseFrame BAD_OFFER], BAD_OFFER, reg)
      else if negb (se_offer_accepted env) then
        ([offer_processed "sdp_err"; CloseFrame SDP_INTERNAL], SDP_INTERNAL, reg)
      else
        let accepted :=
          [offer_processed "ok";
           Metric (Inc "sdp_msid_injected_total" [if se_msids env then "true" else "false"])] in
        if negb (se_inject_ok env) then
          (accepted ++ [CloseFrame SERVER_GOING_AWAY], SERVER_GOING_AWAY, reg)
        else if negb (se_answer_sent env) then (accepted ++ [Inject peer room], 1000, reg)
        else
          let '(stole, code, p) :=
            park_until_close_or_steal interval peer (se_events env) (mkParked reg [] []) in
          let tail := if stole then [CloseFrame (default 1000 code)] else [CloseFrame 1000] in
          (accepted ++ [Inject peer room; SendAnswer; Metric (Inc "client_ws_answer_sent_total" [])]
             ++ (Metric <$> pk_effects p) ++ tail,
           default 1000 code, scrub_hint_registry peer (pk_hints p))
  end.

(** [run] *)
Definition run_session (interval peer : Z) (room : str) (env : SessionEnv) (reg : HintRegistry)
    : list SessionEffect * HintRegistry :=
  let '(fx, code, reg') := session_body interval peer room env reg in
  (guard_new ++ fx ++ guard_drop (se_elapsed env) code, reg').

(** The task an accepted upgrade spawns. *)
Definition upgraded (interval peer : Z) (room : str) (env : SessionEnv) (reg : HintRegistry)
    : list SessionEffect * HintRegistry :=
  let '(fx, reg') := run_session interval peer room env reg in
  (Metric (Inc "client_ws_sessions_started_total" []) :: fx, reg').
End session.

(** ** Many sessions

    The admission check reads the gauge; the gauge moves only when the spawned
    session starts and ends.  A state is the number of running sessions and of
    upgrades that were admitted and have not started yet. *)

Record Population := mkPopulation {
  active : Z;
  admitted : nat;
}.

Definition admits (max_participants : Z) (st : Population) : bool :=
  negb (max_participants <=? active st).

Inductive admission_step (max_participants : Z) : Population -> Population -> Prop :=
| StepAdmit st :
    admits max_participants st = true ->
    admission_step max_participants st (mkPopulation (active st) (S (admitted st)))
| StepStart a n :
    admission_step max_participants (mkPopulation a (S n)) (mkPopulation (a + 1) n)
| StepEnd a n :
    0 < a -> admission_step max_participants (mkPopulation a n) (mkPopulation (a - 1) n).

(** Runs in which an upgrade is admitted only when none is waiting to start. *)
Inductive serial_step (max_participants : Z) : Population -> Population -> Prop :=
| Serial st st' :
    admission_step max_participants st st' ->
    (admitted st' = S (admitted st) -> admitted st = 0%nat) ->
    serial_step max_participants st st'.

(** The events on the shared hint registry, from any session. *)
Inductive HintEvent :=
| HintFrom (peer : Z) (now : Instant)
| SessionExit (peer : Z).

(** The hints that pass the gate, in order. *)
Fixpoint hints_accepted (interval : Z) (evs : list HintEvent) (reg : HintRegistry)
    : list (Z * Instant) :=
  match evs with
  | [] => []
  | HintFrom peer now :: rest =>
      let '(throttled, reg') := hint_gate interval peer now reg in
      if throttled then hints_accepted interval rest reg'
      else (peer, now) :: hints_accepted interval rest reg'
  | SessionExit peer :: rest => hints_accepted interval rest (scrub_hint_registry peer reg)
  end.
