(* ===== verification/ClientWsFacts.v ===== *)
(** * Facts about browser signalling

    The three places that accept a token follow one rollout rule; an upgrade
    runs a session only on a bound token and below the cap; sessions are
    accounted for on every path; the hint gate and the admission cap, with the
    interleavings under which each holds. *)

From Stdlib Require Import ZArith Lia.
From stdpp Require Import base option numbers gmap strings list relations.
From S2P Require Import Prelude RustStr DdParse DdCache SfuTypes SfuRelayOut RoomAuth SfuChannelData RelayApi ClientWs.

(** ** One rollout rule *)

Definition relay_not_eddsa (e : RelayJwtError) : bool :=
  match e with RjInvalidSignature | RjAlgorithmMismatch => true | _ => false end.

Definition alg_label (a : Algorithm) : string :=
  match a with EdDSA => "eddsa" | HS256 => "hs256" end.

(** The shared-secret verdict may be consulted. *)
Definition consulted {A} (pubkey : option str) (fallback : bool) (verdict : A) : option A :=
  if bool_decide (pubkey = None) || fallback then Some verdict else None.

(** The three places that accept a token follow one rule.  The browser
    endpoint, the relay promotion and the relay grant each compute exactly the
    rollout rule on the verdicts of their two verifiers: Ed25519 first when a
    key is configured; the shared secret only after a verdict that the token
    was not signed with Ed25519 and only while the switch is on; every other
    verdict final.  The algorithm counted is the one that vouched, and with the
    same credentials the first two agree on every token. *)
Theorem rollout_sites_agree `{Jwt} now cell token room secret pubkey fallback k grant :
  let ed := verify_room_token_ed25519 now cell token room <$> pubkey in
  let hs := consulted pubkey fallback (verify_room_token now cell token room secret) in
  verify_token now cell token room (mkWsState secret pubkey fallback) =
    match rollout room_not_eddsa RaInvalidSignature ed hs with
    | Ok (c, alg) => (Ok c, [Inc "relay_jwt_verify_total" [alg_label alg]])
    | Err e => (Err e, [])
    end /\
  verify_promotion now cell token room (Some secret) pubkey fallback =
    (verify_token now cell token room (mkWsState secret pubkey fallback)).1 /\
  verify_relay_jwt k grant secret pubkey fallback =
    match rollout relay_not_eddsa RjInvalidSignature (relay_verify_ed25519 k grant <$> pubkey)
            (consulted pubkey fallback (relay_verify k grant secret)) with
    | Ok (j, alg) => Ok (j, alg_label alg)
    | Err e => Err e
    end.
Proof.
  cbv zeta. unfold verify_token, verify_promotion, verify_relay_jwt, rollout, consulted, tag_hs256.
  destruct pubkey as [pem|];
    cbn [fmap option_fmap option_map ws_signing_pubkey ws_secret ws_hs256_fallback_enabled].
  - rewrite !bool_decide_false by done. split_and!.
    + destruct (verify_room_token_ed25519 now cell token room pem) as [c|[]], fallback,
        (verify_room_token now cell token room secret) as [c'|e']; done.
    + destruct (verify_room_token_ed25519 now cell token room pem) as [c|[]], fallback,
        (verify_room_token now cell token room secret) as [c'|e']; done.
    + destruct (relay_verify_ed25519 k grant pem) as [j|[]], fallback,
        (relay_verify k grant secret) as [j'|e']; done.
  - rewrite !bool_decide_true by done. split_and!.
    + destruct (verify_room_token now cell token room secret) as [c'|e']; done.
    + destruct (verify_room_token now cell token room secret) as [c'|e']; done.
    + destruct (relay_verify k grant secret) as [j'|e']; done.
Qed.

(** ** The upgrade *)

Lemma verify_token_sound `{JwtLaws} now cell token room st c fx :
  verify_token now cell token room st = (Ok c, fx) ->
  promotion_warrant (effective_policy cell).1 now token room (Some (ws_secret st))
    (ws_signing_pubkey st) (ws_hs256_fallback_enabled st) c.
Proof.
  intros Hv. apply verify_promotion_sound.
  unfold verify_token, verify_promotion in *.
  destruct (ws_signing_pubkey st) as [pem|].
  - destruct (verify_room_token_ed25519 now cell token room pem) as [c'|[]]; try (by simplify_eq).
    destruct (ws_hs256_fallback_enabled st); simpl in *; [|by simplify_eq].
    destruct (verify_room_token now cell token room (ws_secret st)); by simplify_eq.
  - destruct (verify_room_token now cell token room (ws_secret st)); by simplify_eq.
Qed.

(** A mismatch is reported only of a token that is good for the room it names. *)
Lemma verify_token_mismatch `{JwtLaws} now cell token room st a b fx :
  verify_token now cell token room st = (Err (RaRoomMismatch a b), fx) ->
  exists c, rc_room c <> room /\
    promotion_warrant (effective_policy cell).1 now token (rc_room c) (Some (ws_secret st))
      (ws_signing_pubkey st) (ws_hs256_fallback_enabled st) c.
Proof.
  unfold verify_token, promotion_warrant.
  assert (forall e, verify_room_token now cell token room (ws_secret st) = Err e ->
    e = RaRoomMismatch a b -> exists c, rc_room c <> room /\
      token_bound (effective_policy cell).1 now token (rc_room c) HS256 (from_secret (ws_secret st)) c) as Hhs.
  { intros e He ->. by apply decode_and_match_mismatch in He. }
  destruct (ws_signing_pubkey st) as [pem|].
  - destruct (verify_room_token_ed25519 now cell token room pem) as [c|e] eqn:Hed; [done|].
    intros Hv. destruct e; simplify_eq.
    + destruct (ws_hs256_fallback_enabled st); [|done]. simpl in Hv.
      destruct (verify_room_token _ _ _ _ _) as [c|e]; simplify_eq.
      destruct (Hhs _ eq_refl eq_refl) as (c & Hr & Hb). exists c. split; [done|]. right. by eauto.
    + unfold verify_room_token_ed25519, verify_room_token_ed25519_with in Hed.
      destruct (from_ed_pem pem) as [key|] eqn:Hk; [|done].
      apply decode_and_match_mismatch in Hed as (c & Hr & Hb). exists c. split; [done|]. left. by eauto.
  - destruct (verify_room_token _ _ _ _ _) as [c|e]; [done|]. intros [= -> <-].
    destruct (Hhs _ eq_refl eq_refl) as (c & Hr & Hb). exists c. split; [done|]. right. by eauto.
Qed.

(** The credential that is asked first (the key, or without one the secret)
    decodes the token, under the binding in force. *)
Definition decodes_to `{Jwt} (now : Z) (cell : PolicyCell) (st : ClientWsState) (token : str)
    (c : RoomClaims) : Prop :=
  match ws_signing_pubkey st with
  | Some pem => exists key, from_ed_pem pem = Some key /\
      decode_room now token key (validation (effective_policy cell).1 EdDSA) = Ok c
  | None => decode_room now token (from_secret (ws_secret st)) (validation (effective_policy cell).1 HS256) = Ok c
  end.

Lemma verify_token_other_room `{Jwt} now cell st token room c :
  decodes_to now cell st token c -> rc_room c <> room ->
  verify_token now cell token room st = (Err (RaRoomMismatch (rc_room c) room), []).
Proof.
  unfold decodes_to, verify_token, verify_room_token, verify_room_token_ed25519, verify_room_token_with,
    verify_room_token_ed25519_with, decode_and_match.
  destruct (ws_signing_pubkey st) as [pem|].
  - intros (key & -> & ->) Hr. by rewrite decide_False.
  - intros -> Hr. by rewrite decide_False.
Qed.

Lemma verify_token_effects `{Jwt} now cell token room st e fx :
  verify_token now cell token room st = (Err e, fx) -> fx = [].
Proof.
  unfold verify_token. intros Hv. repeat step_in Hv; by simplify_eq.
Qed.

Lemma verify_token_counted `{Jwt} now cell token room st c fx :
  verify_token now cell token room st = (Ok c, fx) ->
  exists alg, fx = [Inc "relay_jwt_verify_total" [alg]].
Proof. unfold verify_token, verify_counted. intros Hv. repeat step_in Hv; simplify_eq; by eauto. Qed.



(** ** The hint gate *)

(** Times at least [gap] apart, the first one that far after [prev]. *)
Fixpoint gaps (gap : Z) (prev : option Instant) (ts : list Instant) : Prop :=
  match ts with
  | [] => True
  | t :: ts' => match prev with Some p => p + gap <= t | None => True end /\ gaps gap (Some t) ts'
  end.

Definition times_of (peer : Z) (hs : list (Z * Instant)) : list Instant :=
  snd <$> filter (fun h => h.1 = peer) hs.

Lemma hint_gate_other interval peer peer' now reg :
  peer' <> peer -> (hint_gate interval peer' now reg).2 !! peer = reg !! peer.
Proof.
  intros Hne. unfold hint_gate. destruct (reg !! peer') as [t|].
  - destruct (duration_since now t <? interval); simpl; [done|]. by apply lookup_insert_ne.
  - simpl. by apply lookup_insert_ne.
Qed.

Lemma hint_gate_same interval peer now reg :
  1 <= interval ->
  match hint_gate interval peer now reg with
  | (true, reg') => reg' = reg
  | (false, reg') => reg' !! peer = Some now /\
      match reg !! peer with Some p => p + interval <= now | None => True end
  end.
Proof.
  intros Hi. unfold hint_gate, duration_since. destruct (reg !! peer) as [t|].
  - destruct (Z.ltb_spec (Z.max 0 (now - t)) interval); [done|].
    split; [apply lookup_insert_eq | lia].
  - split; [apply lookup_insert_eq | done].
Qed.

(** Bandwidth hints are rate-limited per peer across all its sessions:
    whatever the interleaving of hints from any number of sessions, and even
    if the instants they carry are out of order, the hints of one peer that
    pass the gate are at least the configured interval apart, as long as none
    of the peer's sessions ends in between. *)
Theorem hint_rate_bounded interval evs peer reg :
  1 <= interval -> SessionExit peer ∉ evs ->
  gaps interval (reg !! peer) (times_of peer (hints_accepted interval evs reg)).
Proof.
  intros Hi. revert reg. induction evs as [|ev evs IH]; intros reg Hex; [done|].
  apply not_elem_of_cons in Hex as [Hne Hex]. destruct ev as [p now|p]; simpl.
  - destruct (decide (p = peer)) as [->|Hp].
    + pose proof (hint_gate_same interval peer now reg Hi) as Hg.
      destruct (hint_gate interval peer now reg) as [[|] reg']; [subst; by apply IH|].
      destruct Hg as [Hl Hgap]. unfold times_of. rewrite filter_cons_True by done. simpl.
      split; [done|]. rewrite <- Hl. by apply IH.
    + pose proof (hint_gate_other interval peer p now reg Hp) as Ho.
      destruct (hint_gate interval p now reg) as [[|] reg']; simpl in Ho; rewrite <- Ho; [by apply IH|].
      unfold times_of. rewrite filter_cons_False by done. by apply IH.
  - assert (p <> peer) by congruence.
    rewrite <- (lookup_delete_ne reg p peer) by done. by apply IH.
Qed.

Lemma hint_rate_bounded_witness :
  gaps 100 None (times_of 7 (hints_accepted 100
    [HintFrom 7 0; HintFrom 8 10; HintFrom 7 50; SessionExit 8; HintFrom 7 100; HintFrom 7 90] ∅)) /\
  times_of 7 (hints_accepted 100
    [HintFrom 7 0; HintFrom 8 10; HintFrom 7 50; SessionExit 8; HintFrom 7 100; HintFrom 7 90] ∅) = [0; 100].
Proof.
  split; [|vm_compute; reflexivity].
  refine (hint_rate_bounded 100 _ 7 ∅ _ _); [lia|].
  intros Hin. repeat (apply elem_of_cons in Hin as [Hin|Hin]; [discriminate|]).
  by apply elem_of_nil in Hin.
Defined.

(** When a stolen session ends it scrubs the entry of the peer, which its
    successor has by then written: two hints pass whatever the time between. *)
Lemma stolen_session_reopens_gate interval peer t1 t2 :
  hints_accepted interval [HintFrom peer t1; SessionExit peer; HintFrom peer t2] ∅
  = [(peer, t1); (peer, t2)].
Proof.
  assert (forall reg : HintRegistry, reg !! peer = None -> forall t,
    hint_gate interval peer t reg = (false, <[peer := t]> reg)) as Hg.
  { intros reg Hr t. unfold hint_gate. by rewrite Hr. }
  cbn [hints_accepted]. rewrite Hg by done. cbn [hints_accepted].
  rewrite Hg by apply lookup_delete_eq. done.
Qed.

(** ** The admission cap *)

Lemma serial_bound max_participants st :
  0 <= max_participants ->
  rtc (serial_step max_participants) (mkPopulation 0 0) st ->
  active st + Z.of_nat (admitted st) <= max_participants.
Proof.
  intros Hm Hr. pattern st. eapply rtc_ind_r; [| |exact Hr]; simpl; [lia|].
  intros s s' _ [s1 s1' Hs Hser] IH. destruct Hs as [s2 Ha|a n|a n Hp]; simpl in *.
  - rewrite (Hser eq_refl) in *. unfold admits in Ha. bool_props. lia.
  - lia.
  - lia.
Qed.

Lemma admit_many max_participants n k :
  0 < max_participants ->
  rtc (admission_step max_participants) (mkPopulation 0 k) (mkPopulation 0 (n + k)).
Proof.
  intros Hm. revert k. induction n as [|n IH]; intros k; [done|].
  eapply rtc_l; [apply StepAdmit; unfold admits; simpl; destruct (Z.leb_spec max_participants 0); [lia|done]|].
  simpl. replace (S (n + k)) with (n + S k)%nat by lia. apply IH.
Qed.

Lemma start_many max_participants n a :
  rtc (admission_step max_participants) (mkPopulation a n) (mkPopulation (a + Z.of_nat n) 0).
Proof.
  revert a. induction n as [|n IH]; intros a; [by rewrite Z.add_0_r|].
  eapply rtc_l; [apply StepStart|]. replace (a + Z.of_nat (S n)) with (a + 1 + Z.of_nat n) by lia. apply IH.
Qed.

(** The admission cap binds only upgrades that come one after the other.
    If no upgrade is admitted while another admitted one has yet to start, the
    running sessions never exceed the cap.  But the check reads the gauge and
    the gauge moves only when the spawned session starts: under any positive
    cap, concurrent upgrades bring any number of sessions to run at once. *)
Theorem admission_cap_serial_only max_participants :
  0 < max_participants ->
  (forall st, rtc (serial_step max_participants) (mkPopulation 0 0) st ->
     active st <= max_participants) /\
  (forall n : nat, rtc (admission_step max_participants) (mkPopulation 0 0)
     (mkPopulation (Z.of_nat n) 0)).
Proof.
  intros Hm. split.
  - intros st Hr. apply serial_bound in Hr; lia.
  - intros n. etrans; [apply (admit_many _ n 0 Hm)|]. rewrite Nat.add_0_r. apply (start_many _ n 0).
Qed.

Lemma admission_cap_serial_only_witness :
  rtc (admission_step 50) (mkPopulation 0 0) (mkPopulation 1000 0).
Proof. exact (proj2 (admission_cap_serial_only 50 ltac:(lia)) 1000%nat). Defined.

(** ** Session accounting *)

(** The counter a metric effect increments, when it is one. *)
Definition increments (name : string) (e : SessionEffect) : bool :=
  match e with Metric (Inc f _) => String.eqb f name | _ => false end.
Definition decrements (name : string) (e : SessionEffect) : bool :=
  match e with Metric (Dec f _) => String.eqb f name | _ => false end.
Definition is_inject (e : SessionEffect) : bool := match e with Inject _ _ => true | _ => false end.
Definition is_answer (e : SessionEffect) : bool := match e with SendAnswer => true | _ => false end.

Definition occurrences (p : SessionEffect -> bool) (fx : list SessionEffect) : nat :=
  length (List.filter p fx).

Lemma occurrences_app p a b : occurrences p (a ++ b) = (occurrences p a + occurrences p b)%nat.
Proof. unfold occurrences. by rewrite List.filter_app, length_app. Qed.

Lemma occurrences_none p fx : Forall (fun e => p e = false) fx -> occurrences p fx = 0%nat.
Proof. unfold occurrences. induction 1 as [|e fx He _ IH]; simpl; [done|]. by rewrite He. Qed.

(** A parked session counts hints and answers, and nothing else. *)
Definition park_metric (e : Effect) : Prop :=
  match e with
  | Inc f _ => f ∈ ["sfu_renegotiation_answers_total"; "sfu_bwe_hint_throttled_total";
                    "sfu_bwe_hint_received_total"]
  | _ => False
  end.

Lemma park_text_metrics json interval peer t now ctrl hf p :
  Forall park_metric (pk_effects p) ->
  Forall park_metric (pk_effects (park_text json interval peer t now ctrl hf p)).
Proof.
  intros Hp. unfold park_text, accept_answer, take_hint, with_effects.
  destruct (json t) as [get|]; [|done]. case_bool_decide; [done|]. case_bool_decide.
  - destruct (get "sdp"); [|done]. destruct ctrl; simpl; [done|..];
      apply Forall_app; split; try done; repeat constructor.
  - case_bool_decide; [|done]. destruct (_ && hf); [|done].
    destruct (hint_gate interval peer now (pk_hints p)) as [[|] reg]; simpl;
      apply Forall_app; (split; [done|]); constructor; [|constructor| |constructor]; simpl; set_solver.
Qed.

Lemma park_metrics json interval peer evs p :
  Forall park_metric (pk_effects p) ->
  Forall park_metric (pk_effects (park_until_close_or_steal json interval peer evs p).2).
Proof.
  revert p. induction evs as [|ev evs IH]; intros p Hp; simpl; [done|].
  destruct ev as [r|[|]|[t|[|]| | | |] now ctrl hf]; try (by auto). by apply IH, park_text_metrics.
Qed.

(** Every answer is preceded by an injection. *)
Fixpoint injected_first (seen : bool) (fx : list SessionEffect) : bool :=
  match fx with
  | [] => true
  | Inject _ _ :: fx' => injected_first true fx'
  | SendAnswer :: fx' => seen && injected_first seen fx'
  | _ :: fx' => injected_first seen fx'
  end.

Lemma injected_first_quiet seen l fx :
  injected_first seen ((Metric <$> l) ++ fx) = injected_first seen fx.
Proof. by induction l. Qed.

Lemma park_occurrences l :
  Forall park_metric l ->
  occurrences (increments "client_ws_sessions_started_total") (Metric <$> l) = 0%nat /\
  occurrences (increments "client_ws_active_sessions") (Metric <$> l) = 0%nat /\
  occurrences (decrements "client_ws_active_sessions") (Metric <$> l) = 0%nat /\
  occurrences (increments "client_ws_session_ended_total") (Metric <$> l) = 0%nat /\
  occurrences (increments "client_ws_offer_processed_total") (Metric <$> l) = 0%nat /\
  occurrences is_inject (Metric <$> l) = 0%nat.
Proof.
  intros Hl. split_and!; apply occurrences_none, Forall_fmap; (eapply Forall_impl; [exact Hl|]);
    intros [] Hm; try done; simpl in Hm |- *; set_unfold in Hm;
    destruct Hm as [->|[->|[->|[]]]]; reflexivity.
Qed.

(** What a session leaves behind, whatever happened to it. *)
Record accounted (fx : list SessionEffect) : Prop := {
  acc_started : occurrences (increments "client_ws_sessions_started_total") fx = 1%nat;
  acc_up : occurrences (increments "client_ws_active_sessions") fx = 1%nat;
  acc_down : occurrences (decrements "client_ws_active_sessions") fx = 1%nat;
  acc_ended : occurrences (increments "client_ws_session_ended_total") fx = 1%nat;
  acc_offer : occurrences (increments "client_ws_offer_processed_total") fx = 1%nat;
  acc_inject : (occurrences is_inject fx <= 1)%nat;
  acc_order : injected_first false fx = true;
}.

(** C23. Every session is accounted for exactly once, on every path: whatever
    the browser sends, whatever str0m and the registry answer and however the
    session ends, it is counted as started once, raises and lowers the gauge of
    running sessions once, is counted under one close code and one outcome of
    its offer, reaches the registry at most once, and sends its answer only
    after the registry has it. *)
Theorem session_accounted json interval peer room env reg :
  accounted (upgraded json interval peer room env reg).1.
Proof.
  unfold upgraded, run_session, session_body.
  destruct (read_offer json (se_frames env)) as [sdp|e]; [|split; vm_compute; first [reflexivity | lia]].
  destruct (se_candidate_ok env); cbn [negb]; [|split; vm_compute; first [reflexivity | lia]].
  destruct (se_offer_parses env); cbn [negb]; [|split; vm_compute; first [reflexivity | lia]].
  destruct (se_offer_accepted env); cbn [negb]; [|split; vm_compute; first [reflexivity | lia]].
  destruct (se_inject_ok env); cbn [negb]; [|split; vm_compute; first [reflexivity | lia]].
  destruct (se_answer_sent env); cbn [negb]; [|split; vm_compute; first [reflexivity | lia]].
  pose proof (park_metrics json interval peer (se_events env) (mkParked reg [] []) ltac:(constructor)) as Hp.
  destruct (park_until_close_or_steal _ _ _ _ _) as [[stole code] p]. simpl in Hp.
  destruct (park_occurrences _ Hp) as (H1 & H2 & H3 & H4 & H5 & H6).
  set (post := (if stole then [CloseFrame (default 1000 code)] else [CloseFrame 1000]) ++
    guard_drop (se_elapsed env) (default 1000 code)).
  match goal with |- accounted ?fx =>
    assert (fx = (Metric (Inc "client_ws_sessions_started_total" []) :: guard_new ++
      [offer_processed "ok"; Metric (Inc "sdp_msid_injected_total" [if se_msids env then "true" else "false"]);
       Inject peer room; SendAnswer; Metric (Inc "client_ws_answer_sent_total" [])]) ++
      (Metric <$> pk_effects p) ++ post) as -> by (unfold post; simpl; by rewrite <- (assoc_L (++)))
  end.
  split; rewrite ?occurrences_app, ?H1, ?H2, ?H3, ?H4, ?H5, ?H6; simpl;
    rewrite ?injected_first_quiet; unfold post;
    destruct stole; vm_compute; first [reflexivity | lia].
Qed.
