(* ===== verification/SdpMsid.v ===== *)
(** * Stream identities in the answer SDP (crates/sfu/src/client_ws/sdp_msid.rs)

    [inject_msid] rewrites the answer line by line with a small state machine:
    every sending audio or video section gets one canonical [a=msid:] line.
    The model keeps the machine as it is written; the output is the list of
    emitted lines, each followed by the line ending of the input. *)

From Stdlib Require Import ZArith Lia.
From stdpp Require Import base option numbers gmap strings list.
From S2P Require Import Prelude RustStr DdParse DdCache SfuTypes SfuRelayOut RoomAuth SfuChannelData.

Inductive SdpKind := KAudio | KVideo | KOtherMedia.
#[export] Instance SdpKind_eq_dec : EqDecision SdpKind.
Proof. solve_decision. Defined.

Inductive SdpDirection := DSendOnly | DSendRecv | DInactive | DRecvOnly.
#[export] Instance SdpDirection_eq_dec : EqDecision SdpDirection.
Proof. solve_decision. Defined.

Record MBlock := mkBlock {
  mb_lines : list str;
  mb_kind : SdpKind;
  mb_direction : SdpDirection;
  mb_already_injected : bool;
  mb_mid_idx : option nat;
}.

Definition block_new (k : SdpKind) : MBlock := mkBlock [] k DSendOnly false None.

Definition starts_with (s p : str) : bool := bool_decide (is_Some (strip_prefix p s)).

(** [a=msid:peer-<peer_id> ] and the line it opens. *)
Definition msid_prefix (peer_id : Z) : str := lit "a=msid:peer-" ++ to_string peer_id ++ [SPACE].

Definition kind_str (k : SdpKind) : str :=
  match k with KAudio => lit "audio" | KVideo => lit "video" | KOtherMedia => [] end.

Definition msid_line (peer_id : Z) (k : SdpKind) : str :=
  msid_prefix peer_id ++ lit "peer-" ++ to_string peer_id ++ lit "-" ++ kind_str k.

Definition is_msid (l : str) : bool := starts_with l (lit "a=msid:").

(** [iter().rposition(p)] *)
Fixpoint rposition_from (p : str -> bool) (i : nat) (ls : list str) : option nat :=
  match ls with
  | [] => None
  | l :: ls' => match rposition_from p (S i) ls' with
                | Some j => Some j
                | None => if p l then Some i else None
                end
  end.

(** The loop over the enumerated lines: what is written, and whether the line
    was inserted. *)
Fixpoint emit_lines (insert_after : nat) (line : str) (i : nat) (ls : list str) (injected : bool)
    : list str * bool :=
  match ls with
  | [] => ([], injected)
  | l :: ls' =>
      if is_msid l then emit_lines insert_after line (S i) ls' injected
      else if negb injected && (i =? insert_after)%nat then
             let '(out, inj) := emit_lines insert_after line (S i) ls' true in (l :: line :: out, inj)
           else let '(out, inj) := emit_lines insert_after line (S i) ls' injected in (l :: out, inj)
  end.

Definition left_alone (b : MBlock) : bool :=
  bool_decide (mb_kind b = KOtherMedia) || mb_already_injected b ||
  bool_decide (mb_direction b = DRecvOnly) || bool_decide (mb_direction b = DInactive).

Definition flush_block (b : MBlock) (peer_id : Z) : list str * bool :=
  if left_alone b then (mb_lines b, false)
  else
    let line := msid_line peer_id (mb_kind b) in
    let insert_after :=
      match mb_mid_idx b with
      | Some i => i
      | None => default (length (mb_lines b) - 1)%nat
                  (rposition_from (fun l => negb (starts_with l (lit "a=ssrc:"))) 0 (mb_lines b))
      end in
    let '(out, injected) := emit_lines insert_after line 0 (mb_lines b) false in
    (if injected then out else out ++ [line], true).

Definition direction_after (raw : str) (d : SdpDirection) : SdpDirection :=
  if decide (raw = lit "a=recvonly") then DRecvOnly
  else if decide (raw = lit "a=sendonly") then DSendOnly
  else if decide (raw = lit "a=sendrecv") then DSendRecv
  else if decide (raw = lit "a=inactive") then DInactive
  else d.

Definition scan_line (peer_id : Z) (b : MBlock) (raw : str) : MBlock :=
  mkBlock (mb_lines b ++ [raw]) (mb_kind b) (direction_after raw (mb_direction b))
    (mb_already_injected b || starts_with raw (msid_prefix peer_id))
    (if starts_with raw (lit "a=mid:") then Some (length (mb_lines b)) else mb_mid_idx b).

Definition kind_of_line (raw : str) : SdpKind :=
  if starts_with raw (lit "m=audio") then KAudio
  else if starts_with raw (lit "m=video") then KVideo
  else KOtherMedia.

Definition open_block (raw : str) : MBlock :=
  let b := block_new (kind_of_line raw) in
  mkBlock [raw] (mb_kind b) (mb_direction b) (mb_already_injected b) (mb_mid_idx b).

Record Rewriter := mkRewriter {
  rw_out : list str;
  rw_session_lines : list str;
  rw_in_session : bool;
  rw_current : option MBlock;
  rw_total_injected : nat;
}.

(** Write out the session section, or the block in progress. *)
Definition flush_current (peer_id : Z) (w : Rewriter) : list str * nat :=
  if rw_in_session w then (rw_out w ++ rw_session_lines w, rw_total_injected w)
  else match rw_current w with
       | Some b =>
           let '(ls, inj) := flush_block b peer_id in
           (rw_out w ++ ls, if inj then S (rw_total_injected w) else rw_total_injected w)
       | None => (rw_out w, rw_total_injected w)
       end.

Definition rewrite_line (peer_id : Z) (w : Rewriter) (raw : str) : Rewriter :=
  if is_empty raw then w
  else if starts_with raw (lit "m=") then
    let '(out, total) := flush_current peer_id w in
    mkRewriter out (rw_session_lines w) false (Some (open_block raw)) total
  else if rw_in_session w then
    mkRewriter (rw_out w) (rw_session_lines w ++ [raw]) true (rw_current w) (rw_total_injected w)
  else mkRewriter (rw_out w) (rw_session_lines w) false
         ((fun b => scan_line peer_id b raw) <$> rw_current w) (rw_total_injected w).

Definition rewriter_new : Rewriter := mkRewriter [] [] true None 0.

(** The machine over the lines of the answer. *)
Definition inject_lines (peer_id : Z) (lines : list str) : list str * nat :=
  flush_current peer_id (fold_left (rewrite_line peer_id) lines rewriter_new).

(** [split("\r\n")] *)
Fixpoint split_crlf (s : str) : list str :=
  match s with
  | [] => [[]]
  | x :: t =>
      let plain_char :=
        match split_crlf t with
        | piece :: rest => (x :: piece) :: rest
        | [] => [[x]]
        end in
      match t with
      | y :: t' => if (x =? CR) && (y =? NL) then [] :: split_crlf t' else plain_char
      | [] => plain_char
      end
  end.

Definition CRLF : str := [CR; NL].

Definition with_eol (eol : str) (ls : list str) : str := concat ((fun l => l ++ eol) <$> ls).

Definition inject_msid (answer_sdp : str) (peer_id : Z) : str * nat :=
  let crlf := contains answer_sdp CRLF in
  let eol := if crlf then CRLF else [NL] in
  let lines := if crlf then split_crlf answer_sdp else split_on NL answer_sdp in
  let '(out, n) := inject_lines peer_id lines in
  (with_eol eol out, n).

Example inject_demo :
  inject_msid (with_eol CRLF [lit "v=0"; lit "m=audio 9"; lit "a=mid:0"; lit "a=msid:x y"; lit "a=sendonly";
                              lit "m=video 9"; lit "a=recvonly"]) 7 =
  (with_eol CRLF [lit "v=0"; lit "m=audio 9"; lit "a=mid:0"; lit "a=msid:peer-7 peer-7-audio"; lit "a=sendonly";
                  lit "m=video 9"; lit "a=recvonly"], 1%nat).
Proof. vm_compute. reflexivity. Qed.
