(* ===== verification/SdpMsidFacts.v ===== *)
(** * Facts about the SDP rewriting

    The line machine rewrites each media section by itself; a rewritten section
    keeps all its other lines and carries exactly one stream identity; and a
    second run changes nothing. *)

From Stdlib Require Import ZArith Lia.
From stdpp Require Import base option numbers gmap strings list.
From S2P Require Import Prelude RustStr DdParse DdCache SfuTypes SfuRelayOut RoomAuth SfuChannelData SdpMsid.

(** ** Sections *)

Definition is_media (l : str) : bool := starts_with l (lit "m=").

(** The session part, then one group per media line. *)
Fixpoint group (cur : list str) (ls : list str) : list (list str) :=
  match ls with
  | [] => [cur]
  | l :: ls' => if is_media l then cur :: group [l] ls' else group (cur ++ [l]) ls'
  end.

Definition sections (ls : list str) : list (list str) := group [] ls.

(** The block the machine builds from the lines of a section. *)
Definition block_of (peer_id : Z) (ls : list str) : MBlock :=
  match ls with
  | [] => block_new KOtherMedia
  | m :: rest => fold_left (scan_line peer_id) rest (open_block m)
  end.

Definition rewrite_section (peer_id : Z) (ls : list str) : list str := (flush_block (block_of peer_id ls) peer_id).1.

Definition sending (peer_id : Z) (ls : list str) : bool := negb (left_alone (block_of peer_id ls)).

Lemma block_of_snoc peer m rest l :
  block_of peer ((m :: rest) ++ [l]) = scan_line peer (block_of peer (m :: rest)) l.
Proof. simpl. by rewrite fold_left_app. Qed.

Lemma block_of_lines peer m rest :
  mb_lines (block_of peer (m :: rest)) = m :: rest /\
  mb_kind (block_of peer (m :: rest)) = kind_of_line m /\
  mb_already_injected (block_of peer (m :: rest)) =
    existsb (fun l => starts_with l (msid_prefix peer)) rest.
Proof.
  induction rest as [|l rest IH] using rev_ind; [done|].
  change (m :: rest ++ [l]) with ((m :: rest) ++ [l]). rewrite block_of_snoc. simpl in *.
  destruct IH as (Hl & Hk & Ha). rewrite Hl, Hk, Ha, existsb_app. simpl. by rewrite orb_false_r.
Qed.

(** ** The machine, section by section *)

Definition injections (peer_id : Z) (blocks : list (list str)) : nat :=
  length (List.filter (sending peer_id) blocks).

Lemma flush_count peer ls : (flush_block (block_of peer ls) peer).2 = sending peer ls.
Proof.
  unfold flush_block, sending. destruct (left_alone (block_of peer ls)); [done|]. cbv zeta.
  by destruct (emit_lines _ _ _ _ _).
Qed.

Lemma rewrite_line_skip peer ls w :
  fold_left (rewrite_line peer) ls w = fold_left (rewrite_line peer) (filter (fun l => is_empty l = false) ls) w.
Proof.
  revert w. induction ls as [|l ls IH]; intros w; [done|]. rewrite filter_cons.
  destruct l; simpl; apply IH.
Qed.

Lemma machine_blocks peer ls out ses m rest total :
  Forall (fun l : str => l <> []) ls ->
  flush_current peer
    (fold_left (rewrite_line peer) ls
       (mkRewriter out ses false (Some (block_of peer (m :: rest))) total)) =
  (out ++ concat (rewrite_section peer <$> group (m :: rest) ls),
   (total + injections peer (group (m :: rest) ls))%nat).
Proof.
  intros Hls. revert out m rest total. induction Hls as [|l ls Hl _ IH]; intros out m rest total.
  - cbn [fold_left group]. unfold flush_current. cbn [rw_in_session rw_current rw_out rw_total_injected].
    pose proof (flush_count peer (m :: rest)) as Hc. unfold rewrite_section, injections.
    cbn [fmap list_fmap concat]. rewrite app_nil_r. cbn [List.filter].
    destruct (flush_block (block_of peer (m :: rest)) peer) as [fl inj]. simpl in Hc. subst inj. cbn [fst].
    destruct (sending peer (m :: rest)); simpl; f_equal; lia.
  - cbn [fold_left group]. unfold is_media. destruct (starts_with l (lit "m=")) eqn:Hm.
    + assert (rewrite_line peer (mkRewriter out ses false (Some (block_of peer (m :: rest))) total) l =
        mkRewriter (out ++ rewrite_section peer (m :: rest)) ses false (Some (block_of peer [l]))
          (if sending peer (m :: rest) then S total else total)) as ->.
      { unfold rewrite_line. destruct l as [|x l]; [done|]. cbn [is_empty]. rewrite Hm.
        unfold flush_current. cbn [rw_in_session rw_current rw_out rw_total_injected rw_session_lines].
        rewrite <- (flush_count peer (m :: rest)). unfold rewrite_section.
        by destruct (flush_block (block_of peer (m :: rest)) peer). }
      rewrite IH. cbn [fmap list_fmap concat]. rewrite (assoc_L (++)). unfold injections.
      cbn [List.filter]. f_equal. destruct (sending peer (m :: rest)); cbn [length]; lia.
    + assert (rewrite_line peer (mkRewriter out ses false (Some (block_of peer (m :: rest))) total) l =
        mkRewriter out ses false (Some (block_of peer (m :: (rest ++ [l])))) total) as ->.
      { unfold rewrite_line. destruct l as [|x l]; [done|]. cbn [is_empty]. rewrite Hm.
        cbn [rw_in_session rw_current rw_out rw_total_injected rw_session_lines].
        change (m :: (rest ++ [x :: l])) with ((m :: rest) ++ [x :: l]). by rewrite block_of_snoc. }
      apply IH.
Qed.

Lemma machine_session peer ls ses :
  Forall (fun l : str => l <> []) ls ->
  match group ses ls with
  | s :: blocks =>
      flush_current peer (fold_left (rewrite_line peer) ls (mkRewriter [] ses true None 0)) =
      (s ++ concat (rewrite_section peer <$> blocks), injections peer blocks)
  | [] => False
  end.
Proof.
  intros Hls. revert ses. induction Hls as [|l ls Hl Hls IH]; intros ses.
  - simpl. by rewrite app_nil_r.
  - cbn [fold_left group]. unfold is_media. destruct (starts_with l (lit "m=")) eqn:Hm.
    + assert (rewrite_line peer (mkRewriter [] ses true None 0) l =
        mkRewriter ses ses false (Some (block_of peer [l])) 0) as ->.
      { unfold rewrite_line. destruct l; [done|]. cbn [is_empty]. by rewrite Hm. }
      by rewrite machine_blocks.
    + assert (rewrite_line peer (mkRewriter [] ses true None 0) l =
        mkRewriter [] (ses ++ [l]) true None 0) as ->.
      { unfold rewrite_line. destruct l; [done|]. cbn [is_empty]. by rewrite Hm. }
      apply IH.
Qed.

(** ** One section *)

Lemma starts_with_spec s p : starts_with s p = true <-> exists r, s = p ++ r.
Proof.
  unfold starts_with. rewrite bool_decide_eq_true. split.
  - intros [r Hr]. exists r. by apply strip_prefix_Some.
  - intros [r ->]. rewrite strip_prefix_app. by eexists.
Qed.

Lemma msid_line_is_msid peer k : is_msid (msid_line peer k) = true.
Proof.
  apply starts_with_spec. unfold msid_line, msid_prefix.
  exists (lit "peer-" ++ to_string peer ++ [SPACE] ++ lit "peer-" ++ to_string peer ++ lit "-" ++ kind_str k).
  rewrite <- !(assoc_L (++)). reflexivity.
Qed.

Lemma msid_line_canonical peer k : starts_with (msid_line peer k) (msid_prefix peer) = true.
Proof. apply starts_with_spec. unfold msid_line. by eexists. Qed.

Lemma media_not_msid l : is_media l = true -> is_msid l = false.
Proof.
  intros [r ->]%starts_with_spec. reflexivity.
Qed.

Lemma msid_line_not_media peer k : is_media (msid_line peer k) = false.
Proof. reflexivity. Qed.

(** Other lines, and the identity lines, of a section. *)
Definition others (ls : list str) : list str := List.filter (fun l => negb (is_msid l)) ls.
Definition identities (ls : list str) : list str := List.filter is_msid ls.

Lemma others_app a b : others (a ++ b) = others a ++ others b.
Proof. apply List.filter_app. Qed.
Lemma identities_app a b : identities (a ++ b) = identities a ++ identities b.
Proof. apply List.filter_app. Qed.

Lemma emit_lines_spec ia line i ls injected :
  is_msid line = true ->
  match emit_lines ia line i ls injected with
  | (out, inj) =>
      others out = others ls /\
      identities out = (if inj && negb injected then [line] else []) /\
      (injected = true -> inj = true)
  end.
Proof.
  intros Hline. revert i injected. induction ls as [|l ls IH]; intros i injected.
  { simpl. by destruct injected. }
  cbn [emit_lines]. unfold others, identities in *. destruct (is_msid l) eqn:Hl.
  { specialize (IH (S i) injected). destruct (emit_lines ia line (S i) ls injected) as [out inj].
    cbn [List.filter]. by rewrite Hl. }
  destruct (negb injected && (i =? ia)%nat) eqn:Hins.
  - apply andb_true_iff in Hins as [Hinj _]. apply negb_true_iff in Hinj as ->.
    specialize (IH (S i) true). destruct (emit_lines ia line (S i) ls true) as [out inj].
    destruct IH as (Ho & Hi & Ht). rewrite (Ht eq_refl) in *. cbn [List.filter]. rewrite Hl, Hline. simpl.
    split_and!; [by rewrite Ho | by rewrite Hi | done].
  - specialize (IH (S i) injected). destruct (emit_lines ia line (S i) ls injected) as [out inj].
    destruct IH as (Ho & Hi & Ht). cbn [List.filter]. rewrite Hl. simpl.
    split_and!; [by rewrite Ho | done | done].
Qed.

Lemma emit_lines_head ia line m ls :
  is_msid m = false -> exists rest, (emit_lines ia line 0 (m :: ls) false).1 = m :: rest.
Proof.
  intros Hm. cbn [emit_lines]. rewrite Hm. destruct (negb false && _);
    destruct (emit_lines ia line 1 ls _); by eexists.
Qed.

(** A rewritten section: the media line first, everything else as it was, and
    one canonical identity when the section sends. *)
Record section_rewritten (peer_id : Z) (b b' : list str) : Prop := {
  sr_others : others b' = others b;
  sr_head : head b' = head b;
  sr_identity : sending peer_id b = true ->
    identities b' = [msid_line peer_id (mb_kind (block_of peer_id b))];
  sr_untouched : sending peer_id b = false -> b' = b;
}.

Lemma rewrite_section_spec peer m rest :
  is_media m = true -> section_rewritten peer (m :: rest) (rewrite_section peer (m :: rest)).
Proof.
  intros Hm%media_not_msid. unfold rewrite_section, flush_block.
  destruct (block_of_lines peer m rest) as (Hl & _ & _).
  assert (sending peer (m :: rest) = negb (left_alone (block_of peer (m :: rest)))) as Hs by done.
  destruct (left_alone (block_of peer (m :: rest))).
  { cbn [fst]. rewrite Hl. split; [done|done|by rewrite Hs|done]. }
  cbv zeta. rewrite Hl. set (line := msid_line peer _).
  match goal with |- context [emit_lines ?ia0 line 0 (m :: rest) false] => set (ia := ia0) end.
  pose proof (emit_lines_spec ia line 0 (m :: rest) false (msid_line_is_msid _ _)) as He.
  destruct (emit_lines_head ia line m rest Hm) as [r Hr].
  destruct (emit_lines ia line 0 (m :: rest) false) as [out inj]. cbn [fst] in *.
  destruct He as (Ho & Hi & _). simpl in Hr.
  destruct inj; cbn [fst negb andb] in *.
  - split; [done|by rewrite Hr|done|by rewrite Hs].
  - assert (is_msid line = true) as Hline by apply msid_line_is_msid.
    assert (others [line] = []) as Hol by (unfold others; cbn [List.filter]; by rewrite Hline).
    assert (identities [line] = [line]) as Hil
      by (unfold identities; cbn [List.filter]; by rewrite Hline).
    split; [|by rewrite Hr| |by rewrite Hs].
    + by rewrite others_app, Ho, Hol, app_nil_r.
    + intros _. by rewrite identities_app, Hi, Hil.
Qed.

(** A section that carries its identity is left alone. *)
Lemma rewritten_settled peer m rest b' :
  is_media m = true -> section_rewritten peer (m :: rest) b' -> rewrite_section peer b' = b' /\ sending peer b' = false.
Proof.
  intros Hm [Ho Hh Hi Hu].
  assert (forall b, sending peer b = false -> rewrite_section peer b = mb_lines (block_of peer b)) as Hq.
  { intros b Hb. unfold rewrite_section, flush_block. unfold sending in Hb. apply negb_false_iff in Hb. by rewrite Hb. }
  destruct b' as [|m' rest']; [done|]. simpl in Hh. injection Hh as ->.
  destruct (block_of_lines peer m rest') as (Hl & _ & Ha).
  enough (sending peer (m :: rest') = false) as Hs by (by rewrite Hq, Hl).
  destruct (sending peer (m :: rest)) eqn:Hs; [|by rewrite (Hu eq_refl)].
  specialize (Hi eq_refl). unfold sending, left_alone. apply negb_false_iff.
  enough (mb_already_injected (block_of peer (m :: rest')) = true) as ->
    by (by rewrite orb_true_r).
  rewrite Ha. apply existsb_exists. exists (msid_line peer (mb_kind (block_of peer (m :: rest)))).
  split; [|apply msid_line_canonical].
  assert (msid_line peer (mb_kind (block_of peer (m :: rest))) ∈ identities (m :: rest')) as Hin
    by (rewrite Hi; left).
  unfold identities in Hin. cbn [List.filter] in Hin. rewrite (media_not_msid m Hm) in Hin.
  apply list_elem_of_In, List.filter_In in Hin as [Hin _]. done.
Qed.

(** ** All sections *)

(** A media section: its media line, then lines that are none. *)
Definition media_section (b : list str) : Prop :=
  exists m rest, b = m :: rest /\ is_media m = true /\ Forall (fun l => is_media l = false) rest.

Lemma group_sections cur ls :
  exists pre blocks, group cur ls = (cur ++ pre) :: blocks /\ ls = pre ++ concat blocks /\
    Forall (fun l => is_media l = false) pre /\ Forall media_section blocks.
Proof.
  revert cur. induction ls as [|l ls IH]; intros cur; simpl.
  { exists [], []. by rewrite app_nil_r. }
  destruct (is_media l) eqn:Hm.
  - destruct (IH [l]) as (pre & blocks & Hg & Hls & Hpre & Hb).
    exists [], (([l] ++ pre) :: blocks). rewrite app_nil_r, Hg. split_and!; [done| |constructor|].
    + simpl. by rewrite Hls.
    + constructor; [|done]. by exists l, pre.
  - destruct (IH (cur ++ [l])) as (pre & blocks & Hg & Hls & Hpre & Hb).
    exists (l :: pre), blocks. rewrite Hg, <- (assoc_L (++)). split_and!; [done| |by constructor|done].
    simpl. by rewrite <- Hls.
Qed.

Lemma group_concat cur pre blocks :
  Forall (fun l => is_media l = false) pre -> Forall media_section blocks ->
  group cur (pre ++ concat blocks) = (cur ++ pre) :: blocks.
Proof.
  intros Hpre Hb. revert cur pre Hpre. induction Hb as [|b blocks (m & rest & -> & Hm & Hrest) _ IH];
    intros cur pre Hpre; (revert cur; induction Hpre as [|l pre Hl _ IHp]; intros cur; simpl).
  - by rewrite app_nil_r.
  - rewrite Hl, IHp. by rewrite <- (assoc_L (++)).
  - rewrite Hm, app_nil_r. f_equal. by apply (IH [m] rest).
  - rewrite Hl, IHp. by rewrite <- (assoc_L (++)).
Qed.

Lemma section_rewritten_media peer b b' :
  media_section b -> section_rewritten peer b b' -> media_section b'.
Proof.
  intros (m & rest & -> & Hm & Hrest) [Ho Hh Hi Hu].
  destruct (sending peer (m :: rest)) eqn:Hs; [|rewrite (Hu eq_refl); by exists m, rest].
  specialize (Hi eq_refl). destruct b' as [|m' rest']; [done|]. simpl in Hh. injection Hh as ->.
  exists m, rest'. split_and!; [done|done|]. apply Forall_forall. intros l Hl.
  apply list_elem_of_In in Hl. destruct (is_msid l) eqn:Hml.
  - assert (l ∈ identities (m :: rest')) as Hin
      by (apply list_elem_of_In, List.filter_In; split; [by right|done]).
    rewrite Hi in Hin. apply list_elem_of_singleton in Hin as ->. apply msid_line_not_media.
  - unfold others in Ho. cbn [List.filter] in Ho. rewrite (media_not_msid m Hm) in Ho. simpl in Ho.
    injection Ho as Ho.
    assert (In l (List.filter (fun l => negb (is_msid l)) rest')) as Hin
      by (apply List.filter_In; split; [done|by rewrite Hml]).
    rewrite Ho in Hin. apply List.filter_In in Hin as [Hin _].
    rewrite Forall_forall in Hrest. apply Hrest. by apply list_elem_of_In.
Qed.

Lemma rewrite_media_section peer b :
  media_section b -> section_rewritten peer b (rewrite_section peer b).
Proof. intros (m & rest & -> & Hm & _). by apply rewrite_section_spec. Qed.

Lemma rewrite_media_settled peer b :
  media_section b ->
  rewrite_section peer (rewrite_section peer b) = rewrite_section peer b /\
  sending peer (rewrite_section peer b) = false.
Proof.
  intros (m & rest & -> & Hm & Hr). eapply rewritten_settled; [exact Hm|]. by apply rewrite_section_spec.
Qed.

(** The machine on a list of lines: the session part is kept, each section is
    rewritten, and a second run finds nothing to do. *)
Lemma inject_lines_sections peer ls :
  Forall (fun l : str => l <> []) ls ->
  exists pre blocks,
    sections ls = pre :: blocks /\ ls = pre ++ concat blocks /\
    Forall (fun l => is_media l = false) pre /\ Forall media_section blocks /\
    inject_lines peer ls = (pre ++ concat (rewrite_section peer <$> blocks), injections peer blocks).
Proof.
  intros Hls. destruct (group_sections [] ls) as (pre & blocks & Hg & Hcat & Hpre & Hb).
  exists pre, blocks. split_and!; [done..|].
  pose proof (machine_session peer ls [] Hls) as Hm. rewrite Hg in Hm. exact Hm.
Qed.

Lemma injections_settled peer blocks :
  Forall media_section blocks ->
  (rewrite_section peer <$> (rewrite_section peer <$> blocks)) = (rewrite_section peer <$> blocks) /\
  injections peer (rewrite_section peer <$> blocks) = 0%nat.
Proof.
  unfold injections. induction 1 as [|b blocks Hb _ [IH1 IH2]]; [done|].
  destruct (rewrite_media_settled peer b Hb) as [H1 H2]. cbn [fmap list_fmap List.filter].
  rewrite H1, H2. split; [by f_equal|done].
Qed.

(** ** Text *)

(** A line of an SDP: not empty, without line-ending characters. *)
Definition sdp_line (l : str) : Prop := l <> [] /\ (CR ∉ l) /\ (NL ∉ l).

Lemma with_eol_cons eol l ls : with_eol eol (l :: ls) = l ++ eol ++ with_eol eol ls.
Proof. unfold with_eol. cbn [fmap list_fmap concat]. by rewrite (assoc_L (++)). Qed.

Lemma split_on_app c l s : c ∉ l -> split_on c (l ++ c :: s) = l :: split_on c s.
Proof.
  induction l as [|x l IH]; intros Hn; simpl; [by rewrite Z.eqb_refl|].
  apply not_elem_of_cons in Hn as [Hx Hl]. destruct (Z.eqb_spec x c); [congruence|]. by rewrite IH.
Qed.

Lemma split_crlf_app l s : CR ∉ l -> split_crlf (l ++ CRLF ++ s) = l :: split_crlf s.
Proof.
  induction l as [|x l IH]; intros Hn; [done|].
  apply not_elem_of_cons in Hn as [Hx Hl]. cbn [app split_crlf].
  change (CRLF ++ s) with (CR :: NL :: s) in *. rewrite IH by done.
  assert ((x =? CR) = false) as -> by (apply Z.eqb_neq; congruence). simpl.
  by destruct (l ++ CR :: NL :: s).
Qed.

Lemma find_str_present p a b : find_str p (a ++ p ++ b) <> None.
Proof.
  induction a as [|x a IH]; cbn [app].
  - destruct (p ++ b) eqn:He; cbn [find_str]; rewrite <- He, strip_prefix_app; done.
  - cbn [find_str]. destruct (strip_prefix p (x :: a ++ p ++ b)); [done|].
    destruct (find_str p (a ++ p ++ b)) as [[]|]; done.
Qed.

Lemma find_str_absent c p s : c ∉ s -> find_str (c :: p) s = None.
Proof.
  induction s as [|x s IH]; intros Hn; [done|]. apply not_elem_of_cons in Hn as [Hx Hs].
  cbn [find_str strip_prefix]. assert ((c =? x) = false) as -> by (by apply Z.eqb_neq).
  by rewrite IH.
Qed.

(** The answer text is cut back into its lines. *)
Lemma inject_msid_lines eol ls peer :
  (eol = [NL] \/ eol = CRLF) -> ls <> [] -> Forall sdp_line ls ->
  inject_msid (with_eol eol ls) peer =
    (with_eol eol (inject_lines peer ls).1, (inject_lines peer ls).2).
Proof.
  intros Heol Hne Hls.
  assert (inject_lines peer (ls ++ [[]]) = inject_lines peer ls) as Hend.
  { unfold inject_lines. by rewrite fold_left_app. }
  unfold inject_msid. destruct Heol as [->| ->].
  - assert (contains (with_eol [NL] ls) CRLF = false) as ->.
    { unfold contains, CRLF. rewrite find_str_absent; [done|]. clear Hne Hend.
      induction Hls as [|l ls (_ & Hc & _) _ IH]; [set_solver|]. rewrite with_eol_cons.
      rewrite !not_elem_of_app. split_and!; [done| |done].
      apply not_elem_of_cons. split; [done|apply not_elem_of_nil]. }
    assert (split_on NL (with_eol [NL] ls) = ls ++ [[]]) as ->.
    { clear Hne Hend. induction Hls as [|l ls (_ & _ & Hn) _ IH]; [done|]. rewrite with_eol_cons. simpl.
      by rewrite split_on_app, IH. }
    rewrite Hend. by destruct (inject_lines peer ls).
  - assert (contains (with_eol CRLF ls) CRLF = true) as ->.
    { unfold contains. destruct ls as [|l ls]; [done|]. rewrite with_eol_cons.
      pose proof (find_str_present CRLF l (with_eol CRLF ls)). by destruct (find_str _ _). }
    assert (split_crlf (with_eol CRLF ls) = ls ++ [[]]) as ->.
    { clear Hne Hend. induction Hls as [|l ls (_ & Hc & _) _ IH]; [done|]. rewrite with_eol_cons.
      by rewrite split_crlf_app, IH. }
    rewrite Hend. by destruct (inject_lines peer ls).
Qed.

Lemma msid_line_sdp peer k : 0 <= peer -> sdp_line (msid_line peer k).
Proof.
  intros Hp. destruct (to_string_digits peer Hp) as [Hd _].
  assert (forall c, c < 48 -> c ∉ to_string peer) as Hno.
  { intros c Hc Hin. rewrite Forall_forall in Hd. specialize (Hd c Hin). simpl in Hd. lia. }
  assert (forall c, c = CR \/ c = NL -> (c ∉ lit "a=msid:peer-") /\ (c ∉ [SPACE]) /\
    (c ∉ lit "peer-") /\ (c ∉ lit "-") /\ (c ∉ kind_str k)) as Hlit.
  { intros c [->| ->]; split_and!; first [apply (bool_decide_unpack _); vm_compute; exact I | destruct k; apply (bool_decide_unpack _); vm_compute; exact I]. }
  unfold sdp_line, msid_line, msid_prefix. split; [done|].
  split; rewrite !not_elem_of_app;
    [destruct (Hlit CR) as (? & ? & ? & ? & ?); [by left|] | destruct (Hlit NL) as (? & ? & ? & ? & ?); [by right|]];
    split_and!; try done; by apply Hno.
Qed.

Lemma rewritten_lines peer b :
  0 <= peer -> media_section b -> Forall sdp_line b -> Forall sdp_line (rewrite_section peer b).
Proof.
  intros Hp Hm Hb. destruct (rewrite_media_section peer b Hm) as [Ho _ Hi Hu].
  destruct (sending peer b); [|by rewrite (Hu eq_refl)]. specialize (Hi eq_refl).
  apply Forall_forall. intros l Hl%list_elem_of_In. destruct (is_msid l) eqn:Hml.
  - assert (l ∈ identities (rewrite_section peer b)) as Hin
      by (by apply list_elem_of_In, List.filter_In).
    rewrite Hi in Hin. apply list_elem_of_singleton in Hin as ->. by apply msid_line_sdp.
  - assert (In l (others (rewrite_section peer b))) as Hin
      by (apply List.filter_In; split; [done|by rewrite Hml]).
    rewrite Ho in Hin. apply List.filter_In in Hin as [Hin%list_elem_of_In _].
    rewrite Forall_forall in Hb. by apply Hb.
Qed.

(** ** Which sections are named *)

(** The line that names the stream of a peer. *)
Definition identity_line (peer : Z) (kind : str) : str :=
  lit "a=msid:peer-" ++ to_string peer ++ lit " peer-" ++ to_string peer ++ lit "-" ++ kind.

(** The last direction attribute of the lines below a media line says that
    nothing is sent. *)
Definition says_silent (rest : list str) : Prop :=
  exists before d after, rest = before ++ d :: after /\
    (d = lit "a=recvonly" \/ d = lit "a=inactive") /\
    Forall (fun l => l ∉ [lit "a=recvonly"; lit "a=sendonly"; lit "a=sendrecv"; lit "a=inactive"]) after.

(** A section to be named: audio or video by its media line, not silent, and
    without an identity of this peer. *)
Definition wants_identity (peer : Z) (b : list str) (kind : str) : Prop :=
  exists m rest, b = m :: rest /\
    ((kind = lit "audio" /\ exists t, m = lit "m=audio" ++ t) \/
     (kind = lit "video" /\ exists t, m = lit "m=video" ++ t)) /\
    ~ says_silent rest /\
    ~ (exists l t, l ∈ rest /\ l = lit "a=msid:peer-" ++ to_string peer ++ lit " " ++ t).

Definition begins (p l : str) : Prop := exists t, l = p ++ t.

(** The section with its identity: the media line still first, the other lines
    as they were, one identity line in all, and that directly below the last
    [a=mid:] line when there is one. *)
Record named (peer : Z) (kind : str) (b b' : list str) : Prop := {
  nm_head : head b' = head b;
  nm_others : others b' = others b;
  nm_identity : identities b' = [identity_line peer kind];
  nm_place before mid after :
    b = before ++ mid :: after -> begins (lit "a=mid:") mid ->
    Forall (fun l => ~ begins (lit "a=mid:") l) after ->
    b' = others before ++ mid :: identity_line peer kind :: others after;
}.

(** Every section of an answer, with the number that were named. *)
Inductive sections_named (peer : Z) : list (list str) -> list (list str) -> nat -> Prop :=
  | sn_nil : sections_named peer [] [] 0
  | sn_named kind b b' bs bs' n :
      wants_identity peer b kind -> named peer kind b b' ->
      sections_named peer bs bs' n -> sections_named peer (b :: bs) (b' :: bs') (S n)
  | sn_kept b bs bs' n :
      (forall kind, ~ wants_identity peer b kind) ->
      sections_named peer bs bs' n -> sections_named peer (b :: bs) (b :: bs') n.

Lemma identity_line_eq peer k : msid_line peer k = identity_line peer (kind_str k).
Proof.
  unfold msid_line, msid_prefix, identity_line. rewrite <- !(assoc_L (++)). reflexivity.
Qed.

(** The direction the machine arrives at. *)
Lemma block_direction peer m rest :
  (mb_direction (block_of peer (m :: rest)) = DRecvOnly \/
   mb_direction (block_of peer (m :: rest)) = DInactive) <-> says_silent rest.
Proof.
  induction rest as [|l rest IH] using rev_ind.
  { split; [intros [H|H]; discriminate H|].
    intros (before & d & after & He & _). by destruct before. }
  change (m :: rest ++ [l]) with ((m :: rest) ++ [l]). rewrite block_of_snoc.
  cbn [scan_line mb_direction]. unfold direction_after.
  assert (forall d, l = d -> d = lit "a=recvonly" \/ d = lit "a=inactive" -> says_silent (rest ++ [l])) as Hlast.
  { intros d -> Hd. exists rest, d, []. split_and!; [done|done|constructor]. }
  assert (forall before d after, rest ++ [l] = before ++ d :: after ->
    (after = [] /\ l = d) \/ exists after', after = after' ++ [l] /\ rest = before ++ d :: after') as Hcut.
  { intros before d after He. destruct after as [|x after' _] using rev_ind.
    - apply app_inj_tail in He as [_ ->]. by left.
    - right. change (before ++ d :: after' ++ [x]) with (before ++ (d :: after') ++ [x]) in He.
      rewrite (assoc_L (++)) in He. apply app_inj_tail in He as [-> ->]. by exists after'. }
  repeat case_decide.
  - split; [intros _; eapply Hlast; [done|by left]|by left].
  - split; [intros [Hx|Hx]; discriminate Hx|].
    intros (before & d & after & He & Hd & Ha). apply Hcut in He as [[-> ->]|(after' & -> & _)].
    + by destruct Hd as [Hd|Hd]; rewrite Hd in *.
    + apply Forall_app in Ha as [_ Ha]. inversion_clear Ha. set_solver.
  - split; [intros [Hx|Hx]; discriminate Hx|].
    intros (before & d & after & He & Hd & Ha). apply Hcut in He as [[-> ->]|(after' & -> & _)].
    + by destruct Hd as [Hd|Hd]; rewrite Hd in *.
    + apply Forall_app in Ha as [_ Ha]. inversion_clear Ha. set_solver.
  - split; [intros _; eapply Hlast; [done|by right]|by right].
  - rewrite IH. split.
    + intros (before & d & after & -> & Hd & Ha). exists before, d, (after ++ [l]).
      rewrite <- (assoc_L (++)). split_and!; [done|done|]. apply Forall_app. split; [done|].
      constructor; [set_solver|constructor].
    + intros (before & d & after & He & Hd & Ha). apply Hcut in He as [[-> ->]|(after' & -> & ->)].
      * by destruct Hd.
      * apply Forall_app in Ha as [Ha _]. by exists before, d, after'.
Qed.

Lemma kind_of_line_spec m :
  (kind_of_line m = KAudio <-> begins (lit "m=audio") m) /\
  (kind_of_line m = KVideo <-> begins (lit "m=video") m).
Proof.
  unfold kind_of_line. destruct (starts_with m (lit "m=audio")) eqn:Ha.
  { apply starts_with_spec in Ha as [t ->]. split; [by split; [exists t|]|].
    split; [done|]. intros [t' Ht]. discriminate Ht. }
  assert (~ begins (lit "m=audio") m) as Hna by (intros H%starts_with_spec; congruence).
  destruct (starts_with m (lit "m=video")) eqn:Hv.
  - apply starts_with_spec in Hv as [t ->]. split; [by split|]. by split; [exists t|].
  - assert (~ begins (lit "m=video") m) as Hnv by (intros H%starts_with_spec; congruence).
    by split.
Qed.

(** The machine's decision is the one above. *)
Lemma sending_wants peer m rest :
  (sending peer (m :: rest) = true ->
    wants_identity peer (m :: rest) (kind_str (mb_kind (block_of peer (m :: rest))))) /\
  (sending peer (m :: rest) = false -> forall kind, ~ wants_identity peer (m :: rest) kind).
Proof.
  destruct (block_of_lines peer m rest) as (_ & Hk & Ha). rewrite Hk.
  destruct (kind_of_line_spec m) as [Hau Hvi].
  pose proof (block_direction peer m rest) as Hd.
  assert (mb_already_injected (block_of peer (m :: rest)) = true <->
    exists l t, l ∈ rest /\ l = lit "a=msid:peer-" ++ to_string peer ++ lit " " ++ t) as Hinj.
  { rewrite Ha, existsb_exists. split.
    - intros (l & Hl%list_elem_of_In & [t ->]%starts_with_spec). eexists _, t. split; [exact Hl|].
      unfold msid_prefix. rewrite <- !(assoc_L (++)). reflexivity.
    - intros (l & t & Hl & ->). eexists. split; [apply list_elem_of_In, Hl|]. apply starts_with_spec.
      exists t. unfold msid_prefix. rewrite <- !(assoc_L (++)). reflexivity. }
  unfold sending, left_alone. rewrite Hk. split.
  - intros Hs. apply negb_true_iff in Hs. rewrite !orb_false_iff, !bool_decide_eq_false in Hs.
    destruct Hs as (((Hko & Hai) & Hdr) & Hdi). exists m, rest. split; [done|]. split_and!.
    + destruct (kind_of_line m); [left|right|done]; split; try done; [by apply Hau|by apply Hvi].
    + intros Hsil. apply Hd in Hsil as [?|?]; done.
    + intros He. apply Hinj in He. congruence.
  - intros Hs kind (m0 & rest0 & [= <- <-] & Hkind & Hsil & Hno). apply negb_false_iff in Hs.
    rewrite !orb_true_iff, !bool_decide_eq_true in Hs.
    destruct Hs as [[[Hko|Hai]|Hdr]|Hdi].
    + destruct Hkind as [[_ Hb]|[_ Hb]]; [apply Hau in Hb|apply Hvi in Hb]; congruence.
    + by apply Hno, Hinj.
    + apply Hsil, Hd. by left.
    + apply Hsil, Hd. by right.
Qed.

(** ** Where the identity goes *)

Lemma block_mid peer m before mid after :
  begins (lit "a=mid:") mid -> Forall (fun l => ~ begins (lit "a=mid:") l) after ->
  mb_mid_idx (block_of peer (m :: before ++ mid :: after)) = Some (S (length before)).
Proof.
  intros Hmid%starts_with_spec Ha. induction after as [|l after IH] using rev_ind.
  - change (m :: before ++ [mid]) with ((m :: before) ++ [mid]). rewrite block_of_snoc.
    cbn [scan_line mb_mid_idx]. rewrite Hmid. by destruct (block_of_lines peer m before) as (-> & _).
  - apply Forall_app in Ha as [Ha Hl]. inversion_clear Hl as [|? ? Hnl _].
    replace (m :: before ++ mid :: after ++ [l]) with ((m :: before ++ mid :: after) ++ [l])
      by (simpl; by rewrite <- (assoc_L (++))).
    rewrite block_of_snoc. cbn [scan_line mb_mid_idx].
    destruct (starts_with l (lit "a=mid:")) eqn:Hs; [exfalso; by apply Hnl, starts_with_spec|]. by apply IH.
Qed.

Lemma emit_lines_done ia line i ls : emit_lines ia line i ls true = (others ls, true).
Proof.
  revert i. induction ls as [|l ls IH]; intros i; [done|]. cbn [emit_lines negb andb]. rewrite IH.
  unfold others. cbn [List.filter]. by destruct (is_msid l).
Qed.

Lemma emit_lines_at line i before x after :
  is_msid x = false ->
  emit_lines (i + length before) line i (before ++ x :: after) false =
    (others before ++ x :: line :: others after, true).
Proof.
  intros Hx. revert i. induction before as [|l before IH]; intros i; cbn [app emit_lines length].
  - rewrite Hx, Nat.add_0_r, Nat.eqb_refl. cbn [negb andb]. by rewrite emit_lines_done.
  - assert ((i =? i + S (length before))%nat = false) as -> by (apply Nat.eqb_neq; lia).
    replace (i + S (length before))%nat with (S i + length before)%nat by lia. rewrite IH.
    unfold others. cbn [List.filter negb andb]. by destruct (is_msid l).
Qed.

Lemma rewrite_placed peer m before mid after :
  sending peer (m :: before ++ mid :: after) = true -> is_media m = true ->
  begins (lit "a=mid:") mid -> Forall (fun l => ~ begins (lit "a=mid:") l) after ->
  rewrite_section peer (m :: before ++ mid :: after) =
    others (m :: before) ++ mid :: msid_line peer (kind_of_line m) :: others after.
Proof.
  intros Hs Hm Hmid Ha. unfold rewrite_section, flush_block.
  unfold sending in Hs. apply negb_true_iff in Hs. rewrite Hs. cbv zeta.
  rewrite (block_mid peer m before mid after Hmid Ha).
  destruct (block_of_lines peer m (before ++ mid :: after)) as (-> & -> & _).
  assert (is_msid mid = false) as Hx by (by destruct Hmid as [t ->]).
  pose proof (emit_lines_at (msid_line peer (kind_of_line m)) 0 (m :: before) mid after Hx) as He.
  cbn [app length Nat.add] in He. rewrite He. reflexivity.
Qed.

Lemma rewrite_named peer m rest :
  is_media m = true -> sending peer (m :: rest) = true ->
  named peer (kind_str (mb_kind (block_of peer (m :: rest)))) (m :: rest) (rewrite_section peer (m :: rest)).
Proof.
  intros Hm Hs. destruct (rewrite_section_spec peer m rest Hm) as [Ho Hh Hi _].
  split; [done|done|by rewrite <- identity_line_eq; apply Hi|].
  intros before mid after Hb Hmid Ha. destruct before as [|m0 before].
  { injection Hb as <- <-. destruct Hmid as [t ->]. done. }
  injection Hb as <- ->. destruct (block_of_lines peer m (before ++ mid :: after)) as (_ & -> & _).
  rewrite <- identity_line_eq. by apply rewrite_placed.
Qed.

Lemma sections_are_named peer blocks :
  Forall media_section blocks ->
  sections_named peer blocks (rewrite_section peer <$> blocks) (injections peer blocks).
Proof.
  unfold injections. induction 1 as [|b blocks (m & rest & -> & Hm & _) _ IH]; [constructor|].
  cbn [fmap list_fmap List.filter]. destruct (sending peer (m :: rest)) eqn:Hs; cbn [length].
  - eapply sn_named; [by apply sending_wants|by apply rewrite_named|exact IH].
  - destruct (rewrite_section_spec peer m rest Hm) as [_ _ _ Hu]. rewrite (Hu Hs).
    apply sn_kept; [by apply sending_wants|exact IH].
Qed.

(** C24. The answer is rewritten section by section: for every answer made of
    lines with one line ending, the session part is kept; a section is named
    exactly when its media line begins with [m=audio] or [m=video], the last of
    its direction attributes is not [a=recvonly] or [a=inactive] (none at all
    counts as sending) and no line of it begins with [a=msid:peer-N ] for this
    peer; a named section keeps its media line and all its other lines in order,
    loses its old identity lines and carries the one line
    [a=msid:peer-N peer-N-audio], or [-video], by its media line, directly below
    its last [a=mid:] line if it has one; every other section is untouched, and
    the count is the number of sections named.  Running the rewriting again
    returns the same text and counts nothing. *)
Theorem inject_msid_correct eol ls peer :
  (eol = [NL] \/ eol = CRLF) -> ls <> [] -> Forall sdp_line ls -> 0 <= peer ->
  exists session blocks blocks' n text,
    sections ls = session :: blocks /\
    inject_msid (with_eol eol ls) peer = (text, n) /\
    text = with_eol eol (session ++ concat blocks') /\
    sections (session ++ concat blocks') = session :: blocks' /\
    sections_named peer blocks blocks' n /\
    inject_msid text peer = (text, 0%nat).
Proof.
  intros Heol Hne Hls Hp.
  assert (forall ls', Forall sdp_line ls' -> Forall (fun l : str => l <> []) ls') as Hnonempty.
  { intros ls' Hl. eapply Forall_impl; [exact Hl|]. by intros l (? & _). }
  destruct (inject_lines_sections peer ls (Hnonempty _ Hls))
    as (pre & blocks & Hsec & Hcat & Hpre & Hb & Hinj).
  set (blocks' := rewrite_section peer <$> blocks).
  assert (Forall media_section blocks') as Hb'.
  { unfold blocks'. apply Forall_fmap. eapply Forall_impl; [exact Hb|]. intros b Hmb.
    by eapply section_rewritten_media, rewrite_media_section. }
  assert (sections (pre ++ concat blocks') = pre :: blocks') as Hsec' by (by apply group_concat).
  exists pre, blocks, blocks', (injections peer blocks), (with_eol eol (pre ++ concat blocks')).
  split; [done|]. split; [by rewrite inject_msid_lines, Hinj by done|].
  split; [done|]. split; [done|]. split; [by apply sections_are_named|].
  rewrite Hcat in Hls. apply Forall_app in Hls as [Hpl Hbl]. rewrite Forall_concat in Hbl.
  assert (Forall sdp_line (pre ++ concat blocks')) as Hls'.
  { apply Forall_app. split; [done|]. apply Forall_concat, Forall_fmap, Forall_forall. intros b Hin.
    rewrite Forall_forall in Hb, Hbl. by apply rewritten_lines; [|apply Hb|apply Hbl]. }
  assert (pre ++ concat blocks' <> []) as Hne'.
  { intros [Hpn Hbn]%app_nil. subst pre. destruct blocks as [|b blocks]; [by rewrite Hcat in Hne|].
    inversion_clear Hb' as [|? ? (m & r & Hmr & _) _]. unfold blocks' in Hbn. simpl in *.
    by rewrite Hmr in Hbn. }
  rewrite inject_msid_lines by done.
  destruct (inject_lines_sections peer _ (Hnonempty _ Hls')) as (pre2 & blocks2 & Hsec2 & _ & _ & _ & ->).
  rewrite Hsec' in Hsec2. injection Hsec2 as <- <-. simpl.
  destruct (injections_settled peer blocks Hb) as [Hset Hz]. unfold blocks'. by rewrite Hset, Hz.
Qed.

Definition demo_answer : list str :=
  [lit "v=0"; lit "m=audio 9"; lit "a=mid:0"; lit "a=msid:x y"; lit "m=video 9"; lit "a=recvonly"].

Lemma inject_msid_correct_witness :
  exists text, inject_msid (with_eol CRLF demo_answer) 7 = (text, 1%nat) /\
    inject_msid text 7 = (text, 0%nat).
Proof.
  destruct (inject_msid_correct CRLF demo_answer 7) as (s & bs & bs' & n & text & Hs & Hi & _ & _ & _ & H2).
  - by right.
  - discriminate.
  - repeat (apply Forall_cons; split;
      [split; [discriminate|];
       split; intros Hin; vm_compute in Hin;
         repeat (apply elem_of_cons in Hin as [Hin|Hin]; [discriminate|]);
         by apply elem_of_nil in Hin|]).
    constructor.
  - lia.
  - exists text. split; [|exact H2]. pose proof Hi as Hn. vm_compute in Hn. injection Hn as _ <-. exact Hi.
Defined.
