(* ===== verification/SfuDispatch.v ===== *)
(** * What a client does with str0m's output (crates/sfu/src/client/dispatch.rs)

    [poll_output], [handle_output] and [handle_event] for every event str0m can
    raise.  [Peer] is the client record of SfuTypes with the fields only this
    code uses: the relay announcement that waits for the connection, the
    credentials a relay promotion is checked against, and the outgoing
    datagrams.  What [rtc.channel(..)] finds when an event is handled is part of
    the event; a floating-point statistic is an opaque number. *)

From Stdlib Require Import ZArith Lia.
From stdpp Require Import base option numbers gmap strings list.
From S2P Require Import Prelude RustStr DdParse DdCache SfuTypes SfuKeyframe SfuMedia SfuRenegotiation SfuRelayOut SfuRegistry RoomAuth SfuChannelData.

Record Peer := mkPeer {
  p_client : Client;
  p_relay_source_pending : option (str * str);
  p_relay_auth_secret : option (list Z);
  p_relay_signing_pubkey : option str;
  p_relay_hs256_fallback : bool;
  p_pending_out : list Transmit;
}.

Definition set_client (c : Client) (p : Peer) : Peer :=
  mkPeer c (p_relay_source_pending p) (p_relay_auth_secret p) (p_relay_signing_pubkey p)
    (p_relay_hs256_fallback p) (p_pending_out p).
Definition set_pending (v : option (str * str)) (p : Peer) : Peer :=
  mkPeer (p_client p) v (p_relay_auth_secret p) (p_relay_signing_pubkey p)
    (p_relay_hs256_fallback p) (p_pending_out p).
Definition push_out (d : Transmit) (p : Peer) : Peer :=
  mkPeer (p_client p) (p_relay_source_pending p) (p_relay_auth_secret p) (p_relay_signing_pubkey p)
    (p_relay_hs256_fallback p) (p_pending_out p ++ [d]).

Inductive IceConnectionState := IceNew | IceChecking | IceConnected | IceCompleted | IceDisconnected.
#[export] Instance Ice_eq_dec : EqDecision IceConnectionState.
Proof. solve_decision. Defined.

Definition ice_label (s : IceConnectionState) : string :=
  match s with
  | IceNew => "new" | IceChecking => "checking" | IceConnected => "connected"
  | IceCompleted => "completed" | IceDisconnected => "disconnected"
  end.

Inductive Direction := SendOnly | RecvOnly | SendRecv | Inactive.

(** What [rtc.channel(dc_id)] finds: no channel yet, or one whose write
    succeeds or fails. *)
Inductive Announce := NoChannel | Channel_ (write_ok : bool).

Inductive Event :=
| EIce (s : IceConnectionState)
| EChannelOpen (channel : string)
| EConnected (ch : Announce)
| EMediaAdded (mid : Mid) (kind : MediaKind) (dir : Direction) (ref : TrackRef)
| EMediaData (writer : bool) (now : Instant) (d : MediaData)
| EKeyframeRequest (req : KeyframeRequest)
| EBwe (bps : Z)
| EChannelData (label : option string) (data : list Z)
| EPeerStats (rtt egress_loss ingress_loss bwe_tx : option Z)
| EMediaEgressStats (mid : Mid) (jitter : option Z) (nacks firs plis : Z)
| EMediaIngressStats (mid : Mid)
| EOther.

Inductive Output :=
| OTransmit (datagram : Transmit)
| OTimeout (t : Instant)
| OEvent (e : Event).

Definition kind_of (o : Output) : string :=
  match o with
  | OTransmit _ => "transmit"
  | OTimeout _ => "timeout"
  | OEvent (EIce _) => "event_ice"
  | OEvent (EMediaAdded _ _ _ _) => "event_media_added"
  | OEvent (EMediaData _ _ _) => "event_media_data"
  | OEvent (EKeyframeRequest _) => "event_keyframe_req"
  | OEvent (EBwe _) => "event_bwe"
  | OEvent (EChannelData _ _) => "event_channel"
  | OEvent (EChannelOpen _) => "event_channel_open"
  | OEvent (EConnected _) => "event_connected"
  | OEvent (EPeerStats _ _ _ _) => "event_peer_stats"
  | OEvent (EMediaEgressStats _ _ _ _ _) => "event_media_egress_stats"
  | OEvent (EMediaIngressStats _) => "event_media_ingress_stats"
  | OEvent EOther => "event_other"
  end.

(** Flip the track that negotiates this very mid. *)
Fixpoint open_negotiated (mid : Mid) (os : list TrackOut) : list TrackOut * bool :=
  match os with
  | [] => ([], false)
  | o :: os' =>
      match to_state o with
      | Negotiating m =>
          if decide (m = mid) then (mkTrackOut (to_track_in o) (Open m) :: os', true)
          else let '(r, b) := open_negotiated mid os' in (o :: r, b)
      | _ => let '(r, b) := open_negotiated mid os' in (o :: r, b)
      end
  end.

Definition set_opt (family : string) (labels : list string) (v : option Z) : list Effect :=
  match v with Some x => [SetGauge family labels x] | None => [] end.
Definition inc_positive (family : string) (labels : list string) (n : Z) : list Effect :=
  if 0 <? n then [IncBy family labels n] else [].

Section dispatch.
Context `{Jwt}.
(** serde_json, the clock and policy of a token check, the cargo feature, and
    the live tracks. *)
Variable to_json : list member -> str.
Variable wall_now : Z.
Variable cell : PolicyCell.
Variable vfm : bool.
Variable h : TrackStore.

Definition RELAY_SOURCE_DC : string := "sfu-relay-source".

Definition on_connected (ch : Announce) (p : Peer) : Peer * list Effect :=
  match p_relay_source_pending p with
  | None => (p, [])
  | Some (upstream_url, room_token) =>
      (set_pending None p,
       match ch with
       | Channel_ true =>
           [DcWrite (id (p_client p)) RELAY_SOURCE_DC
              (as_bytes (relay_source_message to_json upstream_url room_token))]
       | Channel_ false | NoChannel => []
       end)
  end.

Definition on_channel_data (label : option string) (data : list Z) (p : Peer) : Propagated * list Effect :=
  let label := default "" label in
  let result := handle_channel_data wall_now cell vfm (id (p_client p)) label data
                  (p_relay_auth_secret p) (p_relay_signing_pubkey p) (p_relay_hs256_fallback p) in
  (result,
   match result with
   | PNoop => if bool_decide (label = "voice") && (VOICE_FRAME_MAX_BYTES <? len data)
              then [Inc "voice_relay_dropped" ["frame_malformed"]] else []
   | _ => []
   end).

Definition handle_event (e : Event) (p : Peer) : Peer * list Effect * Propagated :=
  let c := p_client p in
  let peer_label := label_of (id c) in
  match e with
  | EIce s =>
      (if decide (s = IceDisconnected) then set_client (put_alive false c) p else p,
       [Inc "ice_state_total" [ice_label s]], PNoop)
  | EChannelOpen channel =>
      if bool_decide (channel = "reactions") && reactions_dc_cid c && negb (reactions_dc_opened c)
      then (set_client (put_reactions_dc_opened true c) p,
            [Inc "chat_relay_active_channels" ["reactions"]], PNoop)
      else (p, [], PNoop)
  | EConnected ch => let '(p', fx) := on_connected ch p in (p', fx, PNoop)
  | EMediaAdded mid kind dir ref =>
      match dir with
      | SendOnly =>
          let '(os, transitioned) := open_negotiated mid (tracks_out c) in
          (set_client (put_tracks_out os c) p,
           if transitioned then [Inc "sfu_track_out_state_transitions_total" ["negotiating"; "open"]] else [],
           PNoop)
      | RecvOnly | SendRecv | Inactive =>
          let '(c', ev) := track_in_added ref mid kind c in (set_client c' p, [], ev)
      end
  | EMediaData writer now d =>
      let '(c', fx, ev) := track_in_media writer now d c in (set_client c' p, fx, ev)
  | EKeyframeRequest req => (p, [], incoming_keyframe_req h req c)
  | EBwe bps => (p, [], PBandwidthEstimate (id c) bps)
  | EChannelData label data => let '(ev, fx) := on_channel_data label data p in (p, fx, ev)
  | EPeerStats rtt egress_loss ingress_loss bwe_tx =>
      (p, set_opt "peer_rtt_seconds" [peer_label] rtt ++
          set_opt "peer_loss_fraction" [peer_label; "egress"] egress_loss ++
          set_opt "peer_loss_fraction" [peer_label; "ingress"] ingress_loss ++
          set_opt "peer_bandwidth_estimate_bps" [peer_label] bwe_tx, PNoop)
  | EMediaEgressStats mid jitter nacks firs plis =>
      (p, set_opt "media_egress_jitter_ticks" [peer_label; mid] jitter ++
          inc_positive "media_egress_nacks_received_total" [peer_label; mid] nacks ++
          inc_positive "media_egress_firs_received_total" [peer_label; mid] firs ++
          inc_positive "media_egress_plis_received_total" [peer_label; mid] plis, PNoop)
  | EMediaIngressStats mid => (p, [SetGauge "media_ingress_jitter_ticks" [peer_label; mid] 0], PNoop)
  | EOther => (p, [], PNoop)
  end.

Definition handle_output (o : Output) (p : Peer) : Peer * list Effect * Propagated :=
  let tap := Inc "sfu_str0m_output_total" [label_of (id (p_client p)); kind_of o] in
  match o with
  | OTransmit d => (push_out d p, [tap], PNoop)
  | OTimeout t => (p, [tap], PTimeout t)
  | OEvent e => let '(p', fx, ev) := handle_event e p in (p', tap :: fx, ev)
  end.

(** [polled] is what [rtc.poll_output()] returns; [None] is an error. *)
Definition poll_output (polled : option Output) (p : Peer) : Peer * list Effect * Propagated :=
  if negb (alive (p_client p)) then (p, [], PNoop)
  else match polled with
       | Some o => handle_output o p
       | None => (set_client (put_alive false (p_client p)) p,
                  [Inc "sfu_str0m_output_total" [label_of (id (p_client p)); "error"]], PNoop)
       end.

(** A client polled repeatedly: all it did, and what it raised. *)
Fixpoint poll_many (outs : list (option Output)) (p : Peer) : Peer * list Effect * list Propagated :=
  match outs with
  | [] => (p, [], [])
  | o :: outs' =>
      let '(p1, fx1, ev) := poll_output o p in
      let '(p2, fx2, evs) := poll_many outs' p1 in
      (p2, fx1 ++ fx2, ev :: evs)
  end.
End dispatch.
