(* ===== verification/SfuDispatchFacts.v ===== *)
(** * Facts about the event dispatch

    A client raises events only in its own name; an outbound relay announces
    itself once or not at all; the announcement, the promotion and the registry
    compose into a cascade link. *)

From Stdlib Require Import ZArith Lia.
From stdpp Require Import base option numbers gmap strings list.
From S2P Require Import Prelude RustStr DdParse DdCache SfuTypes SfuKeyframe SfuMedia SfuRenegotiation SfuRelayOut SfuRegistry RoomAuth SfuChannelData SfuDispatch.

(** ** Attribution *)

(** The events a client may raise, in the name of [cid]. *)
Definition raised_by (cid : ClientId) (ev : Propagated) : Prop :=
  match ev with
  | PNoop | PTimeout _ => True
  | PMarkRelaySource o _ => o = cid
  | PTrackOpen _ _ | PMediaData _ _ | PKeyframeRequest _ _ _ _ | PBandwidthEstimate _ _
  | PClientBudgetHint _ _ | PVfmLayerCap _ _ | PChatData _ _ | PChatCtrl _ _ | PVoiceData _ _
  | PKeysData _ _ => propagated_client_id ev = Some cid
  | _ => False
  end.

Lemma request_keyframe_throttled_id writer now mid rid c :
  id (request_keyframe_throttled writer now mid rid c).1 = id c.
Proof. unfold request_keyframe_throttled. by repeat case_match. Qed.

Lemma track_in_media_raised writer now d c :
  match track_in_media writer now d c with
  | (c', _, ev) => id c' = id c /\ ev = PMediaData (id c) d
  end.
Proof.
  unfold track_in_media.
  pose proof (request_keyframe_throttled_id writer now (md_mid d) (md_rid d) c) as Hid.
  destruct (negb (md_contiguous d)).
  - destruct (request_keyframe_throttled _ _ _ _ c) as [c1 es]. simpl in Hid.
    destruct (md_rid d); [case_decide|]; simpl; by rewrite <- Hid.
  - destruct (md_rid d); [case_decide|]; done.
Qed.

Lemma handle_channel_data_raised `{Jwt} now cell vfm cid label data secret pubkey fallback :
  raised_by cid (handle_channel_data now cell vfm cid label data secret pubkey fallback).
Proof.
  assert (raised_by cid (handle_by_label vfm cid label data)) as Hl.
  { pose proof (handle_by_label_typed vfm cid label data) as Ht.
    destruct (handle_by_label vfm cid label data); simpl in *; naive_solver. }
  unfold handle_channel_data. destruct (from_utf8 data) as [s|]; [|done]. case_bool_decide; [|done].
  by destruct (handle_relay_source_shape now cell cid s secret pubkey fallback) as [->|[u ->]].
Qed.

Lemma handle_event_raised `{Jwt} to_json now cell vfm h e p :
  match handle_event to_json now cell vfm h e p with
  | (p', _, ev) => id (p_client p') = id (p_client p) /\ raised_by (id (p_client p)) ev
  end.
Proof.
  destruct e; simpl.
  - by case_decide.
  - by destruct (_ && _).
  - unfold on_connected. by destruct (p_relay_source_pending p) as [[]|].
  - destruct dir; [|done..]. by destruct (open_negotiated mid _).
  - pose proof (track_in_media_raised writer now0 d (p_client p)) as Ht.
    destruct (track_in_media _ _ _ _) as [[c' fx] ev]. destruct Ht as [Hid ->]. done.
  - split; [done|]. unfold incoming_keyframe_req. by repeat case_match.
  - done.
  - split; [done|]. apply handle_channel_data_raised.
  - done.
  - done.
  - done.
  - done.
Qed.

(** C17. No client speaks for another: whatever str0m reports to a client and
    however long it is polled, it keeps its identity, and every event it hands
    to the registry is one of the kinds a client may raise and carries that
    client's own id.  Speaker elections, suspension notices and layer hints
    come from the registry alone. *)
Theorem events_not_spoofed `{Jwt} to_json now cell vfm h outs p :
  match poll_many to_json now cell vfm h outs p with
  | (p', _, evs) => id (p_client p') = id (p_client p) /\ Forall (raised_by (id (p_client p))) evs
  end.
Proof.
  revert p. induction outs as [|o outs IH]; intros p; simpl; [done|].
  assert (match poll_output to_json now cell vfm h o p with
    | (p', _, ev) => id (p_client p') = id (p_client p) /\ raised_by (id (p_client p)) ev end) as Hp.
  { unfold poll_output. destruct (alive (p_client p)); simpl; [|done].
    destruct o as [[d|t|e]|]; simpl; [done|done| |done].
    pose proof (handle_event_raised to_json now cell vfm h e p) as He.
    by destruct (handle_event to_json now cell vfm h e p) as [[p' fx] ev]. }
  destruct (poll_output to_json now cell vfm h o p) as [[p1 fx] ev]. destruct Hp as [Hid Hev].
  specialize (IH p1). destruct (poll_many to_json now cell vfm h outs p1) as [[p2 fx2] evs].
  rewrite Hid in IH. destruct IH as [-> Hevs]. split; [done|]. by constructor.
Qed.

(** ** The relay announcement *)

Definition is_announcement (e : Effect) : bool :=
  match e with DcWrite _ dc _ => String.eqb dc RELAY_SOURCE_DC | _ => false end.

Definition announcements (fx : list Effect) : list Effect := List.filter is_announcement fx.

Lemma announcements_app a b : announcements (a ++ b) = announcements a ++ announcements b.
Proof. apply List.filter_app. Qed.

Lemma request_keyframe_throttled_quiet writer now mid rid c :
  announcements (request_keyframe_throttled writer now mid rid c).2 = [].
Proof. unfold request_keyframe_throttled. by repeat case_match. Qed.

Lemma track_in_media_quiet writer now d c :
  announcements (track_in_media writer now d c).1.2 = [].
Proof.
  unfold track_in_media.
  pose proof (request_keyframe_throttled_quiet writer now (md_mid d) (md_rid d) c) as Hq.
  destruct (negb (md_contiguous d)); [|done].
  by destruct (request_keyframe_throttled _ _ _ _ c) as [c1 es].
Qed.

(** Events other than the connection neither announce nor touch what is to be
    announced. *)
Lemma handle_event_quiet `{Jwt} to_json now cell vfm h e p :
  (forall ch, e <> EConnected ch) ->
  p_relay_source_pending (handle_event to_json now cell vfm h e p).1.1 = p_relay_source_pending p /\
  announcements (handle_event to_json now cell vfm h e p).1.2 = [].
Proof.
  intros Hne. destruct e; simpl.
  - by case_decide.
  - by destruct (_ && _).
  - by destruct (Hne ch).
  - destruct dir; [|done..]. by destruct (open_negotiated mid _) as [? []].
  - pose proof (track_in_media_quiet writer now0 d (p_client p)) as Ht.
    by destruct (track_in_media _ _ _ _) as [[c' fx] ev].
  - done.
  - done.
  - split; [done|]. unfold on_channel_data. case_match; try done. by destruct (_ && _).
  - split; [done|]. by destruct rtt, egress_loss, ingress_loss, bwe_tx.
  - split; [done|]. unfold inc_positive. destruct jitter; repeat case_match; done.
  - done.
  - done.
Qed.

(** One poll: the pending announcement survives or is taken. *)
Lemma poll_output_announces `{Jwt} to_json now cell vfm h o p :
  match poll_output to_json now cell vfm h o p with
  | (p', fx, _) =>
      id (p_client p') = id (p_client p) /\
      ((p_relay_source_pending p' = p_relay_source_pending p /\ announcements fx = []) \/
       exists url token, p_relay_source_pending p = Some (url, token) /\
         p_relay_source_pending p' = None /\
         (announcements fx = [] \/
          announcements fx = [DcWrite (id (p_client p)) RELAY_SOURCE_DC
                                (as_bytes (relay_source_message to_json url token))]))
  end.
Proof.
  unfold poll_output. destruct (alive (p_client p)); simpl; [|by eauto].
  destruct o as [[d|t|e]|]; simpl; [by eauto|by eauto| |by eauto].
  pose proof (handle_event_raised to_json now cell vfm h e p) as Hr.
  assert ((exists ch, e = EConnected ch) \/ forall ch, e <> EConnected ch) as [[ch ->]|Hne]
    by (destruct e; eauto).
  - simpl. unfold on_connected. destruct (p_relay_source_pending p) as [[url token]|] eqn:Hp; simpl;
      [|rewrite Hp; by eauto].
    split; [done|]. right. exists url, token. destruct ch as [|[|]]; by eauto.
  - destruct (handle_event_quiet to_json now cell vfm h e p Hne) as [Hp Hq].
    destruct (handle_event to_json now cell vfm h e p) as [[p' fx] ev]. destruct Hr as [Hid _].
    split; [done|]. by left.
Qed.

Lemma poll_many_spent `{Jwt} to_json now cell vfm h outs p :
  p_relay_source_pending p = None ->
  announcements (poll_many to_json now cell vfm h outs p).1.2 = [].
Proof.
  revert p. induction outs as [|o outs IH]; intros p Hp; simpl; [done|].
  pose proof (poll_output_announces to_json now cell vfm h o p) as Ha.
  destruct (poll_output to_json now cell vfm h o p) as [[p1 fx1] ev].
  destruct Ha as [_ [[Hp1 Hfx]|(u & t & Hu & _)]]; [|congruence].
  rewrite Hp in Hp1. specialize (IH p1 Hp1).
  destruct (poll_many to_json now cell vfm h outs p1) as [[p2 fx2] evs]. simpl in *.
  by rewrite announcements_app, Hfx, IH.
Qed.

Lemma poll_many_once `{Jwt} to_json now cell vfm h outs p url token :
  p_relay_source_pending p = Some (url, token) ->
  announcements (poll_many to_json now cell vfm h outs p).1.2 = [] \/
  announcements (poll_many to_json now cell vfm h outs p).1.2 =
    [DcWrite (id (p_client p)) RELAY_SOURCE_DC (as_bytes (relay_source_message to_json url token))].
Proof.
  revert p. induction outs as [|o outs IH]; intros p Hpend; simpl; [by left|].
  pose proof (poll_output_announces to_json now cell vfm h o p) as Ha.
  destruct (poll_output to_json now cell vfm h o p) as [[p1 fx1] ev].
  destruct Ha as [Hid [[Hp1 Hfx]|(u & t & Hu & Hnone & Hfx)]].
  - rewrite Hpend in Hp1. specialize (IH p1 Hp1). rewrite Hid in IH.
    destruct (poll_many to_json now cell vfm h outs p1) as [[p2 fx2] evs]. simpl in *.
    by rewrite announcements_app, Hfx.
  - rewrite Hpend in Hu. injection Hu as <- <-.
    pose proof (poll_many_spent to_json now cell vfm h outs p1 Hnone) as Hrest.
    destruct (poll_many to_json now cell vfm h outs p1) as [[p2 fx2] evs]. simpl in *.
    rewrite announcements_app, Hrest, app_nil_r. done.
Qed.

(** An outbound relay announces itself at most once, with its own URL and
    token, and loses the announcement when the channel is late: if the relay
    channel is not there yet (or refuses the write) at the moment the
    connection comes up, nothing that happens afterwards, the channel opening
    included, makes the client send it, so the upstream never learns that the
    link is a relay. *)
Theorem relay_announced_once_or_lost `{Jwt} to_json now cell vfm h outs p url token ch :
  p_relay_source_pending p = Some (url, token) -> alive (p_client p) = true ->
  (announcements (poll_many to_json now cell vfm h outs p).1.2 = [] \/
   announcements (poll_many to_json now cell vfm h outs p).1.2 =
     [DcWrite (id (p_client p)) RELAY_SOURCE_DC
        (as_bytes (relay_source_message to_json url token))]) /\
  announcements (poll_many to_json now cell vfm h (Some (OEvent (EConnected ch)) :: outs) p).1.2 =
    match ch with
    | Channel_ true => [DcWrite (id (p_client p)) RELAY_SOURCE_DC
                          (as_bytes (relay_source_message to_json url token))]
    | Channel_ false | NoChannel => []
    end.
Proof.
  intros Hpend Halive. split.
  - by apply poll_many_once.
  - cbn [poll_many]. unfold poll_output at 1. rewrite Halive. simpl. unfold on_connected.
    rewrite Hpend. simpl.
    pose proof (poll_many_spent to_json now cell vfm h outs (set_pending None p) eq_refl) as Hrest.
    destruct (poll_many to_json now cell vfm h outs (set_pending None p)) as [[p2 fx2] evs]. simpl in *.
    by destruct ch as [|[|]]; rewrite ?announcements_app; simpl; rewrite Hrest.
Qed.

Definition demo_relay : Peer :=
  mkPeer (new_outbound_relay 5 150000) (Some (lit "wss://a.oxpulse.chat/ws/r1", lit "tok-ed")) None None true [].

Lemma relay_announced_once_or_lost_witness :
  announcements (poll_many (H := Minted.jwt []) render_object 0 None false ∅
    [Some (OEvent (EConnected NoChannel)); Some (OEvent (EChannelOpen "sfu-relay-source"));
     Some (OEvent (EConnected (Channel_ true)))] demo_relay).1.2 = [].
Proof.
  exact (proj2 (relay_announced_once_or_lost (H := Minted.jwt []) render_object 0 None false ∅
    [Some (OEvent (EChannelOpen "sfu-relay-source")); Some (OEvent (EConnected (Channel_ true)))]
    demo_relay (lit "wss://a.oxpulse.chat/ws/r1") (lit "tok-ed") NoChannel eq_refl eq_refl)).
Defined.

(** ** A cascade link *)

(** The registry after the promotion of [cid]: nobody else changed. *)
Definition promoted (cid : ClientId) (r r' : Registry) : Prop :=
  Forall2 (fun c c' => c' = c \/ id c = cid /\ c' = put_is_relay true c) (clients r) (clients r') /\
  Exists (fun c => id c = cid /\ is_relay c = true) (clients r').

Lemma mark_relay_source_promotes cid r :
  cid ∈ (id <$> clients r) ->
  exists r', mark_relay_source cid r = (r', [DetectorRemove cid]) /\ promoted cid r r'.
Proof.
  intros (c0 & Hc0 & Hin)%list_elem_of_fmap.
  unfold mark_relay_source. destruct (list_find (fun c => id c = cid) (clients r)) as [[i c]|] eqn:Hf.
  2: { apply list_find_None in Hf. rewrite Forall_forall in Hf. by destruct (Hf c0 Hin). }
  apply list_find_Some in Hf as (Hi & Hid & _). eexists. split; [done|]. split; simpl.
  - apply Forall2_same_length_lookup. split; [by rewrite length_insert|].
    intros j x y Hx Hy. destruct (decide (i = j)) as [<-|Hne].
    + rewrite list_lookup_insert_eq in Hy by (by eapply lookup_lt_Some).
      right. split; congruence.
    + rewrite list_lookup_insert_ne in Hy by done. left. congruence.
  - apply Exists_exists. exists (put_is_relay true c). split; [|done].
    apply list_elem_of_lookup. exists i. apply list_lookup_insert_eq. by eapply lookup_lt_Some.
Qed.

(** C16. A cascade link is established end to end, for a URL and a token without
    double quotes, backslashes and control characters and other than the three
    member names of the message (the receiver finds members by their quoted names
    and does not undo JSON escapes): when an outbound relay's connection comes up
    with its channel open, the one message it sends, in whatever order the
    serializer puts the members and on whatever channel it arrives, makes the
    upstream SFU promote exactly that connection for exactly the announced URL if
    it demands no credential or the announced token verifies for the room the URL
    ends in, and do nothing otherwise; the promotion marks that client as a relay,
    takes it out of speaker election, and changes no other client. *)
Theorem cascade_link_established `{Jwt} to_json now cell vfm h p q r label url token :
  serializes to_json -> plain url -> plain token -> not_a_name url -> not_a_name token ->
  p_relay_source_pending p = Some (url, token) -> alive (p_client p) = true ->
  alive (p_client q) = true -> id (p_client q) ∈ (id <$> clients r) ->
  exists bytes,
    announcements (poll_output to_json now cell vfm h
      (Some (OEvent (EConnected (Channel_ true)))) p).1.2
      = [DcWrite (id (p_client p)) RELAY_SOURCE_DC bytes] /\
    (poll_output to_json now cell vfm h (Some (OEvent (EChannelData label bytes))) q).2 =
      (if promotion_granted now cell url token (p_relay_auth_secret q) (p_relay_signing_pubkey q)
            (p_relay_hs256_fallback q)
       then PMarkRelaySource (id (p_client q)) url else PNoop) /\
    exists r', mark_relay_source (id (p_client q)) r = (r', [DetectorRemove (id (p_client q))]) /\
      promoted (id (p_client q)) r r'.
Proof.
  intros Hser Hu Ht Hnu Hnt Hpend Hp Hq Hin.
  exists (as_bytes (relay_source_message to_json url token)). split_and!.
  - unfold poll_output. rewrite Hp. simpl. unfold on_connected. by rewrite Hpend.
  - unfold poll_output. rewrite Hq. simpl. by apply announcement_understood.
  - by apply mark_relay_source_promotes.
Qed.

Lemma cascade_link_established_witness :
  exists bytes,
    announcements (poll_output (H := Minted.jwt demo_table) (fun ms => render_object (rev ms)) 950 None false ∅
      (Some (OEvent (EConnected (Channel_ true)))) demo_relay).1.2
      = [DcWrite 5 RELAY_SOURCE_DC bytes] /\
    (poll_output (H := Minted.jwt demo_table) (fun ms => render_object (rev ms)) 950 None false ∅
      (Some (OEvent (EChannelData (Some "chat-ctrl") bytes)))
      (mkPeer (client_new 9 150000) None None (Some (lit "PEM")) false [])).2
      = PMarkRelaySource 9 (lit "wss://a.oxpulse.chat/ws/r1").
Proof.
  destruct (cascade_link_established (H := Minted.jwt demo_table) (fun ms => render_object (rev ms))
    950 None false ∅ demo_relay (mkPeer (client_new 9 150000) None None (Some (lit "PEM")) false [])
    (mkRegistry [client_new 9 150000] [] None []) (Some "chat-ctrl")
    (lit "wss://a.oxpulse.chat/ws/r1") (lit "tok-ed")) as (bytes & H1 & H2 & _).
  - intros ms _. exists (rev ms). split; [|done]. symmetry. apply Permutation_rev.
  - apply plain_check. reflexivity.
  - apply plain_check. reflexivity.
  - by split.
  - by split.
  - reflexivity.
  - reflexivity.
  - reflexivity.
  - left.
  - exists bytes. split; [exact H1|]. rewrite H2. vm_compute. reflexivity.
Defined.
