(* ===== verification/SfuUdpLoop.v ===== *)
(** * The UDP loop (crates/sfu/src/udp_loop.rs, registry/{mod,poll}.rs)

    The single task that owns the registry: one iteration reaps, checks the solo
    clock, pumps the WebSockets, polls every client, drains the event queue,
    sends the queued datagrams, and then serves one arm of the [select!].

    [Server] is the state of [serve]: the registry, the fields of its clients
    that only event dispatch uses ([Side]), the counter behind [ClientId], the
    two injection channels (open or taken out) and the table of destinations
    whose send failures are not logged again.  Everything the loop asks the
    outside (str0m's outputs, the socket, the speaker detector, clocks) is part
    of the description of one iteration ([Turn], [Wake]). *)

From Stdlib Require Import ZArith Lia.
From stdpp Require Import base option numbers gmap strings list.
From S2P Require Import Prelude RustStr NetAddr DdParse DdCache SfuTypes SfuKeyframe SfuMedia SfuRenegotiation SfuRelayOut SfuRegistry RoomAuth SfuChannelData SfuDispatch.

(** ** State *)

Record Side := mkSide {
  relay_source_pending : option (str * str);
  relay_auth_secret : option (list Z);
  relay_signing_pubkey : option str;
  relay_hs256_fallback_enabled : bool;
  pending_out : list Transmit;
}.

Definition side_new : Side := mkSide None None None true [].

(** The arguments of [serve] that never change. *)
Record Serve := mkServe {
  sv_auth_secret : option (list Z);
  sv_signing_pubkey : option str;
  sv_hs256_fallback : bool;
  sv_candidate_addr : SocketAddr;
  sv_solo_kick : option Z;
  sv_epoch : Instant;
  sv_low_min_bps : Z;
}.

Record Server := mkServer {
  reg : Registry;
  sides : gmap ClientId Side;
  next_id : ClientId;
  last_speaker_change : option Instant;
  relay_rx : bool;
  client_inject_rx : bool;
  send_fail_dedup : gmap SocketAddr Instant;
}.

(** [relay] and [client] tell which channels [serve] was given. *)
Definition server_new (relay client : bool) : Server :=
  mkServer registry_new ∅ 0 None relay client ∅.

Definition with_reg (r : Registry) (s : Server) : Server :=
  mkServer r (sides s) (next_id s) (last_speaker_change s) (relay_rx s) (client_inject_rx s)
    (send_fail_dedup s).
Definition with_sides (m : gmap ClientId Side) (s : Server) : Server :=
  mkServer (reg s) m (next_id s) (last_speaker_change s) (relay_rx s) (client_inject_rx s)
    (send_fail_dedup s).
Definition with_dedup (m : gmap SocketAddr Instant) (s : Server) : Server :=
  mkServer (reg s) (sides s) (next_id s) (last_speaker_change s) (relay_rx s) (client_inject_rx s) m.

Definition with_queue (q : list Propagated) (r : Registry) : Registry :=
  mkRegistry (clients r) q (solo_since r) (bandwidth r).

(** A client with its side, as event dispatch sees it. *)
Definition peer_of (m : gmap ClientId Side) (c : Client) : Peer :=
  let sd := default side_new (m !! id c) in
  mkPeer c (relay_source_pending sd) (relay_auth_secret sd) (relay_signing_pubkey sd)
    (relay_hs256_fallback_enabled sd) (pending_out sd).
Definition side_of (p : Peer) : Side :=
  mkSide (p_relay_source_pending p) (p_relay_auth_secret p) (p_relay_signing_pubkey p)
    (p_relay_hs256_fallback p) (p_pending_out p).

(** ** Polling (registry/poll.rs) *)

Definition millis : Z := 1000000.

(** [now.saturating_duration_since(detector_epoch).as_millis()]. *)
Definition since_epoch_ms (epoch now : Instant) : Z := duration_since now epoch / millis.

(** [(-raw).clamp(0, 127) as u8] on an [i8]. *)
Definition speaker_level (raw : Z) : Z :=
  let neg := if raw =? -128 then -128 else - raw in Z.max 0 (Z.min 127 neg).

(** What a polled media packet feeds to the speaker detector, and its timing. *)
Definition observe_media (epoch now : Instant) (relay : bool) (ev : Propagated)
    : list Effect * option (Z * Z) :=
  match ev with
  | PMediaData origin d =>
      (match md_audio_level d with
       | Some raw => if relay then []
                     else [DetectorLevel origin (speaker_level raw) (since_epoch_ms epoch now)]
       | None => []
       end,
       if codec_is_video (md_codec d) then Some (since_epoch_ms epoch now, md_rtp_time d) else None)
  | _ => ([], None)
  end.

Definition or_later {A} (earlier later : option A) : option A :=
  match later with Some x => Some x | None => earlier end.

Section polling.
Context `{Jwt}.
Variable to_json : list member -> str.
Variable wall_now : Z.
Variable cell : PolicyCell.
Variable vfm : bool.

(** The result of polling one client: the client, effects, queued events, the
    deadline it asked for, the timing of its last video packet. *)
Definition Polled : Type :=
  (Peer * list Effect * list Propagated * option Instant * option (Z * Z))%type.

(** The inner loop for one client; [outs] is what its [rtc] yields from now on,
    [before] and [after] are the other clients.  [None]: the script ended
    before the client asked to wait. *)
Fixpoint poll_client (epoch now : Instant) (before after : list Client)
    (outs : list (option Output)) (p : Peer) : option Polled :=
  if negb (alive (p_client p)) then Some (p, [], [], None, None)
  else match outs with
       | [] => None
       | o :: outs' =>
           let h := live_tracks (before ++ p_client p :: after) in
           let '(p, fx, ev) := poll_output to_json wall_now cell vfm h o p in
           match ev with
           | PTimeout t => Some (p, fx, [], Some t, None)
           | PNoop =>
               match poll_client epoch now before after outs' p with
               | Some (p, fx', evs, dl, tm) => Some (p, fx ++ fx', evs, dl, tm)
               | None => None
               end
           | _ =>
               let '(lv, tm) := observe_media epoch now (is_relay (p_client p)) ev in
               match poll_client epoch now before after outs' p with
               | Some (p, fx', evs, dl, tm') =>
                   Some (p, fx ++ lv ++ fx', ev :: evs, dl, or_later tm tm')
               | None => None
               end
           end
       end.

(** The loop over the clients; [deadline] so far. *)
Fixpoint poll_clients (epoch now : Instant) (outs : ClientId -> list (option Output))
    (before rest : list Client) (m : gmap ClientId Side) (deadline : Instant)
    : option (list Client * gmap ClientId Side * list Effect * list Propagated * Instant *
              option (Z * Z)) :=
  match rest with
  | [] => Some (before, m, [], [], deadline, None)
  | c :: rest' =>
      match poll_client epoch now before rest' (outs (id c)) (peer_of m c) with
      | None => None
      | Some (p, fx, evs, dl, tm) =>
          let deadline := match dl with Some t => Z.min deadline t | None => deadline end in
          match poll_clients epoch now outs (before ++ [p_client p]) rest'
                  (<[id c := side_of p]> m) deadline with
          | None => None
          | Some (cs, m, fx', evs', deadline, tm') =>
              Some (cs, m, fx ++ fx', evs ++ evs', deadline, or_later tm tm')
          end
      end
  end.

Definition poll_all (epoch now : Instant) (outs : ClientId -> list (option Output)) (s : Server)
    : option (Server * list Effect * Instant) :=
  match poll_clients epoch now outs [] (clients (reg s)) (sides s) (now + 100 * millis) with
  | None => None
  | Some (cs, m, fx, evs, deadline, tm) =>
      let feed := match tm with
                  | Some (arrival, rtp) => (fun c => BweTiming (id c) arrival rtp) <$> cs
                  | None => []
                  end in
      let r := mkRegistry cs (to_propagate (reg s) ++ evs) (solo_since (reg s))
                 (bandwidth (reg s) ++ feed) in
      Some (with_sides m (with_reg r s), fx ++ feed, deadline)
  end.
End polling.

(** ** Sending (udp_loop.rs) *)

Definition SEND_FAIL_DEDUP_WINDOW : Z := 10 * second.

(** [raw_os_error()] of a failed [send_to]. *)
Definition classify_send_error (os_error : option Z) : string :=
  match os_error with
  | Some e => if e =? 89 then "dest_required"
              else if e =? 101 then "network_unreachable"
              else if e =? 113 then "host_unreachable"
              else if e =? 13 then "perm" else "other"
  | None => "other"
  end.

Inductive SendOutcome := Sent | SendErr (os_error : option Z).

(** A failed send: the counter, and a warning unless the destination was warned
    about within the window. *)
Definition send_failed (now : Instant) (dest : SocketAddr) (os_error : option Z)
    (dedup : gmap SocketAddr Instant) : gmap SocketAddr Instant * list Effect :=
  let count := Inc "udp_send_failed" [classify_send_error os_error] in
  let suppressed := match dedup !! dest with
                    | Some prev => duration_since now prev <? SEND_FAIL_DEDUP_WINDOW
                    | None => false
                    end in
  if suppressed then (dedup, [count])
  else (<[dest := now]> dedup, [count; Warn "udp send_to failed" (Some dest)]).

(** The send loop; [send i] is what the socket answers to the [i]-th call. *)
Fixpoint send_all (now : Instant) (send : nat -> SendOutcome) (i : nat) (ts : list Transmit)
    (dedup : gmap SocketAddr Instant) : gmap SocketAddr Instant * list Effect :=
  match ts with
  | [] => (dedup, [])
  | t :: ts' =>
      match is_bogon (t_destination t) with
      | Some kind =>
          let '(dedup, es) := send_all now send i ts' dedup in
          (dedup, Inc "udp_bogon_dest_dropped_total" [kind] :: es)
      | None =>
          let '(dedup, es) := match send i with
                              | Sent => (dedup, [])
                              | SendErr e => send_failed now (t_destination t) e dedup
                              end in
          let '(dedup, es') := send_all now send (S i) ts' dedup in
          (dedup, UdpSend t :: es ++ es')
      end
  end.

(** [drain_transmits]: the queues of the clients, in order, left empty. *)
Definition queued (m : gmap ClientId Side) (cs : list Client) : list Transmit :=
  cs ≫= fun c => pending_out (default side_new (m !! id c)).
Definition clear_out (sd : Side) : Side :=
  mkSide (relay_source_pending sd) (relay_auth_secret sd) (relay_signing_pubkey sd)
    (relay_hs256_fallback_enabled sd) [].
Definition drain_transmits (s : Server) : Server * list Transmit :=
  (with_sides (fold_left (fun m c => alter clear_out (id c) m) (clients (reg s)) (sides s)) s,
   queued (sides s) (clients (reg s))).

Definition flush_transmits (now : Instant) (send : nat -> SendOutcome) (s : Server)
    : Server * list Effect :=
  let '(s, ts) := drain_transmits s in
  let '(dedup, es) := send_all now send 0 ts (send_fail_dedup s) in
  (with_dedup dedup s, es).

(** [send_fail_dedup.retain]. *)
Definition retain_recent (now : Instant) (s : Server) : Server :=
  with_dedup (filter (fun '(_, t) => duration_since now t < SEND_FAIL_DEDUP_WINDOW * 6)
                (send_fail_dedup s)) s.

(** How long the loop may park. *)
Definition MAX_SLEEP : Z := 100 * millis.
Definition park_for (deadline now : Instant) : Z :=
  Z.min (Z.max (duration_since deadline now) (1 * millis)) MAX_SLEEP.

(** ** The arms of [select!] *)

Record PendingRelay := mkPendingRelay { pr_upstream_url : str; pr_room_token : str }.
Record PendingClient := mkPendingClient { pc_external_peer_id : Z }.

(** [Client::handle_input]; [ok] is what [rtc.handle_input] answers. *)
Definition handle_input (ok : bool) (c : Client) : Client :=
  if alive c && negb ok then put_alive false c else c.

Definition registry_tick (ok : ClientId -> bool) (r : Registry) : Registry :=
  mkRegistry ((fun c => handle_input (ok (id c)) c) <$> clients r) (to_propagate r) (solo_since r)
    (bandwidth r).

(** [handle_incoming]: the first client that accepts the datagram gets it. *)
Definition handle_incoming (decodes : bool) (accepts : Client -> bool) (ok : bool) (r : Registry)
    : Registry :=
  if negb decodes then r
  else match list_find (fun c => accepts c = true) (clients r) with
       | None => r
       | Some (i, c) =>
           mkRegistry (<[i := handle_input ok c]> (clients r)) (to_propagate r) (solo_since r)
             (bandwidth r)
       end.

(** [change] is the detector's answer: the new dominant speaker. *)
Definition tick_active_speaker (now : Instant) (change : option Z) (s : Server)
    : Server * list Effect :=
  match change with
  | None => (s, [])
  | Some peer =>
      let r := with_queue (to_propagate (reg s) ++ [PActiveSpeakerChanged peer]) (reg s) in
      (mkServer r (sides s) (next_id s) (Some now) (relay_rx s) (client_inject_rx s)
         (send_fail_dedup s),
       Inc "dominant_speaker_changes_total" [] ::
       match last_speaker_change s with
       | Some prev => [Observe "dominant_speaker_hysteresis_ms" (duration_since now prev)]
       | None => []
       end)
  end.

(** [scores] and [top3] are the detector's answers. *)
Definition tick_speaker_scores (scores : list (Z * Z * Z * Z)) (top3 : list Z) (r : Registry)
    : Registry * list Effect :=
  (with_queue (to_propagate r ++ match top3 with [] => [] | _ => [PTopSpeakers top3] end) r,
   scores ≫= fun '(peer, imm, med, lng) =>
     [SetGauge "speaker_immediate" [label_of peer] imm;
      SetGauge "speaker_medium" [label_of peer] med;
      SetGauge "speaker_long" [label_of peer] lng]).

(** [Registry::insert] for a client whose fields only dispatch uses are [sd]:
    the registry's credentials are copied in. *)
Definition server_insert (cfg : Serve) (env : Env) (c : Client) (sd : Side) (s : Server)
    : Server * list Effect :=
  let sd := mkSide (relay_source_pending sd) (sv_auth_secret cfg) (sv_signing_pubkey cfg)
              (sv_hs256_fallback cfg) (pending_out sd) in
  let '(r, es) := registry_insert env c (reg s) in
  (with_sides (<[id c := sd]> (sides s)) (with_reg r s), es).

(** [next_client_id]: [fetch_add] on a [u64]. *)
Definition next_client_id (s : Server) : Server * ClientId :=
  (mkServer (reg s) (sides s) (wrap_u64 (next_id s + 1)) (last_speaker_change s) (relay_rx s)
     (client_inject_rx s) (send_fail_dedup s), next_id s).

Definition inject_relay (cfg : Serve) (env : Env) (pending : PendingRelay) (s : Server)
    : Server * list Effect :=
  let '(s, cid) := next_client_id s in
  server_insert cfg env (new_outbound_relay cid (sv_low_min_bps cfg))
    (mkSide (Some (pr_upstream_url pending, pr_room_token pending)) None None true []) s.

(** The peers a newcomer is told about. *)
Definition tracks_of (cs : list Client) : list Z := omap external_peer_id cs.

(** A browser client as the loop builds it, with the effects of opening its
    channels. *)
Definition browser_client (cid : ClientId) (low_min_bps : Z) (peer : Z) : Client * list Effect :=
  let c := with_keys_dc (client_new cid low_min_bps) in
  let '(c, es) := with_chat_dcs c in
  (with_ws_ctrl_rx (with_ws_msg_tx (with_close_signal (with_external_peer_id peer
     (with_sfu_events_dc (with_reactions_dc c))))), es).

(** [map_sent]: the newcomer's queue took the [tracks_map] frame. *)
Definition inject_client (cfg : Serve) (env : Env) (map_sent : bool) (pending : PendingClient)
    (s : Server) : Server * list Effect :=
  let peer := pc_external_peer_id pending in
  let tracks := tracks_of (clients (reg s)) in
  let has_peers := negb (bool_decide (tracks = [])) in
  let es0 := (if map_sent then [TracksMap peer tracks] else []) ++
             [Inc "tracks_map_sent_total" [if has_peers then "true" else "false"];
              Inc "sfu_late_join_resync_total"
                ["peer_joined_late"; if has_peers then "tracks_map_sent" else "no_op_empty_room"]] in
  let '(s, cid) := next_client_id s in
  let '(c, es1) := browser_client cid (sv_low_min_bps cfg) peer in
  let '(s, es2) := server_insert cfg env c side_new s in
  (s, es0 ++ es1 ++ es2).

Definition close_relay_rx (s : Server) : Server :=
  mkServer (reg s) (sides s) (next_id s) (last_speaker_change s) false (client_inject_rx s)
    (send_fail_dedup s).
Definition close_client_rx (s : Server) : Server :=
  mkServer (reg s) (sides s) (next_id s) (last_speaker_change s) (relay_rx s) false
    (send_fail_dedup s).

(** What wakes the loop, with the outside's answers.  The sleep lasted [parked];
    a received datagram is [None] when the socket failed; an injection is [None]
    when the channel is closed. *)
Inductive Wake :=
| WShutdown
| WSleep (ok : ClientId -> bool) (parked : Z)
| WAso (now : Instant) (change : option Z) (scores : list (Z * Z * Z * Z)) (top3 : list Z)
| WRecv (datagram : option (bool * (Client -> bool) * bool))
| WRelay (pending : option PendingRelay) (env : Env)
| WClient (pending : option PendingClient) (map_sent : bool) (env : Env).

(** One arm; [None] when the arm cannot fire: [tokio::time::sleep(sleep)] before
    that time, [recv_or_pending] on a channel that was taken out, which never
    resolves.  The flag tells whether the loop stops. *)
Definition select_arm (cfg : Serve) (sleep : Z) (w : Wake) (s : Server)
    : option (Server * list Effect * bool) :=
  match w with
  | WShutdown => Some (s, [], true)
  | WSleep ok parked =>
      if parked <? sleep then None
      else Some (with_reg (registry_tick ok (reg s)) s, [], false)
  | WAso now change scores top3 =>
      let '(s, es1) := tick_active_speaker now change s in
      let '(r, es2) := tick_speaker_scores scores top3 (reg s) in
      Some (with_reg (emit_publisher_layer_hints r) s, es1 ++ es2, false)
  | WRecv (Some (decodes, accepts, ok)) =>
      Some (with_reg (handle_incoming decodes accepts ok (reg s)) s, [], false)
  | WRecv None => Some (s, [Warn "udp recv_from failed" None], false)
  | WRelay pending env =>
      if negb (relay_rx s) then None
      else match pending with
           | Some p => let '(s, es) := inject_relay cfg env p s in Some (s, es, false)
           | None => Some (close_relay_rx s, [Inc "inject_channel_closed_total" ["relay"]], false)
           end
  | WClient pending map_sent env =>
      if negb (client_inject_rx s) then None
      else match pending with
           | Some p => let '(s, es) := inject_client cfg env map_sent p s in Some (s, es, false)
           | None => Some (close_client_rx s, [Inc "inject_channel_closed_total" ["client"]], false)
           end
  end.

(** ** One iteration *)

(** What the outside does during one iteration, with the clock at each place where
    the loop reads it ([tn_park]: for the length of the sleep). *)
Record Turn := mkTurn {
  tn_reap : Instant;
  tn_solo : Instant;
  tn_pump : Instant;
  tn_ws : ClientId -> WsEnv;
  tn_now : Instant;
  tn_wall : Z;
  tn_outs : ClientId -> list (option Output);
  tn_fan : nat -> Env;
  tn_send : nat -> SendOutcome;
  tn_park : Instant;
  tn_wake : Wake;
  tn_elapsed : Z;
}.

Section serving.
Context `{Jwt}.
Variable to_json : list member -> str.
Variable cell : PolicyCell.
Variable vfm : bool.
Context (pacer_update : list Z -> Z -> PacerAction)
        (estimate : list Effect -> Instant -> ClientId -> option (Z * string))
        (floor_enabled bwe_cap_enabled : bool)
        (min_tick : Z).

(** The body of the [loop] up to the [select!]; [fuel] bounds the event drain.
    Returns the deadline that decides how long the loop parks. *)
Definition serve_busy (fuel : nat) (cfg : Serve) (t : Turn) (s : Server)
    : option (Server * list Effect * Instant) :=
  let '(r, es1) := reap_dead (tn_reap t) (reg s) in
  let '(r, es2) := match sv_solo_kick cfg with
                   | Some timeout => check_solo_timeout timeout (tn_solo t) r
                   | None => (r, [])
                   end in
  let '(r, es3) := pump_ws_ctrl (tn_pump t) (tn_ws t) r in
  match poll_all to_json (tn_wall t) cell vfm (sv_epoch cfg) (tn_now t) (tn_outs t) (with_reg r s) with
  | None => None
  | Some (s, es4, deadline) =>
      match fanout_loop pacer_update estimate floor_enabled bwe_cap_enabled min_tick fuel
              (tn_fan t) (reg s) with
      | None => None
      | Some (r, es5) =>
          let '(s, es6) := flush_transmits (tn_now t) (tn_send t) (with_reg r s) in
          Some (retain_recent (tn_now t) s,
                Inc "udp_loop_iterations_total" [] :: es1 ++ es2 ++ es3 ++ es4 ++ es5 ++ es6,
                deadline)
      end
  end.

Definition serve_turn (fuel : nat) (cfg : Serve) (t : Turn) (s : Server)
    : option (Server * list Effect * bool) :=
  match serve_busy fuel cfg t s with
  | None => None
  | Some (s, es, deadline) =>
      match select_arm cfg (park_for deadline (tn_park t)) (tn_wake t) s with
      | None => None
      | Some (s, es', stop) =>
          Some (s, es ++ es' ++ [Observe "sfu_udp_loop_iteration_seconds" (tn_elapsed t)], stop)
      end
  end.

(** A run: the loop goes on until a turn stops it. *)
Inductive serve_run (cfg : Serve) : Server -> list Turn -> Server -> list Effect -> Prop :=
| run_idle s : serve_run cfg s [] s []
| run_turn s t ts fuel s1 s2 es1 es2 :
    serve_turn fuel cfg t s = Some (s1, es1, false) ->
    serve_run cfg s1 ts s2 es2 ->
    serve_run cfg s (t :: ts) s2 (es1 ++ es2)
| run_stop s t fuel s1 es1 :
    serve_turn fuel cfg t s = Some (s1, es1, true) ->
    serve_run cfg s [t] s1 es1.
End serving.
