(* ===== verification/SfuUdpLoopFacts.v ===== *)
(** * Lemmas on the UDP loop

    The lemmas behind the properties of the loop: which handlers leave the
    population gauges alone, what polling and the arms of the [select!] do to
    the registry, its gauges and the clients' credentials. *)

From Stdlib Require Import ZArith Lia.
From stdpp Require Import base option numbers gmap strings list.
From S2P Require Import Prelude RustStr NetAddr DdParse DdParseFacts DdCache SfuTypes SfuKeyframe SfuKeyframeFacts.
From S2P Require Import SfuMedia SfuMediaFacts SfuRenegotiation SfuRelayOut SfuRegistry SfuRegistryFacts.
From S2P Require Import RoomAuth SfuChannelData SfuDispatch SfuUdpLoop.

(** ** Handlers that leave the population gauges alone

    [tame c c' es]: the client keeps its identity and channels, and no effect
    touches a population gauge. *)

Definition tame (c c' : Client) (es : list Effect) : Prop :=
  same_peer c c' /\ Forall gaugeless es.

Lemma tame_refl c : tame c c [].
Proof. by split. Qed.

Lemma tame_trans c1 c2 c3 es1 es2 : tame c1 c2 es1 -> tame c2 c3 es2 -> tame c1 c3 (es1 ++ es2).
Proof. intros [? ?] [? ?]. split; [by etransitivity | by apply Forall_app]. Qed.

Lemma tame_fold {A} (f : Client * list Effect -> A -> Client * list Effect) l c es :
  (forall c es a, exists c' es', f (c, es) a = (c', es ++ es') /\ tame c c' es') ->
  exists es', (fold_left f l (c, es)).2 = es ++ es' /\ tame c (fold_left f l (c, es)).1 es'.
Proof.
  intros Hf. revert c es. induction l as [|a l IH]; intros c es; cbn [fold_left].
  { exists []. by rewrite app_nil_r. }
  destruct (Hf c es a) as (c1 & es1 & -> & H1). destruct (IH c1 (es ++ es1)) as (es2 & -> & H2).
  exists (es1 ++ es2). rewrite app_assoc. split; [done|]. by eapply tame_trans.
Qed.

(** Close a goal [tame c c' es] where [c'] is a field update and [es] a list of
    counters. *)
Ltac tame_leaf := split; [done | by repeat constructor].

(** A loop over a client and its effects is tame when each turn is. *)
Ltac fold_tame :=
  match goal with |- tame _ (fold_left ?f ?l (?c, ?es)).1 _ =>
    let es' := fresh "es" in let He := fresh "He" in let Ht := fresh "Ht" in
    destruct (tame_fold f l c es) as (es' & He & Ht); [|rewrite He; exact Ht] end.

Create HintDb tame.
#[export] Hint Resolve tame_refl : tame.

Lemma start_tame h now env w c :
  tame c (start_renegotiation h now env w c).1 (start_renegotiation h now env w c).2.
Proof. split; [apply start_same_peer | apply start_gaugeless]. Qed.

Lemma track_open_tame h now env w c :
  tame c (handle_track_open h now env w c).1 (handle_track_open h now env w c).2.
Proof. split; [apply track_open_same_peer | apply track_open_gaugeless]. Qed.

Lemma terminate_tame now o m outcome b c :
  tame c (terminate_waits now o m outcome b c).1 (terminate_waits now o m outcome b c).2.
Proof.
  unfold terminate_waits. fold_tame.
  intros c1 es1 i. cbv beta iota. destruct (keyframe_waits c1 !! i) as [w|].
  - eexists _, _. split; [reflexivity|]. split; [done|].
    apply Forall_app. split; [by repeat constructor|]. destruct b; by repeat constructor.
  - exists c1, []. rewrite app_nil_r. auto with tame.
Qed.

Lemma observe_tame now o d c : tame c (observe_keyframe now o d c).1 (observe_keyframe now o d c).2.
Proof.
  unfold observe_keyframe. destruct (md_is_keyframe d), (md_codec d); auto with tame;
    apply terminate_tame.
Qed.

Lemma forward_tame h w now o d c :
  tame c (forward_packet h w now o d c).1 (forward_packet h w now o d c).2.
Proof.
  split; [apply forward_same_peer|].
  unfold forward_packet. destruct (negb _); [constructor|].
  set (es := match md_rid d with Some _ => _ | None => _ end).
  assert (Forall gaugeless es) as Hes by (unfold es; destruct (md_rid d); by repeat constructor).
  clearbody es. destruct (_ ≫= out_mid) as [mid|].
  2: { apply Forall_app. split; [done | by repeat constructor]. }
  destruct (w mid); try (apply Forall_app; split; [done | by repeat constructor]).
  match goal with |- context [observe_keyframe ?a ?b ?x ?y] =>
    pose proof (observe_tame a b x y) as [_ G]; destruct (observe_keyframe a b x y) end.
  cbn [fst snd] in *. apply Forall_app; split; [done|]. by repeat constructor.
Qed.

Lemma media_tame h w now o d c :
  tame c (handle_media_data_out h w now o d c).1 (handle_media_data_out h w now o d c).2.
Proof.
  split; [apply media_same_peer|]. unfold handle_media_data_out.
  assert (forall c0, Forall gaugeless ([Inc "sfu_dd_frames_total"
    [if bool_decide (is_Some (md_ext d)) then "true" else "false"]] ++ (forward_packet h w now o d c0).2)) as H.
  { intros c0. pose proof (forward_tame h w now o d c0) as [_ G]. by repeat constructor. }
  destruct (md_ext d) as [bs|]; [destruct (_ <? u8_max)|].
  - destruct (dd_step _ _ bs _) as [cache [tid|]]; [by repeat constructor|].
    specialize (H (put_dd_structure_cache cache c)). by destruct (forward_packet _ _ _ _ _ _).
  - specialize (H c). by destruct (forward_packet _ _ _ _ _ _).
  - specialize (H c). by destruct (forward_packet _ _ _ _ _ _).
Qed.

Lemma keyframe_request_tame w now req m c :
  tame c (handle_keyframe_request w now req m c).1 (handle_keyframe_request w now req m c).2.
Proof.
  split; [apply keyframe_same_peer|]. unfold handle_keyframe_request.
  destruct (find_track_in m c) as [[i e]|]; [|constructor].
  destruct (requested_recently _ _); [constructor|]. destruct w; by repeat constructor.
Qed.

(** Case on every test of a list of counters. *)
Ltac counters := repeat (case_match || case_decide); by repeat constructor.

Lemma deliver_tame env h p o c : tame c (deliver env h p o c).1 (deliver env h p o c).2.
Proof.
  destruct p; cbn [deliver]; auto using media_tame, track_open_tame with tame;
    try (case_decide; auto using keyframe_request_tame with tame);
    (split; [done|]); cbn [fst snd].
  - unfold handle_chat_data_out, write_chat_frame; counters.
  - unfold handle_chat_ctrl_out, write_chat_frame; counters.
  - unfold handle_voice_data_out, voice_dropped; counters.
  - unfold handle_keys_data_out; counters.
  - unfold handle_sfu_event_out; counters.
Qed.

(** Each client of a list stays the same peer. *)
Definition tame_all (cs cs' : list Client) (es : list Effect) : Prop :=
  Forall2 same_peer cs cs' /\ Forall gaugeless es.

Lemma tame_all_refl cs : tame_all cs cs [].
Proof. split; [by apply Forall_Forall2_diag, Forall_true | constructor]. Qed.

Lemma tame_all_trans a b c es es' : tame_all a b es -> tame_all b c es' -> tame_all a c (es ++ es').
Proof.
  intros [H1 ?] [H2 ?]. split; [|by apply Forall_app]. revert c H2.
  induction H1 as [|x y a b Hxy _ IH]; intros c H2; [by inversion H2|].
  destruct c as [|z c]; [by inversion H2|]. apply Forall2_cons in H2 as [? ?].
  constructor; [by etransitivity | auto].
Qed.

Lemma for_clients_tame f cs :
  (forall c, tame c (f c).1 (f c).2) -> tame_all cs (for_clients f cs).1 (for_clients f cs).2.
Proof.
  intros Hf. induction cs as [|c cs IH]; cbn [for_clients]; [apply tame_all_refl|].
  specialize (Hf c). destruct (f c) as [c' es]. destruct (for_clients f cs) as [cs' es'].
  destruct Hf, IH. split; [by constructor | by apply Forall_app].
Qed.

Lemma speaker_tame env peers c : tame c c (speaker_notice env peers c).
Proof. split; [done|]. unfold speaker_notice. counters. Qed.

Lemma fanout_tame env p cs : tame_all cs (fanout env p cs).1 (fanout env p cs).2.
Proof.
  destruct p; cbn [fanout propagated_client_id]; try apply tame_all_refl;
    apply for_clients_tame; intros cl; try (case_decide; [apply tame_refl|]);
    first [apply deliver_tame | apply speaker_tame].
Qed.

Section Pacing.
Context (pacer_update : list Z -> Z -> PacerAction)
        (estimate : list Effect -> Instant -> ClientId -> option (Z * string))
        (floor_enabled bwe_cap_enabled : bool)
        (min_tick : Z).

Lemma pacer_pass_gaugeless bw h now av c :
  Forall gaugeless
    (pacer_pass pacer_update estimate floor_enabled bwe_cap_enabled min_tick bw h now av c).1.2.
Proof.
  unfold pacer_pass. destruct (tick_stage _ _ _ now c) as [c1 tick].
  assert (Forall gaugeless
    (layer_stage pacer_update floor_enabled (fst <$> estimate bw now (id c)) av tick c1).2) as H1.
  { unfold layer_stage. destruct (_ && _); [by repeat constructor|].
    by destruct (pacer_select_layer _ _ _ c1). }
  destruct (layer_stage _ _ _ av tick c1) as [[c2 chosen] es1].
  assert (Forall gaugeless (switch_stage h now (desired_layer c) chosen c2).1.2) as H2.
  { unfold switch_stage, emit_keyframe_on_layer_switch. counters. }
  destruct (switch_stage _ _ _ chosen c2) as [[c3 es2] ps1]. destruct (emit_tier c3) as [c4 ps2].
  assert (Forall gaugeless (cap_stage bwe_cap_enabled (fst <$> estimate bw now (id c)) tick c4).2) as H3.
  { unfold cap_stage. destruct (_ && _); [|constructor]. destruct (bwe_select_temporal_cap _ c4).
    by repeat constructor. }
  destruct (cap_stage _ _ tick c4) as [c5 es4]. cbn [fst snd] in *.
  rewrite !Forall_app. split_and!; try done. unfold pass_metrics.
  rewrite !Forall_app. split_and!; counters.
Qed.

Lemma pacer_loop_tame bw h now av cs :
  tame_all cs
    (pacer_loop pacer_update estimate floor_enabled bwe_cap_enabled min_tick bw h now av cs).1.1
    (pacer_loop pacer_update estimate floor_enabled bwe_cap_enabled min_tick bw h now av cs).1.2.
Proof.
  split; [apply pacer_loop_facts|]. induction cs as [|c cs IH]; cbn [pacer_loop]; [constructor|].
  pose proof (pacer_pass_gaugeless bw h now av c) as G.
  destruct (pacer_pass _ _ _ _ _ bw h now av c) as [[c' es] ps].
  destruct (pacer_loop _ _ _ _ _ bw h now av cs) as [[cs' es'] ps']. by apply Forall_app.
Qed.

Lemma tame_all_insert cs i c c' :
  cs !! i = Some c -> same_peer c c' -> tame_all cs (<[i := c']> cs) [].
Proof.
  intros Hi Hc. split; [|constructor]. apply Forall2_same_length_lookup_2.
  { by rewrite length_insert. }
  intros j x y Hx Hy. destruct (decide (i = j)) as [<-|Hne].
  - rewrite list_lookup_insert_eq in Hy by (by eapply lookup_lt_Some). by simplify_eq.
  - rewrite list_lookup_insert_ne in Hy by done. by simplify_eq.
Qed.

Lemma drain_one_tame env p r :
  let res := drain_one pacer_update estimate floor_enabled bwe_cap_enabled min_tick env p r in
  tame_all (clients r) (clients res.1) res.2 /\ solo_since res.1 = solo_since r.
Proof.
  assert (forall r0 es, tame_all (clients r) (clients r0) es -> solo_since r0 = solo_since r ->
    let res := (let '(cs, es') := fanout env p (clients r0) in
      (mkRegistry cs (to_propagate r0) (solo_since r0) (bandwidth r0), es ++ es')) in
    tame_all (clients r) (clients res.1) res.2 /\ solo_since res.1 = solo_since r) as Hfan.
  { intros r0 es H1 H2. pose proof (fanout_tame env p (clients r0)) as H3.
    destruct (fanout env p (clients r0)) as [cs es']. cbn in *. split; [|done].
    by eapply tame_all_trans. }
  pose proof (tame_all_refl (clients r)) as Hr.
  destruct p; cbn [drain_one]; try (apply Hfan; [done|done]); try (by cbn; split; auto).
  - unfold update_pacer_layers.
    match goal with |- context [pacer_loop _ _ _ _ _ ?bw ?h ?now ?av ?cs] =>
      pose proof (pacer_loop_tame bw h now av cs) as H1;
      destruct (pacer_loop _ _ _ _ _ bw h now av cs) as [[cs1 es1] ps1] end.
    by apply Hfan.
  - split; [by split; [|repeat constructor]; apply Hr | done].
  - split; [by split; [|repeat constructor]; apply Hr | done].
  - unfold on_client. destruct (list_find _ _) as [[i c']|] eqn:Hf; [|by split].
    apply list_find_Some in Hf as (Hi & _). split; [|done]. cbn.
    eapply tame_all_insert; [exact Hi|]. unfold set_max_vfm_temporal_layer, invalidate_dd_cache_on_cap_engage.
    cbn. by case_match.
  - unfold mark_relay_source. destruct (list_find _ _) as [[i c']|] eqn:Hf; [|by split].
    apply list_find_Some in Hf as (Hi & _). split; [|done]. cbn.
    split; [|by repeat constructor]. eapply tame_all_insert; [exact Hi|done].
  - apply Hfan; [|done]. split; [apply Hr | by repeat constructor].
Qed.

Lemma fanout_loop_tame fuel envs r r' es :
  fanout_loop pacer_update estimate floor_enabled bwe_cap_enabled min_tick fuel envs r = Some (r', es) ->
  tame_all (clients r) (clients r') es /\ solo_since r' = solo_since r /\ to_propagate r' = [].
Proof.
  revert envs r r' es. induction fuel as [|fuel IH]; intros envs r r' es; cbn [fanout_loop];
    destruct (to_propagate r) as [|p rest] eqn:Hq; try done;
    try (intros [= <- <-]; auto using tame_all_refl).
  pose proof (drain_one_tame (envs O) p (mkRegistry (clients r) rest (solo_since r) (bandwidth r))) as [H1 H2].
  destruct (drain_one _ _ _ _ _ (envs O) p _) as [r1 es1].
  destruct (fanout_loop _ _ _ _ _ fuel _ r1) as [[r2 es2]|] eqn:Hf; [|done].
  intros [= <- <-]. apply IH in Hf as (H3 & H4 & H5). cbn [fst snd clients solo_since] in *.
  split_and!; [by eapply tame_all_trans | congruence | done].
Qed.
End Pacing.

(** ** The control pump *)

Lemma start_wait_tame o m now c :
  tame c (start_keyframe_wait o m now c).1 (start_keyframe_wait o m now c).2.
Proof. unfold start_keyframe_wait. case_decide; [apply tame_refl | tame_leaf]. Qed.

Lemma start_waits_tame h now c :
  tame c (start_keyframe_waits_for_open_video_tracks h now c).1
    (start_keyframe_waits_for_open_video_tracks h now c).2.
Proof.
  unfold start_keyframe_waits_for_open_video_tracks. fold_tame.
  intros c1 es1 [o m]. pose proof (start_wait_tame o m now c1) as H.
  destruct (start_keyframe_wait o m now c1) as [c2 es2]. by exists c2, es2.
Qed.

Lemma start_next_tame h now env c :
  tame c (start_next h now env c).1 (start_next h now env c).2.
Proof.
  unfold start_next. destruct (renegotiation_queue c) as [|w q]; [apply tame_refl|].
  pose proof (start_tame h now env w (put_renegotiation_queue q c)) as [? ?]. by split.
Qed.

Lemma accept_tame h now env c :
  tame c (accept_renegotiation_answer h now env c).1 (accept_renegotiation_answer h now env c).2.
Proof.
  unfold accept_renegotiation_answer. cbn [pending_offer put_pending_offer_at].
  destruct (pending_offer c); [|tame_leaf]. destruct (ae_parses env); [|tame_leaf].
  destruct (ae_accepted env); cbn [negb].
  - destruct (flip_negotiating_to_open_all _) as [[c1 es1] b] eqn:Hflip.
    assert (tame c c1 es1) as H1.
    { unfold flip_negotiating_to_open_all in Hflip. injection Hflip as <- <- <-.
      split; [done|]. apply Forall_fmap, Forall_true. by intros. }
    destruct b; cbn [negb].
    + pose proof (start_waits_tame h now c1) as H2.
      destruct (start_keyframe_waits_for_open_video_tracks h now c1) as [c2 es2].
      pose proof (start_next_tame h now (ae_next env) c2) as H3.
      destruct (start_next h now (ae_next env) c2) as [c3 es3]. cbn [fst snd] in *.
      eapply tame_trans; [exact H1|]. eapply (tame_trans c1 c1 c3 [_]); [tame_leaf|].
      by eapply tame_trans.
    + cbn. eapply tame_trans; [exact H1|]. tame_leaf.
  - match goal with |- context [start_next ?h ?n ?e ?c0] =>
      pose proof (start_next_tame h n e c0) as [? ?]; destruct (start_next h n e c0) end.
    split; [done|]. by constructor.
Qed.

Lemma accept_each_tame h now answers c :
  tame c (accept_each h now answers c).1 (accept_each h now answers c).2.
Proof.
  revert c. induction answers as [|a answers IH]; intros c; cbn [accept_each]; [apply tame_refl|].
  pose proof (accept_tame h now a c) as H1. destruct (accept_renegotiation_answer h now a c) as [c1 es1].
  specialize (IH c1). destruct (accept_each h now answers c1). by eapply tame_trans.
Qed.

Lemma start_each_tame h now envs q c :
  tame c (start_each h now envs q c).1 (start_each h now envs q c).2.
Proof.
  revert envs c. induction q as [|w q IH]; intros envs c; cbn [start_each]; [apply tame_refl|].
  pose proof (start_tame h now (envs O) w c) as H1. destruct (start_renegotiation h now _ w c) as [c1 es1].
  specialize (IH (fun i => envs (S i)) c1). destruct (start_each h now _ q c1). by eapply tame_trans.
Qed.

Lemma drain_ws_tame h now envs answers closed c :
  tame c (drain_ws_ctrl h now envs answers closed c).1 (drain_ws_ctrl h now envs answers closed c).2.
Proof.
  unfold drain_ws_ctrl. destruct (match pending_offer_at c with Some _ => _ | None => _ end).
  - match goal with |- context [start_each ?h ?n ?e ?q ?c0] =>
      pose proof (start_each_tame h n e q c0) as [? ?]; destruct (start_each h n e q c0) end.
    split; [done|]. by constructor.
  - destruct (ws_ctrl_rx c); [|apply tame_refl]. cbn [negb].
    match goal with |- context [let '(c, es) := ?x in _] =>
      assert (tame c x.1 x.2) as H1; [|destruct x as [c1 es1]] end.
    { destruct closed; [|apply tame_refl]. cbn. destruct (pending_offer_at c); tame_leaf. }
    pose proof (accept_each_tame h now answers c1) as H2.
    destruct (accept_each h now answers c1). by eapply tame_trans.
Qed.

Lemma pump_waits_tame h now c :
  tame c (pump_keyframe_waits h now c).1 (pump_keyframe_waits h now c).2.
Proof.
  unfold pump_keyframe_waits.
  assert (forall l st, let st' := fold_left (pump_step h now) l st in
    exists es, st'.1.2 = st.1.2 ++ es /\ tame st.1.1 st'.1.1 es) as Hstep.
  { induction l as [|i l IH]; intros [[c0 es0] rm0]; cbn [fold_left].
    { exists []. rewrite app_nil_r. auto with tame. }
    set (st1 := pump_step h now (c0, es0, rm0) i).
    assert (exists es, st1.1.2 = es0 ++ es /\ tame c0 st1.1.1 es) as (es1 & E1 & T1).
    { unfold st1, pump_step. destruct (keyframe_waits c0 !! i) as [w|];
        [|exists []; rewrite app_nil_r; auto with tame].
      destruct (judge h (tracks_out c0) now w);
        [exists []; rewrite app_nil_r; auto with tame..|].
      eexists. split; [reflexivity|]. tame_leaf. }
    destruct (IH st1) as (es2 & E2 & T2). exists (es1 ++ es2). rewrite E2, E1, app_assoc.
    split; [done|]. by eapply tame_trans. }
  destruct (Hstep (seq 0 (length (keyframe_waits c))) (c, [], [])) as (es & E & T).
  destruct (fold_left (pump_step h now) _ _) as [[c1 es1] rm]. cbn [fst snd app] in *. subst es1.
  destruct (tame_fold (remove_wait outcome_inc) (rev rm) c1 es) as (es' & -> & T').
  { intros c2 es2 [i outcome]. eexists _, _. split; [reflexivity|]. tame_leaf. }
  by eapply tame_trans.
Qed.

Lemma pump_ws_tame now ws r :
  tame_all (clients r) (clients (pump_ws_ctrl now ws r).1) (pump_ws_ctrl now ws r).2 /\
  solo_since (pump_ws_ctrl now ws r).1 = solo_since r.
Proof.
  unfold pump_ws_ctrl.
  match goal with |- context [for_clients ?f0 ?l] =>
    pose proof (for_clients_tame f0 l) as H; destruct (for_clients f0 l) as [cs es] end.
  cbn [fst snd clients solo_since] in *. split; [|done].
  destruct H as [H1 H2].
  { intros c. pose proof (drain_ws_tame (live_tracks (clients r)) now (ws_starts (ws (id c)))
      (ws_answers (ws (id c))) (ws_closed (ws (id c))) c) as T1.
    destruct (drain_ws_ctrl _ _ _ _ _ c) as [c1 es1].
    pose proof (pump_waits_tame (live_tracks (clients r)) now c1) as T2.
    destruct (pump_keyframe_waits _ _ c1). by eapply tame_trans. }
  split; [|done]. apply Forall2_fmap_r. eapply Forall2_impl; [exact H1|]. done.
Qed.

(** ** Polling *)

(** The same peer as far as the registry can tell; channels may open, and a dead
    one stays dead. *)
Definition same_member (c c' : Client) : Prop :=
  id c' = id c /\ external_peer_id c' = external_peer_id c /\ voice_data_cid c' = voice_data_cid c /\
  (alive c = false -> alive c' = false).

#[export] Instance same_member_preorder : PreOrder same_member.
Proof.
  split; [by intros c|]. intros a b c (?&?&?&?) (?&?&?&?). split_and!; [congruence..|auto].
Qed.

Lemma same_peer_member c c' : same_peer c c' -> same_member c c'.
Proof. by intros (? & ? & (? & _) & ?). Qed.

(** The gauges move by what the clients hold. *)
Definition accounted (cs cs' : list Client) (es : list Effect) : Prop :=
  Forall2 same_member cs cs' /\
  forall f l, (f, l) ∈ gauges -> net f l es = held f l cs' - held f l cs.

Lemma accounted_refl cs : accounted cs cs [].
Proof.
  split; [by apply Forall_Forall2_diag, Forall_true|]. intros. cbn. lia.
Qed.

Lemma accounted_trans a b c es es' :
  accounted a b es -> accounted b c es' -> accounted a c (es ++ es').
Proof.
  intros [H1 N1] [H2 N2]. split.
  - clear N1 N2. revert c H2. induction H1 as [|x y a b Hxy _ IH]; intros c H2; [by inversion H2|].
    destruct c as [|z c]; [by inversion H2|]. apply Forall2_cons in H2 as [? ?].
    constructor; [by etransitivity | auto].
  - intros f l Hg. rewrite net_app, N1, N2 by done. lia.
Qed.

Lemma accounted_app a a' b b' es es' :
  accounted a a' es -> accounted b b' es' -> accounted (a ++ b) (a' ++ b') (es ++ es').
Proof.
  intros [H1 N1] [H2 N2]. split; [by apply Forall2_app|].
  intros f l Hg. rewrite net_app, !held_app, N1, N2 by done. lia.
Qed.

Lemma tame_all_accounted cs cs' es : tame_all cs cs' es -> accounted cs cs' es.
Proof.
  intros [H1 H2]. split.
  { eapply Forall2_impl; [exact H1 | apply same_peer_member]. }
  intros f l Hg. rewrite net_gaugeless by eauto using gauges_population.
  enough (held f l cs' = held f l cs) by lia. clear H2.
  induction H1 as [|c c' cs cs' (_ & _ & Hc & _) _ IH]; [done|]. cbn [held].
  rewrite (holds_same f l c c' Hc). lia.
Qed.

Lemma tame_accounted c c' es : tame c c' es -> accounted [c] [c'] es.
Proof. intros [? ?]. apply tame_all_accounted. split; [by constructor | done]. Qed.

Lemma observe_media_gaugeless epoch now relay ev : Forall gaugeless (observe_media epoch now relay ev).1.
Proof. destruct ev; cbn; try constructor. counters. Qed.

Section polling.
Context `{Jwt}.
Variable to_json : list member -> str.
Variable wall_now : Z.
Variable cell : PolicyCell.
Variable vfm : bool.

Lemma handle_event_accounted h e p :
  let res := handle_event to_json wall_now cell vfm h e p in
  accounted [p_client p] [p_client res.1.1] res.1.2.
Proof.
  destruct e; cbn [handle_event]; try (apply tame_accounted; tame_leaf).
  - case_decide; apply tame_accounted; tame_leaf.
  - destruct (bool_decide (channel = "reactions") && reactions_dc_cid (p_client p)); cbn [andb];
      [|apply tame_accounted; tame_leaf].
    destruct (reactions_dc_opened (p_client p)) eqn:Ho; cbn [negb]; [apply tame_accounted; tame_leaf|].
    split; [by constructor|]. intros f l Hg. unfold gauges in Hg.
    rewrite !elem_of_cons, elem_of_nil in Hg.
    destruct_or! Hg; try done; injection Hg as -> ->; cbn [net held fst snd p_client set_client];
      unfold holds; decide_closed; cbn; rewrite ?Ho; first [reflexivity | cbn; lia].
  - unfold on_connected. destruct (p_relay_source_pending p) as [[u t]|]; [|apply tame_accounted; tame_leaf].
    destruct ch as [|[]]; apply tame_accounted; tame_leaf.
  - destruct dir; try (apply tame_accounted; tame_leaf).
    destruct (open_negotiated mid _) as [os []]; apply tame_accounted; tame_leaf.
  - unfold track_in_media. destruct (negb _).
    + unfold request_keyframe_throttled. repeat case_match; simplify_eq; apply tame_accounted; tame_leaf.
    + repeat case_match; simplify_eq; apply tame_accounted; tame_leaf.
  - unfold on_channel_data. apply tame_accounted. split; [done|]. cbn [fst snd]. counters.
  - apply tame_accounted. split; [done|]. cbn [fst snd]. unfold set_opt. rewrite !Forall_app.
    split_and!; counters.
  - apply tame_accounted. split; [done|]. cbn [fst snd]. unfold set_opt, inc_positive.
    rewrite !Forall_app. split_and!; counters.
Qed.

Lemma poll_output_accounted h o p :
  let res := poll_output to_json wall_now cell vfm h o p in
  accounted [p_client p] [p_client res.1.1] res.1.2.
Proof.
  unfold poll_output. destruct (negb (alive (p_client p))); [apply accounted_refl|].
  destruct o as [[d|t|e]|]; cbn [handle_output]; try (apply tame_accounted; tame_leaf).
  pose proof (handle_event_accounted h e p) as Ha.
  destruct (handle_event _ _ _ _ h e p) as [[p' fx] ev]. cbn [fst snd] in *.
  apply (accounted_trans _ [p_client p] _ [_]); [apply tame_accounted; tame_leaf | done].
Qed.

Lemma poll_client_accounted epoch now before after outs p p' fx evs dl tm :
  poll_client to_json wall_now cell vfm epoch now before after outs p = Some (p', fx, evs, dl, tm) ->
  accounted [p_client p] [p_client p'] fx.
Proof.
  revert p p' fx evs dl tm. induction outs as [|o outs IH]; intros p p' fx evs dl tm;
    cbn [poll_client]; destruct (negb _); try done;
    try (intros [= <- <- <- <- <-]; apply accounted_refl).
  pose proof (poll_output_accounted (live_tracks (before ++ p_client p :: after)) o p) as H1.
  destruct (poll_output _ _ _ _ _ o p) as [[p1 fx1] ev]. cbn [fst snd] in H1.
  assert (forall lv p2 fx2 evs2 dl2 tm2, Forall gaugeless lv ->
    poll_client to_json wall_now cell vfm epoch now before after outs p1 = Some (p2, fx2, evs2, dl2, tm2) ->
    accounted [p_client p] [p_client p2] (fx1 ++ lv ++ fx2)) as Hgo.
  { intros lv p2 fx2 evs2 dl2 tm2 Hlv Hrec. eapply accounted_trans; [exact H1|].
    eapply accounted_trans; [|by eapply IH]. apply tame_accounted. by split. }
  pose proof (observe_media_gaugeless epoch now (is_relay (p_client p1)) ev) as Hlv.
  destruct ev; try (intros [= <- <- <- <- <-]; exact H1);
    destruct (observe_media _ _ _ _) as [lv tm0];
    (destruct (poll_client _ _ _ _ _ _ _ _ outs p1) as [[[[[p2 fx2] evs2] dl2] tm2]|] eqn:Hrec; [|done]);
    intros [= <- <- <- <- <-]; first [by eapply (Hgo []) | by eapply Hgo].
Qed.

Lemma poll_clients_accounted epoch now outs before rest m dl0 cs m' fx evs dl tm :
  poll_clients to_json wall_now cell vfm epoch now outs before rest m dl0 =
    Some (cs, m', fx, evs, dl, tm) ->
  exists rest', cs = before ++ rest' /\ accounted rest rest' fx /\ dl <= dl0.
Proof.
  revert before m dl0 cs m' fx evs dl tm. induction rest as [|c rest IH];
    intros before m dl0 cs m' fx evs dl tm; cbn [poll_clients].
  { intros [= <- <- <- <- <- <-]. exists []. rewrite app_nil_r.
    split_and!; [done | apply accounted_refl | lia]. }
  destruct (poll_client _ _ _ _ _ _ _ _ _ _) as [[[[[p fx1] evs1] dl1] tm1]|] eqn:Hp; [|done].
  apply poll_client_accounted in Hp.
  destruct (poll_clients _ _ _ _ _ _ _ _ _ _ _) as [[[[[[cs2 m2] fx2] evs2] dl2] tm2]|] eqn:Hc; [|done].
  intros [= <- <- <- <- <- <-]. apply IH in Hc as (rest' & -> & Ha & Hle).
  exists (p_client p :: rest'). rewrite <- app_assoc. split_and!; [done | |].
  - change (c :: rest) with ([c] ++ rest). change (p_client p :: rest') with ([p_client p] ++ rest').
    by apply accounted_app.
  - destruct dl1; lia.
Qed.

Lemma poll_all_accounted epoch now outs s s' fx dl :
  poll_all to_json wall_now cell vfm epoch now outs s = Some (s', fx, dl) ->
  accounted (clients (reg s)) (clients (reg s')) fx /\ solo_since (reg s') = solo_since (reg s) /\
  dl <= now + 100 * millis /\
  next_id s' = next_id s /\ relay_rx s' = relay_rx s /\ client_inject_rx s' = client_inject_rx s /\
  send_fail_dedup s' = send_fail_dedup s.
Proof.
  unfold poll_all. destruct (poll_clients _ _ _ _ _ _ _ _ _ _ _) as [[[[[[cs m] fx1] evs] dl1] tm]|] eqn:Hc;
    [|done].
  apply poll_clients_accounted in Hc as (rest' & -> & Ha & Hle). intros [= <- <- <-]. cbn.
  split_and!; try done. eapply accounted_trans; [exact Ha|]. apply tame_all_accounted.
  split; [by apply Forall_Forall2_diag, Forall_true|].
  destruct tm as [[a r]|]; [|constructor]. by apply Forall_fmap, Forall_true.
Qed.
End polling.

(** ** The server's invariant *)

Lemma same_member_ids cs cs' : Forall2 same_member cs cs' -> id <$> cs' = id <$> cs.
Proof. induction 1 as [|c c' cs cs' (H & _) _ IH]; [done|]. cbn. by rewrite H, IH. Qed.

Lemma same_member_peers cs cs' :
  Forall2 same_member cs cs' -> omap external_peer_id cs' = omap external_peer_id cs.
Proof. induction 1 as [|c c' cs cs' (_ & H & _) _ IH]; [done|]. cbn. by rewrite H, IH. Qed.

Lemma accounted_inv r r' es :
  accounted (clients r) (clients r') es -> solo_since r' = solo_since r ->
  registry_inv r -> registry_inv r'.
Proof.
  intros [Hf _] Hs [H1 H2 H3]. split.
  - by rewrite (same_member_ids _ _ Hf).
  - by rewrite (same_member_peers _ _ Hf).
  - rewrite Hs. intros Hsome. specialize (H3 Hsome).
    apply Forall2_length in Hf. lia.
Qed.

(** The credentials a promotion is checked against. *)
Definition same_creds (a b : Side) : Prop :=
  relay_auth_secret b = relay_auth_secret a /\ relay_signing_pubkey b = relay_signing_pubkey a /\
  relay_hs256_fallback_enabled b = relay_hs256_fallback_enabled a.

#[export] Instance same_creds_preorder : PreOrder same_creds.
Proof. split; [by intros c|]. intros a b c (?&?&?) (?&?&?). split_and!; congruence. Qed.

Definition creds_kept (m m' : gmap ClientId Side) : Prop :=
  forall i sd, m !! i = Some sd -> exists sd', m' !! i = Some sd' /\ same_creds sd sd'.

#[export] Instance creds_kept_preorder : PreOrder creds_kept.
Proof.
  split; [intros m i sd ?; by exists sd|]. intros m1 m2 m3 H1 H2 i sd Hi.
  destruct (H1 _ _ Hi) as (sd1 & Hi1 & ?). destruct (H2 _ _ Hi1) as (sd2 & ? & ?).
  exists sd2. split; [done|]. by etransitivity.
Qed.

(** A member of the room: an id below the counter, no voice channel, and the
    server's own credentials. *)
Definition member_ok (cfg : Serve) (n : ClientId) (m : gmap ClientId Side) (c : Client) : Prop :=
  0 <= id c < n /\ voice_data_cid c = false /\
  exists sd, m !! id c = Some sd /\
    same_creds (mkSide None (sv_auth_secret cfg) (sv_signing_pubkey cfg) (sv_hs256_fallback cfg) []) sd.

Record server_inv (cfg : Serve) (s : Server) : Prop := {
  si_registry : registry_inv (reg s);
  si_counter : 0 <= next_id s;
  si_members : Forall (member_ok cfg (next_id s) (sides s)) (clients (reg s));
}.

Lemma members_same cfg n m m' cs cs' :
  Forall2 same_member cs cs' -> creds_kept m m' ->
  Forall (member_ok cfg n m) cs -> Forall (member_ok cfg n m') cs'.
Proof.
  intros Hf Hm. induction Hf as [|c c' cs cs' (Hi & _ & Hv & _) _ IH]; [done|].
  intros [(Hn & Hvo & sd & Hl & Hc) Hr]%Forall_cons. constructor; [|auto].
  destruct (Hm _ _ Hl) as (sd' & Hl' & Hc'). split_and!; [lia..|congruence|].
  exists sd'. rewrite Hi. split; [done|]. by etransitivity.
Qed.

(** A phase that only changes the clients' own state keeps the invariant. *)
Lemma phase_inv cfg s s' es :
  accounted (clients (reg s)) (clients (reg s')) es -> solo_since (reg s') = solo_since (reg s) ->
  next_id s' = next_id s -> creds_kept (sides s) (sides s') ->
  server_inv cfg s -> server_inv cfg s'.
Proof.
  intros Ha Hs Hn Hc [H1 H2 H3]. split.
  - by eapply accounted_inv.
  - by rewrite Hn.
  - rewrite Hn. by eapply members_same; [apply Ha | |].
Qed.

Section creds.
Context `{Jwt}.
Variable to_json : list member -> str.
Variable wall_now : Z.
Variable cell : PolicyCell.
Variable vfm : bool.

Lemma poll_output_creds h o p :
  same_creds (side_of p) (side_of (poll_output to_json wall_now cell vfm h o p).1.1).
Proof.
  unfold poll_output. destruct (negb (alive (p_client p))); [done|].
  destruct o as [[d|t|e]|]; cbn [handle_output]; try done.
  destruct e; cbn [handle_event]; try done; unfold on_connected, on_channel_data, track_in_media;
    by repeat (case_match || case_decide); simplify_eq.
Qed.

Lemma poll_client_creds epoch now before after outs p p' fx evs dl tm :
  poll_client to_json wall_now cell vfm epoch now before after outs p = Some (p', fx, evs, dl, tm) ->
  same_creds (side_of p) (side_of p').
Proof.
  revert p p' fx evs dl tm. induction outs as [|o outs IH]; intros p p' fx evs dl tm;
    cbn [poll_client]; destruct (negb _); try done; try (by intros [= <- <- <- <- <-]).
  pose proof (poll_output_creds (live_tracks (before ++ p_client p :: after)) o p) as H1.
  destruct (poll_output _ _ _ _ _ o p) as [[p1 fx1] ev]. cbn [fst snd] in H1.
  destruct ev; try (by intros [= <- <- <- <- <-]);
    try destruct (observe_media _ _ _ _) as [lv tm0];
    (destruct (poll_client _ _ _ _ _ _ _ _ outs p1) as [[[[[p2 fx2] evs2] dl2] tm2]|] eqn:Hrec; [|done]);
    intros [= <- <- <- <- <-]; (etransitivity; [exact H1 | by eapply IH]).
Qed.

Lemma poll_clients_creds epoch now outs before rest m dl0 cs m' fx evs dl tm :
  poll_clients to_json wall_now cell vfm epoch now outs before rest m dl0 =
    Some (cs, m', fx, evs, dl, tm) -> creds_kept m m'.
Proof.
  revert before m dl0 cs m' fx evs dl tm. induction rest as [|c rest IH];
    intros before m dl0 cs m' fx evs dl tm; cbn [poll_clients].
  { by intros [= <- <- <- <- <- <-]. }
  destruct (poll_client _ _ _ _ _ _ _ _ _ _) as [[[[[p fx1] evs1] dl1] tm1]|] eqn:Hp; [|done].
  apply poll_client_creds in Hp.
  destruct (poll_clients _ _ _ _ _ _ _ _ _ _ _) as [[[[[[cs2 m2] fx2] evs2] dl2] tm2]|] eqn:Hc; [|done].
  intros [= <- <- <- <- <- <-]. apply IH in Hc. etransitivity; [|exact Hc].
  intros i sd Hi. destruct (decide (i = id c)) as [->|Hne].
  - exists (side_of p). rewrite lookup_insert_eq. split; [done|].
    unfold peer_of in Hp. rewrite Hi in Hp. etransitivity; [|exact Hp]. by destruct sd.
  - exists sd. by rewrite lookup_insert_ne.
Qed.

Lemma poll_all_inv cfg epoch now outs s s' fx dl :
  poll_all to_json wall_now cell vfm epoch now outs s = Some (s', fx, dl) ->
  server_inv cfg s -> server_inv cfg s'.
Proof.
  intros Hp. pose proof (poll_all_accounted _ _ _ _ _ _ _ _ _ _ _ Hp) as (Ha & Hs & _ & Hn & _).
  apply (phase_inv cfg s s' fx Ha Hs Hn). unfold poll_all in Hp.
  destruct (poll_clients _ _ _ _ _ _ _ _ _ _ _) as [[[[[[cs m] fx1] evs] dl1] tm]|] eqn:Hc; [|done].
  injection Hp as <- _ _. by apply poll_clients_creds in Hc.
Qed.
End creds.

Lemma drain_transmits_creds s : creds_kept (sides s) (sides (drain_transmits s).1).
Proof.
  cbn. generalize (clients (reg s)), (sides s). intros cs. induction cs as [|c cs IH]; intros m; [done|].
  cbn [fold_left]. etransitivity; [|apply IH]. intros i sd Hi.
  destruct (decide (id c = i)) as [<-|Hne].
  - exists (clear_out sd). rewrite lookup_alter_eq, Hi. done.
  - exists sd. by rewrite lookup_alter_ne.
Qed.

Lemma send_failed_gaugeless now dest e dedup : Forall gaugeless (send_failed now dest e dedup).2.
Proof. unfold send_failed. counters. Qed.

Lemma send_all_gaugeless now send i ts dedup : Forall gaugeless (send_all now send i ts dedup).2.
Proof.
  revert i dedup. induction ts as [|t ts IH]; intros i dedup; cbn [send_all]; [constructor|].
  destruct (is_bogon _).
  - specialize (IH i dedup). destruct (send_all _ _ _ _ _). by repeat constructor.
  - assert (Forall gaugeless (match send i with
      | Sent => (dedup, []) | SendErr e => send_failed now (t_destination t) e dedup end).2) as H1
      by (destruct (send i); [constructor | apply send_failed_gaugeless]).
    destruct (match send i with Sent => _ | SendErr _ => _ end) as [d1 es1].
    specialize (IH (S i) d1). destruct (send_all _ _ _ _ _). constructor; [done|]. by apply Forall_app.
Qed.

Lemma flush_facts now send s :
  let s' := (flush_transmits now send s).1 in
  reg s' = reg s /\ next_id s' = next_id s /\ creds_kept (sides s) (sides s') /\
  relay_rx s' = relay_rx s /\ client_inject_rx s' = client_inject_rx s /\
  Forall gaugeless (flush_transmits now send s).2.
Proof.
  unfold flush_transmits. pose proof (drain_transmits_creds s) as Hc.
  destruct (drain_transmits s) as [s1 ts] eqn:Hd. injection Hd as <- <-. cbn [fst] in Hc.
  pose proof (send_all_gaugeless now send 0 (queued (sides s) (clients (reg s))) (send_fail_dedup s)) as Hg.
  cbn [send_fail_dedup with_sides]. destruct (send_all _ _ _ _ _). done.
Qed.

(** ** One iteration *)

Lemma reap_members cfg now s :
  server_inv cfg s -> server_inv cfg (with_reg (reap_dead now (reg s)).1 s).
Proof.
  intros [H1 H2 H3]. split; cbn; [by apply reap_dead_inv | done|].
  by apply Forall_filter_keep.
Qed.

Lemma solo_accounted timeout now r :
  accounted (clients r) (clients (check_solo_timeout timeout now r).1)
    (check_solo_timeout timeout now r).2.
Proof.
  unfold check_solo_timeout. destruct (clients r) as [|c [|]] eqn:Hc;
    try (cbn; rewrite Hc; apply accounted_refl).
  destruct (solo_since r); [|cbn; rewrite Hc; apply accounted_refl].
  destruct (_ <? timeout); [cbn; rewrite Hc; apply accounted_refl|].
  apply tame_accounted. tame_leaf.
Qed.

(** The solo check keeps the invariant although it stops the clock. *)
Lemma solo_inv cfg timeout now s :
  server_inv cfg s -> server_inv cfg (with_reg (check_solo_timeout timeout now (reg s)).1 s).
Proof.
  intros [H1 H2 H3]. split; cbn; [by apply check_solo_inv | done|].
  eapply members_same; [apply (solo_accounted timeout now) | reflexivity | done].
Qed.

(** ** The arms *)

Lemma member_ok_mono cfg n m c x sd :
  member_ok cfg n m c -> id c <> x -> member_ok cfg (n + 1) (<[x := sd]> m) c.
Proof.
  intros (Hn & Hv & sd' & Hl & Hc) Hne. split_and!; [lia..|done|].
  exists sd'. by rewrite lookup_insert_ne.
Qed.

(** A new client with the next id joins. *)
Lemma server_insert_inv cfg env c sd s s' :
  server_inv cfg s -> id c = next_id s -> voice_data_cid c = false ->
  reg s' = reg s -> sides s' = sides s -> next_id s' = next_id s + 1 ->
  server_inv cfg (server_insert cfg env c sd s').1.
Proof.
  intros [H1 H2 H3] Hid Hv Hr Hm Hn. unfold server_insert. rewrite Hr, Hm.
  assert (id c ∉ (id <$> clients (reg s))) as Hfresh.
  { intros (c0 & He & Hc0)%list_elem_of_fmap. rewrite Forall_forall in H3.
    destruct (H3 _ Hc0) as [? _]. lia. }
  pose proof (insert_inv env c (reg s) H1 Hfresh) as (I1 & _ & I3 & _).
  destruct (registry_insert env c (reg s)) as [r es]. cbn [fst] in *.
  split; cbn; [done | lia|]. rewrite Hn. apply Forall_forall. intros c' Hc'.
  destruct (I3 c' Hc') as [Hin|(Hi & _ & (Hvo & _) & _)].
  - rewrite Forall_forall in H3. apply member_ok_mono; [by apply H3|].
    intros E. apply Hfresh. apply list_elem_of_fmap. exists c'. by rewrite <- E.
  - split_and!; [lia.. | congruence|]. eexists. rewrite Hi, lookup_insert_eq. by split.
Qed.

Lemma wrap_next n : 0 <= n < u64_max -> wrap_u64 (n + 1) = n + 1.
Proof. unfold wrap_u64, u64_max. intros. apply Z.mod_small. lia. Qed.

Lemma handle_input_same ok c : same_peer c (handle_input ok c).
Proof. unfold handle_input. by destruct (alive c && negb ok). Qed.

Lemma registry_tick_accounted ok r : accounted (clients r) (clients (registry_tick ok r)) [].
Proof.
  apply tame_all_accounted. split; [|constructor]. cbn. apply Forall2_fmap_r, Forall_Forall2_diag, Forall_true.
  intros c. apply handle_input_same.
Qed.

Lemma handle_incoming_accounted d a ok r :
  accounted (clients r) (clients (handle_incoming d a ok r)) [] /\
  solo_since (handle_incoming d a ok r) = solo_since r.
Proof.
  unfold handle_incoming. destruct d; cbn [negb]; [|split; [apply accounted_refl | done]].
  destruct (list_find _ _) as [[i c]|] eqn:Hf; [|split; [apply accounted_refl | done]].
  apply list_find_Some in Hf as (Hi & _). split; [|done]. cbn. apply tame_all_accounted.
  eapply tame_all_insert; [exact Hi | apply handle_input_same].
Qed.

Lemma browser_net cid lm peer f l :
  (f, l) ∈ gauges ->
  net f l (browser_client cid lm peer).2 =
    if decide (f = "active_participants") then 0 else holds f l (browser_client cid lm peer).1.
Proof.
  intros Hg. unfold gauges in Hg. rewrite !elem_of_cons, elem_of_nil in Hg.
  by destruct_or! Hg; try done; injection Hg as -> ->.
Qed.

Lemma inject_relay_facts cfg env p s :
  (server_inv cfg s -> next_id s < u64_max -> server_inv cfg (inject_relay cfg env p s).1) /\
  (forall f l, (f, l) ∈ gauges -> net f l (inject_relay cfg env p s).2 =
     held f l (clients (reg (inject_relay cfg env p s).1)) - held f l (clients (reg s))) /\
  next_id (inject_relay cfg env p s).1 = wrap_u64 (next_id s + 1).
Proof.
  unfold inject_relay. cbn [next_client_id]. split_and!.
  - intros I Hn. eapply (server_insert_inv cfg env _ _ s); [done..|]. cbn. apply wrap_next.
    split; [apply I | done].
  - intros f l Hg. unfold server_insert. cbn [reg sides].
    match goal with |- context [registry_insert env ?c ?r] =>
      pose proof (insert_net env c r f l Hg) as Hi; destruct (registry_insert env c r) as [r' es'] end.
    cbn [fst snd reg with_sides with_reg] in *. rewrite Hi.
    unfold gauges in Hg. rewrite !elem_of_cons, elem_of_nil in Hg.
    destruct_or! Hg; try done; injection Hg as -> ->; unfold holds; decide_closed; cbn; lia.
  - unfold server_insert. by destruct (registry_insert _ _ _).
Qed.

Lemma inject_client_facts cfg env b p s :
  (server_inv cfg s -> next_id s < u64_max -> server_inv cfg (inject_client cfg env b p s).1) /\
  (forall f l, (f, l) ∈ gauges -> net f l (inject_client cfg env b p s).2 =
     held f l (clients (reg (inject_client cfg env b p s).1)) - held f l (clients (reg s))) /\
  next_id (inject_client cfg env b p s).1 = wrap_u64 (next_id s + 1).
Proof.
  unfold inject_client. cbn [next_client_id].
  pose proof (browser_net (next_id s) (sv_low_min_bps cfg) (pc_external_peer_id p)) as Hb.
  assert (id (browser_client (next_id s) (sv_low_min_bps cfg) (pc_external_peer_id p)).1 = next_id s /\
    voice_data_cid (browser_client (next_id s) (sv_low_min_bps cfg) (pc_external_peer_id p)).1 = false)
    as [Hi Hv] by done.
  destruct (browser_client _ _ _) as [c es1]. cbn [fst snd] in *.
  set (s1 := mkServer _ _ _ _ _ _ _).
  pose proof (fun I E => server_insert_inv cfg env c side_new s s1 I Hi Hv eq_refl eq_refl E) as Hins.
  assert (forall f l, (f, l) ∈ gauges -> net f l (server_insert cfg env c side_new s1).2 =
    held f l (clients (reg (server_insert cfg env c side_new s1).1)) - held f l (clients (reg s)) -
    (if decide (f = "active_participants") then 0 else holds f l c)) as Hnet.
  { intros f l Hg. unfold server_insert. pose proof (insert_net env c (reg s1) f l Hg) as Hn.
    by destruct (registry_insert env c (reg s1)). }
  assert (next_id (server_insert cfg env c side_new s1).1 = wrap_u64 (next_id s + 1)) as Hid.
  { unfold server_insert. by destruct (registry_insert _ _ _). }
  destruct (server_insert _ _ _ _ _) as [s2 es2]. cbn [fst snd] in *. split_and!; [|intros f l Hg|done].
  - intros I Hn. apply Hins; [done|]. cbn. apply wrap_next. split; [apply I | done].
  - rewrite !net_app, (Hb f l Hg), (Hnet f l Hg), (net_gaugeless f l (if b then _ else _)),
      (net_gaugeless f l [_; _]).
    2,4: by eapply gauges_population. 2: by repeat constructor. 2: destruct b; by repeat constructor.
    lia.
Qed.

Lemma aso_accounted now change scores top3 s :
  let s1 := (tick_active_speaker now change s).1 in
  let r := emit_publisher_layer_hints (tick_speaker_scores scores top3 (reg s1)).1 in
  clients r = clients (reg s) /\ solo_since r = solo_since (reg s) /\ sides s1 = sides s /\
  next_id s1 = next_id s /\
  Forall gaugeless ((tick_active_speaker now change s).2 ++ (tick_speaker_scores scores top3 (reg s1)).2).
Proof.
  unfold tick_active_speaker, tick_speaker_scores. cbn. split_and!.
  1-4: by destruct change.
  apply Forall_app. split.
  - destruct change; [|constructor]. cbn. destruct (last_speaker_change s); by repeat constructor.
  - apply Forall_forall. intros e ([[[p i] m] l] & He & _)%list_elem_of_bind.
    repeat (apply elem_of_cons in He as [->|He]; [done|]). by apply elem_of_nil in He.
Qed.

(** What any arm does to the invariant, the gauges and the counter. *)
Lemma arm_facts cfg sleep w s s' es stop :
  select_arm cfg sleep w s = Some (s', es, stop) ->
  (server_inv cfg s -> next_id s < u64_max -> server_inv cfg s') /\
  (forall f l, (f, l) ∈ gauges ->
     net f l es = held f l (clients (reg s')) - held f l (clients (reg s))) /\
  (next_id s' = next_id s \/ next_id s' = wrap_u64 (next_id s + 1)).
Proof.
  assert (forall s1 es1, accounted (clients (reg s)) (clients (reg s1)) es1 ->
    solo_since (reg s1) = solo_since (reg s) -> sides s1 = sides s -> next_id s1 = next_id s ->
    (server_inv cfg s -> next_id s < u64_max -> server_inv cfg s1) /\
    (forall f l, (f, l) ∈ gauges ->
       net f l es1 = held f l (clients (reg s1)) - held f l (clients (reg s))) /\
    (next_id s1 = next_id s \/ next_id s1 = wrap_u64 (next_id s + 1))) as Hphase.
  { intros s1 es1 A S M N. split_and!; [|apply A|by left].
    intros I _. apply (phase_inv cfg s s1 es1 A S N); [by rewrite M | done]. }
  assert (forall es1, Forall gaugeless es1 -> accounted (clients (reg s)) (clients (reg s)) es1) as Hquiet.
  { intros es1 He. apply tame_all_accounted. split; [apply tame_all_refl | done]. }
  destruct w as [|ok parked|now change scores top3|[[[d a] ok]|]|pending env|pending b env]; cbn [select_arm].
  - intros [= <- <- <-]. apply Hphase; auto.
  - destruct (parked <? sleep); [done|]. intros [= <- <- <-]. apply Hphase; try done.
    apply registry_tick_accounted.
  - pose proof (aso_accounted now change scores top3 s) as (C & S & M & N & G).
    destruct (tick_active_speaker now change s) as [s1 es1]. cbn [fst snd] in *.
    destruct (tick_speaker_scores scores top3 (reg s1)) as [r es2]. cbn [fst snd] in *.
    intros [= <- <- <-]. apply Hphase; try done. cbn [reg with_reg]. rewrite C. by apply Hquiet.
  - intros [= <- <- <-]. destruct (handle_incoming_accounted d a ok (reg s)). by apply Hphase.
  - intros [= <- <- <-]. apply Hphase; try done. apply Hquiet. by repeat constructor.
  - destruct (relay_rx s); [|done]. cbn [negb]. destruct pending as [p|].
    + pose proof (inject_relay_facts cfg env p s) as (I1 & I2 & I3).
      destruct (inject_relay cfg env p s). intros [= <- <- <-]. split_and!; [done..|by right].
    + intros [= <- <- <-]. apply Hphase; try done. apply Hquiet. by repeat constructor.
  - destruct (client_inject_rx s); [|done]. cbn [negb]. destruct pending as [p|].
    + pose proof (inject_client_facts cfg env b p s) as (I1 & I2 & I3).
      destruct (inject_client cfg env b p s). intros [= <- <- <-]. split_and!; [done..|by right].
    + intros [= <- <- <-]. apply Hphase; try done. apply Hquiet. by repeat constructor.
Qed.
