(* ===== verification/SfuUdpLoopProps.v ===== *)
(** * Theorems on the UDP loop

    The registry invariant and the gauges over whole runs of the loop, that
    every iteration returns, the injection channels, what a late joiner is told,
    and which datagrams leave the process. *)

From Stdlib Require Import ZArith Lia Sorted.
From stdpp Require Import base option numbers gmap strings list.
From S2P Require Import Prelude RustStr NetAddr DdParse DdParseFacts DdCache SfuTypes SfuKeyframe SfuKeyframeFacts.
From S2P Require Import SfuMedia SfuMediaFacts SfuRenegotiation SfuRelayOut SfuRegistry SfuRegistryFacts.
From S2P Require Import RoomAuth SfuChannelData SfuDispatch SfuUdpLoop SfuUdpLoopFacts.

Section serving.
Context `{Jwt}.
Variable to_json : list member -> str.
Variable cell : PolicyCell.
Variable vfm : bool.
Context (pacer_update : list Z -> Z -> PacerAction)
        (estimate : list Effect -> Instant -> ClientId -> option (Z * string))
        (floor_enabled bwe_cap_enabled : bool)
        (min_tick : Z).

#[local] Abbreviation serve_busy := (serve_busy to_json cell vfm pacer_update estimate floor_enabled
                          bwe_cap_enabled min_tick).
#[local] Abbreviation serve_turn := (serve_turn to_json cell vfm pacer_update estimate floor_enabled
                          bwe_cap_enabled min_tick).
#[local] Abbreviation serve_run := (serve_run to_json cell vfm pacer_update estimate floor_enabled
                         bwe_cap_enabled min_tick).

(** The phases of an iteration, one by one. *)
Lemma busy_phases fuel cfg t s s' es dl :
  serve_busy fuel cfg t s = Some (s', es, dl) ->
  exists r1 r2 r3 r5 s4 s6 es1 es2 es3 es4 es5 es6,
    reap_dead (tn_reap t) (reg s) = (r1, es1) /\
    match sv_solo_kick cfg with
    | Some timeout => check_solo_timeout timeout (tn_solo t) r1
    | None => (r1, [])
    end = (r2, es2) /\
    pump_ws_ctrl (tn_pump t) (tn_ws t) r2 = (r3, es3) /\
    poll_all to_json (tn_wall t) cell vfm (sv_epoch cfg) (tn_now t) (tn_outs t) (with_reg r3 s) =
      Some (s4, es4, dl) /\
    fanout_loop pacer_update estimate floor_enabled bwe_cap_enabled min_tick fuel (tn_fan t) (reg s4) =
      Some (r5, es5) /\
    flush_transmits (tn_now t) (tn_send t) (with_reg r5 s4) = (s6, es6) /\
    s' = retain_recent (tn_now t) s6 /\
    es = [Inc "udp_loop_iterations_total" []] ++ es1 ++ es2 ++ es3 ++ es4 ++ es5 ++ es6.
Proof.
  unfold SfuUdpLoop.serve_busy. destruct (reap_dead _ _) as [r1 es1] eqn:E1.
  destruct (match sv_solo_kick cfg with Some _ => _ | None => _ end) as [r2 es2] eqn:E2.
  destruct (pump_ws_ctrl _ _ r2) as [r3 es3] eqn:E3.
  destruct (poll_all _ _ _ _ _ _ _ _) as [[[s4 es4] dl']|] eqn:E4; [|done].
  destruct (fanout_loop _ _ _ _ _ _ _ _) as [[r5 es5]|] eqn:E5; [|done].
  destruct (flush_transmits _ _ _) as [s6 es6] eqn:E6. intros [= <- <- <-].
  exists r1, r2, r3, r5, s4, s6, es1, es2, es3, es4, es5, es6. by split_and!.
Qed.

(** What an iteration does to the invariant, the gauges and the rest. *)
Lemma busy_facts fuel cfg t s s' es dl :
  serve_busy fuel cfg t s = Some (s', es, dl) ->
  (server_inv cfg s -> server_inv cfg s') /\
  (forall f l, (f, l) ∈ gauges ->
     net f l es = held f l (clients (reg s')) - held f l (clients (reg s))) /\
  next_id s' = next_id s /\ relay_rx s' = relay_rx s /\ client_inject_rx s' = client_inject_rx s /\
  to_propagate (reg s') = [] /\ dl <= tn_now t + MAX_SLEEP.
Proof.
  intros (r1 & r2 & r3 & r5 & s4 & s6 & es1 & es2 & es3 & es4 & es5 & es6 & E1 & E2 & E3 & E4 & E5 & E6 & -> & ->)%busy_phases.
  assert (accounted (clients r1) (clients r2) es2 /\
          (server_inv cfg (with_reg r1 s) -> server_inv cfg (with_reg r2 s))) as [A2 I2].
  { destruct (sv_solo_kick cfg) as [timeout|].
    - pose proof (solo_accounted timeout (tn_solo t) r1) as HA. rewrite E2 in HA. split; [done|].
      intros I. pose proof (solo_inv cfg timeout (tn_solo t) _ I) as HI. cbn [reg with_reg] in HI.
      by rewrite E2 in HI.
    - injection E2 as <- <-. split; [apply accounted_refl | done]. }
  pose proof (pump_ws_tame (tn_pump t) (tn_ws t) r2) as [A3 S3]. rewrite E3 in A3, S3.
  apply tame_all_accounted in A3.
  pose proof (poll_all_accounted _ _ _ _ _ _ _ _ _ _ _ E4) as (A4 & S4 & D4 & N4 & R4 & C4 & _).
  pose proof (fun I => poll_all_inv _ _ _ _ cfg _ _ _ _ _ _ _ E4 I) as I4.
  apply fanout_loop_tame in E5 as (A5 & S5 & Q5). apply tame_all_accounted in A5.
  pose proof (flush_facts (tn_now t) (tn_send t) (with_reg r5 s4)) as (R6 & N6 & K6 & X6 & Y6 & G6).
  rewrite E6 in R6, N6, K6, X6, Y6, G6. unfold retain_recent, with_dedup.
  cbn [fst snd reg sides next_id relay_rx client_inject_rx with_reg] in *.
  split_and!; [| |congruence..|by rewrite R6|done].
  - intros I. apply (phase_inv cfg s4 _ es5); [by rewrite R6 | by rewrite R6 | done | done|].
    apply I4. apply (phase_inv cfg (with_reg r2 s) _ es3); [done | done | done | reflexivity|].
    apply I2. pose proof (reap_members cfg (tn_reap t) s I) as I1. by rewrite E1 in I1.
  - intros f l Hg. rewrite !net_app, (net_gaugeless f l es6), (net_gaugeless f l [_])
      by (by eauto using gauges_population || by repeat constructor).
    pose proof (reap_net (tn_reap t) (reg s) f l Hg) as N1. rewrite E1 in N1. cbn [fst snd] in N1.
    rewrite N1, (proj2 A2), (proj2 A3), (proj2 A4), (proj2 A5) by done.
    rewrite R6. lia.
Qed.

Lemma turn_facts fuel cfg t s s' es stop :
  serve_turn fuel cfg t s = Some (s', es, stop) ->
  (server_inv cfg s -> next_id s < u64_max -> server_inv cfg s' /\ next_id s <= next_id s' <= next_id s + 1) /\
  (forall f l, (f, l) ∈ gauges ->
     net f l es = held f l (clients (reg s')) - held f l (clients (reg s))).
Proof.
  unfold SfuUdpLoop.serve_turn. destruct (serve_busy fuel cfg t s) as [[[s1 es1] dl]|] eqn:Hb; [|done].
  apply busy_facts in Hb as (I1 & G1 & N1 & _).
  destruct (select_arm cfg _ (tn_wake t) s1) as [[[s2 es2] b]|] eqn:Ha; [|done].
  apply arm_facts in Ha as (I2 & G2 & N2). intros [= <- <- <-]. split.
  - intros I Hn. rewrite N1 in *. split; [by apply I2; [apply I1|]|].
    pose proof (wrap_next (next_id s)) as Hw. destruct I. destruct N2 as [->| ->]; lia.
  - intros f l Hg. rewrite !net_app, G1, G2 by done. cbn. lia.
Qed.

Lemma run_gauges cfg s ts s' es f l :
  serve_run cfg s ts s' es -> (f, l) ∈ gauges ->
  net f l es = held f l (clients (reg s')) - held f l (clients (reg s)).
Proof.
  intros Hr Hg. induction Hr as [s|s t ts fuel s1 s2 es1 es2 Ht _ IH|s t fuel s1 es1 Ht].
  - cbn. lia.
  - apply turn_facts in Ht as [_ G]. rewrite net_app, (G f l Hg), IH. lia.
  - apply turn_facts in Ht as [_ G]. by apply G.
Qed.

Lemma run_inv cfg s ts s' es :
  serve_run cfg s ts s' es -> server_inv cfg s -> next_id s + Z.of_nat (length ts) <= u64_max ->
  server_inv cfg s'.
Proof.
  intros Hr. induction Hr as [s|s t ts fuel s1 s2 es1 es2 Ht _ IH|s t fuel s1 es1 Ht]; intros I Hn.
  - done.
  - apply turn_facts in Ht as [T _]. cbn [length] in Hn. destruct (T I ltac:(lia)) as [I1 N1].
    apply IH; [done | lia].
  - apply turn_facts in Ht as [T _]. cbn [length] in Hn. by destruct (T I ltac:(lia)).
Qed.

Lemma server_new_inv cfg relay client : server_inv cfg (server_new relay client).
Proof. split; cbn; [|lia|constructor]. split; cbn; [constructor.. | by intros [? ?]]. Qed.

(** C4. The room is consistent in every state the UDP loop reaches: whatever
    the peers, str0m, the socket and the injection channels do, client ids are
    distinct, no external peer has two sessions, the solo clock runs only in a
    room of one, and every client carries the server's own credentials for
    checking relay promotions, as long as the 64-bit id counter has not been
    exhausted. *)
Theorem server_invariant cfg relay client ts s es :
  serve_run cfg (server_new relay client) ts s es -> Z.of_nat (length ts) <= u64_max ->
  server_inv cfg s.
Proof.
  intros Hr Hl. eapply run_inv; [exact Hr | apply server_new_inv | cbn; lia].
Qed.

Lemma held_participants cs : held "active_participants" [] cs = Z.of_nat (length cs).
Proof.
  induction cs as [|c cs IH]; [done|]. cbn [held length]. rewrite IH. unfold holds. decide_closed. lia.
Qed.

(** The gauges are exact over whole runs: after any run of the loop from an
    empty room, with joins, session steals, relays, disconnects, solo kicks and
    channels that open late, the participant gauge is the number of clients in
    the registry and each data-channel gauge the number of such channels they
    hold. *)
Theorem run_gauges_exact cfg relay client ts s es :
  serve_run cfg (server_new relay client) ts s es ->
  net "active_participants" [] es = Z.of_nat (length (clients (reg s))) /\
  forall f l, (f, l) ∈ gauges -> net f l es = held f l (clients (reg s)).
Proof.
  intros Hr. assert (forall f l, (f, l) ∈ gauges -> net f l es = held f l (clients (reg s))) as H0.
  { intros f l Hg. rewrite (run_gauges _ _ _ _ _ f l Hr Hg). cbn. lia. }
  split; [|exact H0]. rewrite <- held_participants. apply H0. left.
Qed.

(** No voice frame is ever relayed: in every state the loop reaches no
    client has a voice channel, because the loop never opens one, so a
    well-sized frame from any other sender is dropped with the reason
    [subscriber_dc_not_open], whatever str0m reports of the channel. *)
Theorem voice_never_relayed cfg relay client ts s es c ch origin payload :
  serve_run cfg (server_new relay client) ts s es -> Z.of_nat (length ts) <= u64_max ->
  c ∈ clients (reg s) -> id c <> origin -> len payload <= VOICE_FRAME_MAX_BYTES ->
  handle_voice_data_out ch origin payload c = voice_dropped "subscriber_dc_not_open".
Proof.
  intros Hr Hl Hc Ho Hp. assert (server_inv cfg s) as [_ _ Hm].
  { eapply run_inv; [exact Hr | apply server_new_inv | cbn; lia]. }
  rewrite Forall_forall in Hm. destruct (Hm c Hc) as (_ & Hv & _).
  unfold handle_voice_data_out. rewrite decide_False by done.
  destruct (Z.ltb_spec VOICE_FRAME_MAX_BYTES (len payload)); [lia|]. by rewrite Hv.
Qed.

(** ** Every iteration returns *)

(** str0m's contract: polled repeatedly, it asks to wait or fails. *)
Definition settles (outs : list (option Output)) : Prop :=
  Exists (fun o => match o with Some (OTimeout _) | None => True | _ => False end) outs.

Lemma poll_client_settles wall_now epoch now before after outs p :
  settles outs -> is_Some (poll_client to_json wall_now cell vfm epoch now before after outs p).
Proof.
  intros Hs. revert p. induction Hs as [o outs Ho|o outs _ IH]; intros p; cbn [poll_client];
    destruct (alive (p_client p)) eqn:Ha; cbn [negb]; try by eexists.
  - unfold poll_output. rewrite Ha. cbn [negb].
    destruct o as [[d|t|e]|]; try done; cbn; try (by eexists); destruct outs; cbn; by eexists.
  - destruct (poll_output _ _ _ _ _ o p) as [[p1 fx1] ev].
    destruct (IH p1) as [[[[[p2 fx2] evs2] dl2] tm2] ->].
    destruct ev; try (by eexists); destruct (observe_media _ _ _ _); by eexists.
Qed.

Lemma poll_clients_settle wall_now epoch now outs before rest m dl :
  (forall c, c ∈ rest -> settles (outs (id c))) ->
  is_Some (poll_clients to_json wall_now cell vfm epoch now outs before rest m dl).
Proof.
  revert before m dl. induction rest as [|c rest IH]; intros before m dl Hs; cbn [poll_clients];
    [by eexists|].
  destruct (poll_client_settles wall_now epoch now before rest (outs (id c)) (peer_of m c)) as [res ->].
  { apply Hs. left. }
  destruct res as [[[[p fx] evs] dl1] tm].
  edestruct (IH (before ++ [p_client p]) (<[id c := side_of p]> m)) as [res ->].
  { intros c0 Hc0. apply Hs. by right. }
  destruct res as [[[[[cs m2] fx2] evs2] dl2] tm2]. by eexists.
Qed.

(** The arm can fire when the loop parks for [sleep]: a sleep not before its time,
    an injection only on a channel that is still there. *)
Definition can_fire (sleep : Z) (w : Wake) (s : Server) : Prop :=
  match w with
  | WSleep _ parked => sleep <= parked
  | WRelay _ _ => relay_rx s = true
  | WClient _ _ _ => client_inject_rx s = true
  | _ => True
  end.

Lemma select_arm_fires cfg sleep w s : is_Some (select_arm cfg sleep w s) <-> can_fire sleep w s.
Proof.
  destruct w as [|ok parked|now change scores top3|[[[d a] ok]|]|pending env|pending b env];
    cbn [select_arm can_fire]; try (split; [done|]; by eexists).
  - destruct (Z.ltb_spec parked sleep); (split; [intros []; done || lia | intros; lia || by eexists]).
  - split; [done|]. intros _. destruct (tick_active_speaker _ _ _). destruct (tick_speaker_scores _ _ _).
    by eexists.
  - destruct (relay_rx s); cbn [negb]; (split; [by intros []|]; try done). intros _.
    destruct pending; [|by eexists]. destruct (inject_relay _ _ _ _). by eexists.
  - destruct (client_inject_rx s); cbn [negb]; (split; [by intros []|]; try done). intros _.
    destruct pending; [|by eexists]. destruct (inject_client _ _ _ _ _). by eexists.
Qed.

Lemma busy_returns cfg t s :
  (forall c, c ∈ clients (reg s) -> settles (tn_outs t (id c))) ->
  exists fuel s1 es1 deadline, serve_busy fuel cfg t s = Some (s1, es1, deadline).
Proof.
  intros Hset.
  unfold SfuUdpLoop.serve_busy. destruct (reap_dead (tn_reap t) (reg s)) as [r1 es1] eqn:E1.
  destruct (match sv_solo_kick cfg with Some _ => _ | None => _ end) as [r2 es2] eqn:E2.
  pose proof (pump_ws_tame (tn_pump t) (tn_ws t) r2) as [[Hf _] _].
  destruct (pump_ws_ctrl (tn_pump t) (tn_ws t) r2) as [r3 es3] eqn:E3. cbn [fst] in Hf.
  assert (id <$> clients r3 = id <$> clients r1) as Hids.
  { rewrite (same_member_ids (clients r2)) by (eapply Forall2_impl; [exact Hf | apply same_peer_member]).
    destruct (sv_solo_kick cfg) as [timeout|]; [|by injection E2 as <- _].
    pose proof (solo_accounted timeout (tn_solo t) r1) as [Hm _]. rewrite E2 in Hm.
    exact (same_member_ids _ _ Hm). }
  assert (forall c, c ∈ clients r3 -> settles (tn_outs t (id c))) as Hset3.
  { intros c Hc. assert (id c ∈ (id <$> clients r1)) as Hin
      by (rewrite <- Hids; apply list_elem_of_fmap; eauto).
    apply list_elem_of_fmap in Hin as (c0 & -> & Hc0). apply Hset.
    injection E1 as <- _. cbn in Hc0. by apply list_elem_of_filter in Hc0 as [_ ?]. }
  unfold poll_all. cbn [reg sides with_reg].
  destruct (poll_clients_settle (tn_wall t) (sv_epoch cfg) (tn_now t) (tn_outs t) [] (clients r3)
    (sides s) (tn_now t + 100 * millis) Hset3) as [[[[[[cs m] fx] evs] dl] tm] ->].
  match goal with |- context [fanout_loop _ _ _ _ _ _ (tn_fan t) ?r] =>
    destruct (fanout_drains pacer_update estimate floor_enabled bwe_cap_enabled min_tick (tn_fan t) r)
      as (fuel & r5 & es5 & Hfan & _) end.
  exists fuel. rewrite Hfan. destruct (flush_transmits _ _ _). by eexists _, _, _.
Qed.

(** ** Closed injection channels *)

Definition closes_relay (t : Turn) : bool :=
  match tn_wake t with WRelay None _ => true | _ => false end.
Definition closes_client (t : Turn) : bool :=
  match tn_wake t with WClient None _ _ => true | _ => false end.

Lemma insert_keeps_rx cfg env c sd s :
  relay_rx (server_insert cfg env c sd s).1 = relay_rx s /\
  client_inject_rx (server_insert cfg env c sd s).1 = client_inject_rx s.
Proof. unfold server_insert. by destruct (registry_insert _ _ _). Qed.

Lemma turn_rx fuel cfg t s s' es stop :
  serve_turn fuel cfg t s = Some (s', es, stop) ->
  (if closes_relay t then relay_rx s = true /\ relay_rx s' = false else relay_rx s' = relay_rx s) /\
  (if closes_client t then client_inject_rx s = true /\ client_inject_rx s' = false
   else client_inject_rx s' = client_inject_rx s).
Proof.
  unfold SfuUdpLoop.serve_turn. destruct (serve_busy fuel cfg t s) as [[[s1 es1] dl]|] eqn:Hb; [|done].
  apply busy_facts in Hb as (_ & _ & _ & <- & <- & _).
  destruct (select_arm cfg _ (tn_wake t) s1) as [[[s2 es2] b]|] eqn:Ha; [|done].
  intros [= <- <- <-]. unfold closes_relay, closes_client.
  destruct (tn_wake t) as [|ok parked|now change scores top3|[[[d a] ok]|]|pending env|pending b' env];
    cbn [select_arm] in Ha; try (by injection Ha as <- _ _).
  - destruct (parked <? _); [done|]. by injection Ha as <- _ _.
  - unfold tick_active_speaker in Ha. destruct change, (tick_speaker_scores _ _ _); by injection Ha as <- _ _.
  - destruct (relay_rx s1) eqn:Hr; [|done]. cbn [negb] in Ha. destruct pending as [p|].
    + unfold inject_relay in Ha. cbn [next_client_id] in Ha.
      match type of Ha with context [server_insert ?a ?b ?c ?d ?e] =>
        pose proof (insert_keeps_rx a b c d e) as [H1 H2]; destruct (server_insert a b c d e) end.
      injection Ha as <- _ _. cbn in *. by rewrite H1, H2.
    + by injection Ha as <- _ _.
  - destruct (client_inject_rx s1) eqn:Hr; [|done]. cbn [negb] in Ha. destruct pending as [p|].
    + unfold inject_client in Ha. cbn [next_client_id] in Ha. destruct (browser_client _ _ _).
      match type of Ha with context [server_insert ?a ?b ?c ?d ?e] =>
        pose proof (insert_keeps_rx a b c d e) as [H1 H2]; destruct (server_insert a b c d e) end.
      injection Ha as <- _ _. cbn in *. by rewrite H1, H2.
    + by injection Ha as <- _ _.
Qed.

(** The turn was woken by an injection channel. *)
Definition relay_woken (t : Turn) : Prop := exists p env, tn_wake t = WRelay p env.
Definition client_woken (t : Turn) : Prop := exists p b env, tn_wake t = WClient p b env.

(** A turn needs the channel that wakes it, and a sleep lasts at least a
    millisecond. *)
Lemma turn_wakes fuel cfg t s s' es stop :
  serve_turn fuel cfg t s = Some (s', es, stop) ->
  (relay_woken t -> relay_rx s = true) /\ (client_woken t -> client_inject_rx s = true) /\
  (forall ok parked, tn_wake t = WSleep ok parked -> millis <= parked).
Proof.
  unfold SfuUdpLoop.serve_turn. destruct (serve_busy fuel cfg t s) as [[[s1 es1] dl]|] eqn:Hb; [|done].
  apply busy_facts in Hb as (_ & _ & _ & <- & <- & _).
  destruct (select_arm cfg _ (tn_wake t) s1) as [[[s2 es2] b]|] eqn:Ha; [|done]. intros _.
  assert (can_fire (park_for dl (tn_park t)) (tn_wake t) s1) as Hf
    by (apply (select_arm_fires cfg); by eexists).
  split_and!.
  - intros (p & env & E). by rewrite E in Hf.
  - intros (p & b' & env & E). by rewrite E in Hf.
  - intros ok parked E. rewrite E in Hf. cbn in Hf.
    unfold park_for, MAX_SLEEP, duration_since, millis in *. lia.
Qed.

(** Once a channel is gone no turn of the run is woken by it. *)
Lemma run_without_channel cfg s ts s' es :
  serve_run cfg s ts s' es ->
  (relay_rx s = false -> Forall (fun t => ~ relay_woken t) ts) /\
  (client_inject_rx s = false -> Forall (fun t => ~ client_woken t) ts).
Proof.
  intros Hr. induction Hr as [s|s t ts fuel s1 s2 es1 es2 Ht _ [IH1 IH2]|s t fuel s1 es1 Ht].
  - split; constructor.
  - pose proof (turn_wakes _ _ _ _ _ _ _ Ht) as (W1 & W2 & _). apply turn_rx in Ht as [H1 H2].
    split; intros E; (constructor; [intros W|]).
    + rewrite W1 in E by done. done.
    + apply IH1. destruct (closes_relay t); [by destruct H1 | congruence].
    + rewrite W2 in E by done. done.
    + apply IH2. destruct (closes_client t); [by destruct H2 | congruence].
  - pose proof (turn_wakes _ _ _ _ _ _ _ Ht) as (W1 & W2 & _).
    split; intros E; (constructor; [intros W | constructor]); [rewrite W1 in E | rewrite W2 in E]; done.
Qed.

(** A run is a turn after another. *)
Lemma run_app cfg s ts s' es before t after :
  serve_run cfg s ts s' es -> ts = before ++ t :: after ->
  exists s1 fuel s2 es2 stop, serve_turn fuel cfg t s1 = Some (s2, es2, stop) /\
    (stop = true /\ after = [] \/ exists s3 es3, serve_run cfg s2 after s3 es3).
Proof.
  intros Hr. revert before. induction Hr as [s|s u ts fuel s1 s2 es1 es2 Ht Hrest IH|s u fuel s1 es1 Ht];
    intros before E.
  - by destruct before.
  - destruct before as [|v before]; injection E as -> E.
    + subst ts. exists s, fuel, s1, es1, false. split; [done|]. right. by eauto.
    + by apply (IH before).
  - destruct before as [|v before]; injection E as -> E; [|by destruct before].
    subst after. exists s, fuel, s1, es1, true. split; [done|]. by left.
Qed.

(** C8. The loop never wedges and never spins.  When str0m keeps its contract
    that polling ends in a request to wait or an error, the busy part of every
    iteration returns, whatever is queued, with an empty event queue and a sleep of
    at least one and at most a hundred milliseconds; and the iteration returns for
    every arm of the select that can fire (the others do not end the wait): a
    sleep that lasted as long as asked, shutdown, speaker tick and socket always,
    an injection while its channel is there.  In any run, after the turn that sees
    an injection channel closed no later turn is woken by that channel again, and a
    turn woken by the sleep has slept at least a millisecond. *)
Theorem iteration_returns cfg :
  (forall t s, (forall c, c ∈ clients (reg s) -> settles (tn_outs t (id c))) ->
     exists fuel s1 es1 deadline,
       serve_busy fuel cfg t s = Some (s1, es1, deadline) /\ to_propagate (reg s1) = [] /\
       1000000 <= park_for deadline (tn_park t) <= 100000000 /\
       (is_Some (serve_turn fuel cfg t s) <-> can_fire (park_for deadline (tn_park t)) (tn_wake t) s)) /\
  (forall s ts s' es before t after, serve_run cfg s ts s' es -> ts = before ++ t :: after ->
     (closes_relay t = true -> Forall (fun u => ~ relay_woken u) after) /\
     (closes_client t = true -> Forall (fun u => ~ client_woken u) after) /\
     (forall ok parked, tn_wake t = WSleep ok parked -> 1000000 <= parked)).
Proof.
  split.
  - intros t s Hset. destruct (busy_returns cfg t s Hset) as (fuel & s1 & es1 & dl & Hb).
    pose proof (busy_facts _ _ _ _ _ _ _ Hb) as (_ & _ & _ & Hr & Hc & Hq & _).
    exists fuel, s1, es1, dl. split_and!; [done | done| | |].
    1,2: unfold park_for, MAX_SLEEP, duration_since, millis; lia.
    assert (can_fire (park_for dl (tn_park t)) (tn_wake t) s <->
      can_fire (park_for dl (tn_park t)) (tn_wake t) s1) as ->
      by (destruct (tn_wake t); cbn; by rewrite ?Hr, ?Hc).
    rewrite <- (select_arm_fires cfg). unfold SfuUdpLoop.serve_turn. rewrite Hb.
    destruct (select_arm _ _ _ _) as [[[s' es'] stop]|]; split; intros []; by eexists.
  - intros s ts s' es before t after Hr E. destruct (run_app _ _ _ _ _ _ _ _ Hr E)
      as (s1 & fuel & s2 & es2 & stop & Ht & Hafter).
    pose proof (turn_rx _ _ _ _ _ _ _ Ht) as [H1 H2]. split_and!; [| |apply (turn_wakes _ _ _ _ _ _ _ Ht)].
    + intros Hc. rewrite Hc in H1. destruct Hafter as [[_ ->]|(s3 & es3 & Hrest)]; [constructor|].
      apply (proj1 (run_without_channel _ _ _ _ _ Hrest)), H1.
    + intros Hc. rewrite Hc in H2. destruct Hafter as [[_ ->]|(s3 & es3 & Hrest)]; [constructor|].
      apply (proj2 (run_without_channel _ _ _ _ _ Hrest)), H2.
Qed.

(** ** Solo rooms *)

(** No client of the room is alive under the id [x]. *)
Definition gone_or_dead (x : ClientId) (cs : list Client) : Prop :=
  Forall (fun c => id c = x -> alive c = false) cs.

Lemma members_dead x cs cs' : Forall2 same_member cs cs' -> gone_or_dead x cs -> gone_or_dead x cs'.
Proof.
  induction 1 as [|c c' cs cs' (Hi & _ & _ & Ha) _ IH]; [done|].
  intros [Hc Hcs]%Forall_cons. constructor; [|by apply IH]. intros E. apply Ha, Hc. congruence.
Qed.

(** The rest of the iteration after the solo check. *)
Lemma busy_after_solo fuel cfg t s s' es dl :
  serve_busy fuel cfg t s = Some (s', es, dl) ->
  let r1 := (reap_dead (tn_reap t) (reg s)).1 in
  let solo := match sv_solo_kick cfg with
              | Some timeout => check_solo_timeout timeout (tn_solo t) r1
              | None => (r1, [])
              end in
  Forall2 same_member (clients solo.1) (clients (reg s')) /\ (forall e, e ∈ solo.2 -> e ∈ es).
Proof.
  intros (r1 & r2 & r3 & r5 & s4 & s6 & es1 & es2 & es3 & es4 & es5 & es6 & E1 & E2 & E3 & E4 & E5 & E6 & -> & ->)%busy_phases.
  cbv zeta. rewrite E1. cbn [fst]. rewrite E2. cbn [fst snd]. split; [|set_solver].
  pose proof (pump_ws_tame (tn_pump t) (tn_ws t) r2) as [A3 _]. rewrite E3 in A3.
  apply tame_all_accounted in A3.
  pose proof (poll_all_accounted _ _ _ _ _ _ _ _ _ _ _ E4) as (A4 & _).
  apply fanout_loop_tame in E5 as (A5 & _ & _). apply tame_all_accounted in A5.
  pose proof (flush_facts (tn_now t) (tn_send t) (with_reg r5 s4)) as (R6 & _). rewrite E6 in R6.
  unfold retain_recent, with_dedup. cbn [reg with_reg fst] in *. rewrite R6.
  apply (accounted_trans _ _ _ _ _ A3 (accounted_trans _ _ _ _ _ A4 A5)).
Qed.

(** A client after the [select!] was there before, or has just been given the next
    id. *)
Definition known_or_new (s : Server) (c' : Client) : Prop :=
  (exists c, c ∈ clients (reg s) /\ same_member c c') \/ id c' = next_id s.

Lemma members_known s cs' :
  Forall2 same_member (clients (reg s)) cs' -> Forall (known_or_new s) cs'.
Proof.
  intros Hf. apply Forall_forall. intros c' Hc'. left.
  apply list_elem_of_lookup in Hc' as [i Hi].
  destruct (Forall2_lookup_r _ _ _ _ _ Hf Hi) as (c & Hc & Hm). exists c.
  split; [by eapply list_elem_of_lookup_2 | done].
Qed.

Lemma server_insert_known cfg env c sd s s1 :
  server_inv cfg s -> id c = next_id s -> reg s1 = reg s ->
  Forall (known_or_new s) (clients (reg (server_insert cfg env c sd s1).1)).
Proof.
  intros [I1 _ I3] Hid Hr. unfold server_insert. rewrite Hr.
  assert (id c ∉ (id <$> clients (reg s))) as Hfresh.
  { intros (c0 & He & Hc0)%list_elem_of_fmap. rewrite Forall_forall in I3.
    destruct (I3 _ Hc0) as [? _]. lia. }
  pose proof (insert_inv env c (reg s) I1 Hfresh) as (_ & _ & J & _).
  destruct (registry_insert env c (reg s)) as [r es]. cbn [fst reg with_reg with_sides] in *.
  apply Forall_forall. intros c' [Hc'|(Hi & _)]%J; [left; by exists c' | right; congruence].
Qed.

Lemma arm_known cfg sleep w s s' es stop :
  select_arm cfg sleep w s = Some (s', es, stop) -> server_inv cfg s ->
  Forall (known_or_new s) (clients (reg s')).
Proof.
  intros Ha I.
  assert (Forall (known_or_new s) (clients (reg s))) as Hrefl
    by (apply members_known, Forall_Forall2_diag, Forall_true; reflexivity).
  destruct w as [|ok parked|now change scores top3|[[[d a] ok]|]|pending env|pending b env]; cbn [select_arm] in Ha.
  - by injection Ha as <- _ _.
  - destruct (parked <? sleep); [done|]. injection Ha as <- _ _. apply members_known, registry_tick_accounted.
  - pose proof (aso_accounted now change scores top3 s) as (C & _).
    destruct (tick_active_speaker now change s) as [s1 es1]. cbn [fst snd] in *.
    destruct (tick_speaker_scores scores top3 (reg s1)) as [r es2]. cbn [fst snd] in *.
    injection Ha as <- _ _. cbn [reg with_reg]. by rewrite C.
  - injection Ha as <- _ _. apply members_known. by destruct (handle_incoming_accounted d a ok (reg s)) as [[? _] _].
  - by injection Ha as <- _ _.
  - destruct (relay_rx s); [|done]. cbn [negb] in Ha. destruct pending as [p|]; [|by injection Ha as <- _ _].
    unfold inject_relay in Ha. cbn [next_client_id] in Ha.
    match type of Ha with context [server_insert ?a ?b ?c ?d ?e] =>
      pose proof (server_insert_known a b c d s e) as Hk; destruct (server_insert a b c d e) end.
    injection Ha as <- _ _. by apply Hk.
  - destruct (client_inject_rx s); [|done]. cbn [negb] in Ha. destruct pending as [p|]; [|by injection Ha as <- _ _].
    unfold inject_client in Ha. cbn [next_client_id] in Ha.
    assert (id (browser_client (next_id s) (sv_low_min_bps cfg) (pc_external_peer_id p)).1 = next_id s) as Hi by done.
    destruct (browser_client _ _ _) as [c es1]. cbn [fst] in Hi.
    match type of Ha with context [server_insert ?a ?b ?c ?d ?e] =>
      pose proof (server_insert_known a b c d s e) as Hk; destruct (server_insert a b c d e) end.
    injection Ha as <- _ _. by apply Hk.
Qed.

(** A turn from its two halves. *)
Lemma turn_halves fuel cfg t s s' es stop :
  serve_turn fuel cfg t s = Some (s', es, stop) ->
  exists s1 es1 dl, serve_busy fuel cfg t s = Some (s1, es1, dl) /\ (forall e, e ∈ es1 -> e ∈ es) /\
    (server_inv cfg s -> Forall (known_or_new s1) (clients (reg s')) /\ next_id s1 = next_id s).
Proof.
  unfold SfuUdpLoop.serve_turn. destruct (serve_busy fuel cfg t s) as [[[s1 es1] dl]|] eqn:Hb; [|done].
  destruct (select_arm cfg _ (tn_wake t) s1) as [[[s2 es2] b]|] eqn:Ha; [|done].
  intros [= <- <- <-]. exists s1, es1, dl. split_and!; [done | set_solver|]. intros I.
  apply busy_facts in Hb as (I1 & _ & N1 & _). split; [|done]. by eapply arm_known; [|apply I1].
Qed.

(** Whoever is dead when a turn begins is gone when it ends. *)
Lemma dead_leave fuel cfg t s s' es stop x :
  serve_turn fuel cfg t s = Some (s', es, stop) -> server_inv cfg s -> x < next_id s ->
  gone_or_dead x (clients (reg s)) -> x ∉ (id <$> clients (reg s')).
Proof.
  intros (s1 & es1 & dl & Hb & _ & Hk)%turn_halves I Hx Hd. destruct (Hk I) as [Hk' N1].
  apply busy_after_solo in Hb as [Hf _].
  assert (x ∉ (id <$> clients (reg s1))) as Hgone.
  { rewrite (same_member_ids _ _ Hf).
    assert (x ∉ (id <$> clients (reap_dead (tn_reap t) (reg s)).1)) as Hr.
    { intros (c & -> & Hc)%list_elem_of_fmap. cbn in Hc. apply list_elem_of_filter in Hc as [Ha Hc].
      unfold gone_or_dead in Hd. rewrite Forall_forall in Hd. rewrite Hd in Ha by done. done. }
    destruct (sv_solo_kick cfg) as [timeout|]; [|exact Hr].
    by rewrite (same_member_ids _ _ (proj1 (solo_accounted timeout (tn_solo t) _))). }
  intros (c' & -> & Hc')%list_elem_of_fmap. rewrite Forall_forall in Hk'.
  destruct (Hk' _ Hc') as [(c & Hc & Hi & _)|Hn]; [|lia].
  apply Hgone. apply list_elem_of_fmap. by exists c.
Qed.

(** C12. Solo rooms are released.  Take a consistent server that still has 64-bit
    client ids to give, and whose only live client has been alone, by the loop's clock, for at least the hold: the iteration
    counts the kick and leaves that client dead, and by the end of the next
    iteration it is out of the registry (the loop reaps before it looks at the
    solo clock, so never in the same pass).  And nobody else is kicked: with no
    client, with company, without a running clock, or before the hold is over, the
    solo check changes and counts nothing. *)
Theorem solo_room_released cfg timeout t s s1 es1 fuel1 stop1 c since :
  sv_solo_kick cfg = Some timeout -> server_inv cfg s -> next_id s < u64_max ->
  filter (fun c => alive c = true) (clients (reg s)) = [c] ->
  solo_since (reg s) = Some since -> 0 <= timeout <= tn_solo t - since ->
  serve_turn fuel1 cfg t s = Some (s1, es1, stop1) ->
  Inc "sfu_solo_room_kicked_total" [] ∈ es1 /\
  (forall c', c' ∈ clients (reg s1) -> id c' = id c -> alive c' = false) /\
  (forall fuel2 t2 s2 es2 stop2, serve_turn fuel2 cfg t2 s1 = Some (s2, es2, stop2) ->
     id c ∉ (id <$> clients (reg s2))) /\
  (forall now r, (forall a, clients r <> [a]) \/ solo_since r = None \/
       (exists b, solo_since r = Some b /\ now - b < timeout /\ 0 < timeout) ->
     check_solo_timeout timeout now r = (r, [])).
Proof.
  intros Hcfg I Hn Hone Hsince Hlate Ht.
  assert (id c < next_id s) as Hid.
  { pose proof (si_members _ _ I) as Hm. rewrite Forall_forall in Hm.
    assert (c ∈ clients (reg s)) as Hc; [|by destruct (Hm c Hc) as [[_ ?] _]].
    assert (c ∈ filter (fun c => alive c = true) (clients (reg s))) as Hc by (rewrite Hone; left).
    by apply list_elem_of_filter in Hc as []. }
  destruct (turn_halves _ _ _ _ _ _ _ Ht) as (sb & esb & dl & Hb & Hes & Hk).
  destruct (Hk I) as [Hk' N1]. apply busy_after_solo in Hb as [Hf He].
  assert (check_solo_timeout timeout (tn_solo t) (reap_dead (tn_reap t) (reg s)).1 =
    (mkRegistry [put_alive false c] (to_propagate (reg s)) None
       (bandwidth (reap_dead (tn_reap t) (reg s)).1), [Inc "sfu_solo_room_kicked_total" []])) as Hkick.
  { unfold check_solo_timeout, reap_dead. cbn [fst clients solo_since]. rewrite Hone, Hsince.
    replace (duration_since (tn_solo t) since <? timeout) with false by (unfold duration_since; lia). done. }
  rewrite Hcfg, Hkick in Hf, He. cbn [fst snd clients] in Hf, He.
  assert (gone_or_dead (id c) (clients (reg s1))) as Hdead.
  { apply (members_dead (id c)) in Hf; [|by repeat constructor].
    apply Forall_forall. intros c' Hc' E. rewrite Forall_forall in Hk'.
    destruct (Hk' _ Hc') as [(c0 & Hc0 & Hi & _ & _ & Ha)|]; [|lia].
    unfold gone_or_dead in Hf. rewrite Forall_forall in Hf. apply Ha, Hf; [done | congruence]. }
  split_and!.
  - apply Hes, He. by left.
  - intros c' Hc' E. unfold gone_or_dead in Hdead. rewrite Forall_forall in Hdead. by apply Hdead.
  - intros fuel2 t2 s2 es2 stop2 Ht2. apply turn_facts in Ht as [T _]. destruct (T I Hn) as [I1 ?].
    eapply dead_leave; [exact Ht2 | exact I1 | lia | exact Hdead].
  - intros now r Hr. unfold check_solo_timeout.
    destruct (clients r) as [|a [|]] eqn:E; [done| |done].
    destruct Hr as [Hr|[->|(b & -> & Hb & Hp)]]; [by destruct (Hr a)|done|].
    by replace (duration_since now b <? timeout) with true by (unfold duration_since; lia).
Qed.

End serving.

(** ** Late joiners *)

Lemma tracks_of_spec cs q : q ∈ tracks_of cs <-> exists c, c ∈ cs /\ external_peer_id c = Some q.
Proof. unfold tracks_of. rewrite list_elem_of_omap. naive_solver. Qed.

(** A late joiner is told who is there: the map sent to a browser peer that
    joins lists exactly the external peers in the room at that moment; after
    the join every other browser peer in the room is in the map, every peer of
    the map other than the joiner is in the room, and the joiner's own id, which
    the map contains when an older session of its own was there, belongs to the
    new session alone. *)
Theorem late_joiner_map cfg env p s :
  server_inv cfg s ->
  let peer := pc_external_peer_id p in
  let res := inject_client cfg env true p s in
  exists tracks, TracksMap peer tracks ∈ res.2 /\
    (forall q, q ∈ tracks <-> exists c, c ∈ clients (reg s) /\ external_peer_id c = Some q) /\
    (forall q, q <> peer ->
       (exists c, c ∈ clients (reg res.1) /\ external_peer_id c = Some q) <-> q ∈ tracks) /\
    (forall c, c ∈ clients (reg res.1) -> external_peer_id c = Some peer -> id c = next_id s).
Proof.
  intros [H1 H2 H3] peer res. exists (tracks_of (clients (reg s))).
  unfold res, inject_client. fold peer. cbn [next_client_id].
  assert (id (browser_client (next_id s) (sv_low_min_bps cfg) peer).1 = next_id s /\
    external_peer_id (browser_client (next_id s) (sv_low_min_bps cfg) peer).1 = Some peer)
    as [Hi He] by done.
  destruct (browser_client _ _ _) as [c es1]. cbn [fst snd] in *. unfold server_insert. cbn [reg sides].
  assert (id c ∉ (id <$> clients (reg s))) as Hfresh.
  { intros (c0 & E & Hc0)%list_elem_of_fmap. rewrite Forall_forall in H3.
    destruct (H3 _ Hc0) as [? _]. lia. }
  pose proof (insert_inv env c (reg s) H1 Hfresh) as (_ & I2 & I3 & I4).
  destruct (registry_insert env c (reg s)) as [r es2]. cbn [fst snd reg with_reg with_sides] in *.
  split_and!.
  - left.
  - intros q. apply tracks_of_spec.
  - intros q Hq. rewrite tracks_of_spec. split.
    + intros (c' & Hc' & Eq). destruct (I3 c' Hc') as [?|(_ & Ee & _)]; [by exists c'|congruence].
    + intros (c' & Hc' & Eq). exists c'. split; [|done]. apply I2; [done|]. right. congruence.
  - intros c' Hc' Eq. rewrite <- Hi. by apply (I4 peer).
Qed.

(** ** Datagrams *)

(** The datagrams handed to the socket, in order. *)
Definition sends (es : list Effect) : list Transmit :=
  omap (fun e => match e with UdpSend t => Some t | _ => None end) es.

Lemma sends_app a b : sends (a ++ b) = sends a ++ sends b.
Proof. apply omap_app. Qed.

Lemma send_failed_sends now d e dedup k :
  sends (send_failed now d e dedup).2 = [] /\
  net "udp_bogon_dest_dropped_total" [k] (send_failed now d e dedup).2 = 0.
Proof. unfold send_failed. by destruct (match dedup !! d with Some _ => _ | None => _ end). Qed.

Lemma send_all_exact now send i ts dedup :
  let es := (send_all now send i ts dedup).2 in
  sends es = filter (fun t => is_bogon (t_destination t) = None) ts /\
  forall k, net "udp_bogon_dest_dropped_total" [k] es =
    Z.of_nat (length (filter (fun t => is_bogon (t_destination t) = Some k) ts)).
Proof.
  revert i dedup. induction ts as [|t ts IH]; intros i dedup; cbn [send_all]; [done|].
  destruct (is_bogon (t_destination t)) as [kind|] eqn:Hb.
  - specialize (IH i dedup). destruct (send_all now send i ts dedup) as [d1 es1]. cbn [snd] in *.
    destruct IH as [IH1 IH2]. rewrite filter_cons_False by congruence. split; [done|].
    intros k. cbn [net]. rewrite IH2, filter_cons. rewrite Hb.
    destruct (decide (kind = k)) as [->|Hne].
    + rewrite !decide_True by done. cbn [length]. lia.
    + rewrite !decide_False by congruence. lia.
  - rewrite filter_cons_True by done.
    assert (forall k, sends (match send i with Sent => (dedup, [])
              | SendErr e => send_failed now (t_destination t) e dedup end).2 = [] /\
            net "udp_bogon_dest_dropped_total" [k] (match send i with Sent => (dedup, [])
              | SendErr e => send_failed now (t_destination t) e dedup end).2 = 0) as H1
      by (intros k; destruct (send i); [done | apply send_failed_sends]).
    destruct (match send i with Sent => _ | SendErr _ => _ end) as [d1 es1]. cbn [snd] in H1.
    specialize (IH (S i) d1). destruct (send_all now send (S i) ts d1) as [d2 es2]. cbn [snd] in *.
    destruct IH as [IH1 IH2]. split.
    + change (UdpSend t :: es1 ++ es2) with ([UdpSend t] ++ es1 ++ es2).
      rewrite !sends_app, (proj1 (H1 "")), IH1. done.
    + intros k. cbn [net]. rewrite net_app, (proj2 (H1 k)), IH2, filter_cons_False by congruence. lia.
Qed.

Lemma drained_empty s : queued (sides (drain_transmits s).1) (clients (reg s)) = [].
Proof.
  assert (forall cs (m : gmap ClientId Side) i, pending_out (default side_new (m !! i)) = [] \/ i ∈ (id <$> cs) ->
    pending_out (default side_new (fold_left (fun m c => alter clear_out (id c) m) cs m !! i)) = []) as H.
  { induction cs as [|c cs IH]; intros m i Hi; cbn [fold_left].
    { destruct Hi as [?|Hi]; [done|]. by apply elem_of_nil in Hi. }
    apply IH. destruct (decide (id c = i)) as [<-|Hne].
    - left. rewrite lookup_alter_eq. by destruct (m !! id c).
    - rewrite lookup_alter_ne by done. destruct Hi as [?|Hi]; [by left|].
      cbn in Hi. apply elem_of_cons in Hi as [->|?]; [done | by right]. }
  unfold queued. cbn [fst drain_transmits sides with_sides].
  set (m := fold_left _ _ _). assert (forall c, c ∈ clients (reg s) ->
    pending_out (default side_new (m !! id c)) = []) as Hm.
  { intros c Hc. apply H. right. apply list_elem_of_fmap. eauto. }
  clearbody m. clear H. induction (clients (reg s)) as [|c cs IH]; [done|]. cbn.
  rewrite Hm by left. apply IH. intros c' Hc'. apply Hm. by right.
Qed.

(** The datagrams a flush hands to the socket. *)
Lemma flushed now send s :
  sends (flush_transmits now send s).2 =
  filter (fun t => is_bogon (t_destination t) = None) (queued (sides s) (clients (reg s))).
Proof.
  unfold flush_transmits. cbn [drain_transmits].
  pose proof (send_all_exact now send 0 (queued (sides s) (clients (reg s))) (send_fail_dedup s)) as [E1 _].
  cbn [send_fail_dedup with_sides]. by destruct (send_all _ _ _ _ _) as [d es].
Qed.

(** What leaves the process: a flush hands to the socket exactly the queued
    datagrams whose destination is not filtered, client by client and each
    client's in order, counts every other one under the label of its
    destination, and leaves every queue empty. *)
Theorem flush_exact now send s :
  let res := flush_transmits now send s in
  let ts := queued (sides s) (clients (reg s)) in
  sends res.2 = filter (fun t => is_bogon (t_destination t) = None) ts /\
  (forall k, net "udp_bogon_dest_dropped_total" [k] res.2 =
     Z.of_nat (length (filter (fun t => is_bogon (t_destination t) = Some k) ts))) /\
  queued (sides res.1) (clients (reg res.1)) = [].
Proof.
  intros res ts. unfold res, flush_transmits. pose proof (drained_empty s) as He.
  destruct (drain_transmits s) as [s1 ts1] eqn:Hd. injection Hd as <- <-. fold ts.
  pose proof (send_all_exact now send 0 ts (send_fail_dedup s)) as [E1 E2].
  cbn [send_fail_dedup with_sides]. destruct (send_all _ _ _ _ _) as [d es]. done.
Qed.

(** ** Send warnings *)

(** The destinations warned about, with the time. *)
Definition warnings (now : Instant) (es : list Effect) : list (Instant * SocketAddr) :=
  omap (fun e => match e with Warn _ (Some d) => Some (now, d) | _ => None end) es.

(** The flushes of successive iterations, each with its clock, the socket's
    answers and the queued datagrams. *)
Fixpoint flushes (turns : list (Instant * (nat -> SendOutcome) * list Transmit))
    (dedup : gmap SocketAddr Instant) : list (Instant * SocketAddr) :=
  match turns with
  | [] => []
  | (now, send, ts) :: turns' =>
      let '(dedup, es) := send_all now send 0 ts dedup in
      warnings now es ++
      flushes turns' (filter (fun '(_, t) => duration_since now t < SEND_FAIL_DEDUP_WINDOW * 6) dedup)
  end.

Definition spaced (w : list (Instant * SocketAddr)) : Prop :=
  forall i j t1 t2 d, w !! i = Some (t1, d) -> w !! j = Some (t2, d) -> (i < j)%nat ->
    t1 + SEND_FAIL_DEDUP_WINDOW <= t2.

(** Every warning of the last window is in the table. *)
Definition remembered (now : Instant) (w : list (Instant * SocketAddr))
    (dedup : gmap SocketAddr Instant) : Prop :=
  forall t d, (t, d) ∈ w -> now - t < SEND_FAIL_DEDUP_WINDOW ->
    exists t', dedup !! d = Some t' /\ t <= t' <= now.

Lemma spaced_snoc w now d :
  spaced w -> (forall t, (t, d) ∈ w -> t + SEND_FAIL_DEDUP_WINDOW <= now) -> spaced (w ++ [(now, d)]).
Proof.
  intros Hs Hd i j t1 t2 d' Hi Hj Hlt.
  pose proof (lookup_lt_Some _ _ _ Hj) as Hl. rewrite length_app in Hl. simpl in Hl.
  assert (i < length w)%nat as Hil by lia. rewrite lookup_app_l in Hi by exact Hil.
  destruct (Nat.lt_ge_cases j (length w)) as [Hjl|Hjl].
  - rewrite lookup_app_l in Hj by done. by eapply Hs.
  - rewrite lookup_app_r in Hj by exact Hjl.
    apply list_lookup_singleton_Some in Hj as [_ [= <- <-]]. apply Hd. by eapply list_elem_of_lookup_2.
Qed.

Lemma send_all_warnings now send i ts dedup w :
  spaced w -> remembered now w dedup ->
  let '(dedup', es) := send_all now send i ts dedup in
  spaced (w ++ warnings now es) /\ remembered now (w ++ warnings now es) dedup'.
Proof.
  revert i dedup w. induction ts as [|t ts IH]; intros i dedup w Hs Hr; cbn [send_all].
  { cbn. by rewrite app_nil_r. }
  destruct (is_bogon _).
  { specialize (IH i dedup w Hs Hr). by destruct (send_all _ _ _ _ _). }
  destruct (send i) as [|e].
  { specialize (IH (S i) dedup w Hs Hr). by destruct (send_all _ _ _ _ _). }
  unfold send_failed. set (d := t_destination t).
  destruct (match dedup !! d with Some _ => _ | None => _ end) eqn:Hsup.
  { specialize (IH (S i) dedup w Hs Hr). by destruct (send_all _ _ _ _ _). }
  specialize (IH (S i) (<[d := now]> dedup) (w ++ [(now, d)])).
  destruct (send_all _ _ _ _ _) as [d2 es2].
  match goal with |- spaced (w ++ ?x) /\ _ => change x with ([(now, d)] ++ warnings now es2) end.
  rewrite (assoc_L (++) w). apply IH.
  - apply spaced_snoc; [done|]. intros t' Ht'.
    destruct (Z.lt_ge_cases (now - t') SEND_FAIL_DEDUP_WINDOW) as [Hlt|]; [|lia].
    destruct (Hr _ _ Ht' Hlt) as (t'' & Hd & ?). unfold Instant in *. rewrite Hd in Hsup.
    unfold duration_since in Hsup. lia.
  - intros t' d' [Hin|Hin%list_elem_of_singleton]%elem_of_app Hlt.
    + destruct (decide (d = d')) as [<-|Hne].
      * exists now. rewrite lookup_insert_eq. split; [done|].
        destruct (Hr _ _ Hin Hlt) as (? & _ & ?). lia.
      * rewrite lookup_insert_ne by done. by apply Hr.
    + injection Hin as -> ->. exists now. rewrite lookup_insert_eq. split; [done|lia].
Qed.

(** A failing destination is reported at most once per ten seconds: over
    any sequence of flushes with a clock that does not go back, any two
    warnings about the same destination are at least the window apart, although
    old entries of the table are discarded between flushes. *)
Theorem warnings_spaced turns :
  StronglySorted Z.le ((fun x => x.1.1) <$> turns) -> spaced (flushes turns ∅).
Proof.
  enough (forall dedup w, StronglySorted Z.le ((fun x => x.1.1) <$> turns) -> spaced w ->
    (forall now, head ((fun x => x.1.1) <$> turns) = Some now -> remembered now w dedup) ->
    spaced (w ++ flushes turns dedup)) as H.
  { intros Hs. apply (H ∅ []); [done | by intros ?? | ]. intros now _ t d Hin. by apply elem_of_nil in Hin. }
  induction turns as [|[[now send] ts] turns IH]; intros dedup w Hs Hw Hr; cbn [flushes].
  { by rewrite app_nil_r. }
  cbn in Hs. apply StronglySorted_inv in Hs as [Hs Hall].
  pose proof (send_all_warnings now send 0 ts dedup w Hw (Hr now eq_refl)) as Hstep.
  destruct (send_all now send 0 ts dedup) as [dedup1 es]. destruct Hstep as [Hw1 Hr1].
  rewrite (assoc_L (++)). apply IH; [done | done|]. intros now' Hn t d Hin Hlt.
  destruct turns as [|[[now1 ?] ?] turns]; [done|]. injection Hn as <-. cbn in Hall.
  apply Forall_cons in Hall as [Hle _]. cbn in *.
  destruct (Hr1 t d Hin) as (t' & Hd & Ht'); [lia|]. exists t'. split; [|lia].
  apply map_lookup_filter_Some. split; [done|]. unfold duration_since, SEND_FAIL_DEDUP_WINDOW, second in *. lia.
Qed.

(** ** A run on concrete input *)

Section running.
Context `{Jwt}.
Variable to_json : list member -> str.
Variable cell : PolicyCell.
Variable vfm : bool.
Context (pacer_update : list Z -> Z -> PacerAction)
        (estimate : list Effect -> Instant -> ClientId -> option (Z * string))
        (floor_enabled bwe_cap_enabled : bool)
        (min_tick : Z).

(** The turns of a run, executed with [fuel] for each event drain. *)
Fixpoint serve_all (fuel : nat) (cfg : Serve) (ts : list Turn) (s : Server)
    : option (Server * list Effect) :=
  match ts with
  | [] => Some (s, [])
  | t :: ts' =>
      match serve_turn to_json cell vfm pacer_update estimate floor_enabled bwe_cap_enabled min_tick
              fuel cfg t s with
      | Some (s, es, false) =>
          match serve_all fuel cfg ts' s with
          | Some (s, es') => Some (s, es ++ es')
          | None => None
          end
      | _ => None
      end
  end.

Lemma serve_all_run fuel cfg ts s s' es :
  serve_all fuel cfg ts s = Some (s', es) ->
  serve_run to_json cell vfm pacer_update estimate floor_enabled bwe_cap_enabled min_tick cfg s ts s' es.
Proof.
  revert s s' es. induction ts as [|t ts IH]; intros s s' es; cbn [serve_all].
  { intros [= <- <-]. constructor. }
  destruct (serve_turn _ _ _ _ _ _ _ _ _ _ _ _) as [[[s1 es1] []]|] eqn:Ht; try done.
  destruct (serve_all fuel cfg ts s1) as [[s2 es2]|] eqn:Hr; [|done].
  intros [= <- <-]. eapply run_turn; [exact Ht|]. by apply IH.
Qed.
End running.

Definition demo_cfg : Serve :=
  mkServe (Some [1; 2]) None true (mkAddr (V4 203 0 113 5) 3478) (Some (120 * second)) 0 150000.

(** Each client opens its reactions channel, queues a datagram and waits. *)
Definition demo_outs (_ : ClientId) : list (option Output) :=
  [Some (OEvent (EChannelOpen "reactions"));
   Some (OTransmit (mkTransmit (mkAddr (V4 198 51 100 7) 5000) [1])); Some (OTimeout 7)].

Definition demo_turn (w : Wake) : Turn :=
  mkTurn 0 0 0 (fun _ => mkWsEnv (fun _ => nego_env "o0" 1) [] false) 0 0 demo_outs (fun _ => room_env)
    (fun _ => Sent) 0 w 1.

(** Two peers join, the second again from another tab; a relay; the relay
    channel ends. *)
Definition demo_turns : list Turn :=
  [demo_turn (WClient (Some (mkPendingClient 70)) true room_env);
   demo_turn (WClient (Some (mkPendingClient 80)) true room_env);
   demo_turn (WRelay (Some (mkPendingRelay (lit "wss://a.oxpulse.chat/ws/r1") (lit "tok"))) room_env);
   demo_turn (WClient (Some (mkPendingClient 80)) true room_env);
   demo_turn (WRelay None room_env); demo_turn (WSleep (fun _ => true) 100000000)].

Definition demo_run : option (Server * list Effect) :=
  serve_all (H := Minted.jwt []) render_object None false (fun _ _ => NoChange) (fun _ _ _ => None) true false
    0 20 demo_cfg demo_turns (server_new true true).

Definition demo_state : Server := default (server_new true true) (fst <$> demo_run).
Definition demo_effects : list Effect := default [] (snd <$> demo_run).

Lemma demo_runs :
  serve_run (H := Minted.jwt []) render_object None false (fun _ _ => NoChange) (fun _ _ _ => None) true
    false 0 demo_cfg (server_new true true) demo_turns demo_state demo_effects.
Proof. apply (serve_all_run _ _ _ _ _ _ _ _ 20). vm_compute. reflexivity. Qed.

Example demo_room :
  (id <$> clients (reg demo_state), omap external_peer_id (clients (reg demo_state))) =
    ([0; 2; 3], [70; 80]) /\ length (sends demo_effects) = 12%nat.
Proof. vm_compute. by split. Qed.

Lemma server_invariant_witness : server_inv demo_cfg demo_state.
Proof.
  apply (server_invariant (H := Minted.jwt []) render_object None false (fun _ _ => NoChange)
    (fun _ _ _ => None) true false 0 demo_cfg true true demo_turns demo_state demo_effects demo_runs).
  vm_compute. discriminate.
Defined.

(** A browser joins at 0 and stays alone for two minutes, the hold of the example. *)
Definition solo_run : option (Server * list Effect) :=
  serve_all (H := Minted.jwt []) render_object None false (fun _ _ => NoChange) (fun _ _ _ => None) true false
    0 20 demo_cfg [demo_turn (WClient (Some (mkPendingClient 70)) true room_env)] (server_new true true).
Definition solo_state : Server := default (server_new true true) (fst <$> solo_run).
Definition late_turn : Turn :=
  mkTurn 0 (120 * second) 0 (fun _ => mkWsEnv (fun _ => nego_env "o0" 1) [] false) 0 0 demo_outs
    (fun _ => room_env) (fun _ => Sent) 0 (WSleep (fun _ => true) 100000000) 1.

Lemma solo_state_inv : server_inv demo_cfg solo_state.
Proof.
  eapply (run_inv (H := Minted.jwt []) render_object None false (fun _ _ => NoChange)
    (fun _ _ _ => None) true false 0 demo_cfg (server_new true true)).
  - apply (serve_all_run _ _ _ _ _ _ _ _ 20 demo_cfg
      [demo_turn (WClient (Some (mkPendingClient 70)) true room_env)]). vm_compute. reflexivity.
  - apply server_new_inv.
  - vm_compute. discriminate.
Qed.

Lemma solo_room_released_witness :
  exists s1 es1,
    serve_turn (H := Minted.jwt []) render_object None false (fun _ _ => NoChange) (fun _ _ _ => None)
      true false 0 20 demo_cfg late_turn solo_state = Some (s1, es1, false) /\
    Inc "sfu_solo_room_kicked_total" [] ∈ es1 /\
    exists s2 es2,
      serve_turn (H := Minted.jwt []) render_object None false (fun _ _ => NoChange) (fun _ _ _ => None)
        true false 0 20 demo_cfg late_turn s1 = Some (s2, es2, false) /\
      0 ∉ (id <$> clients (reg s2)).
Proof.
  eexists _, _. split; [vm_compute; reflexivity|].
  destruct (solo_room_released (H := Minted.jwt []) render_object None false (fun _ _ => NoChange)
    (fun _ _ _ => None) true false 0 demo_cfg (120 * second) late_turn solo_state _ _ 20 false
    (default (client_new 9 0) (head (clients (reg solo_state)))) 0
    ltac:(reflexivity) solo_state_inv ltac:(vm_compute; reflexivity) ltac:(vm_compute; reflexivity)
    ltac:(vm_compute; reflexivity) ltac:(vm_compute; split; discriminate)
    ltac:(vm_compute; reflexivity)) as (H1 & _ & H2 & _).
  split; [exact H1|]. eexists _, _. split; [vm_compute; reflexivity|].
  exact (H2 20%nat late_turn _ _ false ltac:(vm_compute; reflexivity)).
Defined.

Lemma run_gauges_exact_witness :
  net "active_participants" [] demo_effects = 3 /\
  net "chat_relay_active_channels" ["reactions"] demo_effects = 2.
Proof.
  destruct (run_gauges_exact (H := Minted.jwt []) render_object None false (fun _ _ => NoChange)
    (fun _ _ _ => None) true false 0 demo_cfg true true demo_turns demo_state demo_effects demo_runs)
    as [H1 H2].
  split; [rewrite H1; vm_compute; reflexivity|].
  rewrite H2; [vm_compute; reflexivity|]. vm_compute. do 4 right. left.
Defined.

Lemma voice_never_relayed_witness :
  exists c, c ∈ clients (reg demo_state) /\
    handle_voice_data_out (ChOpen 0 true) 9 [1; 2] c = voice_dropped "subscriber_dc_not_open".
Proof.
  destruct (clients (reg demo_state)) as [|c cs] eqn:Hc; [vm_compute in Hc; discriminate|].
  assert (c ∈ clients (reg demo_state)) as Hin by (rewrite Hc; left).
  exists c. split; [rewrite <- Hc; exact Hin|].
  apply (voice_never_relayed (H := Minted.jwt []) render_object None false (fun _ _ => NoChange)
    (fun _ _ _ => None) true false 0 demo_cfg true true demo_turns demo_state demo_effects c
    (ChOpen 0 true) 9 [1; 2] demo_runs); [vm_compute; discriminate | exact Hin | | vm_compute; discriminate].
  vm_compute in Hc. injection Hc as <- _. discriminate.
Defined.

(** The loop of the example, and its run, in which the relay channel ends at the
    fifth turn. *)
Lemma iteration_returns_witness :
  (exists fuel s1 es1 deadline,
     serve_busy (H := Minted.jwt []) render_object None false (fun _ _ => NoChange) (fun _ _ _ => None)
       true false 0 fuel demo_cfg (demo_turn WShutdown) demo_state = Some (s1, es1, deadline) /\
     to_propagate (reg s1) = []) /\
  Forall (fun u => ~ relay_woken u) [demo_turn (WSleep (fun _ => true) 100000000)].
Proof.
  destruct (iteration_returns (H := Minted.jwt []) render_object None false (fun _ _ => NoChange)
    (fun _ _ _ => None) true false 0 demo_cfg) as [H1 H2]. split.
  - destruct (H1 (demo_turn WShutdown) demo_state) as (fuel & s1 & es1 & dl & Hb & Hq & _).
    + intros c _. do 2 right. left. exact I.
    + exists fuel, s1, es1, dl. split; [exact Hb | exact Hq].
  - apply (H2 _ _ _ _ (take 4 demo_turns) (demo_turn (WRelay None room_env)) _ demo_runs); reflexivity.
Defined.

Lemma late_joiner_map_witness :
  exists tracks, TracksMap 90 tracks ∈ (inject_client demo_cfg room_env true (mkPendingClient 90) demo_state).2 /\
    70 ∈ tracks /\ 80 ∈ tracks.
Proof.
  destruct (late_joiner_map demo_cfg room_env (mkPendingClient 90) demo_state) as (tracks & H1 & H2 & _).
  { eapply (run_inv (H := Minted.jwt [])); [exact demo_runs | apply server_new_inv | vm_compute; discriminate]. }
  exists tracks. split; [exact H1|]. split; apply H2.
  - eexists (nth 0 (clients (reg demo_state)) (client_new 0 0)). split; [|vm_compute; reflexivity].
    apply (list_elem_of_lookup_2 _ 0). vm_compute. reflexivity.
  - eexists (nth 2 (clients (reg demo_state)) (client_new 0 0)). split; [|vm_compute; reflexivity].
    apply (list_elem_of_lookup_2 _ 2). vm_compute. reflexivity.
Defined.

Definition demo_failures : list (Instant * (nat -> SendOutcome) * list Transmit) :=
  let d := mkTransmit (mkAddr (V4 198 51 100 7) 5000) [1] in
  [(0, fun _ => SendErr (Some 101), [d; d]); (9 * second, fun _ => SendErr None, [d]);
   (10 * second, fun _ => SendErr (Some 89), [d])].

Lemma warnings_spaced_witness :
  spaced (flushes demo_failures ∅) /\ length (flushes demo_failures ∅) = 2%nat.
Proof.
  split; [|vm_compute; reflexivity].
  apply (warnings_spaced demo_failures). repeat constructor; vm_compute; discriminate.
Defined.
