(* ===== verification/SfuMetrics.v ===== *)
(** * The metric families of the SFU
      (metrics/mod.rs, metrics/m6.rs, metrics/client_ws.rs, metrics/server.rs)

    What [SfuMetrics::new] registers, touches and sets, in the order of the code;
    what an update of a metric does to the exported series; the answer of the
    scrape endpoint.  The crate [prometheus] is the class [Prometheus] with the
    documented behaviour of its registry.  A family is known by the name of its
    field in [SfuMetrics], which is how the effects of the other files name it.
    Help texts are left out; histogram buckets are in thousandths. *)

From Stdlib Require Import ZArith Lia Ascii.
From stdpp Require Import base option numbers gmap strings list.
From S2P Require Import Prelude RustStr NetAddr DdParse DdCache SfuTypes.

(** ** Families *)

Inductive Kind := IntCounter | IntGauge | IntCounterVec | IntGaugeVec | GaugeVec | Histogram.

Record Family := mkFamily {
  field : string;
  fname : string;
  kind : Kind;
  label_names : list string;
  buckets : list Z;
}.

Definition family (field name : string) (k : Kind) (labels : list string) : Family :=
  mkFamily field name k labels [].
Definition histogram (field name : string) (buckets : list Z) : Family :=
  mkFamily field name Histogram [] buckets.

#[export] Instance Kind_eq_dec : EqDecision Kind.
Proof. solve_decision. Defined.

(** The fields of the struct [SfuMetrics] after [registry], with their types. *)
Definition struct_fields : list (string * Kind) :=
  [("active_rooms", IntGauge); ("active_participants", IntGauge); ("client_ws_disabled", IntGauge);
   ("forwarded_packets_total", IntCounterVec); ("layer_selection_total", IntCounterVec);
   ("dominant_speaker_changes_total", IntCounter); ("client_connect_total", IntCounter);
   ("client_disconnect_total", IntCounter); ("bandwidth_estimate_bps", IntGaugeVec);
   ("combined_bps_binding_term", IntCounterVec); ("pacer_layer_total", IntCounterVec);
   ("layer_transitions_total", IntCounterVec); ("sfu_keyframe_on_switch_total", IntCounterVec);
   ("pacer_tick_throttled_total", IntCounterVec); ("e2e_handshake_failures_total", IntCounter);
   ("dominant_speaker_hysteresis_ms", Histogram); ("speaker_immediate", GaugeVec);
   ("speaker_medium", GaugeVec); ("speaker_long", GaugeVec); ("client_ws_active_sessions", IntGauge);
   ("client_ws_sessions_started_total", IntCounter); ("client_ws_handshake_failures_total", IntCounterVec);
   ("client_ws_offer_processed_total", IntCounterVec); ("client_ws_answer_sent_total", IntCounter);
   ("client_ws_session_ended_total", IntCounterVec); ("client_ws_session_duration_seconds", Histogram);
   ("session_replaced_total", IntCounter); ("udp_send_failed", IntCounterVec);
   ("client_delivered_media_count", IntGaugeVec); ("udp_loop_iterations_total", IntCounter);
   ("sfu_udp_loop_iteration_seconds", Histogram); ("inject_channel_closed_total", IntCounterVec);
   ("chat_relay_tx_bytes_total", IntCounterVec); ("chat_relay_rx_bytes_total", IntCounterVec);
   ("chat_relay_dropped_total", IntCounterVec); ("chat_relay_active_channels", IntGaugeVec);
   ("relay_jwt_verify_total", IntCounterVec); ("relay_api_enabled", IntGaugeVec);
   ("vfm_enabled", IntGauge); ("voice_relay_tx_bytes_total", IntCounterVec);
   ("voice_relay_rx_bytes_total", IntCounterVec); ("voice_relay_dropped", IntCounterVec);
   ("voice_relay_active_channels", IntGaugeVec); ("ice_state_total", IntCounterVec);
   ("sdp_msid_injected_total", IntCounterVec); ("tracks_map_sent_total", IntCounterVec);
   ("sfu_forward_decisions_total", IntCounterVec); ("sfu_subscription_setup_total", IntCounterVec);
   ("sfu_late_join_resync_total", IntCounterVec); ("sfu_str0m_output_total", IntCounterVec);
   ("sfu_track_out_state_transitions_total", IntCounterVec);
   ("sfu_renegotiation_offers_sent_total", IntCounterVec);
   ("sfu_renegotiation_answers_total", IntCounterVec); ("sfu_wire_written_total", IntCounterVec);
   ("sfu_renegotiation_offers_dropped_total", IntCounterVec);
   ("sfu_renegotiation_tracks_map_update_dropped_total", IntCounterVec); ("peer_rtt_seconds", GaugeVec);
   ("peer_loss_fraction", GaugeVec); ("peer_bandwidth_estimate_bps", GaugeVec);
   ("media_egress_jitter_ticks", GaugeVec); ("media_egress_nacks_received_total", IntCounterVec);
   ("media_egress_firs_received_total", IntCounterVec);
   ("media_egress_plis_received_total", IntCounterVec); ("media_ingress_jitter_ticks", GaugeVec);
   ("sfu_writer_write_errors_total", IntCounterVec); ("sfu_solo_room_kicked_total", IntCounter);
   ("sfu_bwe_hint_received_total", IntCounterVec); ("sfu_bwe_hint_throttled_total", IntCounterVec);
   ("sfu_bwe_hint_registry_mutex_poisoned_total", IntCounter);
   ("sfu_bwe_hint_rate_limit_min_interval_ms", IntGauge); ("udp_bogon_dest_dropped_total", IntCounterVec);
   ("sfu_admission_rejected_total", IntCounterVec); ("relay_connect_success_total", IntCounter);
   ("relay_candidate_exhausted_total", IntCounter); ("sfu_dd_frames_total", IntCounterVec);
   ("sfu_dd_temporal_drops_total", IntCounterVec); ("bwe_temporal_cap_total", IntCounterVec);
   ("sfu_keyframe_on_subscribe_requests_total", IntCounterVec);
   ("sfu_keyframe_on_subscribe_outcome_total", IntCounterVec);
   ("sfu_keyframe_on_subscribe_time_to_first_seconds", Histogram)].

(** The values set at start-up. *)
Inductive Initial := Disabled | VfmFlag | HintInterval.

Inductive Step :=
| Register (f : Family)
| Touch (field : string) (labels : list string)
| TouchEach (field : string)
| SetTo (field : string) (v : Initial).

(** Rooms, clients, packets, the bandwidth estimate and the pacer. *)
Definition room_steps : list Step :=
  [Register (family "active_rooms" "active_rooms" IntGauge []);
   Register (family "active_participants" "active_participants" IntGauge []);
   Register (family "client_ws_disabled" "client_ws_disabled" IntGauge []);
   SetTo "client_ws_disabled" Disabled;
   Register (family "forwarded_packets_total" "forwarded_packets_total" IntCounterVec ["kind"]);
   Register (family "layer_selection_total" "layer_selection_total" IntCounterVec ["layer"]);
   Register (family "sfu_keyframe_on_switch_total" "sfu_keyframe_on_switch_total" IntCounterVec ["rid"]);
   Register (family "dominant_speaker_changes_total" "dominant_speaker_changes_total" IntCounter []);
   Register (family "client_connect_total" "client_connect_total" IntCounter []);
   Register (family "client_disconnect_total" "client_disconnect_total" IntCounter []);
   Register (family "bandwidth_estimate_bps" "bandwidth_estimate_bps" IntGaugeVec ["peer_id"]);
   Register (family "combined_bps_binding_term" "combined_bps_binding_term" IntCounterVec ["term"]);
   TouchEach "combined_bps_binding_term";
   Register (family "pacer_layer_total" "pacer_layer_total" IntCounterVec ["peer_id"; "rid"]);
   Register (family "pacer_tick_throttled_total" "pacer_tick_throttled_total" IntCounterVec ["peer_id"])].

(** Sends, deliveries, the loop and its injection channels. *)
Definition udp_steps : list Step :=
  [Register (family "udp_send_failed" "udp_send_failed_total" IntCounterVec ["error_kind"]);
   Register (family "client_delivered_media_count" "client_delivered_media_count" IntGaugeVec ["peer_id"]);
   Register (family "udp_loop_iterations_total" "udp_loop_iterations_total" IntCounter []);
   Register (histogram "sfu_udp_loop_iteration_seconds" "sfu_udp_loop_iteration_seconds" [1; 5; 10; 25; 50; 100; 250; 500; 1000]);
   Register (family "inject_channel_closed_total" "inject_channel_closed_total" IntCounterVec ["kind"]);
   Touch "inject_channel_closed_total" ["relay"];
   Touch "inject_channel_closed_total" ["client"]].

(** Chat, relay grants, the relay API, the cargo feature. *)
Definition relay_steps : list Step :=
  [Register (family "chat_relay_tx_bytes_total" "chat_relay_tx_bytes_total" IntCounterVec ["dc"; "client_id"]);
   Register (family "chat_relay_rx_bytes_total" "chat_relay_rx_bytes_total" IntCounterVec ["dc"; "client_id"]);
   Register (family "chat_relay_dropped_total" "chat_relay_dropped_total" IntCounterVec ["dc"; "reason"]);
   Touch "chat_relay_dropped_total" ["data"; "channel_closed"];
   Touch "chat_relay_dropped_total" ["data"; "write_err"];
   Touch "chat_relay_dropped_total" ["data"; "no_channel"];
   Touch "chat_relay_dropped_total" ["data"; "oversize"];
   Touch "chat_relay_dropped_total" ["ctrl"; "channel_closed"];
   Touch "chat_relay_dropped_total" ["ctrl"; "write_err"];
   Touch "chat_relay_dropped_total" ["ctrl"; "no_channel"];
   Touch "chat_relay_dropped_total" ["ctrl"; "oversize"];
   Register (family "relay_jwt_verify_total" "relay_jwt_verify_total" IntCounterVec ["algorithm"]);
   Touch "relay_jwt_verify_total" ["eddsa"];
   Touch "relay_jwt_verify_total" ["hs256"];
   Register (family "relay_api_enabled" "relay_api_enabled" IntGaugeVec ["auth"]);
   Touch "relay_api_enabled" ["eddsa"];
   Touch "relay_api_enabled" ["hs256"];
   Touch "relay_api_enabled" ["both"];
   Register (family "vfm_enabled" "vfm_enabled" IntGauge []);
   SetTo "vfm_enabled" VfmFlag;
   Register (family "chat_relay_active_channels" "chat_relay_active_channels" IntGaugeVec ["dc"]);
   Touch "chat_relay_active_channels" ["data"];
   Touch "chat_relay_active_channels" ["ctrl"]].

(** Voice, ICE, stream identities, tracks map, forwarding, late joins. *)
Definition voice_steps : list Step :=
  [Register (family "voice_relay_tx_bytes_total" "voice_relay_tx_bytes_total" IntCounterVec ["client_id"]);
   Register (family "voice_relay_rx_bytes_total" "voice_relay_rx_bytes_total" IntCounterVec ["client_id"]);
   Register (family "voice_relay_dropped" "voice_relay_dropped_total" IntCounterVec ["reason"]);
   Touch "voice_relay_dropped" ["subscriber_dc_not_open"];
   Touch "voice_relay_dropped" ["buffered_amount_too_high"];
   Touch "voice_relay_dropped" ["frame_malformed"];
   Touch "voice_relay_dropped" ["dc_closed"];
   Touch "voice_relay_dropped" ["dc_send_failed"];
   Register (family "voice_relay_active_channels" "voice_relay_active_channels" IntGaugeVec ["dc"]);
   Touch "voice_relay_active_channels" ["voice"];
   Register (family "ice_state_total" "ice_state_total" IntCounterVec ["state"]);
   Touch "ice_state_total" ["new"];
   Touch "ice_state_total" ["checking"];
   Touch "ice_state_total" ["connected"];
   Touch "ice_state_total" ["completed"];
   Touch "ice_state_total" ["disconnected"];
   Touch "ice_state_total" ["other"];
   Register (family "sdp_msid_injected_total" "sdp_msid_injected_total" IntCounterVec ["has_msid"]);
   Touch "sdp_msid_injected_total" ["true"];
   Touch "sdp_msid_injected_total" ["false"];
   Register (family "tracks_map_sent_total" "tracks_map_sent_total" IntCounterVec ["has_peers"]);
   Touch "tracks_map_sent_total" ["true"];
   Touch "tracks_map_sent_total" ["false"];
   Register (family "sfu_forward_decisions_total" "sfu_forward_decisions_total" IntCounterVec ["src_peer"; "dst_peer"; "kind"; "action"]);
   Register (family "sfu_subscription_setup_total" "sfu_subscription_setup_total" IntCounterVec ["publisher_peer"; "subscriber_peer"; "result"]);
   Register (family "sfu_late_join_resync_total" "sfu_late_join_resync_total" IntCounterVec ["trigger"; "action_taken"]);
   Touch "sfu_late_join_resync_total" ["peer_joined_late"; "tracks_map_sent"];
   Touch "sfu_late_join_resync_total" ["peer_joined_late"; "no_op_empty_room"]].

(** str0m outputs and renegotiation. *)
Definition renegotiation_steps : list Step :=
  [Register (family "sfu_str0m_output_total" "sfu_str0m_output_total" IntCounterVec ["peer_id"; "kind"]);
   Register (family "sfu_track_out_state_transitions_total" "sfu_track_out_state_transitions_total" IntCounterVec ["from"; "to"]);
   Touch "sfu_track_out_state_transitions_total" ["negotiating"; "open"];
   Touch "sfu_track_out_state_transitions_total" ["to_open"; "negotiating"];
   Register (family "sfu_renegotiation_offers_sent_total" "sfu_renegotiation_offers_sent_total" IntCounterVec ["kind"]);
   Touch "sfu_renegotiation_offers_sent_total" ["audio"];
   Touch "sfu_renegotiation_offers_sent_total" ["video"];
   Register (family "sfu_renegotiation_answers_total" "sfu_renegotiation_answers_total" IntCounterVec ["outcome"]);
   Touch "sfu_renegotiation_answers_total" ["ok"];
   Touch "sfu_renegotiation_answers_total" ["err"];
   Touch "sfu_renegotiation_answers_total" ["timeout"];
   Touch "sfu_renegotiation_answers_total" ["ws_closed"];
   Touch "sfu_renegotiation_answers_total" ["ctrl_tx_full"];
   Touch "sfu_renegotiation_answers_total" ["ctrl_tx_retry_ok"];
   Touch "sfu_renegotiation_answers_total" ["state_mismatch"];
   Register (family "sfu_wire_written_total" "sfu_wire_written_total" IntCounterVec ["kind"]);
   Touch "sfu_wire_written_total" ["audio"];
   Touch "sfu_wire_written_total" ["video"];
   Touch "sfu_wire_written_total" ["other"];
   Register (family "sfu_renegotiation_offers_dropped_total" "sfu_renegotiation_offers_dropped_total" IntCounterVec ["kind"]);
   Touch "sfu_renegotiation_offers_dropped_total" ["audio"];
   Touch "sfu_renegotiation_offers_dropped_total" ["video"];
   Register (family "sfu_renegotiation_tracks_map_update_dropped_total" "sfu_renegotiation_tracks_map_update_dropped_total" IntCounterVec ["reason"]);
   Touch "sfu_renegotiation_tracks_map_update_dropped_total" ["ws_tx_full"];
   Touch "sfu_renegotiation_tracks_map_update_dropped_total" ["channel_closed"]].

(** Statistics, write errors, solo rooms and bandwidth hints. *)
Definition stats_steps : list Step :=
  [Register (family "peer_rtt_seconds" "peer_rtt_seconds" GaugeVec ["peer_id"]);
   Register (family "peer_loss_fraction" "peer_loss_fraction" GaugeVec ["peer_id"; "direction"]);
   Register (family "peer_bandwidth_estimate_bps" "peer_bandwidth_estimate_bps_str0m" GaugeVec ["peer_id"]);
   Register (family "media_egress_jitter_ticks" "media_egress_jitter_ticks" GaugeVec ["peer_id"; "mid"]);
   Register (family "media_egress_nacks_received_total" "media_egress_nacks_received_total" IntCounterVec ["peer_id"; "mid"]);
   Register (family "media_egress_firs_received_total" "media_egress_firs_received_total" IntCounterVec ["peer_id"; "mid"]);
   Register (family "media_egress_plis_received_total" "media_egress_plis_received_total" IntCounterVec ["peer_id"; "mid"]);
   Register (family "media_ingress_jitter_ticks" "media_ingress_jitter_ticks" GaugeVec ["peer_id"; "mid"]);
   Register (family "sfu_writer_write_errors_total" "sfu_writer_write_errors_total" IntCounterVec ["kind"]);
   Touch "sfu_writer_write_errors_total" ["write_without_poll"];
   Touch "sfu_writer_write_errors_total" ["other"];
   Register (family "sfu_solo_room_kicked_total" "sfu_solo_room_kicked_total" IntCounter []);
   Register (family "sfu_bwe_hint_received_total" "sfu_bwe_hint_received_total" IntCounterVec ["peer_id"]);
   Register (family "sfu_bwe_hint_throttled_total" "sfu_bwe_hint_throttled_total" IntCounterVec ["peer_id"]);
   Register (family "sfu_bwe_hint_registry_mutex_poisoned_total" "sfu_bwe_hint_registry_mutex_poisoned_total" IntCounter []);
   Register (family "sfu_bwe_hint_rate_limit_min_interval_ms" "sfu_bwe_hint_rate_limit_min_interval_ms" IntGauge []);
   SetTo "sfu_bwe_hint_rate_limit_min_interval_ms" HintInterval].

(** Address filter, admission, relay outcome, dependency descriptors. *)
Definition filter_steps : list Step :=
  [Register (family "udp_bogon_dest_dropped_total" "udp_bogon_dest_dropped_total" IntCounterVec ["kind"]);
   Touch "udp_bogon_dest_dropped_total" ["rfc1918"];
   Touch "udp_bogon_dest_dropped_total" ["cgnat"];
   Touch "udp_bogon_dest_dropped_total" ["loopback"];
   Touch "udp_bogon_dest_dropped_total" ["link_local"];
   Touch "udp_bogon_dest_dropped_total" ["multicast"];
   Touch "udp_bogon_dest_dropped_total" ["other"];
   Register (family "sfu_admission_rejected_total" "sfu_admission_rejected_total" IntCounterVec ["reason"]);
   Touch "sfu_admission_rejected_total" ["at_capacity"];
   Register (family "relay_connect_success_total" "relay_connect_success_total" IntCounter []);
   Register (family "relay_candidate_exhausted_total" "relay_candidate_exhausted_total" IntCounter []);
   Register (family "sfu_dd_frames_total" "dd_frames_total" IntCounterVec ["present"]);
   Touch "sfu_dd_frames_total" ["true"];
   Touch "sfu_dd_frames_total" ["false"]].

(** Temporal layers and the keyframe loop. *)
Definition layer_steps : list Step :=
  [Register (family "sfu_dd_temporal_drops_total" "dd_temporal_drops_total" IntCounterVec ["temporal_id"]);
   Touch "sfu_dd_temporal_drops_total" ["0"];
   Touch "sfu_dd_temporal_drops_total" ["1"];
   Touch "sfu_dd_temporal_drops_total" ["2"];
   Touch "sfu_dd_temporal_drops_total" ["3plus"];
   Register (family "bwe_temporal_cap_total" "bwe_temporal_cap_total" IntCounterVec ["cap"]);
   Touch "bwe_temporal_cap_total" ["0"];
   Touch "bwe_temporal_cap_total" ["1"];
   Touch "bwe_temporal_cap_total" ["uncapped"];
   Register (family "sfu_keyframe_on_subscribe_requests_total" "sfu_keyframe_on_subscribe_requests_total" IntCounterVec ["attempt"]);
   Touch "sfu_keyframe_on_subscribe_requests_total" ["initial"];
   Touch "sfu_keyframe_on_subscribe_requests_total" ["retry"];
   Register (family "sfu_keyframe_on_subscribe_outcome_total" "sfu_keyframe_on_subscribe_outcome_total" IntCounterVec ["outcome"]);
   Touch "sfu_keyframe_on_subscribe_outcome_total" ["observed"];
   Touch "sfu_keyframe_on_subscribe_outcome_total" ["budget_exhausted"];
   Touch "sfu_keyframe_on_subscribe_outcome_total" ["codec_unobservable"];
   Touch "sfu_keyframe_on_subscribe_outcome_total" ["publisher_gone"];
   Register (histogram "sfu_keyframe_on_subscribe_time_to_first_seconds" "sfu_keyframe_on_subscribe_time_to_first_seconds" [100; 250; 500; 1000; 2000; 3000; 5000; 7500; 10000])].

(** [m6::register]. *)
Definition m6_register : list Step :=
  [Register (family "layer_transitions_total" "layer_transitions_total" IntCounterVec ["from"; "to"; "peer"]);
   Register (family "e2e_handshake_failures_total" "e2e_handshake_failures_total" IntCounter []);
   Register (histogram "dominant_speaker_hysteresis_ms" "dominant_speaker_hysteresis_ms" [100000; 300000; 500000; 1000000; 2000000; 5000000; 10000000; 30000000]);
   Register (family "speaker_immediate" "sfu_speaker_immediate_score" GaugeVec ["peer"]);
   Register (family "speaker_medium" "sfu_speaker_medium_score" GaugeVec ["peer"]);
   Register (family "speaker_long" "sfu_speaker_long_score" GaugeVec ["peer"])].

(** [client_ws::register]; the fields as [SfuMetrics] names them. *)
Definition client_ws_register : list Step :=
  [Register (family "client_ws_active_sessions" "client_ws_active_sessions" IntGauge []);
   Register (family "client_ws_sessions_started_total" "client_ws_sessions_started_total" IntCounter []);
   Register (family "client_ws_handshake_failures_total" "client_ws_handshake_failures_total" IntCounterVec ["reason"]);
   Register (family "client_ws_offer_processed_total" "client_ws_offer_processed_total" IntCounterVec ["outcome"]);
   Register (family "client_ws_answer_sent_total" "client_ws_answer_sent_total" IntCounter []);
   Register (family "client_ws_session_ended_total" "client_ws_session_ended_total" IntCounterVec ["close_code"]);
   Register (histogram "client_ws_session_duration_seconds" "client_ws_session_duration_seconds" [100; 250; 500; 1000; 2000; 5000; 30000; 60000; 300000; 1800000; 3600000]);
   Register (family "session_replaced_total" "session_replaced_total" IntCounter [])].

(** The whole of [SfuMetrics::new], in order. *)
Definition new_steps : list Step :=
  room_steps ++ m6_register ++ client_ws_register ++ udp_steps ++ relay_steps ++ voice_steps ++
  renegotiation_steps ++ stats_steps ++ filter_steps ++ layer_steps.

Definition families : list Family :=
  omap (fun s => match s with Register f => Some f | _ => None end) new_steps.

(** ** The registry of the library *)

(** Names the library accepts: [[a-zA-Z_:][a-zA-Z0-9_:]*] for a family, the same
    without the colon for a label. *)
Definition is_letter (c : ascii) : bool :=
  let n := Z.of_N (N_of_ascii c) in
  ((65 <=? n) && (n <=? 90)) || ((97 <=? n) && (n <=? 122)) || (n =? 95).
Definition is_digit (c : ascii) : bool :=
  let n := Z.of_N (N_of_ascii c) in (48 <=? n) && (n <=? 57).
Definition is_colon (c : ascii) : bool := Z.of_N (N_of_ascii c) =? 58.

Definition label_ok (s : string) : bool :=
  match String.list_ascii_of_string s with
  | [] => false
  | c :: cs => is_letter c && forallb (fun c => is_letter c || is_digit c) cs
  end.
Definition name_ok (s : string) : bool :=
  match String.list_ascii_of_string s with
  | [] => false
  | c :: cs => (is_letter c || is_colon c) && forallb (fun c => is_letter c || is_digit c || is_colon c) cs
  end.

Fixpoint increasing (bs : list Z) : bool :=
  match bs with
  | x :: (y :: _) as t => (x <? y) && increasing t
  | _ => true
  end.

(** The options of a family are valid: its names, no label twice, no label that
    the registry adds to every series, the buckets in order. *)
Definition opts_ok (common : list string) (f : Family) : bool :=
  name_ok (fname f) && forallb label_ok (label_names f) &&
  bool_decide (NoDup (common ++ label_names f)) &&
  match kind f with
  | Histogram => negb (bool_decide (buckets f = [])) && increasing (buckets f)
  | IntCounterVec | IntGaugeVec | GaugeVec => negb (bool_decide (label_names f = []))
  | _ => true
  end.

Class Prometheus := {
  PromRegistry : Type;
  prom_names : PromRegistry -> list string;
  (* [Registry::new_custom(prefix, labels)] *)
  new_custom : string -> list (string * string) -> option PromRegistry;
  (* the constructor of the family, then [registry.register] *)
  register : list string -> PromRegistry -> Family -> option PromRegistry;
  new_custom_ok prefix labels :
    prefix <> ""%string -> forallb label_ok labels.*1 = true ->
    exists r, new_custom prefix labels = Some r /\ prom_names r = [];
  register_ok common r f :
    opts_ok common f = true -> fname f ∉ prom_names r ->
    exists r', register common r f = Some r' /\ prom_names r' = prom_names r ++ [fname f];
  register_twice common r f : fname f ∈ prom_names r -> register common r f = None;
  register_invalid common r f : opts_ok common f = false -> register common r f = None;
}.

(** ** Series *)

Notation Series := (string * list string)%type.
Notation Store := (gmap Series Z).

Definition find_family (fs : list Family) (name : string) : option Family :=
  snd <$> list_find (fun f => field f = name) fs.

(** [with_label_values] panics on a wrong number of values; a family without
    labels is its one series. *)
Definition series_ok (f : Family) (labels : list string) : bool :=
  match kind f with
  | IntCounter | IntGauge | Histogram => bool_decide (labels = [])
  | IntCounterVec | IntGaugeVec | GaugeVec => bool_decide (length labels = length (label_names f))
  end.

Definition value_at (s : Series) (m : Store) : Z := default 0 (m !! s).

(** The value of a counter is a [u64], of an integer gauge an [i64]. *)
Definition clamp (f : Family) (v : Z) : Z :=
  match kind f with
  | IntCounter | IntCounterVec | Histogram => wrap_u64 v
  | IntGauge | IntGaugeVec => wrap_i64 v
  | GaugeVec => v
  end.

Definition is_counter (f : Family) : bool :=
  match kind f with IntCounter | IntCounterVec => true | _ => false end.
Definition is_gauge (f : Family) : bool :=
  match kind f with IntGauge | IntGaugeVec | GaugeVec => true | _ => false end.
Definition is_vec (f : Family) : bool :=
  match kind f with IntCounterVec | IntGaugeVec | GaugeVec => true | _ => false end.
Definition is_histogram (f : Family) : bool :=
  match kind f with Histogram => true | _ => false end.

(** The update an effect makes: the field, the labels, what the field must be,
    and the new value; [None] for an effect that is not about a metric. *)
Inductive Update :=
| Put (name : string) (labels : list string) (fits : Family -> bool) (v : Z -> Z)
| Drop (name : string) (labels : list string).

Definition update_of (e : Effect) : option Update :=
  match e with
  | Inc name labels => Some (Put name labels (fun f => is_counter f || is_gauge f) (fun v => v + 1))
  | IncBy name labels n => Some (Put name labels is_counter (fun v => v + n))
  | Dec name labels => Some (Put name labels is_gauge (fun v => v - 1))
  | SetGauge name labels v => Some (Put name labels is_gauge (fun _ => v))
  | Observe name _ => Some (Put name [] is_histogram (fun v => v + 1))
  | RemoveLabels name labels => Some (Drop name labels)
  | _ => None
  end.

(** An effect on the exported series; [None] when the process would panic or the
    code would not compile: no such field, not an operation of its type, or a
    wrong number of label values.  A removal with a wrong number of values only
    returns an error, which the code ignores. *)
Definition apply_effect (fs : list Family) (e : Effect) (m : Store) : option Store :=
  match update_of e with
  | None => Some m
  | Some (Put name labels fits v) =>
      match find_family fs name with
      | Some f => if fits f && series_ok f labels
                  then Some (<[(name, labels) := clamp f (v (value_at (name, labels) m))]> m) else None
      | None => None
      end
  | Some (Drop name labels) =>
      match find_family fs name with
      | Some f => if is_vec f then Some (delete (name, labels) m) else None
      | None => None
      end
  end.

Fixpoint apply_effects (fs : list Family) (es : list Effect) (m : Store) : option Store :=
  match es with
  | [] => Some m
  | e :: es' => match apply_effect fs e m with Some m' => apply_effects fs es' m' | None => None end
  end.

(** ** Construction *)

Inductive NewError := RegistryRefused | RegistrationFailed (name : string) | Panicked.

(** The registry, the families it has so far, the series. *)
Record SfuMetrics `{Prometheus} := mkSfuMetrics {
  prom_registry : PromRegistry;
  fields : list Family;
  series : Store;
}.
Arguments mkSfuMetrics {_}.
Arguments prom_registry {_}.
Arguments fields {_}.
Arguments series {_}.

Section construction.
Context `{Prometheus}.

(** The terms of the kit's bandwidth chain, the cargo feature and the configured
    interval are arguments. *)
Context (terms : list string) (vfm : bool) (interval_ms : Z).

Definition COMMON : list string := ["edge_id"].

(** [.with_label_values(..).get()]: the series exists from then on. *)
Definition touch (name : string) (labels : list string) (m : SfuMetrics) : result SfuMetrics NewError :=
  match find_family (fields m) name with
  | Some f =>
      if series_ok f labels
      then Ok (mkSfuMetrics (prom_registry m) (fields m)
                 (<[(name, labels) := value_at (name, labels) (series m)]> (series m)))
      else Err Panicked
  | None => Err Panicked
  end.

(** A family without labels shows its series at once. *)
Definition add_family (f : Family) (r : PromRegistry) (m : SfuMetrics) : SfuMetrics :=
  mkSfuMetrics r (fields m ++ [f])
    (if is_vec f then series m else <[(field f, []) := 0]> (series m)).

Definition initial (v : Initial) : option Z :=
  match v with
  | Disabled => Some 1
  | VfmFlag => if vfm then Some 1 else None
  | HintInterval => Some (wrap_i64 interval_ms)
  end.

Fixpoint touch_all (name : string) (ls : list (list string)) (m : SfuMetrics) : result SfuMetrics NewError :=
  match ls with
  | [] => Ok m
  | l :: ls' => let? m := touch name l m in touch_all name ls' m
  end.

Definition new_step (s : Step) (m : SfuMetrics) : result SfuMetrics NewError :=
  match s with
  | Register f =>
      match register COMMON (prom_registry m) f with
      | Some r => Ok (add_family f r m)
      | None => Err (RegistrationFailed (fname f))
      end
  | Touch name labels => touch name labels m
  | TouchEach name => touch_all name ((fun t => [t]) <$> terms) m
  | SetTo name v =>
      match initial v with
      | None => Ok m
      | Some x => match apply_effect (fields m) (SetGauge name [] x) (series m) with
                  | Some s => Ok (mkSfuMetrics (prom_registry m) (fields m) s)
                  | None => Err Panicked
                  end
      end
  end.

Fixpoint run_steps (ss : list Step) (m : SfuMetrics) : result SfuMetrics NewError :=
  match ss with
  | [] => Ok m
  | s :: ss' => let? m := new_step s m in run_steps ss' m
  end.

(** [SFU_EDGE_ID], or [local]. *)
Definition edge_id_of (var : option string) : string := default "local" var.

Definition SfuMetrics_new (edge_id : option string) : result SfuMetrics NewError :=
  match new_custom "sfu" [("edge_id", edge_id_of edge_id)] with
  | None => Err RegistryRefused
  | Some r => run_steps new_steps (mkSfuMetrics r [] ∅)
  end.
End construction.

(** The name a family has in a scrape. *)
Definition exported (f : Family) : string := "sfu_" +:+ fname f.

(** ** The scrape endpoint *)

(** [encode] is the text encoder over the gathered families, with the check for
    UTF-8; the status and the body. *)
Definition scrape `{Prometheus} (encode : SfuMetrics -> option str) (m : SfuMetrics) : Z * str :=
  match encode m with
  | Some body => (200, body)
  | None => (500, lit "encode failed")
  end.
