(* ===== verification/SfuMetricsFacts.v ===== *)
(** * Theorems on the construction of the metrics

    Start-up registers every family, whatever the library's registry is inside;
    which series the first scrape shows and with which values; and that the
    queries written into the help texts do not name exported families. *)

From Stdlib Require Import ZArith Lia.
From stdpp Require Import base option numbers gmap strings list.
From S2P Require Import Prelude RustStr NetAddr DdParse DdCache SfuTypes SfuMetrics.

(** ** A registry that satisfies the interface *)

#[export] Instance name_list : Prometheus.
Proof.
  refine {| PromRegistry := list string; prom_names := fun r => r;
            new_custom := fun prefix labels =>
              if bool_decide (prefix <> ""%string) && forallb label_ok labels.*1 then Some [] else None;
            register := fun common r f =>
              if opts_ok common f && bool_decide (fname f ∉ r) then Some (r ++ [fname f]) else None |}.
  - intros prefix labels Hp Hl. rewrite bool_decide_true, Hl by done. by eexists.
  - intros common r f Ho Hn. rewrite Ho, bool_decide_true by done. by eexists.
  - intros common r f Hin. rewrite bool_decide_false by auto. by rewrite andb_false_r.
  - intros common r f ->. done.
Defined.

(** ** Which steps succeed *)

(** The series a step makes visible. *)
Definition series_of (terms : list string) (vfm : bool) (s : Step) : list Series :=
  match s with
  | Register f => if is_vec f then [] else [(field f, [])]
  | Touch n l => [(n, l)]
  | TouchEach n => (fun t => (n, [t])) <$> terms
  | SetTo n v => match v with VfmFlag => if vfm then [(n, [])] else [] | _ => [(n, [])] end
  end.

(** The check of a list of steps against the families registered so far. *)
Definition step_ok (fs : list Family) (s : Step) : bool :=
  match s with
  | Register f => opts_ok COMMON f && bool_decide (fname f ∉ fname <$> fs)
  | Touch n l => match find_family fs n with Some f => series_ok f l | None => false end
  | TouchEach n => match find_family fs n with Some f => series_ok f ["t"] | None => false end
  | SetTo n _ => match find_family fs n with Some f => bool_decide (kind f = IntGauge) | None => false end
  end.

Definition family_of (s : Step) : list Family := match s with Register f => [f] | _ => [] end.

Fixpoint steps_ok (fs : list Family) (ss : list Step) : bool :=
  match ss with
  | [] => true
  | s :: ss' => step_ok fs s && steps_ok (fs ++ family_of s) ss'
  end.

Lemma series_ok_length f l l' : length l = length l' -> series_ok f l = series_ok f l'.
Proof.
  intros E. unfold series_ok. rewrite E. destruct (kind f), l, l'; done.
Qed.

Section run.
Context `{Prometheus} (terms : list string) (vfm : bool) (interval : Z).

(** What a step does to the families and the visible series. *)
Definition extends (fs : list Family) (ss : list Series) (m m' : SfuMetrics) : Prop :=
  fields m' = fields m ++ fs /\
  prom_names (prom_registry m') = prom_names (prom_registry m) ++ (fname <$> fs) /\
  forall s, is_Some (series m' !! s) <-> is_Some (series m !! s) \/ s ∈ ss.

Lemma extends_refl m : extends [] [] m m.
Proof. unfold extends. rewrite !app_nil_r. split_and!; [done..|]. set_solver. Qed.

Lemma extends_trans fs1 fs2 ss1 ss2 m1 m2 m3 :
  extends fs1 ss1 m1 m2 -> extends fs2 ss2 m2 m3 -> extends (fs1 ++ fs2) (ss1 ++ ss2) m1 m3.
Proof.
  intros (E1 & N1 & S1) (E2 & N2 & S2). unfold extends.
  rewrite E2, E1, N2, N1, fmap_app, !app_assoc. split_and!; [done..|].
  intros s. rewrite S2, S1, elem_of_app. tauto.
Qed.

Lemma insert_visible (m : Store) s0 v s : is_Some (<[s0 := v]> m !! s) <-> is_Some (m !! s) \/ s ∈ [s0].
Proof.
  rewrite list_elem_of_singleton. destruct (decide (s = s0)) as [->|Hne].
  - rewrite lookup_insert_eq. split; [auto | by eexists].
  - rewrite lookup_insert_ne by done. naive_solver.
Qed.

Lemma touch_extends n l f m :
  find_family (fields m) n = Some f -> series_ok f l = true ->
  exists m', touch n l m = Ok m' /\ extends [] [(n, l)] m m'.
Proof.
  intros Hf Hs. unfold touch. rewrite Hf, Hs. eexists. split; [done|].
  unfold extends. cbn. rewrite !app_nil_r. split_and!; [done..|]. apply insert_visible.
Qed.

Lemma touch_all_extends n ls f m :
  find_family (fields m) n = Some f -> Forall (fun l => series_ok f l = true) ls ->
  exists m', touch_all n ls m = Ok m' /\ extends [] ((fun l => (n, l)) <$> ls) m m'.
Proof.
  intros Hf Hs. revert m Hf. induction Hs as [|l ls Hl _ IH]; intros m Hf; cbn.
  { eexists. split; [done | apply extends_refl]. }
  destruct (touch_extends n l f m Hf Hl) as (m1 & -> & Hx). cbn.
  destruct (IH m1) as (m2 & -> & Hx2). { destruct Hx as [-> _]. by rewrite app_nil_r. }
  eexists. split; [done|]. exact (extends_trans _ _ _ _ _ _ _ Hx Hx2).
Qed.

Lemma step_extends m s :
  prom_names (prom_registry m) = fname <$> fields m -> step_ok (fields m) s = true ->
  exists m', new_step terms vfm interval s m = Ok m' /\ extends (family_of s) (series_of terms vfm s) m m'.
Proof.
  intros Hn Hok. destruct s as [f|n l|n|n v]; cbn [step_ok new_step] in *.
  - bool_props. apply bool_decide_eq_true in H1.
    destruct (register_ok COMMON (prom_registry m) f) as (r & -> & Hr); [done | by rewrite Hn|].
    eexists. split; [done|]. unfold extends, add_family. cbn. split_and!; [done | by rewrite Hr|].
    intros s. destruct (is_vec f); [set_solver | apply insert_visible].
  - destruct (find_family _ n) as [f|] eqn:Hf; [|done]. by apply (touch_extends n l f).
  - destruct (find_family _ n) as [f|] eqn:Hf; [|done].
    destruct (touch_all_extends n ((fun t => [t]) <$> terms) f m Hf) as (m' & -> & Hx).
    { apply Forall_fmap, Forall_forall. intros t _. cbn. by rewrite <- (series_ok_length f ["t"]). }
    eexists. split; [done|]. unfold series_of, family_of. rewrite <- list_fmap_compose in Hx. exact Hx.
  - destruct (find_family _ n) as [f|] eqn:Hf; [|done]. apply bool_decide_eq_true in Hok.
    unfold initial, apply_effect. cbn [update_of]. rewrite Hf.
    unfold is_gauge, series_ok. rewrite Hok.
    destruct v; [|destruct vfm|]; cbn; eexists; (split; [done|]);
      try apply extends_refl;
      unfold extends; cbn; rewrite !app_nil_r; (split_and!; [done..|]); apply insert_visible.
Qed.

Lemma run_extends ss m :
  prom_names (prom_registry m) = fname <$> fields m -> steps_ok (fields m) ss = true ->
  exists m', run_steps terms vfm interval ss m = Ok m' /\
    extends (ss ≫= family_of) (ss ≫= series_of terms vfm) m m'.
Proof.
  revert m. induction ss as [|s ss IH]; intros m Hn Hok; cbn.
  { eexists. split; [done | apply extends_refl]. }
  cbn in Hok. apply andb_true_iff in Hok as [Hs Hok].
  destruct (step_extends m s Hn Hs) as (m1 & -> & Hx). cbn [rbind].
  destruct (IH m1) as (m2 & -> & Hx2).
  - destruct Hx as (-> & -> & _). by rewrite Hn, fmap_app.
  - by destruct Hx as [-> _].
  - eexists. split; [done|]. exact (extends_trans _ _ _ _ _ _ _ Hx Hx2).
Qed.

(** The value a step leaves at a series. *)
Definition value_after (x : Series) (v : Z) (s : Step) : Z :=
  match s with
  | Register f => if negb (is_vec f) && bool_decide (x = (field f, [])) then 0 else v
  | SetTo n i => match initial vfm interval i with
                 | Some z => if bool_decide (x = (n, [])) then wrap_i64 z else v
                 | None => v
                 end
  | _ => v
  end.

Lemma value_at_insert (x y : Series) (v : Z) (m : Store) :
  value_at x (<[y := v]> m) = if bool_decide (x = y) then v else value_at x m.
Proof.
  unfold value_at. case_bool_decide as Hd.
  - subst. by rewrite lookup_insert_eq.
  - by rewrite lookup_insert_ne by congruence.
Qed.

Lemma touch_all_value x n ls m m' :
  touch_all n ls m = Ok m' -> value_at x (series m') = value_at x (series m).
Proof.
  revert m. induction ls as [|l ls IH]; intros m; cbn; [by intros [= ->]|].
  unfold touch. destruct (find_family _ n) as [f|]; [|done].
  destruct (series_ok f l); [cbn|done]. intros E%IH. rewrite E. cbn.
  rewrite value_at_insert. case_bool_decide; by subst.
Qed.

Lemma step_value x s m m' :
  step_ok (fields m) s = true -> new_step terms vfm interval s m = Ok m' ->
  value_at x (series m') = value_after x (value_at x (series m)) s.
Proof.
  intros Hok. destruct s as [f|n l|n|n i]; cbn [new_step value_after step_ok] in *.
  - destruct (register _ _ _); [|done]. intros [= <-]. cbn.
    destruct (is_vec f); cbn; [done | apply value_at_insert].
  - unfold touch. destruct (find_family _ n) as [f|]; [|done].
    destruct (series_ok f l); [|done]. intros [= <-]. cbn.
    rewrite value_at_insert. case_bool_decide; by subst.
  - apply touch_all_value.
  - destruct (initial vfm interval i) as [z|]; [|by intros [= ->]].
    unfold apply_effect. cbn [update_of]. destruct (find_family _ n) as [f|]; [|done].
    apply bool_decide_eq_true in Hok. unfold is_gauge, series_ok, clamp. rewrite Hok. cbn.
    intros [= <-]. apply value_at_insert.
Qed.

Lemma run_values x ss m m' :
  prom_names (prom_registry m) = fname <$> fields m -> steps_ok (fields m) ss = true ->
  run_steps terms vfm interval ss m = Ok m' ->
  value_at x (series m') = foldl (value_after x) (value_at x (series m)) ss.
Proof.
  revert m. induction ss as [|s ss IH]; intros m Hn Hok; cbn; [by intros [= ->]|].
  cbn in Hok. apply andb_true_iff in Hok as [Hs Hok].
  destruct (step_extends m s Hn Hs) as (m1 & E & Hx). rewrite E. cbn [rbind]. intros Hr.
  rewrite (IH m1); [by rewrite (step_value x s m m1) | | |done].
  - destruct Hx as (-> & -> & _). by rewrite Hn, fmap_app.
  - by destruct Hx as [-> _].
Qed.
End run.

(** ** Start-up *)

(** The series of a first scrape. *)
Definition baseline (terms : list string) (vfm : bool) : list Series := new_steps ≫= series_of terms vfm.

(** The value each of them has. *)
Definition first_value (vfm : bool) (interval : Z) (x : Series) : Z :=
  if bool_decide (x = ("client_ws_disabled", [])) then 1
  else if bool_decide (x = ("vfm_enabled", [])) then Z.b2z vfm
  else if bool_decide (x = ("sfu_bwe_hint_rate_limit_min_interval_ms", [])) then wrap_i64 interval
  else 0.

Lemma new_steps_ok : steps_ok [] new_steps = true.
Proof. vm_compute. reflexivity. Qed.

Lemma families_of_steps : new_steps ≫= family_of = families.
Proof. vm_compute. reflexivity. Qed.

Lemma exported_nodup : NoDup (exported <$> families).
Proof. refine (bool_decide_eq_true_1 _ _). vm_compute. reflexivity. Qed.

(** A series that no step sets keeps the value 0. *)
Definition set_names (ss : list Step) : list string :=
  omap (fun s => match s with SetTo n _ => Some n | _ => None end) ss.

Lemma value_unset vfm interval x ss :
  x ∉ (fun n => (n, []) : Series) <$> set_names ss -> foldl (value_after vfm interval x) 0 ss = 0.
Proof.
  induction ss as [|[f|n l|n|n i] ss IH]; cbn; intros Hx; auto.
  - destruct (_ && _); auto.
  - apply not_elem_of_cons in Hx as [Hx ?]. destruct (initial _ _ _); [|auto].
    rewrite bool_decide_false by done. auto.
Qed.

Lemma wrap_i64_idem z : wrap_i64 (wrap_i64 z) = wrap_i64 z.
Proof.
  apply wrap_i64_id. unfold wrap_i64, i64_min, i64_max.
  pose proof (Z.mod_pos_bound (z - -9223372036854775808) 18446744073709551616). lia.
Qed.

Lemma new_steps_values vfm interval x :
  foldl (value_after vfm interval x) 0 new_steps = first_value vfm interval x.
Proof.
  unfold first_value.
  repeat case_bool_decide; subst;
    try (rewrite value_unset; [done|]; cbn; set_solver).
  - destruct vfm; vm_compute; reflexivity.
  - destruct vfm; vm_compute; reflexivity.
  - cbv -[wrap_i64]. apply wrap_i64_idem.
Qed.

(** What start-up builds. *)
Lemma start_up `{Prometheus} terms vfm interval edge_id :
  exists m, SfuMetrics_new terms vfm interval edge_id = Ok m /\
    fields m = families /\ prom_names (prom_registry m) = fname <$> families /\
    (forall x, is_Some (series m !! x) <-> x ∈ baseline terms vfm) /\
    (forall x, value_at x (series m) = first_value vfm interval x).
Proof.
  unfold SfuMetrics_new.
  destruct (new_custom_ok "sfu" [("edge_id", edge_id_of edge_id)]) as (r & -> & Hr); [done..|].
  pose (m0 := mkSfuMetrics r [] ∅).
  destruct (run_extends terms vfm interval new_steps m0) as (m & Hm & E & N & S);
    [cbn; by rewrite Hr | apply new_steps_ok|].
  exists m. rewrite E, families_of_steps. split_and!; [done|done| | |].
  - rewrite N, families_of_steps. cbn. by rewrite Hr.
  - intros x. rewrite S. cbn. rewrite lookup_empty. split; [intros [[? [=]]|?]; done | by right].
  - intros x. rewrite <- new_steps_values.
    apply (run_values terms vfm interval x new_steps m0 m); [cbn; by rewrite Hr | apply new_steps_ok | done].
Qed.

(** ** What the first scrape shows *)

(** A family of this kind is one series. *)
Definition unlabelled (k : Kind) : bool :=
  match k with IntCounter | IntGauge | Histogram => true | _ => false end.

(** The label values that are there from the start, by family. *)
Definition preset_labels : list (string * list (list string)) :=
  let each := fmap (fun v : string => [v]) in
  [("inject_channel_closed_total", each ["relay"; "client"]);
   ("chat_relay_dropped_total",
      ["data"; "ctrl"] ≫= fun dc =>
        (fun reason => [dc; reason]) <$> ["channel_closed"; "write_err"; "no_channel"; "oversize"]);
   ("chat_relay_active_channels", each ["data"; "ctrl"]);
   ("relay_jwt_verify_total", each ["eddsa"; "hs256"]);
   ("relay_api_enabled", each ["eddsa"; "hs256"; "both"]);
   ("voice_relay_dropped", each ["subscriber_dc_not_open"; "buffered_amount_too_high"; "frame_malformed";
                                 "dc_closed"; "dc_send_failed"]);
   ("voice_relay_active_channels", each ["voice"]);
   ("ice_state_total", each ["new"; "checking"; "connected"; "completed"; "disconnected"; "other"]);
   ("sdp_msid_injected_total", each ["true"; "false"]);
   ("tracks_map_sent_total", each ["true"; "false"]);
   ("sfu_late_join_resync_total",
      (fun action => ["peer_joined_late"; action]) <$> ["tracks_map_sent"; "no_op_empty_room"]);
   ("sfu_track_out_state_transitions_total", [["to_open"; "negotiating"]; ["negotiating"; "open"]]);
   ("sfu_renegotiation_offers_sent_total", each ["audio"; "video"]);
   ("sfu_renegotiation_offers_dropped_total", each ["audio"; "video"]);
   ("sfu_renegotiation_answers_total", each ["ok"; "err"; "timeout"; "ws_closed"; "ctrl_tx_full";
                                             "ctrl_tx_retry_ok"; "state_mismatch"]);
   ("sfu_renegotiation_tracks_map_update_dropped_total", each ["ws_tx_full"; "channel_closed"]);
   ("sfu_wire_written_total", each ["audio"; "video"; "other"]);
   ("sfu_writer_write_errors_total", each ["write_without_poll"; "other"]);
   ("udp_bogon_dest_dropped_total", each ["rfc1918"; "cgnat"; "loopback"; "link_local"; "multicast"; "other"]);
   ("sfu_admission_rejected_total", each ["at_capacity"]);
   ("sfu_dd_frames_total", each ["true"; "false"]);
   ("sfu_dd_temporal_drops_total", each ["0"; "1"; "2"; "3plus"]);
   ("bwe_temporal_cap_total", each ["0"; "1"; "uncapped"]);
   ("sfu_keyframe_on_subscribe_requests_total", each ["initial"; "retry"]);
   ("sfu_keyframe_on_subscribe_outcome_total", each ["observed"; "budget_exhausted"; "codec_unobservable";
                                                     "publisher_gone"])].

(** The fields registered under another name than their own. *)
Definition renamed : list (string * string) :=
  [("udp_send_failed", "udp_send_failed_total"); ("voice_relay_dropped", "voice_relay_dropped_total");
   ("peer_bandwidth_estimate_bps", "peer_bandwidth_estimate_bps_str0m");
   ("speaker_immediate", "sfu_speaker_immediate_score"); ("speaker_medium", "sfu_speaker_medium_score");
   ("speaker_long", "sfu_speaker_long_score");
   ("sfu_dd_frames_total", "dd_frames_total"); ("sfu_dd_temporal_drops_total", "dd_temporal_drops_total")].

Definition registered_name (field : string) : string :=
  default field (snd <$> list_find (fun r => r.1 = field) renamed ≫= fun r => Some r.2).

Definition shown_first (terms : list string) (x : Series) : Prop :=
  (exists k, (x.1, k) ∈ struct_fields /\ unlabelled k = true /\ x.2 = []) \/
  (exists ls, (x.1, ls) ∈ preset_labels /\ x.2 ∈ ls) \/
  (x.1 = "combined_bps_binding_term" /\ exists t, t ∈ terms /\ x.2 = [t]).

(** The same as a list, for no terms. *)
Definition shown_list : list Series :=
  (struct_fields ≫= fun '(f, k) => if unlabelled k then [(f, [])] else []) ++
  (preset_labels ≫= fun '(f, ls) => (fun l => (f, l)) <$> ls).

Lemma shown_list_spec x : x ∈ shown_list <-> shown_first [] x.
Proof.
  unfold shown_list, shown_first. rewrite elem_of_app, !list_elem_of_bind. destruct x as [n l]. cbn [fst snd].
  split.
  - intros [([f k] & Hx & Hf)|([f ls] & Hx & Hf)].
    + left. destruct (unlabelled k) eqn:Hk; [|by apply elem_of_nil in Hx].
      apply list_elem_of_singleton in Hx as [= -> ->]. by exists k.
    + right. left. apply list_elem_of_fmap in Hx as (l' & [= -> ->] & Hl). by exists ls.
  - intros [(k & Hf & Hk & ->)|[(ls & Hf & Hl)|(_ & t & Ht & _)]].
    + left. exists (n, k). rewrite Hk. split; [by left | done].
    + right. exists (n, ls). split; [by apply list_elem_of_fmap_2 | done].
    + by apply elem_of_nil in Ht.
Qed.

(** The terms only add series of the steps over them. *)
Lemma terms_series terms vfm ss x :
  x ∈ ss ≫= series_of terms vfm <->
  x ∈ ss ≫= series_of [] vfm \/ exists n t, TouchEach n ∈ ss /\ t ∈ terms /\ x = (n, [t]).
Proof.
  rewrite !list_elem_of_bind. split.
  - intros (s & Hx & Hs). destruct s as [f|n l|n|n v]; cbn [series_of] in Hx;
      try (left; eexists; split; [|exact Hs]; exact Hx).
    apply list_elem_of_fmap in Hx as (t & -> & Ht). right. by exists n, t.
  - intros [(s & Hx & Hs)|(n & t & Hs & Ht & ->)].
    + exists s. split; [|done]. destruct s as [f|n l|n|n v]; try exact Hx. by apply elem_of_nil in Hx.
    + exists (TouchEach n). split; [by apply (list_elem_of_fmap_2 (fun t => (n, [t]))) | done].
Qed.

Lemma baseline_shown terms vfm x : x ∈ baseline terms vfm <-> shown_first terms x.
Proof.
  unfold baseline. rewrite terms_series.
  assert (x ∈ new_steps ≫= series_of [] vfm <-> x ∈ shown_list) as ->.
  { assert (Forall (fun y => y ∈ shown_list) (new_steps ≫= series_of [] vfm) /\
      Forall (fun y => y ∈ new_steps ≫= series_of [] vfm) shown_list) as [H1 H2].
    { split; destruct vfm; refine (bool_decide_eq_true_1 _ _); vm_compute; reflexivity. }
    rewrite Forall_forall in H1, H2. split; auto. }
  assert (forall n, TouchEach n ∈ new_steps <-> n = "combined_bps_binding_term") as Hn.
  { intros n. split; [|intros ->; cbn; repeat first [by left | right]].
    unfold new_steps. cbn. intros Hin.
    repeat (apply elem_of_cons in Hin as [Hin|Hin]; [first [discriminate Hin | by injection Hin as ->]|]).
    by apply elem_of_nil in Hin. }
  rewrite shown_list_spec. unfold shown_first. split.
  - intros [[H|[H|(_ & t & Ht & _)]]|(n & t & ->%Hn & Ht & ->)]; [by left | right; by left | |].
    + by apply elem_of_nil in Ht.
    + right. right. split; [done|]. by exists t.
  - intros [H|[H|(Hx & t & Ht & Hl)]]; [left; by left | left; right; by left|].
    right. exists "combined_bps_binding_term", t. split; [by apply Hn|]. split; [done|].
    destruct x as [n l]. cbn in *. by subst.
Qed.

Lemma families_declared : (fun f => (field f, kind f)) <$> families ≡ₚ struct_fields.
Proof.
  apply NoDup_Permutation.
  - refine (bool_decide_eq_true_1 _ _). vm_compute. reflexivity.
  - refine (bool_decide_eq_true_1 _ _). vm_compute. reflexivity.
  - assert (Forall (fun y => y ∈ struct_fields) ((fun f => (field f, kind f)) <$> families) /\
      Forall (fun y => y ∈ (fun f => (field f, kind f)) <$> families) struct_fields) as [H1 H2].
    { split; refine (bool_decide_eq_true_1 _ _); vm_compute; reflexivity. }
    rewrite Forall_forall in H1, H2. intros x. split; auto.
Qed.

Lemma families_named : Forall (fun f => exported f = "sfu_" +:+ registered_name (field f)) families.
Proof. refine (bool_decide_eq_true_1 _ _). vm_compute. reflexivity. Qed.

(** C20. At start-up no registration of [SfuMetrics::new] fails and no label touch
    panics, whatever the library's registry is inside, the kit's binding terms,
    the build and the edge id.  The families registered are the fields the struct
    declares, each once and of its declared kind, exported as [sfu_] and the
    field's name but for the eight listed in [renamed], no two under one name.
    The first scrape shows every field without labels, the label values of
    [preset_labels] and one series for each binding term, and nothing else; all
    are zero but the flag for a disabled WebSocket (1), the flag of the [vfm]
    build, and the hint interval.  The three lists are written down apart from the
    steps of the constructor. *)
Theorem first_scrape `{Prometheus} terms vfm interval edge_id :
  exists m, SfuMetrics_new terms vfm interval edge_id = Ok m /\
    (fun f => (field f, kind f)) <$> fields m ≡ₚ struct_fields /\
    Forall (fun f => exported f = "sfu_" +:+ registered_name (field f)) (fields m) /\
    NoDup (exported <$> fields m) /\ prom_names (prom_registry m) = fname <$> fields m /\
    (forall x, is_Some (series m !! x) <-> shown_first terms x) /\
    (forall x v, series m !! x = Some v -> v = first_value vfm interval x).
Proof.
  destruct (start_up terms vfm interval edge_id) as (m & E & Hf & Hn & Hs & Hv). exists m. rewrite Hf.
  split_and!; [done | apply families_declared | apply families_named | apply exported_nodup | done | |].
  - intros x. rewrite Hs. apply baseline_shown.
  - intros x v Hx. rewrite <- Hv. unfold value_at. by rewrite Hx.
Qed.

(** ** The queries of the help texts *)

(** Families whose help text or doc gives an alert over the name as registered. *)
Definition alert_names : list string :=
  ["sfu_str0m_output_total"; "sfu_track_out_state_transitions_total"; "sfu_writer_write_errors_total";
   "sfu_solo_room_kicked_total"; "sfu_bwe_hint_registry_mutex_poisoned_total"].

(** None of the names the alerts query is exported: the registry adds the prefix
    [sfu] to a name that already has it. *)
Lemma alerts_name_no_family :
  Forall (fun n => n ∉ (exported <$> families) /\ ("sfu_" +:+ n) ∈ (exported <$> families)) alert_names.
Proof. refine (bool_decide_eq_true_1 _ _). vm_compute. reflexivity. Qed.

Lemma first_scrape_witness :
  exists m, SfuMetrics_new (H := name_list) ["client_hint"] true 250 (Some "eu1") = Ok m /\
    length (fields m) = 80%nat /\ series m !! ("vfm_enabled", []) = Some 1.
Proof.
  destruct (first_scrape (H := name_list) ["client_hint"] true 250 (Some "eu1"))
    as (m & E & Hf & _ & _ & _ & Hs & Hv).
  exists m. split; [exact E|]. split.
  { apply Permutation_length in Hf. rewrite length_fmap in Hf. rewrite Hf. reflexivity. }
  assert (is_Some (series m !! ("vfm_enabled", []))) as [v Hx].
  { apply Hs. left. exists IntGauge. split; [|split; reflexivity]. refine (bool_decide_eq_true_1 _ _). vm_compute. reflexivity. }
  rewrite Hx, (Hv _ _ Hx). reflexivity.
Defined.
