(* ===== verification/SfuMetricsRun.v ===== *)
(** * The UDP loop and its metrics

    Which updates of the metrics the operations of the loop make: every one is an
    update its family accepts, the series that carry a client's label and are
    scrubbed when it leaves are only written for a client that is in the room, and
    nothing but a scrub removes a series. *)

From Stdlib Require Import ZArith Lia.
From stdpp Require Import base option numbers gmap strings list.
From S2P Require Import Prelude RustStr NetAddr DdParse DdParseFacts DdCache SfuTypes SfuKeyframe SfuKeyframeFacts.
From S2P Require Import SfuMedia SfuMediaFacts SfuRenegotiation SfuRelayOut SfuRegistry SfuRegistryFacts.
From S2P Require Import RoomAuth SfuChannelData SfuDispatch SfuUdpLoop SfuUdpLoopFacts SfuUdpLoopProps.
From S2P Require Import SfuMetrics SfuMetricsFacts.

(** ** Series of a client *)

(** The series the departure of the peer with this label removes. *)
Definition peer_series (peer : string) : list Series :=
  omap (fun e => match e with RemoveLabels n l => Some (n, l) | _ => None end) (scrub_labels peer).

(** Their families. *)
Definition scrubbed : list string := (peer_series "").*1.

(** A series of those families belongs to one of the clients [ids]. *)
Definition own (ids : list ClientId) (x : Series) : Prop :=
  x.1 ∈ scrubbed -> exists i, i ∈ ids /\ x ∈ peer_series (label_of i).

Definition bounded (ids : list ClientId) (m : Store) : Prop := forall x, is_Some (m !! x) -> own ids x.

Lemma own_mono ids ids' x : ids ⊆ ids' -> own ids x -> own ids' x.
Proof. intros Hs Ho Hx. destruct (Ho Hx) as (i & ? & ?). exists i. split; [by apply Hs | done]. Qed.

Lemma own_other ids n l : bool_decide (n ∈ scrubbed) = false -> own ids (n, l).
Proof. intros Hn%bool_decide_eq_false Hx. by destruct Hn. Qed.

Lemma own_peer i n l : (n, l) ∈ peer_series (label_of i) -> own [i] (n, l).
Proof. intros Hx _. exists i. split; [by left | done]. Qed.

(** Find a series in the list of a peer's. *)
Ltac in_series := unfold peer_series; cbn; repeat first [by left | right].

Lemma estimate_series p : ("bandwidth_estimate_bps", [p]) ∈ peer_series p.
Proof. in_series. Qed.
Lemma delivered_series p : ("client_delivered_media_count", [p]) ∈ peer_series p.
Proof. in_series. Qed.
Lemma throttled_series p : ("pacer_tick_throttled_total", [p]) ∈ peer_series p.
Proof. in_series. Qed.
Lemma chat_data_series p : ("chat_relay_tx_bytes_total", ["data"; p]) ∈ peer_series p.
Proof. in_series. Qed.
Lemma chat_ctrl_series p : ("chat_relay_tx_bytes_total", ["ctrl"; p]) ∈ peer_series p.
Proof. in_series. Qed.
Lemma voice_tx_series p : ("voice_relay_tx_bytes_total", [p]) ∈ peer_series p.
Proof. in_series. Qed.
Lemma voice_rx_series p : ("voice_relay_rx_bytes_total", [p]) ∈ peer_series p.
Proof. in_series. Qed.

Lemma rid_label_known rid : rid_label_for rid ∈ PACER_RID_LABELS.
Proof. unfold rid_label_for, PACER_RID_LABELS. repeat case_decide; set_solver. Qed.

Lemma layer_series p rid : ("pacer_layer_total", [p; rid_label_for rid]) ∈ peer_series p.
Proof.
  pose proof (rid_label_known rid) as Hr. unfold PACER_RID_LABELS in Hr.
  rewrite !elem_of_cons, elem_of_nil in Hr. destruct_or! Hr; try done; rewrite Hr; in_series.
Qed.

Lemma transition_series p a b :
  ("layer_transitions_total", [rid_label_for a; rid_label_for b; p]) ∈ peer_series p.
Proof.
  pose proof (rid_label_known a) as Ha. pose proof (rid_label_known b) as Hb.
  unfold PACER_RID_LABELS in Ha, Hb. rewrite !elem_of_cons, elem_of_nil in Ha, Hb.
  destruct_or! Ha; try done; rewrite Ha; destruct_or! Hb; try done; rewrite Hb; in_series.
Qed.

Create HintDb series.
#[export] Hint Resolve estimate_series delivered_series throttled_series chat_data_series chat_ctrl_series
  voice_tx_series voice_rx_series layer_series transition_series : series.

(** ** Updates that fit *)

(** The family has this operation and this number of labels. *)
Definition takes (ok : Family -> bool) (n : string) (arity : nat) : bool :=
  match find_family families n with
  | Some f => ok f && match kind f with
                      | IntCounter | IntGauge | Histogram => (arity =? 0)%nat
                      | IntCounterVec | IntGaugeVec | GaugeVec => (arity =? length (label_names f))%nat
                      end
  | None => false
  end.

Lemma series_ok_arity f l :
  series_ok f l = match kind f with
                  | IntCounter | IntGauge | Histogram => (length l =? 0)%nat
                  | IntCounterVec | IntGaugeVec | GaugeVec => (length l =? length (label_names f))%nat
                  end.
Proof.
  unfold series_ok. destruct (kind f); try (by destruct l);
    (case_bool_decide as E; symmetry; [by apply Nat.eqb_eq | by apply Nat.eqb_neq]).
Qed.

(** The families of the population gauges. *)
Definition population : list string :=
  ["active_participants"; "voice_relay_active_channels"; "chat_relay_active_channels"].

Definition sets (e : Effect) : option string := match e with SetGauge n _ _ => Some n | _ => None end.

(** An effect of an operation on clients [ids]: its family takes it, a scrubbed
    family is written for one of the clients, a removal is a scrub, and the
    population gauges are not set. *)
Definition fits (ids : list ClientId) (e : Effect) : Prop :=
  match update_of e with
  | None => True
  | Some (Put n l ok _) => takes ok n (length l) = true /\ own ids (n, l) /\
                           forall f, sets e = Some f -> bool_decide (f ∈ population) = false
  | Some (Drop n l) => n ∈ scrubbed
  end.

Lemma fits_mono ids ids' e : ids ⊆ ids' -> fits ids e -> fits ids' e.
Proof.
  intros Hs. unfold fits. destruct (update_of e) as [[n l ok v|n l]|]; [|done..].
  intros (? & ? & ?). split_and!; [done | by eapply own_mono | done].
Qed.

Lemma Forall_fits_mono ids ids' es : ids ⊆ ids' -> Forall (fits ids) es -> Forall (fits ids') es.
Proof. intros Hs Hf. eapply Forall_impl; [exact Hf|]. intros e. by apply fits_mono. Qed.

(** Close [fits ids e] for an effect of a known family. *)
Ltac fit :=
  lazymatch goal with
  | |- fits _ _ => first
      [ exact I
      | split; [vm_compute; reflexivity
               | split; [first [apply own_other; vm_compute; reflexivity | apply own_peer; auto with series]
                        | first [by intros ? [=] | intros ? [= <-]; vm_compute; reflexivity]]] ]
  end.
Ltac fit_all :=
  repeat first [apply List.Forall_nil | apply List.Forall_cons; [by first [fit | assumption]|]
               | apply Forall_app_2 | assumption].

(** ** Applying a list of effects *)

Lemma scrubbed_vec n : n ∈ scrubbed -> exists f, find_family families n = Some f /\ is_vec f = true.
Proof.
  assert (forallb (fun n => match find_family families n with Some f => is_vec f | None => false end)
    scrubbed = true) as H by (vm_compute; reflexivity).
  intros Hn. rewrite forallb_forall in H. apply list_elem_of_In in Hn. specialize (H n Hn).
  destruct (find_family families n) as [f|]; [by exists f | done].
Qed.

(** The population gauges move by the net of the increments and decrements. *)
Definition moves (es : list Effect) (m m' : Store) : Prop :=
  forall f l, f ∈ population -> wrap_i64 (value_at (f, l) m') = wrap_i64 (value_at (f, l) m + net f l es).

(** [runs ids ids' es]: from a store whose scrubbed series belong to [ids] the
    effects are all applied, the series then belong to [ids'], no series of
    another family is gone, and the population gauges moved by the net. *)
Definition runs (ids ids' : list ClientId) (es : list Effect) : Prop :=
  forall m, bounded ids m -> exists m', apply_effects families es m = Some m' /\ bounded ids' m' /\
    (forall x, x.1 ∉ scrubbed -> is_Some (m !! x) -> is_Some (m' !! x)) /\ moves es m m'.

Lemma wrap_i64_add a b c : wrap_i64 a = wrap_i64 b -> wrap_i64 (a + c) = wrap_i64 (b + c).
Proof.
  unfold wrap_i64. intros E. f_equal.
  assert ((a - i64_min) mod 18446744073709551616 = (b - i64_min) mod 18446744073709551616) as E0 by lia.
  replace (a + c - i64_min) with (a - i64_min + c) by lia.
  replace (b + c - i64_min) with (b - i64_min + c) by lia.
  by rewrite (Zplus_mod (a - _)), E0, <- Zplus_mod.
Qed.

Lemma moves_nil m : moves [] m m.
Proof. intros f l _. cbn [net]. by rewrite Z.add_0_r. Qed.

Lemma moves_app es es' m1 m2 m3 : moves es m1 m2 -> moves es' m2 m3 -> moves (es ++ es') m1 m3.
Proof.
  intros H1 H2 f l Hf. rewrite (H2 f l Hf), net_app, Z.add_assoc. apply wrap_i64_add. by apply H1.
Qed.

Lemma population_gauges_only f ok n :
  f ∈ population -> takes ok f n = true ->
  exists fam, find_family families f = Some fam /\ ok fam = true /\ is_counter fam = false /\
    is_histogram fam = false /\ forall v, clamp fam v = wrap_i64 v.
Proof.
  intros Hf. unfold takes. destruct (find_family families f) as [fam|] eqn:E; [|done].
  intros [Hok _]%andb_true_iff. exists fam. split; [done|]. split; [done|].
  unfold population in Hf. rewrite !elem_of_cons, elem_of_nil in Hf.
  destruct_or! Hf; try done; subst; vm_compute in E; injection E as <-; done.
Qed.

Lemma scrubbed_not_population n : n ∈ scrubbed -> n ∉ population.
Proof.
  assert (forallb (fun n => bool_decide (n ∉ population)) scrubbed = true) as H by (vm_compute; reflexivity).
  intros Hn. rewrite forallb_forall in H. apply list_elem_of_In in Hn.
  apply (bool_decide_eq_true_1 _), (H n Hn).
Qed.

Lemma fits_moves_one ids e m m' : fits ids e -> apply_effect families e m = Some m' -> moves [e] m m'.
Proof.
  intros Hf He f l Hp. unfold apply_effect in He. unfold fits in Hf. cbn [net]. rewrite Z.add_0_r.
  destruct (update_of e) as [[n k ok v|n k]|] eqn:Hu.
  - destruct Hf as (Ht & _ & Hs). destruct (find_family families n) as [fam|] eqn:Hn; [|done].
    destruct (ok fam && series_ok fam k); [|done]. injection He as <-. rewrite value_at_insert.
    destruct (decide ((f, l) = (n, k))) as [Heq|Hne].
    + rewrite bool_decide_true by exact Heq. injection Heq as -> ->. destruct (population_gauges_only n ok (length k) Hp Ht) as (fam' & E & Hok & Hc & Hh & Hw).
      rewrite Hn in E. injection E as <-. rewrite Hw, wrap_i64_idem.
      destruct e; try discriminate Hu; cbn [update_of] in Hu; injection Hu as <- <- <- <-; try congruence.
      * by rewrite decide_True.
      * by rewrite decide_True.
      * specialize (Hs _ eq_refl). apply bool_decide_eq_false in Hs. done.
    + rewrite bool_decide_false by exact Hne.
      destruct e; try discriminate Hu; cbn [update_of] in Hu; injection Hu as <- <- <- <-;
        rewrite ?decide_False by congruence; by rewrite Z.add_0_r.
  - destruct (find_family families n) as [fam|]; [|done]. destruct (is_vec fam); [|done]. injection He as <-.
    destruct e; try discriminate Hu. injection Hu as <- <-. rewrite Z.add_0_r. unfold value_at.
    rewrite lookup_delete_ne; [reflexivity|]. intros [= <- _]. by apply (scrubbed_not_population _ Hf).
  - injection He as <-. destruct e; try discriminate Hu; by rewrite Z.add_0_r.
Qed.

Lemma fits_moves ids es m m' :
  Forall (fits ids) es -> apply_effects families es m = Some m' -> moves es m m'.
Proof.
  intros Hf. revert m. induction Hf as [|e es He _ IH]; intros m; cbn [apply_effects].
  { intros [= <-]. apply moves_nil. }
  destruct (apply_effect families e m) as [m1|] eqn:E; [|done]. intros Hr.
  apply (moves_app [e] es m m1 m'); [by eapply fits_moves_one | by apply IH].
Qed.

Lemma apply_effects_app es es' m :
  apply_effects families (es ++ es') m = apply_effects families es m ≫= apply_effects families es'.
Proof.
  revert m. induction es as [|e es IH]; intros m; cbn [apply_effects app]; [done|].
  destruct (apply_effect families e m); [apply IH | done].
Qed.

Lemma runs_nil ids : runs ids ids [].
Proof. intros m Hm. exists m. split_and!; [reflexivity | exact Hm | auto | apply moves_nil]. Qed.

Lemma runs_app a b c es es' : runs a b es -> runs b c es' -> runs a c (es ++ es').
Proof.
  intros H1 H2 m Hm. destruct (H1 m Hm) as (m1 & E1 & B1 & K1 & M1).
  destruct (H2 m1 B1) as (m2 & E2 & B2 & K2 & M2). exists m2. rewrite apply_effects_app, E1. cbn.
  split_and!; [exact E2 | exact B2 | intros x Hx Hm0; apply K2, K1; assumption | exact (moves_app _ _ _ _ _ M1 M2)].
Qed.

Lemma bounded_mono ids ids' m : ids ⊆ ids' -> bounded ids m -> bounded ids' m.
Proof. intros Hs Hm x Hx. by eapply own_mono, Hm. Qed.

Lemma fits_runs_one ids e : fits ids e -> runs ids ids [e].
Proof.
  intros Hf m Hm.
  assert (exists m', apply_effect families e m = Some m' /\ bounded ids m' /\
    forall x, x.1 ∉ scrubbed -> is_Some (m !! x) -> is_Some (m' !! x)) as (m' & E & Hb & Hk).
  { pose proof Hf as Hf'. unfold fits in Hf'. unfold apply_effect.
    destruct (update_of e) as [[n l ok v|n l]|].
    - destruct Hf' as (Ht & Ho & _). unfold takes in Ht.
      destruct (find_family families n) as [f|]; [|done]. rewrite series_ok_arity, Ht.
      eexists. split_and!; [done | |].
      + intros x [<-|[_ Hx]]%lookup_insert_is_Some; [done|]. by apply Hm.
      + intros x _ Hx. by apply lookup_insert_is_Some'; right.
    - destruct (scrubbed_vec n Hf') as (f & -> & ->). eexists. split_and!; [done | |].
      + intros x [_ Hx]%lookup_delete_is_Some. by apply Hm.
      + intros x Hn Hx. apply lookup_delete_is_Some. split; [|done]. by intros <-.
    - exists m. by split_and!. }
  exists m'. cbn [apply_effects]. rewrite E.
  split_and!; [reflexivity | exact Hb | exact Hk | exact (fits_moves_one ids e m m' Hf E)].
Qed.

Lemma fits_runs ids es : Forall (fits ids) es -> runs ids ids es.
Proof.
  induction 1 as [|e es He _ IH]; [apply runs_nil|].
  apply (runs_app ids ids ids [e]); [by apply fits_runs_one | done].
Qed.

Lemma peer_series_scrubbed p x : x ∈ peer_series p -> x.1 ∈ scrubbed.
Proof.
  intros Hx. assert ((peer_series p).*1 = scrubbed) as <- by reflexivity.
  apply list_elem_of_fmap. by exists x.
Qed.

(** Removals: what is left is what was there and is not removed. *)
Lemma removals_apply (xs : list Series) m :
  Forall (fun x => x.1 ∈ scrubbed) xs ->
  exists m', apply_effects families ((fun x => RemoveLabels x.1 x.2) <$> xs) m = Some m' /\
    forall x, is_Some (m' !! x) <-> is_Some (m !! x) /\ x ∉ xs.
Proof.
  intros Hx. revert m. induction Hx as [|[n l] xs Hn _ IH]; intros m; rewrite ?fmap_cons; cbn [apply_effects fst snd].
  { exists m. split; [done|]. set_solver. }
  destruct (scrubbed_vec n Hn) as (f & Ef & Ev). unfold apply_effect. cbn [update_of fst snd] in *. rewrite Ef, Ev.
  destruct (IH (delete (n, l) m)) as (m' & -> & Hm'). exists m'. split; [done|].
  intros x. rewrite Hm', lookup_delete_is_Some, not_elem_of_cons. naive_solver.
Qed.

Lemma scrub_as_removals p : scrub_labels p = (fun x : Series => RemoveLabels x.1 x.2) <$> peer_series p.
Proof. reflexivity. Qed.

Lemma scrub_fits ids p : Forall (fits ids) (scrub_labels p).
Proof.
  rewrite scrub_as_removals. apply Forall_fmap, Forall_forall. intros x Hx. cbn.
  by eapply peer_series_scrubbed.
Qed.

Lemma scrub_runs ids i ids' :
  (forall j, j ∈ ids -> j <> i -> j ∈ ids') -> runs ids ids' (scrub_labels (label_of i)).
Proof.
  intros Hids m Hm. pose proof (scrub_fits [] (label_of i)) as Hfit. rewrite scrub_as_removals in *.
  destruct (removals_apply (peer_series (label_of i)) m) as (m' & E & Hm').
  { apply Forall_forall. intros x. apply peer_series_scrubbed. }
  exists m'. split_and!; [exact E | | |exact (fits_moves _ _ _ _ Hfit E)].
  - intros x Hx Hs. apply Hm' in Hx as [Hx Hn]. destruct (Hm x Hx Hs) as (j & Hj & Hp).
    exists j. split; [|done]. apply Hids; [done|]. by intros ->.
  - intros x Hs Hx. apply Hm'. split; [done|]. intros Hp. by apply peer_series_scrubbed in Hp.
Qed.

(** ** Handlers of one client *)

Definition voiceless (p : Propagated) : Prop := match p with PVoiceData _ _ => False | _ => True end.

(** No voice frame waits among the events the client keeps for the next pump. *)
Definition calm (c : Client) : Prop := Forall voiceless (pending_propagated c).

(** The client keeps its id and stays calm, and the effects fit it. *)
Definition good (c c' : Client) (es : list Effect) : Prop :=
  id c' = id c /\ (calm c -> calm c') /\ Forall (fits [id c]) es.

Lemma good_refl c : good c c [].
Proof. by split_and!. Qed.

Lemma good_trans c1 c2 c3 es1 es2 : good c1 c2 es1 -> good c2 c3 es2 -> good c1 c3 (es1 ++ es2).
Proof.
  intros (I1 & C1 & F1) (I2 & C2 & F2). split_and!; [congruence | auto|].
  apply Forall_app_2; [done|]. by rewrite <- I1.
Qed.

Lemma good_fold {A} (f : Client * list Effect -> A -> Client * list Effect) l c es :
  (forall c es a, exists c' es', f (c, es) a = (c', es ++ es') /\ good c c' es') ->
  exists es', (fold_left f l (c, es)).2 = es ++ es' /\ good c (fold_left f l (c, es)).1 es'.
Proof.
  intros Hf. revert c es. induction l as [|a l IH]; intros c es; cbn [fold_left].
  { exists []. rewrite app_nil_r. split; [done | apply good_refl]. }
  destruct (Hf c es a) as (c1 & es1 & -> & H1). destruct (IH c1 (es ++ es1)) as (es2 & -> & H2).
  exists (es1 ++ es2). rewrite app_assoc. split; [done|]. by eapply good_trans.
Qed.

(** A field update with a list of counters. *)
Ltac good_leaf := split_and!; [done | done | solve [fit_all]].

Ltac fold_good :=
  match goal with |- good _ (fold_left ?f ?l (?c, ?es)).1 _ =>
    let es' := fresh "es" in let He := fresh "He" in let Ht := fresh "Ht" in
    destruct (good_fold f l c es) as (es' & He & Ht); [|rewrite He; exact Ht] end.

Create HintDb good.
#[export] Hint Resolve good_refl : good.

Lemma start_good h now env w c :
  good c (start_renegotiation h now env w c).1 (start_renegotiation h now env w c).2.
Proof.
  unfold start_renegotiation. destruct (upgrade h w) as [t|]; [|apply good_refl].
  destruct (se_apply env); [|good_leaf]. cbn.
  destruct (ws_msg_tx c), (se_offer_sent env), (ti_external_peer_id t), (se_map_sent env); cbn; good_leaf.
Qed.

Lemma track_open_good h now env w c :
  good c (handle_track_open h now env w c).1 (handle_track_open h now env w c).2.
Proof.
  unfold handle_track_open. destruct (ws_msg_tx c); cbn [negb]; [|good_leaf].
  destruct (pending_offer c); [good_leaf|]. apply start_good.
Qed.

Lemma terminate_good now o m outcome b c :
  good c (terminate_waits now o m outcome b c).1 (terminate_waits now o m outcome b c).2.
Proof.
  unfold terminate_waits. fold_good.
  intros c1 es1 i. cbv beta iota. destruct (keyframe_waits c1 !! i) as [w|].
  - eexists _, _. split; [reflexivity|]. split_and!; [done | done|]. destruct b; fit_all.
  - exists c1, []. rewrite app_nil_r. auto with good.
Qed.

Lemma observe_good now o d c : good c (observe_keyframe now o d c).1 (observe_keyframe now o d c).2.
Proof.
  unfold observe_keyframe. destruct (md_is_keyframe d), (md_codec d); auto with good;
    apply terminate_good.
Qed.

Lemma forward_good h w now o d c :
  good c (forward_packet h w now o d c).1 (forward_packet h w now o d c).2.
Proof.
  unfold forward_packet. destruct (negb _); [apply good_refl|].
  set (es := match md_rid d with Some _ => _ | None => _ end).
  assert (Forall (fits [id c]) es) as Hes by (unfold es; destruct (md_rid d); fit_all).
  clearbody es. destruct (_ ≫= out_mid) as [mid|]; [|good_leaf].
  set (c1 := if _ && _ then _ else c).
  assert (id c1 = id c /\ (calm c -> calm c1)) as [I1 C1] by (unfold c1; by destruct (_ && _)).
  destruct (w mid); try (split_and!; [done | done | unfold forward_decision; rewrite ?I1; fit_all]).
  match goal with |- context [observe_keyframe ?a ?b ?x ?y] =>
    pose proof (observe_good a b x y) as (I2 & C2 & F2); destruct (observe_keyframe a b x y) as [c2 es2] end.
  cbn [fst snd id put_delivered_media] in *. rewrite I1 in F2.
  split_and!; [congruence | intros Hc; by apply C2, C1 | unfold forward_decision; fit_all].
Qed.

Lemma media_good h w now o d c :
  good c (handle_media_data_out h w now o d c).1 (handle_media_data_out h w now o d c).2.
Proof.
  unfold handle_media_data_out.
  assert (forall c0 l, id c0 = id c -> (calm c -> calm c0) ->
    good c (forward_packet h w now o d c0).1 (Inc "sfu_dd_frames_total" [l] :: (forward_packet h w now o d c0).2)) as H.
  { intros c0 l Hi Hc. apply (good_trans c c0 _ [_]); [split_and!; [done | done | fit_all] | apply forward_good]. }
  destruct (md_ext d) as [bs|]; [destruct (_ <? u8_max)|].
  - destruct (dd_step _ _ bs _) as [cache [tid|]]; [good_leaf|].
    specialize (H (put_dd_structure_cache cache c) "true" eq_refl ltac:(done)).
    by destruct (forward_packet _ _ _ _ _ _).
  - specialize (H c "true" eq_refl ltac:(done)). by destruct (forward_packet _ _ _ _ _ _).
  - specialize (H c "false" eq_refl ltac:(done)). by destruct (forward_packet _ _ _ _ _ _).
Qed.

Lemma keyframe_request_good w now req m c :
  good c (handle_keyframe_request w now req m c).1 (handle_keyframe_request w now req m c).2.
Proof.
  unfold handle_keyframe_request. destruct (find_track_in m c) as [[i e]|]; [|good_leaf].
  destruct (requested_recently _ _); [good_leaf|]. destruct w; good_leaf.
Qed.

(** Case on every test of a list of counters. *)
Ltac fit_cases := repeat (case_match || case_decide); simplify_eq; fit_all.

Lemma deliver_good env h p o c : good c (deliver env h p o c).1 (deliver env h p o c).2.
Proof.
  destruct p; cbn [deliver]; auto using media_good, track_open_good with good;
    try (case_decide; auto using keyframe_request_good with good);
    (split_and!; [done | done|]); cbn [fst snd].
  - unfold handle_chat_data_out, write_chat_frame; fit_cases.
  - unfold handle_chat_ctrl_out, write_chat_frame; fit_cases.
  - unfold handle_voice_data_out, voice_dropped; fit_cases.
  - unfold handle_keys_data_out; fit_cases.
  - unfold handle_sfu_event_out; fit_cases.
Qed.

(** ** All clients *)

Definition good_all (cs cs' : list Client) (es : list Effect) : Prop :=
  Forall2 (fun c c' => id c' = id c /\ (calm c -> calm c')) cs cs' /\ Forall (fits (id <$> cs)) es.

Lemma good_all_ids cs cs' es : good_all cs cs' es -> id <$> cs' = id <$> cs.
Proof. intros [H _]. induction H as [|c c' cs cs' [Hc _] _ IH]; [done|]. cbn. by rewrite Hc, IH. Qed.

Lemma good_all_calm cs cs' es : good_all cs cs' es -> Forall calm cs -> Forall calm cs'.
Proof.
  intros [H _]. induction H as [|c c' cs cs' [_ Hc] _ IH]; [done|].
  intros [? ?]%Forall_cons. constructor; auto.
Qed.

Lemma good_all_quiet cs es : Forall (fits (id <$> cs)) es -> good_all cs cs es.
Proof. intros Hf. split; [|done]. apply Forall_Forall2_diag, Forall_true. by intros. Qed.

Lemma good_all_refl cs : good_all cs cs [].
Proof. apply good_all_quiet. constructor. Qed.

Lemma good_all_trans a b c es es' : good_all a b es -> good_all b c es' -> good_all a c (es ++ es').
Proof.
  intros H1 H2. pose proof (good_all_ids _ _ _ H1) as Hi. destruct H1 as [H1 F1], H2 as [H2 F2].
  split; [|apply Forall_app_2; [done | by rewrite <- Hi]]. clear F1 F2 Hi. revert c H2.
  induction H1 as [|x y a b [I1 C1] _ IH]; intros c H2; [by inversion H2|].
  destruct c as [|z c]; [by inversion H2|]. apply Forall2_cons in H2 as [[? ?] ?].
  constructor; [split; [congruence | auto] | auto].
Qed.

Lemma good_all_cons c c' cs cs' es es' :
  good c c' es -> good_all cs cs' es' -> good_all (c :: cs) (c' :: cs') (es ++ es').
Proof.
  intros (I & C & F) [H G]. split; [by constructor|].
  apply Forall_app_2; [eapply Forall_fits_mono, F | eapply Forall_fits_mono, G]; cbn; set_solver.
Qed.

Lemma for_clients_good f cs :
  (forall c, good c (f c).1 (f c).2) -> good_all cs (for_clients f cs).1 (for_clients f cs).2.
Proof.
  intros Hf. induction cs as [|c cs IH]; cbn [for_clients]; [apply good_all_refl|].
  specialize (Hf c). destruct (f c) as [c' es]. destruct (for_clients f cs) as [cs' es'].
  by apply good_all_cons.
Qed.

Lemma speaker_good env peers c : good c c (speaker_notice env peers c).
Proof. split_and!; [done | done|]. unfold speaker_notice. fit_cases. Qed.

Lemma fanout_good env p cs : good_all cs (fanout env p cs).1 (fanout env p cs).2.
Proof.
  destruct p; cbn [fanout propagated_client_id]; try apply good_all_refl;
    apply for_clients_good; intros cl; try (case_decide; [apply good_refl|]);
    first [apply deliver_good | apply speaker_good].
Qed.

(** The events of a queue name senders that are in the room. *)
Definition voiced (ids : list ClientId) (p : Propagated) : Prop :=
  match p with PVoiceData s _ => s ∈ ids | _ => True end.

Lemma voiceless_voiced ids ps : Forall voiceless ps -> Forall (voiced ids) ps.
Proof. intros Hf. eapply Forall_impl; [exact Hf|]. by intros []. Qed.

Lemma pacer_voiceless ps : Forall pacer_event ps -> Forall voiceless ps.
Proof. intros Hf. eapply Forall_impl; [exact Hf|]. by intros []. Qed.

Section pacing.
Context (pacer_update : list Z -> Z -> PacerAction)
        (estimate : list Effect -> Instant -> ClientId -> option (Z * string))
        (floor_enabled bwe_cap_enabled : bool)
        (min_tick : Z).

(** A stage that only moves the pacer's own fields. *)
Definition steady (c c' : Client) : Prop := id c' = id c /\ pending_propagated c' = pending_propagated c.

Lemma steady_good c c' : steady c c' -> good c c' [].
Proof. intros [Hi Hp]. split_and!; [done | unfold calm; by rewrite Hp | constructor]. Qed.

Lemma tick_steady now c : steady c (tick_stage floor_enabled bwe_cap_enabled min_tick now c).1.
Proof.
  unfold tick_stage, pacer_tick_ready. destruct (_ || _); [|done].
  destruct (last_pacer_tick c); [by case_match | done].
Qed.

Lemma select_steady b av c : steady c (pacer_select_layer pacer_update b av c).1.
Proof.
  unfold pacer_select_layer. destruct b as [b|]; [|done]. destruct (pacer_update (pacer c) b); try done.
  by case_decide.
Qed.

Lemma layer_stage_good b av tick c :
  let res := layer_stage pacer_update floor_enabled b av tick c in good c res.1.1 res.2.
Proof.
  unfold layer_stage. destruct (_ && _); [good_leaf|].
  pose proof (select_steady b av c) as H. destruct (pacer_select_layer _ _ _ c). by apply steady_good.
Qed.

Lemma switch_stage_good h now prev chosen c :
  good c (switch_stage h now prev chosen c).1.1 (switch_stage h now prev chosen c).1.2.
Proof.
  unfold switch_stage, emit_keyframe_on_layer_switch. destruct chosen as [rid|]; [|apply good_refl].
  case_decide; [apply good_refl|]. destruct (requested_recently _ _); good_leaf.
Qed.

Lemma emit_tier_good c : good c (emit_tier c).1 [].
Proof.
  unfold emit_tier. destruct (pending_tier_emit c); [|apply good_refl]. by case_match; good_leaf.
Qed.

Lemma cap_stage_good b tick c :
  good c (cap_stage bwe_cap_enabled b tick c).1 (cap_stage bwe_cap_enabled b tick c).2.
Proof.
  unfold cap_stage, bwe_select_temporal_cap, invalidate_dd_cache_on_cap_engage.
  destruct (_ && _); [|apply good_refl]. cbn. split_and!; [by case_match.. | fit_all].
Qed.

Lemma pass_metrics_good est prev chosen c : good c c (pass_metrics est prev chosen c).
Proof. split_and!; [done | done|]. unfold pass_metrics. fit_all; fit_cases. Qed.

Lemma pacer_pass_good bw h now av c :
  let res := pacer_pass pacer_update estimate floor_enabled bwe_cap_enabled min_tick bw h now av c in
  good c res.1.1 res.1.2.
Proof.
  unfold pacer_pass. pose proof (steady_good _ _ (tick_steady now c)) as H0.
  destruct (tick_stage _ _ _ now c) as [c1 tick].
  pose proof (layer_stage_good (fst <$> estimate bw now (id c)) av tick c1) as H1.
  destruct (layer_stage _ _ _ av tick c1) as [[c2 chosen] es1].
  pose proof (switch_stage_good h now (desired_layer c) chosen c2) as H2.
  destruct (switch_stage _ _ _ chosen c2) as [[c3 es2] ps1].
  pose proof (emit_tier_good c3) as H3. destruct (emit_tier c3) as [c4 ps2].
  pose proof (pass_metrics_good (estimate bw now (id c)) (desired_layer c) chosen c4) as H4.
  pose proof (cap_stage_good (fst <$> estimate bw now (id c)) tick c4) as H5.
  destruct (cap_stage _ _ tick c4) as [c5 es4]. cbn [fst snd] in *.
  apply (good_trans c c1 c5 []); [done|]. eapply good_trans; [exact H1|]. eapply good_trans; [exact H2|].
  apply (good_trans c3 c4 c5 []); [done|]. by eapply good_trans.
Qed.

Lemma pacer_loop_good bw h now av cs :
  let res := pacer_loop pacer_update estimate floor_enabled bwe_cap_enabled min_tick bw h now av cs in
  good_all cs res.1.1 res.1.2.
Proof.
  induction cs as [|c cs IH]; cbn [pacer_loop]; [apply good_all_refl|].
  pose proof (pacer_pass_good bw h now av c) as G.
  destruct (pacer_pass _ _ _ _ _ bw h now av c) as [[c' es] ps].
  destruct (pacer_loop _ _ _ _ _ bw h now av cs) as [[cs' es'] ps']. by apply good_all_cons.
Qed.

Lemma good_all_insert cs i c c' : cs !! i = Some c -> good c c' [] -> good_all cs (<[i := c']> cs) [].
Proof.
  intros Hi (Hid & Hc & _). split; [|constructor]. apply Forall2_same_length_lookup_2.
  { by rewrite length_insert. }
  intros j x y Hx Hy. destruct (decide (i = j)) as [<-|Hne].
  - rewrite list_lookup_insert_eq in Hy by (by eapply lookup_lt_Some). by simplify_eq.
  - rewrite list_lookup_insert_ne in Hy by done. by simplify_eq.
Qed.

Lemma drain_one_good env p r :
  voiced (id <$> clients r) p ->
  let res := drain_one pacer_update estimate floor_enabled bwe_cap_enabled min_tick env p r in
  good_all (clients r) (clients res.1) res.2.
Proof.
  intros Hv. assert (forall r0 es, good_all (clients r) (clients r0) es ->
    let res := (let '(cs, es') := fanout env p (clients r0) in
      (mkRegistry cs (to_propagate r0) (solo_since r0) (bandwidth r0), es ++ es')) in
    good_all (clients r) (clients res.1) res.2) as Hfan.
  { intros r0 es H1. pose proof (fanout_good env p (clients r0)) as H3.
    destruct (fanout env p (clients r0)) as [cs es']. by eapply good_all_trans. }
  pose proof (good_all_refl (clients r)) as Hr.
  destruct p; cbn [drain_one]; try (by apply Hfan); try done.
  - unfold update_pacer_layers.
    match goal with |- context [pacer_loop _ _ _ _ _ ?bw ?h ?now ?av ?cs] =>
      pose proof (pacer_loop_good bw h now av cs) as H1;
      destruct (pacer_loop _ _ _ _ _ bw h now av cs) as [[cs1 es1] ps1] end.
    by apply Hfan.
  - apply good_all_quiet. fit_all.
  - apply good_all_quiet. fit_all.
  - unfold on_client. destruct (list_find _ _) as [[i c']|] eqn:Hf; [|done].
    apply list_find_Some in Hf as (Hi & _). eapply good_all_insert; [exact Hi|]. apply steady_good.
    unfold set_max_vfm_temporal_layer, invalidate_dd_cache_on_cap_engage. cbn. by case_match.
  - unfold mark_relay_source. destruct (list_find _ _) as [[i c']|] eqn:Hf; [|done].
    apply list_find_Some in Hf as (Hi & _).
    apply (good_all_trans _ (<[i := put_is_relay true c']> (clients r)) _ [] [_]);
      [eapply good_all_insert; [exact Hi | by apply steady_good]|].
    apply good_all_quiet. fit_all.
  - apply Hfan, good_all_quiet. apply List.Forall_cons; [|constructor].
    eapply (fits_mono [_]); [|fit]. set_solver.
Qed.

Lemma fanout_loop_good fuel envs r r' es :
  fanout_loop pacer_update estimate floor_enabled bwe_cap_enabled min_tick fuel envs r = Some (r', es) ->
  Forall (voiced (id <$> clients r)) (to_propagate r) -> good_all (clients r) (clients r') es.
Proof.
  revert envs r r' es. induction fuel as [|fuel IH]; intros envs r r' es; cbn [fanout_loop];
    destruct (to_propagate r) as [|p rest] eqn:Hq; try done;
    try (intros [= <- <-] _; apply good_all_refl).
  set (r0 := mkRegistry (clients r) rest (solo_since r) (bandwidth r)).
  pose proof (drain_one_good (envs O) p r0) as H1.
  pose proof (drain_one_queue pacer_update estimate floor_enabled bwe_cap_enabled min_tick (envs O) p r0)
    as [_ (ps & Hps & Hall)].
  destruct (drain_one _ _ _ _ _ (envs O) p _) as [r1 es1]. cbn [fst snd] in *.
  destruct (fanout_loop _ _ _ _ _ fuel _ r1) as [[r2 es2]|] eqn:Hf; [|done].
  intros [= <- <-] [Hv Hrest]%Forall_cons. specialize (H1 Hv). cbn [clients r0] in H1.
  pose proof (good_all_ids _ _ _ H1) as Hi. eapply good_all_trans; [exact H1|]. eapply IH; [exact Hf|].
  rewrite Hi, Hps. apply Forall_app_2; [done|]. by apply voiceless_voiced, pacer_voiceless.
Qed.
End pacing.

(** ** The control pump *)

Lemma start_wait_good o m now c :
  good c (start_keyframe_wait o m now c).1 (start_keyframe_wait o m now c).2.
Proof.
  unfold start_keyframe_wait. case_decide; [apply good_refl|]. split_and!; [done | | fit_all].
  intros Hc. apply Forall_app_2; [done | by repeat constructor].
Qed.

Lemma start_waits_good h now c :
  good c (start_keyframe_waits_for_open_video_tracks h now c).1
    (start_keyframe_waits_for_open_video_tracks h now c).2.
Proof.
  unfold start_keyframe_waits_for_open_video_tracks. fold_good.
  intros c1 es1 [o m]. pose proof (start_wait_good o m now c1) as H.
  destruct (start_keyframe_wait o m now c1) as [c2 es2]. by exists c2, es2.
Qed.

Lemma start_next_good h now env c :
  good c (start_next h now env c).1 (start_next h now env c).2.
Proof.
  unfold start_next. destruct (renegotiation_queue c) as [|w q]; [apply good_refl|].
  apply (good_trans c (put_renegotiation_queue q c) _ []); [good_leaf | apply start_good].
Qed.

Lemma accept_good h now env c :
  good c (accept_renegotiation_answer h now env c).1 (accept_renegotiation_answer h now env c).2.
Proof.
  unfold accept_renegotiation_answer. cbn [pending_offer put_pending_offer_at].
  destruct (pending_offer c); [|good_leaf]. destruct (ae_parses env); [|good_leaf].
  destruct (ae_accepted env); cbn [negb].
  - destruct (flip_negotiating_to_open_all _) as [[c1 es1] b] eqn:Hflip.
    assert (good c c1 es1) as H1.
    { unfold flip_negotiating_to_open_all in Hflip. injection Hflip as <- <- <-.
      split_and!; [done | done|]. apply Forall_fmap, Forall_true. intros ?. unfold compose. fit. }
    destruct b; cbn [negb].
    + pose proof (start_waits_good h now c1) as H2.
      destruct (start_keyframe_waits_for_open_video_tracks h now c1) as [c2 es2].
      pose proof (start_next_good h now (ae_next env) c2) as H3.
      destruct (start_next h now (ae_next env) c2) as [c3 es3]. cbn [fst snd] in *.
      eapply good_trans; [exact H1|]. eapply (good_trans c1 c1 c3 [_]); [good_leaf|].
      by eapply good_trans.
    + cbn. eapply good_trans; [exact H1|]. good_leaf.
  - match goal with |- context [start_next ?h ?n ?e ?c0] =>
      pose proof (start_next_good h n e c0) as H1; destruct (start_next h n e c0) as [c1 es1];
      apply (good_trans c c0 c1 [_]); [good_leaf | done] end.
Qed.

Lemma accept_each_good h now answers c :
  good c (accept_each h now answers c).1 (accept_each h now answers c).2.
Proof.
  revert c. induction answers as [|a answers IH]; intros c; cbn [accept_each]; [apply good_refl|].
  pose proof (accept_good h now a c) as H1. destruct (accept_renegotiation_answer h now a c) as [c1 es1].
  specialize (IH c1). destruct (accept_each h now answers c1). by eapply good_trans.
Qed.

Lemma start_each_good h now envs q c :
  good c (start_each h now envs q c).1 (start_each h now envs q c).2.
Proof.
  revert envs c. induction q as [|w q IH]; intros envs c; cbn [start_each]; [apply good_refl|].
  pose proof (start_good h now (envs O) w c) as H1. destruct (start_renegotiation h now _ w c) as [c1 es1].
  specialize (IH (fun i => envs (S i)) c1). destruct (start_each h now _ q c1). by eapply good_trans.
Qed.

Lemma drain_ws_good h now envs answers closed c :
  good c (drain_ws_ctrl h now envs answers closed c).1 (drain_ws_ctrl h now envs answers closed c).2.
Proof.
  unfold drain_ws_ctrl. destruct (match pending_offer_at c with Some _ => _ | None => _ end).
  - match goal with |- context [start_each ?h ?n ?e ?q ?c0] =>
      pose proof (start_each_good h n e q c0) as H1; destruct (start_each h n e q c0) as [c1 es1];
      apply (good_trans c c0 c1 [_]); [good_leaf | done] end.
  - destruct (ws_ctrl_rx c); [|apply good_refl]. cbn [negb].
    match goal with |- context [let '(c, es) := ?x in _] =>
      assert (good c x.1 x.2) as H1; [|destruct x as [c1 es1]] end.
    { destruct closed; [|apply good_refl]. cbn. destruct (pending_offer_at c); good_leaf. }
    pose proof (accept_each_good h now answers c1) as H2.
    destruct (accept_each h now answers c1). by eapply good_trans.
Qed.

Lemma pump_step_good h now c es rm i :
  exists es', (pump_step h now (c, es, rm) i).1.2 = es ++ es' /\ good c (pump_step h now (c, es, rm) i).1.1 es'.
Proof.
  assert (exists es', es = es ++ es' /\ good c c es') as Hnil.
  { exists []. rewrite app_nil_r. auto with good. }
  unfold pump_step. destruct (keyframe_waits c !! i) as [w|]; [|exact Hnil].
  destruct (judge h (tracks_out c) now w); [exact Hnil..|].
  eexists. split; [reflexivity|]. split_and!; [done | | fit_all].
  intros Hc. apply Forall_app_2; [done | by repeat constructor].
Qed.

Lemma pump_waits_good h now c :
  good c (pump_keyframe_waits h now c).1 (pump_keyframe_waits h now c).2.
Proof.
  unfold pump_keyframe_waits.
  assert (forall l st, let st' := fold_left (pump_step h now) l st in
    exists es, st'.1.2 = st.1.2 ++ es /\ good st.1.1 st'.1.1 es) as Hstep.
  { induction l as [|i l IH]; intros [[c0 es0] rm0]; cbn [fold_left].
    { exists []. rewrite app_nil_r. auto with good. }
    destruct (pump_step_good h now c0 es0 rm0 i) as (es1 & E1 & T1).
    destruct (IH (pump_step h now (c0, es0, rm0) i)) as (es2 & E2 & T2).
    exists (es1 ++ es2). rewrite E2, E1, app_assoc. split; [done|]. by eapply good_trans. }
  destruct (Hstep (seq 0 (length (keyframe_waits c))) (c, [], [])) as (es & E & T).
  destruct (fold_left (pump_step h now) _ _) as [[c1 es1] rm]. cbn [fst snd app] in *. subst es1.
  destruct (good_fold (remove_wait outcome_inc) (rev rm) c1 es) as (es' & -> & T').
  { intros c2 es2 [i outcome]. eexists _, _. split; [reflexivity|]. good_leaf. }
  by eapply good_trans.
Qed.

(** The pump moves the events the clients kept to the queue. *)
Lemma pump_ws_good now ws r :
  let res := pump_ws_ctrl now ws r in
  Forall calm (clients r) -> Forall voiceless (to_propagate r) ->
  good_all (clients r) (clients res.1) res.2 /\ Forall voiceless (to_propagate res.1).
Proof.
  unfold pump_ws_ctrl.
  match goal with |- context [for_clients ?f0 ?l] =>
    pose proof (for_clients_good f0 l) as H; destruct (for_clients f0 l) as [cs es] end.
  cbn [fst snd clients to_propagate] in *. intros Hc Hq.
  assert (good_all (clients r) cs es) as Hg.
  { apply H. intros c. pose proof (drain_ws_good (live_tracks (clients r)) now (ws_starts (ws (id c)))
      (ws_answers (ws (id c))) (ws_closed (ws (id c))) c) as T1.
    destruct (drain_ws_ctrl _ _ _ _ _ c) as [c1 es1].
    pose proof (pump_waits_good (live_tracks (clients r)) now c1) as T2.
    destruct (pump_keyframe_waits _ _ c1). by eapply good_trans. }
  split.
  - rewrite <- (app_nil_r es). eapply good_all_trans; [exact Hg|]. split; [|constructor].
    apply Forall2_fmap_r, Forall_Forall2_diag, Forall_true. intros c. split; [done | constructor].
  - apply Forall_app_2; [done|]. pose proof (good_all_calm _ _ _ Hg Hc) as Hcs.
    apply Forall_forall. intros p (c & Hp & Hin)%list_elem_of_bind.
    rewrite Forall_forall in Hcs. specialize (Hcs c Hin). unfold calm in Hcs.
    rewrite Forall_forall in Hcs. by apply Hcs.
Qed.

(** ** Polling *)

Lemma observe_media_fits ids epoch now relay ev : Forall (fits ids) (observe_media epoch now relay ev).1.
Proof. destruct ev; cbn; try constructor. fit_cases. Qed.

Section polling.
Context `{Jwt}.
Variable to_json : list member -> str.
Variable wall_now : Z.
Variable cell : PolicyCell.
Variable vfm : bool.

Lemma channel_data_voiced cid label data a b f :
  voiced [cid] (handle_channel_data wall_now cell vfm cid label data a b f).
Proof.
  unfold handle_channel_data, handle_relay_source, promote_with_token, handle_by_label, handle_budget.
  repeat (case_match || case_decide); first [exact I | by left].
Qed.

Lemma handle_event_good h e p :
  let res := handle_event to_json wall_now cell vfm h e p in
  good (p_client p) (p_client res.1.1) res.1.2 /\ voiced [id (p_client p)] res.2.
Proof.
  destruct e; cbn [handle_event]; try (split; [good_leaf | done]).
  - split; [|done]. case_decide; good_leaf.
  - destruct (_ && _ && _); (split; [good_leaf | done]).
  - unfold on_connected. destruct (p_relay_source_pending p) as [[u t]|]; [|split; [good_leaf | done]].
    destruct ch as [|[]]; (split; [good_leaf | done]).
  - destruct dir; try (split; [good_leaf | done]).
    destruct (open_negotiated mid _) as [os []]; (split; [good_leaf | done]).
  - unfold track_in_media. destruct (negb _).
    + unfold request_keyframe_throttled. repeat case_match; simplify_eq; (split; [good_leaf | done]).
    + repeat case_match; simplify_eq; (split; [good_leaf | done]).
  - split; [good_leaf|]. unfold incoming_keyframe_req. by repeat case_match.
  - unfold on_channel_data. split; [|apply channel_data_voiced].
    split_and!; [done | done|]. cbn [fst snd]. fit_cases.
  - split; [|done]. split_and!; [done | done|]. cbn [fst snd]. unfold set_opt. fit_all; fit_cases.
  - split; [|done]. split_and!; [done | done|]. cbn [fst snd]. unfold set_opt, inc_positive.
    fit_all; fit_cases.
Qed.

Lemma poll_output_good h o p :
  let res := poll_output to_json wall_now cell vfm h o p in
  good (p_client p) (p_client res.1.1) res.1.2 /\ voiced [id (p_client p)] res.2.
Proof.
  unfold poll_output. destruct (negb (alive (p_client p))); [split; [apply good_refl | done]|].
  destruct o as [[d|t|e]|]; cbn [handle_output]; try (split; [good_leaf | done]).
  pose proof (handle_event_good h e p) as [Ha Hv].
  destruct (handle_event _ _ _ _ h e p) as [[p' fx] ev]. cbn [fst snd] in *. split; [|done].
  apply (good_trans _ (p_client p) _ [_]); [good_leaf | done].
Qed.

Lemma poll_client_good epoch now before after outs p p' fx evs dl tm :
  poll_client to_json wall_now cell vfm epoch now before after outs p = Some (p', fx, evs, dl, tm) ->
  good (p_client p) (p_client p') fx /\ Forall (voiced [id (p_client p)]) evs.
Proof.
  revert p p' fx evs dl tm. induction outs as [|o outs IH]; intros p p' fx evs dl tm;
    cbn [poll_client]; destruct (negb _); try done;
    try (intros [= <- <- <- <- <-]; split; [apply good_refl | constructor]).
  pose proof (poll_output_good (live_tracks (before ++ p_client p :: after)) o p) as [H1 V1].
  destruct (poll_output _ _ _ _ _ o p) as [[p1 fx1] ev]. cbn [fst snd] in H1, V1.
  assert (forall lv pre p2 fx2 evs2 dl2 tm2, Forall (fits [id (p_client p1)]) lv ->
    Forall (voiced [id (p_client p)]) pre ->
    poll_client to_json wall_now cell vfm epoch now before after outs p1 = Some (p2, fx2, evs2, dl2, tm2) ->
    good (p_client p) (p_client p2) (fx1 ++ lv ++ fx2) /\
    Forall (voiced [id (p_client p)]) (pre ++ evs2)) as Hgo.
  { intros lv pre p2 fx2 evs2 dl2 tm2 Hlv Hpre Hrec. apply IH in Hrec as [G2 V2]. split.
    - eapply good_trans; [exact H1|]. eapply good_trans; [|exact G2]. by split_and!.
    - apply Forall_app_2; [done|]. destruct H1 as [Hi _]. by rewrite Hi in V2. }
  pose proof (observe_media_fits [id (p_client p1)] epoch now (is_relay (p_client p1)) ev) as Hlv.
  assert (Forall (voiced [id (p_client p)]) [ev]) as Hev by (by repeat constructor).
  destruct ev; try (intros [= <- <- <- <- <-]; split; [exact H1 | done]);
    destruct (observe_media _ _ _ _) as [lv tm0];
    (destruct (poll_client _ _ _ _ _ _ _ _ outs p1) as [[[[[p2 fx2] evs2] dl2] tm2]|] eqn:Hrec; [|done]);
    intros [= <- <- <- <- <-];
    first [by eapply (Hgo [] []) | by eapply (Hgo lv []) | by eapply (Hgo lv [_]) | by eapply (Hgo [] [_])].
Qed.

Lemma poll_clients_good epoch now outs before rest m dl0 cs m' fx evs dl tm :
  poll_clients to_json wall_now cell vfm epoch now outs before rest m dl0 =
    Some (cs, m', fx, evs, dl, tm) ->
  exists rest', cs = before ++ rest' /\ good_all rest rest' fx /\ Forall (voiced (id <$> rest)) evs.
Proof.
  revert before m dl0 cs m' fx evs dl tm. induction rest as [|c rest IH];
    intros before m dl0 cs m' fx evs dl tm; cbn [poll_clients].
  { intros [= <- <- <- <- <- <-]. exists []. rewrite app_nil_r.
    split_and!; [done | apply good_all_refl | constructor]. }
  destruct (poll_client _ _ _ _ _ _ _ _ _ _) as [[[[[p fx1] evs1] dl1] tm1]|] eqn:Hp; [|done].
  apply poll_client_good in Hp as [Gp Vp]. cbn [p_client peer_of] in Gp, Vp.
  destruct (poll_clients _ _ _ _ _ _ _ _ _ _ _) as [[[[[[cs2 m2] fx2] evs2] dl2] tm2]|] eqn:Hc; [|done].
  intros [= <- <- <- <- <- <-]. apply IH in Hc as (rest' & -> & Ha & Va).
  exists (p_client p :: rest'). rewrite <- app_assoc. split_and!; [done | by apply good_all_cons|].
  apply Forall_app_2; [eapply Forall_impl; [exact Vp|] | eapply Forall_impl; [exact Va|]];
    intros []; cbn; set_solver.
Qed.

Lemma poll_all_good epoch now outs s s' fx dl :
  poll_all to_json wall_now cell vfm epoch now outs s = Some (s', fx, dl) ->
  Forall voiceless (to_propagate (reg s)) ->
  good_all (clients (reg s)) (clients (reg s')) fx /\
  Forall (voiced (id <$> clients (reg s))) (to_propagate (reg s')).
Proof.
  unfold poll_all. destruct (poll_clients _ _ _ _ _ _ _ _ _ _ _) as [[[[[[cs m] fx1] evs] dl1] tm]|] eqn:Hc;
    [|done].
  apply poll_clients_good in Hc as (rest' & -> & Ha & Va). intros [= <- <- <-] Hq. cbn. split.
  - eapply good_all_trans; [exact Ha|]. apply good_all_quiet.
    destruct tm as [[a r]|]; [|constructor]. by apply Forall_fmap, Forall_true.
  - apply Forall_app_2; [by apply voiceless_voiced | done].
Qed.
End polling.

(** ** Sending *)

Lemma send_failed_fits ids now dest e dedup : Forall (fits ids) (send_failed now dest e dedup).2.
Proof. unfold send_failed. fit_cases. Qed.

Lemma send_all_fits ids now send i ts dedup : Forall (fits ids) (send_all now send i ts dedup).2.
Proof.
  revert i dedup. induction ts as [|t ts IH]; intros i dedup; cbn [send_all]; [constructor|].
  destruct (is_bogon _).
  - specialize (IH i dedup). destruct (send_all _ _ _ _ _). cbn [snd] in *. fit_all.
  - assert (Forall (fits ids) (match send i with
      | Sent => (dedup, []) | SendErr e => send_failed now (t_destination t) e dedup end).2) as H1
      by (destruct (send i); [constructor | apply send_failed_fits]).
    destruct (match send i with Sent => _ | SendErr _ => _ end) as [d1 es1].
    specialize (IH (S i) d1). destruct (send_all _ _ _ _ _). cbn [snd] in *. fit_all.
Qed.

Lemma flush_fits ids now send s : Forall (fits ids) (flush_transmits now send s).2.
Proof.
  unfold flush_transmits. destruct (drain_transmits s) as [s1 ts].
  pose proof (send_all_fits ids now send 0 ts (send_fail_dedup s1)) as H.
  by destruct (send_all _ _ _ _ _).
Qed.

(** ** Joins and departures *)

Lemma runs_mono ids ids1 ids2 es : ids1 ⊆ ids2 -> runs ids ids1 es -> runs ids ids2 es.
Proof.
  intros Hs Hr m Hm. destruct (Hr m Hm) as (m' & E & B & K & M). exists m'.
  split_and!; [exact E | exact (bounded_mono _ _ _ Hs B) | exact K | exact M].
Qed.

Lemma lower_gauges_fits ids c : Forall (fits ids) (lower_gauges c).
Proof. unfold lower_gauges. fit_all; fit_cases. Qed.

Lemma reap_client_runs ids ids' c :
  (forall j, j ∈ ids -> j <> id c -> j ∈ ids') -> runs ids ids' (reap_client c).
Proof.
  intros Hi. unfold reap_client. apply (runs_app ids ids ids'); [apply fits_runs; fit_all|].
  apply (runs_app ids ids' ids'); [by apply scrub_runs | apply fits_runs, lower_gauges_fits].
Qed.

Lemma reap_clients_runs ids dead :
  runs ids (filter (fun j => j ∉ id <$> dead) ids) (dead ≫= reap_client).
Proof.
  revert ids. induction dead as [|c dead IH]; intros ids.
  { eapply runs_mono; [|apply runs_nil]. intros j Hj. apply list_elem_of_filter. split; [set_solver | done]. }
  cbn [mbind list_bind]. eapply runs_app.
  - apply (reap_client_runs ids (filter (fun j => j <> id c) ids)).
    intros j Hj Hne. by apply list_elem_of_filter.
  - intros m Hm. destruct (IH _ m Hm) as (m' & E & Hb & K & M). exists m'.
    split_and!; [exact E | |exact K | exact M].
    eapply bounded_mono; [|exact Hb]. intros j. rewrite !list_elem_of_filter, fmap_cons, not_elem_of_cons.
    tauto.
Qed.

Lemma reap_dead_runs now r :
  runs (id <$> clients r) (id <$> clients (reap_dead now r).1) (reap_dead now r).2.
Proof.
  unfold reap_dead. cbn [fst snd clients].
  apply (runs_app _ (id <$> filter (fun c => alive c = true) (clients r))).
  - eapply runs_mono; [|apply reap_clients_runs]. intros j.
    intros [Hd (c & -> & Hc)%list_elem_of_fmap]%list_elem_of_filter.
    apply list_elem_of_fmap. exists c. split; [done|]. apply list_elem_of_filter. split; [|done].
    destruct (alive c) eqn:Ha; [done|]. destruct Hd. apply list_elem_of_fmap. exists c. split; [done|].
    by apply list_elem_of_filter.
  - apply fits_runs. fit_cases.
Qed.

Lemma evict_runs i r old :
  clients r !! i = Some old ->
  runs (id <$> clients r) (id <$> clients (evict_for_steal i r).1) (evict_for_steal i r).2.
Proof.
  intros Hi. unfold evict_for_steal. rewrite Hi. cbn [fst snd clients].
  apply (runs_app _ (id <$> clients r)); [apply fits_runs; fit_cases|].
  apply (runs_app _ (id <$> clients r)); [apply fits_runs; fit_all|].
  apply (runs_app _ (id <$> swap_remove i (clients r))).
  - apply scrub_runs. intros j (c & -> & Hc)%list_elem_of_fmap Hne.
    rewrite (swap_remove_perm _ _ _ Hi), elem_of_cons in Hc. destruct Hc as [->|Hc]; [done|].
    apply list_elem_of_fmap. by exists c.
  - apply fits_runs. apply Forall_app_2; [apply lower_gauges_fits|].
    apply Forall_app_2; [fit_all|]. destruct (swap_remove i (clients r)); fit_all.
Qed.

Lemma cross_advertise_good env h pubs c :
  good c (cross_advertise env h pubs c).1 (cross_advertise env h pubs c).2.
Proof.
  unfold cross_advertise. fold_good. intros c1 es1 [pid e].
  pose proof (track_open_good h (env_now env) (env_start env (id c1) (tie_ref e)) (tie_ref e) c1) as G.
  destruct (handle_track_open _ _ _ _ c1) as [c2 es2]. eexists _, _. split; [reflexivity|].
  eapply good_trans; [exact G|]. good_leaf.
Qed.

Lemma insert_runs env new r :
  let res := registry_insert env new r in
  runs (id <$> clients r) (id <$> clients res.1) res.2 /\
  (Forall calm (clients r) -> calm new -> Forall calm (clients res.1)) /\
  (Forall voiceless (to_propagate r) -> Forall voiceless (to_propagate res.1)).
Proof.
  rewrite registry_insert_eq.
  assert (runs (id <$> clients r) (id <$> clients (after_steal new r).1) (after_steal new r).2 /\
    (Forall calm (clients r) -> Forall calm (clients (after_steal new r).1)) /\
    to_propagate (after_steal new r).1 = to_propagate r) as (R0 & C0 & Q0).
  { destruct (after_steal_cases new r) as [[-> _]|(i & old & pid & _ & _ & Hi & -> & Hp)].
    - split_and!; [apply runs_nil | done | done].
    - split_and!; [by eapply evict_runs | | unfold evict_for_steal; by rewrite Hi].
      intros Hc. rewrite Hp in Hc. by apply Forall_cons in Hc as [_ ?]. }
  destruct (after_steal new r) as [r1 es0]. cbn [fst snd] in *.
  pose proof (cross_advertise_good env (live_tracks (clients r1)) (clients r1) new) as (I1 & C1 & F1).
  destruct (cross_advertise _ _ _ new) as [c es1]. cbn [fst snd clients to_propagate] in *.
  split_and!.
  - apply (runs_app _ (id <$> clients r1)); [done|].
    eapply runs_mono; [|apply (runs_app _ (id <$> (clients r1 ++ [c])))].
    + done.
    + intros m Hm. apply fits_runs; [|eapply bounded_mono; [|exact Hm]; rewrite fmap_app; set_solver].
      eapply Forall_fits_mono; [|exact F1]. rewrite fmap_app. cbn. rewrite I1. set_solver.
    + apply fits_runs. fit_all.
  - intros Hc Hn. apply Forall_app_2; [by apply C0 | constructor; [by apply C1 | constructor]].
  - intros Hq. rewrite Q0. apply Forall_app_2; [done | by repeat constructor].
Qed.
