(* ===== verification/SfuMetricsProps.v ===== *)
(** * Theorems on the metrics of a running server

    Over whole runs of the UDP loop from start-up: every update of a metric is
    one its family accepts, the labelled series of departed clients are gone from
    the families that are scrubbed, series of other families are never removed,
    and the population gauges of the scrape are the population. *)

From Stdlib Require Import ZArith Lia.
From stdpp Require Import base option numbers gmap strings pretty list.
From S2P Require Import Prelude RustStr NetAddr DdParse DdParseFacts DdCache SfuTypes SfuKeyframe SfuKeyframeFacts.
From S2P Require Import SfuMedia SfuMediaFacts SfuRenegotiation SfuRelayOut SfuRegistry SfuRegistryFacts.
From S2P Require Import RoomAuth SfuChannelData SfuDispatch SfuUdpLoop SfuUdpLoopFacts SfuUdpLoopProps.
From S2P Require Import RelayApi ClientWs SfuMetrics SfuMetricsFacts SfuMetricsRun.

(** ** One iteration *)

(** Between iterations no voice frame is queued. *)
Definition settled (r : Registry) : Prop := Forall calm (clients r) /\ Forall voiceless (to_propagate r).

Definition ids_of (s : Server) : list ClientId := id <$> clients (reg s).

(** The step from [s] to [s'] keeps to the rules. *)
Definition obeys (s s' : Server) (es : list Effect) : Prop :=
  settled (reg s) -> settled (reg s') /\ runs (ids_of s) (ids_of s') es.

Lemma obeys_trans s1 s2 s3 es es' : obeys s1 s2 es -> obeys s2 s3 es' -> obeys s1 s3 (es ++ es').
Proof.
  intros H1 H2 S1. destruct (H1 S1) as [S2 R1]. destruct (H2 S2) as [S3 R2].
  split; [done | by eapply runs_app].
Qed.

Lemma good_all_runs cs cs' es : good_all cs cs' es -> runs (id <$> cs) (id <$> cs') es.
Proof. intros H. rewrite (good_all_ids _ _ _ H). apply fits_runs, H. Qed.

(** An arm that leaves the clients alone but for their own state. *)
Lemma good_all_obeys s s' es :
  good_all (clients (reg s)) (clients (reg s')) es ->
  (Forall voiceless (to_propagate (reg s)) -> Forall voiceless (to_propagate (reg s'))) -> obeys s s' es.
Proof.
  intros Hg Hq [Hc Hv]. split; [split; [by eapply good_all_calm | auto] | by apply good_all_runs].
Qed.

Lemma handle_input_good ok c : good c (handle_input ok c) [].
Proof. unfold handle_input. by destruct (alive c && negb ok). Qed.

Lemma insert_obeys cfg env c sd s s0 :
  calm c -> reg s = reg s0 -> obeys s0 (server_insert cfg env c sd s).1 (server_insert cfg env c sd s).2.
Proof.
  intros Hn Hr [Hc Hv]. unfold server_insert, ids_of, settled.
  pose proof (insert_runs env c (reg s)) as (R & C & Q). destruct (registry_insert env c (reg s)) as [r es].
  cbn [fst snd reg with_sides with_reg] in *. rewrite Hr in *. auto.
Qed.

Lemma scores_fit ids scores top3 r : Forall (fits ids) (tick_speaker_scores scores top3 r).2.
Proof.
  apply Forall_forall. intros e ([[[p i] m] l] & He & _)%list_elem_of_bind.
  repeat (apply elem_of_cons in He as [->|He]; [fit|]). by apply elem_of_nil in He.
Qed.

Lemma aso_obeys now change scores top3 s :
  let s1 := (tick_active_speaker now change s).1 in
  obeys s (with_reg (emit_publisher_layer_hints (tick_speaker_scores scores top3 (reg s1)).1) s1)
    ((tick_active_speaker now change s).2 ++ (tick_speaker_scores scores top3 (reg s1)).2).
Proof.
  intros s1. assert (clients (reg s1) = clients (reg s)) as Hc by (unfold s1; by destruct change).
  apply good_all_obeys.
  - cbn. rewrite Hc. apply good_all_quiet, Forall_app_2; [|apply (scores_fit _ scores top3 (reg s1))].
    destruct change; [|constructor]. cbn. destruct (last_speaker_change s); fit_all.
  - intros Hv. cbn. apply Forall_app_2; [apply Forall_app_2|].
    + unfold s1. destruct change; [|done]. apply Forall_app_2; [done | by repeat constructor].
    + destruct top3; by repeat constructor.
    + apply Forall_fmap, Forall_true. by intros [].
Qed.

Lemma arm_obeys cfg sleep w s s' es stop : select_arm cfg sleep w s = Some (s', es, stop) -> obeys s s' es.
Proof.
  destruct w as [|ok parked|now change scores top3|[[[d a] ok]|]|pending env|pending b env]; cbn [select_arm].
  - intros [= <- <- <-]. apply good_all_obeys; [apply good_all_refl | done].
  - destruct (parked <? sleep); [done|]. intros [= <- <- <-]. apply good_all_obeys; [|done]. cbn. split; [|constructor].
    apply Forall2_fmap_r, Forall_Forall2_diag, Forall_true. intros c.
    destruct (handle_input_good (ok (id c)) c) as (? & ? & _). by split.
  - pose proof (aso_obeys now change scores top3 s) as H.
    destruct (tick_active_speaker now change s) as [s1 es1]. cbn [fst snd] in *.
    destruct (tick_speaker_scores scores top3 (reg s1)) as [r es2]. by intros [= <- <- <-].
  - intros [= <- <- <-]. unfold handle_incoming.
    destruct d; cbn [negb]; [|apply good_all_obeys; [apply good_all_refl | done]].
    destruct (list_find _ _) as [[i c]|] eqn:Hf; [|apply good_all_obeys; [apply good_all_refl | done]].
    apply list_find_Some in Hf as (Hi & _). apply good_all_obeys; [|done].
    eapply good_all_insert; [exact Hi | apply handle_input_good].
  - intros [= <- <- <-]. apply good_all_obeys; [apply good_all_quiet; fit_all | done].
  - destruct (relay_rx s); [|done]. cbn [negb]. destruct pending as [p|].
    + unfold inject_relay. cbn [next_client_id].
      match goal with |- context [server_insert ?cfg ?env ?c ?sd ?s1] =>
        pose proof (insert_obeys cfg env c sd s1 s) as H; destruct (server_insert cfg env c sd s1) end.
      intros [= <- <- <-]. apply H; [constructor | done].
    + intros [= <- <- <-]. apply good_all_obeys; [apply good_all_quiet; fit_all | done].
  - destruct (client_inject_rx s); [|done]. cbn [negb]. destruct pending as [p|].
    + unfold inject_client. cbn [next_client_id].
      assert (calm (browser_client (next_id s) (sv_low_min_bps cfg) (pc_external_peer_id p)).1 /\
        Forall (fits (ids_of s)) (browser_client (next_id s) (sv_low_min_bps cfg) (pc_external_peer_id p)).2)
        as [Hc Hb] by (split; [constructor | cbn; fit_all]).
      destruct (browser_client _ _ _) as [c es1]. cbn [fst snd] in *.
      match goal with |- context [server_insert ?cfg ?env ?c ?sd ?s1] =>
        pose proof (insert_obeys cfg env c sd s1 s Hc eq_refl) as H;
        destruct (server_insert cfg env c sd s1) as [s2 es2] end.
      intros [= <- <- <-]. rewrite app_assoc. apply (obeys_trans s s s2); [|exact H].
      apply good_all_obeys; [|done]. apply good_all_quiet, Forall_app_2; [|done].
      destruct b; cbn [app]; fit_all.
    + intros [= <- <- <-]. apply good_all_obeys; [apply good_all_quiet; fit_all | done].
Qed.

Lemma reap_obeys now s : obeys s (with_reg (reap_dead now (reg s)).1 s) (reap_dead now (reg s)).2.
Proof.
  intros [Hc Hv]. split; [split; [|exact Hv]|apply reap_dead_runs].
  cbn. by apply Forall_filter_keep.
Qed.

Lemma solo_obeys timeout now s :
  obeys s (with_reg (check_solo_timeout timeout now (reg s)).1 s) (check_solo_timeout timeout now (reg s)).2.
Proof.
  apply good_all_obeys; unfold check_solo_timeout; destruct (clients (reg s)) as [|c [|]] eqn:Hc;
    try (cbn; rewrite ?Hc; first [apply good_all_refl | done]).
  - destruct (solo_since (reg s)); [|cbn; rewrite Hc; apply good_all_refl].
    destruct (_ <? timeout); [cbn; rewrite Hc; apply good_all_refl|]. cbn.
    apply (good_all_cons c (put_alive false c) [] [] [_] []); [good_leaf | apply good_all_refl].
  - by destruct (solo_since (reg s)); [destruct (_ <? timeout)|].
Qed.

Section serving.
Context `{Jwt}.
Variable to_json : list member -> str.
Variable cell : PolicyCell.
Variable vfm : bool.
Context (pacer_update : list Z -> Z -> PacerAction)
        (estimate : list Effect -> Instant -> ClientId -> option (Z * string))
        (floor_enabled bwe_cap_enabled : bool)
        (min_tick : Z).

#[local] Abbreviation serve_busy := (serve_busy to_json cell vfm pacer_update estimate floor_enabled
                          bwe_cap_enabled min_tick).
#[local] Abbreviation serve_turn := (serve_turn to_json cell vfm pacer_update estimate floor_enabled
                          bwe_cap_enabled min_tick).
#[local] Abbreviation serve_run := (serve_run to_json cell vfm pacer_update estimate floor_enabled
                         bwe_cap_enabled min_tick).

(** Pump, poll, fan out and flush. *)
Lemma middle_obeys fuel t s r1 s4 r5 s6 cfg es1 es2 es3 es4 dl :
  pump_ws_ctrl (tn_pump t) (tn_ws t) (reg s) = (r1, es1) ->
  poll_all to_json (tn_wall t) cell vfm (sv_epoch cfg) (tn_now t) (tn_outs t) (with_reg r1 s) =
    Some (s4, es2, dl) ->
  fanout_loop pacer_update estimate floor_enabled bwe_cap_enabled min_tick fuel (tn_fan t) (reg s4) =
    Some (r5, es3) ->
  flush_transmits (tn_now t) (tn_send t) (with_reg r5 s4) = (s6, es4) ->
  obeys s s6 (es1 ++ es2 ++ es3 ++ es4).
Proof.
  intros E1 E2 E3 E4 [Hc Hv].
  pose proof (pump_ws_good (tn_pump t) (tn_ws t) (reg s) Hc Hv) as [G1 V1]. rewrite E1 in G1, V1.
  pose proof (poll_all_good _ _ _ _ _ _ _ _ _ _ _ E2 V1) as [G2 V2]. cbn [reg with_reg] in G2, V2.
  pose proof (fanout_loop_tame _ _ _ _ _ _ _ _ _ _ E3) as (_ & _ & Q3).
  apply fanout_loop_good in E3; [|by rewrite (good_all_ids _ _ _ G2)].
  pose proof (flush_facts (tn_now t) (tn_send t) (with_reg r5 s4)) as (R4 & _).
  pose proof (flush_fits (id <$> clients r5) (tn_now t) (tn_send t) (with_reg r5 s4)) as F4.
  rewrite E4 in R4, F4. cbn [fst snd reg with_reg] in *.
  assert (good_all (clients (reg s)) (clients (reg s6)) (es1 ++ es2 ++ es3 ++ es4)) as G.
  { rewrite R4. eapply good_all_trans; [exact G1|]. eapply good_all_trans; [exact G2|].
    eapply good_all_trans; [exact E3|]. by apply good_all_quiet. }
  split; [split; [by eapply good_all_calm | by rewrite R4, Q3] | by apply good_all_runs].
Qed.

Lemma busy_obeys fuel cfg t s s' es dl : serve_busy fuel cfg t s = Some (s', es, dl) -> obeys s s' es.
Proof.
  intros (r1 & r2 & r3 & r5 & s4 & s6 & es1 & es2 & es3 & es4 & es5 & es6 & E1 & E2 & E3 & E4 & E5 & E6 & -> & ->)%busy_phases.
  apply (obeys_trans s s _ [_]).
  { apply good_all_obeys; [apply good_all_quiet; fit_all | done]. }
  apply (obeys_trans s (with_reg r1 s)).
  { pose proof (reap_obeys (tn_reap t) s) as R. by rewrite E1 in R. }
  apply (obeys_trans _ (with_reg r2 s)).
  { destruct (sv_solo_kick cfg) as [timeout|].
    - pose proof (solo_obeys timeout (tn_solo t) (with_reg r1 s)) as R. cbn [reg with_reg] in R.
      by rewrite E2 in R.
    - injection E2 as <- <-. apply good_all_obeys; [apply good_all_refl | done]. }
  exact (middle_obeys fuel t (with_reg r2 s) r3 s4 r5 s6 cfg es3 es4 es5 es6 dl E3 E4 E5 E6).
Qed.

Lemma turn_obeys fuel cfg t s s' es stop : serve_turn fuel cfg t s = Some (s', es, stop) -> obeys s s' es.
Proof.
  unfold SfuUdpLoop.serve_turn. destruct (serve_busy fuel cfg t s) as [[[s1 es1] dl]|] eqn:Hb; [|done].
  apply busy_obeys in Hb. destruct (select_arm cfg _ (tn_wake t) s1) as [[[s2 es2] b]|] eqn:Ha; [|discriminate].
  apply arm_obeys in Ha. intros [= <- <- <-]. eapply obeys_trans; [exact Hb|].
  eapply obeys_trans; [exact Ha|]. apply good_all_obeys; [apply good_all_quiet; fit_all | done].
Qed.

Lemma run_obeys cfg s ts s' es : serve_run cfg s ts s' es -> obeys s s' es.
Proof.
  induction 1 as [s|s t ts fuel s1 s2 es1 es2 Ht _ IH|s t fuel s1 es1 Ht].
  - intros Hs. split; [done | apply runs_nil].
  - eapply obeys_trans; [by eapply turn_obeys | exact IH].
  - by eapply turn_obeys.
Qed.
End serving.

(** ** Runs from start-up *)

Lemma baseline_unscrubbed terms b x : x ∈ baseline terms b -> x.1 ∉ scrubbed.
Proof.
  assert (forallb (fun s => match s with
    | Register f => is_vec f || bool_decide (field f ∉ scrubbed)
    | Touch n _ | TouchEach n | SetTo n _ => bool_decide (n ∉ scrubbed)
    end) new_steps = true) as H by (vm_compute; reflexivity).
  unfold baseline. intros (s & Hx & Hs)%list_elem_of_bind. rewrite forallb_forall in H.
  apply list_elem_of_In in Hs. specialize (H s Hs). cbv beta in H. destruct s as [f|n l|n|n v]; cbn [series_of] in Hx.
  - destruct (is_vec f); [by apply elem_of_nil in Hx|]. cbn in H. apply bool_decide_eq_true in H.
    apply list_elem_of_singleton in Hx as ->. exact H.
  - apply bool_decide_eq_true in H. apply list_elem_of_singleton in Hx as ->. exact H.
  - apply bool_decide_eq_true in H. apply list_elem_of_fmap in Hx as (t & -> & _). exact H.
  - apply bool_decide_eq_true in H.
    destruct v; [|destruct b|]; (apply list_elem_of_singleton in Hx as -> || by apply elem_of_nil in Hx); exact H.
Qed.

(** The metrics after start-up. *)
Lemma started `{Prometheus} terms b interval edge m0 :
  SfuMetrics_new terms b interval edge = Ok m0 ->
  fields m0 = families /\ (forall ids, bounded ids (series m0)) /\
  forall f l, f ∈ population -> value_at (f, l) (series m0) = 0.
Proof.
  intros E. destruct (start_up terms b interval edge) as (m & E' & Hf & _ & V & Hz).
  rewrite E in E'. injection E' as <-. split_and!; [done | |].
  - intros ids x Hx%V Hs. by apply baseline_unscrubbed in Hx.
  - intros f l Hp. rewrite Hz. unfold first_value. unfold population in Hp.
    rewrite !elem_of_cons, elem_of_nil in Hp. destruct_or! Hp; try done; subst f;
      rewrite !bool_decide_false by discriminate; reflexivity.
Qed.

Lemma server_new_settled relay client : settled (reg (server_new relay client)).
Proof. split; constructor. Qed.

(** ** Updates of concurrent tasks *)

(** Whether an update is accepted does not depend on the values. *)
Definition accepted (e : Effect) : Prop := is_Some (apply_effect families e ∅).

Lemma accepted_any e m : is_Some (apply_effect families e m) <-> accepted e.
Proof.
  unfold accepted, apply_effect. destruct (update_of e) as [[n l ok v|n l]|]; [| |split; by eexists].
  - destruct (find_family families n) as [f|]; [|by split].
    destruct (ok f && series_ok f l); [split; by eexists | by split].
  - destruct (find_family families n) as [f|]; [|by split].
    destruct (is_vec f); [split; by eexists | by split].
Qed.

Lemma accepted_all es m : is_Some (apply_effects families es m) <-> Forall accepted es.
Proof.
  revert m. induction es as [|e es IH]; intros m; cbn [apply_effects].
  { split; [constructor | by eexists]. }
  rewrite Forall_cons, <- (accepted_any e m). destruct (apply_effect families e m) as [m1|].
  - rewrite IH. split; [intros ?; split; [by eexists | done] | by intros [_ ?]].
  - split; [by intros [? [=]] | by intros [[? [=]] _]].
Qed.

Lemma fits_accepted ids es : Forall (fits ids) es -> Forall accepted es.
Proof.
  intros Hf. apply (accepted_all es ∅).
  destruct (fits_runs ids es Hf ∅) as (m & -> & _); [|by eexists].
  intros x [? Hx]. by rewrite lookup_empty in Hx.
Qed.

(** The metric updates of a WebSocket session. *)
Fixpoint session_metrics (fx : list SessionEffect) : list Effect :=
  match fx with
  | [] => []
  | Metric e :: fx' => e :: session_metrics fx'
  | _ :: fx' => session_metrics fx'
  end.

Lemma session_metrics_app a b : session_metrics (a ++ b) = session_metrics a ++ session_metrics b.
Proof.
  induction a as [|e a IH]; cbn [app session_metrics]; [done|].
  destruct e; cbn [app]; by rewrite ?IH.
Qed.

Lemma session_metrics_parked es : session_metrics (Metric <$> es) = es.
Proof. induction es as [|e es IH]; [done|]. cbn. f_equal. exact IH. Qed.

(** The counters of a hint, for the peer the session is for. *)
Lemma hint_series p (b : bool) :
  ((if b then "sfu_bwe_hint_throttled_total" else "sfu_bwe_hint_received_total"), [p]) ∈ peer_series p.
Proof. destruct b; in_series. Qed.

Lemma take_hint_fits interval peer now p :
  Forall (fits [peer]) (pk_effects p) -> Forall (fits [peer]) (pk_effects (take_hint interval peer now p)).
Proof.
  intros Hp. unfold take_hint. destruct (hint_gate interval peer now (pk_hints p)) as [throttled reg].
  cbn [pk_effects]. apply Forall_app_2; [exact Hp|]. apply List.Forall_cons; [|constructor].
  split; [by destruct throttled|]. split; [apply own_peer, hint_series | by intros ? [=]].
Qed.

Lemma park_fits json interval peer evs p :
  Forall (fits [peer]) (pk_effects p) ->
  Forall (fits [peer]) (pk_effects (park_until_close_or_steal json interval peer evs p).2).
Proof.
  revert p. induction evs as [|ev evs IH]; intros p Hp; cbn [park_until_close_or_steal]; [exact Hp|].
  destruct ev as [r|[]|[t|[]| | | |] now ctrl hf]; try exact Hp; try (apply IH; exact Hp).
  apply IH. unfold park_text. destruct (json t) as [get|]; [|exact Hp].
  case_bool_decide; [exact Hp|]. case_bool_decide.
  - destruct (get "sdp"); [|exact Hp]. destruct ctrl; cbn [accept_answer with_effects pk_effects]; fit_all.
  - case_bool_decide; [|exact Hp]. destruct (_ && _); [by apply take_hint_fits | exact Hp].
Qed.

Lemma session_fits json interval peer room env reg :
  Forall (fits [peer]) (session_metrics (upgraded json interval peer room env reg).1).
Proof.
  unfold upgraded, run_session. destruct (session_body json interval peer room env reg) as [[fx code] reg'] eqn:Hs.
  cbn [fst]. assert (Forall (fits [peer]) (session_metrics fx)) as Hfx.
  { unfold session_body in Hs. destruct (read_offer json (se_frames env)) as [|e];
      [|injection Hs as <- _ _; destruct e; cbn; fit_all].
    destruct (se_candidate_ok env); cbn [negb] in Hs; [|injection Hs as <- _ _; cbn; fit_all].
    destruct (se_offer_parses env); cbn [negb] in Hs; [|injection Hs as <- _ _; cbn; fit_all].
    destruct (se_offer_accepted env); cbn [negb] in Hs; [|injection Hs as <- _ _; cbn; fit_all].
    destruct (se_inject_ok env); cbn [negb] in Hs; [|injection Hs as <- _ _; cbn; fit_all].
    destruct (se_answer_sent env); cbn [negb] in Hs; [|injection Hs as <- _ _; cbn; fit_all].
    pose proof (park_fits json interval peer (se_events env) (mkParked reg [] [])) as Hp.
    destruct (park_until_close_or_steal _ _ _ _ _) as [[stole c0] p]. injection Hs as <- _ _.
    cbn [app session_metrics]. rewrite session_metrics_app, session_metrics_parked. cbn [snd pk_effects] in Hp.
    specialize (Hp (List.Forall_nil _)). destruct stole; cbn [session_metrics]; fit_all. }
  cbn [app guard_new guard_drop session_metrics]. rewrite session_metrics_app.
  cbn [guard_drop session_metrics]. fit_all.
Qed.

(** ** Families that carry a client's label *)

(** The families the loop labels with the id of a client and takes away when the
    client leaves. *)
Definition CLIENT_FAMILIES : list string :=
  ["bandwidth_estimate_bps"; "client_delivered_media_count"; "pacer_tick_throttled_total";
   "pacer_layer_total"; "layer_transitions_total"; "chat_relay_tx_bytes_total";
   "chat_relay_rx_bytes_total"; "voice_relay_tx_bytes_total"; "voice_relay_rx_bytes_total"].

(** The series in them of the client with label [p]. *)
Definition client_series (p : string) (x : Series) : Prop :=
  (x.1 ∈ ["bandwidth_estimate_bps"; "client_delivered_media_count"; "pacer_tick_throttled_total";
          "voice_relay_tx_bytes_total"; "voice_relay_rx_bytes_total"] /\ x.2 = [p]) \/
  (x.1 = "pacer_layer_total" /\ exists rid, x.2 = [p; rid]) \/
  (x.1 = "layer_transitions_total" /\ exists from to, x.2 = [from; to; p]) \/
  (x.1 ∈ ["chat_relay_tx_bytes_total"; "chat_relay_rx_bytes_total"] /\ exists dc, x.2 = [dc; p]).

Lemma client_families_scrubbed n : n ∈ CLIENT_FAMILIES -> n ∈ scrubbed.
Proof.
  assert (Forall (fun n => n ∈ scrubbed) CLIENT_FAMILIES) as H
    by (refine (bool_decide_eq_true_1 _ _); vm_compute; reflexivity).
  rewrite Forall_forall in H. apply H.
Qed.

Lemma peer_series_client p x : x ∈ peer_series p -> x.1 ∈ CLIENT_FAMILIES -> client_series p x.
Proof.
  unfold peer_series. cbn. intros Hx Hf.
  repeat (apply elem_of_cons in Hx as [->|Hx];
    [first [ left; split; [set_solver | reflexivity]
           | right; left; split; [reflexivity | by eexists]
           | right; right; left; split; [reflexivity | by eexists _, _]
           | right; right; right; split; [set_solver | by eexists]
           | exfalso; cbn in Hf; unfold CLIENT_FAMILIES in Hf; set_solver ]|]).
  by apply elem_of_nil in Hx.
Qed.

(** The effect is not about one of them. *)
Definition elsewhere (e : Effect) : bool :=
  match update_of e with
  | Some (Put n _ _ _) | Some (Drop n _) => bool_decide (n ∉ CLIENT_FAMILIES)
  | None => true
  end.

Lemma park_elsewhere json interval peer evs p :
  Forall (fun e => elsewhere e = true) (pk_effects p) ->
  Forall (fun e => elsewhere e = true) (pk_effects (park_until_close_or_steal json interval peer evs p).2).
Proof.
  revert p. induction evs as [|ev evs IH]; intros p Hp; cbn [park_until_close_or_steal]; [exact Hp|].
  destruct ev as [r|[]|[t|[]| | | |] now ctrl hf]; try exact Hp; try (apply IH; exact Hp).
  apply IH. unfold park_text. destruct (json t) as [get|]; [|exact Hp].
  case_bool_decide; [exact Hp|]. case_bool_decide.
  - destruct (get "sdp"); [|exact Hp]. destruct ctrl; cbn [accept_answer with_effects pk_effects];
      first [exact Hp | apply Forall_app_2; [exact Hp | by repeat constructor]].
  - case_bool_decide; [|exact Hp]. destruct (_ && _); [|exact Hp].
    unfold take_hint. destruct (hint_gate interval peer now (pk_hints p)) as [throttled reg].
    cbn [pk_effects]. apply Forall_app_2; [exact Hp|]. apply List.Forall_cons; [by destruct throttled | constructor].
Qed.

Lemma session_elsewhere json interval peer room env reg :
  Forall (fun e => elsewhere e = true) (session_metrics (upgraded json interval peer room env reg).1).
Proof.
  unfold upgraded, run_session. destruct (session_body json interval peer room env reg) as [[fx code] reg'] eqn:Hs.
  cbn [fst]. assert (Forall (fun e => elsewhere e = true) (session_metrics fx)) as Hfx.
  { unfold session_body in Hs. destruct (read_offer json (se_frames env)) as [|e];
      [|injection Hs as <- _ _; destruct e; by repeat constructor].
    destruct (se_candidate_ok env); cbn [negb] in Hs; [|injection Hs as <- _ _; by repeat constructor].
    destruct (se_offer_parses env); cbn [negb] in Hs; [|injection Hs as <- _ _; by repeat constructor].
    destruct (se_offer_accepted env); cbn [negb] in Hs; [|injection Hs as <- _ _; by repeat constructor].
    destruct (se_inject_ok env); cbn [negb] in Hs; [|injection Hs as <- _ _; by repeat constructor].
    destruct (se_answer_sent env); cbn [negb] in Hs; [|injection Hs as <- _ _; by repeat constructor].
    pose proof (park_elsewhere json interval peer (se_events env) (mkParked reg [] [])) as Hp.
    destruct (park_until_close_or_steal _ _ _ _ _) as [[stole c0] p]. injection Hs as <- _ _.
    cbn [app session_metrics]. rewrite session_metrics_app, session_metrics_parked. cbn [snd pk_effects] in Hp.
    specialize (Hp (List.Forall_nil _)).
    destruct stole; cbn [session_metrics];
      repeat first [apply List.Forall_cons; [reflexivity|] | apply Forall_app_2; [exact Hp|] | constructor]. }
  cbn [app guard_new guard_drop session_metrics]. rewrite session_metrics_app.
  cbn [guard_drop session_metrics].
  repeat first [apply List.Forall_cons; [reflexivity|] | apply Forall_app_2; [exact Hfx|] | constructor].
Qed.

(** [l] is the two lists run side by side. *)
Inductive merged {A} : list A -> list A -> list A -> Prop :=
| merged_nil : merged [] [] []
| merged_left x a b l : merged a b l -> merged (x :: a) b (x :: l)
| merged_right x a b l : merged a b l -> merged a (x :: b) (x :: l).

(** An effect looks at and changes no other series than its own. *)
Lemma apply_effect_local e m m1 k k1 x :
  apply_effect families e m = Some m1 -> apply_effect families e k = Some k1 ->
  m !! x = k !! x -> m1 !! x = k1 !! x.
Proof.
  unfold apply_effect. destruct (update_of e) as [[n l ok v|n l]|]; [| |by intros [= <-] [= <-]].
  - destruct (find_family families n) as [f|]; [|done]. destruct (ok f && series_ok f l); [|done].
    intros [= <-] [= <-] E. destruct (decide ((n, l) = x)) as [<-|Hne].
    + rewrite !lookup_insert_eq. unfold value_at. by rewrite E.
    + by rewrite !lookup_insert_ne.
  - destruct (find_family families n) as [f|]; [|done]. destruct (is_vec f); [|done].
    intros [= <-] [= <-] E. destruct (decide ((n, l) = x)) as [<-|Hne].
    + by rewrite !lookup_delete_eq.
    + by rewrite !lookup_delete_ne.
Qed.

Lemma elsewhere_local e m m1 x :
  elsewhere e = true -> x.1 ∈ CLIENT_FAMILIES -> apply_effect families e m = Some m1 -> m1 !! x = m !! x.
Proof.
  unfold elsewhere, apply_effect. destruct (update_of e) as [[n l ok v|n l]|]; [| |by intros _ _ [= <-]].
  - intros Hn%bool_decide_eq_true Hx. destruct (find_family families n) as [f|]; [|done].
    destruct (ok f && series_ok f l); [|done]. intros [= <-]. apply lookup_insert_ne. by intros <-.
  - intros Hn%bool_decide_eq_true Hx. destruct (find_family families n) as [f|]; [|done].
    destruct (is_vec f); [|done]. intros [= <-]. apply lookup_delete_ne. by intros <-.
Qed.

Lemma merged_local es ss all m m1 k k1 x :
  merged es ss all -> Forall (fun e => elsewhere e = true) ss -> x.1 ∈ CLIENT_FAMILIES ->
  apply_effects families all m = Some m1 -> apply_effects families es k = Some k1 ->
  m !! x = k !! x -> m1 !! x = k1 !! x.
Proof.
  intros Hm Hs Hx. revert m k. induction Hm as [|e a b l _ IH|e a b l _ IH]; intros m k; cbn [apply_effects].
  - by intros [= <-] [= <-].
  - destruct (apply_effect families e m) as [m2|] eqn:E1; [|done].
    destruct (apply_effect families e k) as [k2|] eqn:E2; [|done]. intros H1 H2 E.
    eapply (IH Hs); [exact H1 | exact H2 | by eapply apply_effect_local].
  - apply Forall_cons in Hs as [He Hs]. destruct (apply_effect families e m) as [m2|] eqn:E1; [|done].
    intros H1 H2 E. eapply (IH Hs); [exact H1 | exact H2|]. by rewrite (elsewhere_local e m m2 x).
Qed.

(** ** The range of the population gauges *)

Definition ranged (m : Store) : Prop :=
  forall f l, f ∈ population -> i64_min <= value_at (f, l) m <= i64_max.

Lemma wrap_i64_range z : i64_min <= wrap_i64 z <= i64_max.
Proof.
  unfold wrap_i64, i64_min, i64_max.
  pose proof (Z.mod_pos_bound (z - -9223372036854775808) 18446744073709551616). lia.
Qed.

Lemma population_clamp f fam v :
  f ∈ population -> find_family families f = Some fam -> clamp fam v = wrap_i64 v.
Proof.
  intros Hf E. unfold population in Hf. rewrite !elem_of_cons, elem_of_nil in Hf.
  destruct_or! Hf; try done; subst; vm_compute in E; injection E as <-; reflexivity.
Qed.

Lemma apply_ranged e m m' : apply_effect families e m = Some m' -> ranged m -> ranged m'.
Proof.
  unfold apply_effect. destruct (update_of e) as [[n k ok v|n k]|]; [| |by intros [= <-]].
  - destruct (find_family families n) as [fam|] eqn:Hn; [|discriminate].
    destruct (ok fam && series_ok fam k); [|discriminate]. intros [= <-] Hr f l Hf. rewrite value_at_insert.
    destruct (decide ((f, l) = (n, k))) as [Heq|Hne].
    + rewrite bool_decide_true by exact Heq. injection Heq as -> ->.
      rewrite (population_clamp n fam _ Hf Hn). apply wrap_i64_range.
    + rewrite bool_decide_false by exact Hne. by apply Hr.
  - destruct (find_family families n) as [fam|]; [|discriminate].
    destruct (is_vec fam); [|discriminate]. intros [= <-] Hr f l Hf. unfold value_at.
    destruct (decide ((n, k) = (f, l))) as [->|Hne].
    + rewrite lookup_delete_eq. by vm_compute.
    + rewrite lookup_delete_ne by exact Hne. by apply Hr.
Qed.

Lemma apply_all_ranged es m m' : apply_effects families es m = Some m' -> ranged m -> ranged m'.
Proof.
  revert m. induction es as [|e es IH]; intros m; cbn [apply_effects]; [by intros [= <-]|].
  destruct (apply_effect families e m) as [m1|] eqn:E; [|discriminate]. intros Hr Hm.
  apply (IH m1); [exact Hr | by eapply apply_ranged].
Qed.

Lemma held_range f l cs : 0 <= held f l cs <= Z.of_nat (length cs).
Proof.
  induction cs as [|c cs IH]; cbn [held length]; [lia|].
  assert (0 <= holds f l c <= 1); [|lia]. unfold holds.
  repeat case_decide; try lia;
    match goal with |- context [b2z ?x] => destruct x; cbn; lia end.
Qed.

Section runs.
Context `{Prometheus} `{Jwt}.
Variable to_json : list member -> str.
Variable cell : PolicyCell.
Variable vfm : bool.
Context (pacer_update : list Z -> Z -> PacerAction)
        (estimate : list Effect -> Instant -> ClientId -> option (Z * string))
        (floor_enabled bwe_cap_enabled : bool)
        (min_tick : Z).

#[local] Abbreviation serve_run := (serve_run to_json cell vfm pacer_update estimate floor_enabled
                         bwe_cap_enabled min_tick).

(** The series after a run from start-up. *)
Lemma run_series cfg relay client ts s es terms b interval edge m0 :
  serve_run cfg (server_new relay client) ts s es -> SfuMetrics_new terms b interval edge = Ok m0 ->
  fields m0 = families /\
  exists m, apply_effects families es (series m0) = Some m /\ bounded (ids_of s) m /\
    moves es (series m0) m /\ settled (reg s).
Proof.
  intros Hr E. destruct (started _ _ _ _ _ E) as (Hf & Hb & _). split; [done|].
  destruct (run_obeys _ _ _ _ _ _ _ _ _ _ _ _ _ Hr (server_new_settled relay client)) as [Hs R].
  destruct (R (series m0) (Hb _)) as (m & Em & Bm & _ & Mm). exists m. by split_and!.
Qed.

(** C7. No metric update can panic: each counter, gauge and histogram that a run
    of the loop or a WebSocket session touches is a field of [SfuMetrics] of that
    kind, given as many label values as it was registered with, so every update
    is applied, in whatever order those of the concurrent tasks interleave. *)
Theorem updates_accepted cfg relay client ts s es terms b interval edge m0 json sessions all :
  serve_run cfg (server_new relay client) ts s es -> SfuMetrics_new terms b interval edge = Ok m0 ->
  all ≡ₚ es ++ (sessions ≫= fun '(hint_ms, peer, room, env, reg) =>
                  session_metrics (upgraded json hint_ms peer room env reg).1) ->
  is_Some (apply_effects (fields m0) all (series m0)).
Proof.
  intros Hr E Hall. destruct (run_series _ _ _ _ _ _ _ _ _ _ _ Hr E) as (-> & m & Em & _).
  apply accepted_all. rewrite Hall. apply Forall_app_2.
  - apply (accepted_all es (series m0)). by rewrite Em.
  - apply Forall_forall. intros e (x & He & _)%list_elem_of_bind. destruct x as [[[[hint_ms peer] room] env] reg].
    pose proof (fits_accepted _ _ (session_fits json hint_ms peer room env reg)) as F.
    rewrite Forall_forall in F. by apply F.
Qed.

(** C6. A client that has left leaves nothing in the nine families that the loop
    labels with client ids and scrubs (bandwidth estimate, delivered media, pacer
    throttling, layers and layer transitions, chat and voice bytes): after any run
    of the loop, with disconnects, solo kicks and session steals, and with the
    updates of any WebSocket sessions in between, every series of these families
    that a scrape shows carries the id of a client that is in the room.  (The two
    families of bandwidth hints are not among them: they are labelled with the peer
    ids of tokens.) *)
Theorem departed_series_gone cfg relay client ts s es terms b interval edge m0 json sessions ss all m x :
  serve_run cfg (server_new relay client) ts s es -> SfuMetrics_new terms b interval edge = Ok m0 ->
  ss ≡ₚ (sessions ≫= fun '(hint_ms, peer, room, env, reg) =>
           session_metrics (upgraded json hint_ms peer room env reg).1) ->
  merged es ss all -> apply_effects (fields m0) all (series m0) = Some m ->
  x.1 ∈ CLIENT_FAMILIES -> is_Some (m !! x) ->
  exists c, c ∈ clients (reg s) /\ client_series (label_of (id c)) x.
Proof.
  intros Hr E Hss Hm Em Hf Hx. destruct (run_series _ _ _ _ _ _ _ _ _ _ _ Hr E) as (Hfs & m' & Em' & Hb & _).
  rewrite Hfs in Em. assert (Forall (fun e => elsewhere e = true) ss) as Hs.
  { rewrite Hss. apply Forall_forall. intros e (y & He & _)%list_elem_of_bind.
    destruct y as [[[[hint_ms peer] room] env] reg].
    pose proof (session_elsewhere json hint_ms peer room env reg) as F. rewrite Forall_forall in F. by apply F. }
  rewrite (merged_local es ss all (series m0) m (series m0) m' x) in Hx by done.
  destruct (Hb x Hx (client_families_scrubbed _ Hf)) as (i & Hi & Hp).
  apply list_elem_of_fmap in Hi as (c & -> & Hc). exists c. split; [done|]. by apply peer_series_client.
Qed.

(** A series of any other family stays for the life of the process: once a
    scrape shows it, every later scrape does, although forward decisions,
    subscription set-ups, str0m outputs, peer and media statistics and speaker
    scores are labelled with client ids too. *)
Theorem unscrubbed_series_stay cfg relay client ts s es ts' s' es' terms b interval edge m0 m m' x :
  serve_run cfg (server_new relay client) ts s es -> serve_run cfg s ts' s' es' ->
  SfuMetrics_new terms b interval edge = Ok m0 ->
  apply_effects (fields m0) es (series m0) = Some m -> apply_effects (fields m0) es' m = Some m' ->
  x.1 ∉ scrubbed -> is_Some (m !! x) -> is_Some (m' !! x).
Proof.
  intros Hr Hr' E Em Em' Hs Hx.
  destruct (run_series _ _ _ _ _ _ _ _ _ _ _ Hr E) as (Hf & m1 & E1 & Hb & _ & Hset).
  rewrite Hf in *. rewrite E1 in Em. injection Em as ->.
  destruct (run_obeys _ _ _ _ _ _ _ _ _ _ _ _ _ Hr' Hset) as [_ R].
  destruct (R m Hb) as (m2 & E2 & _ & K & _). rewrite E2 in Em'. injection Em' as ->. by apply K.
Qed.

(** C5. The population gauges of a scrape are the population: after any run from
    start-up the participant gauge is the number of clients in the registry and
    each data-channel gauge the number of such channels they hold, as long as
    the room is not larger than a 64-bit signed number. *)
Theorem gauges_scraped cfg relay client ts s es terms b interval edge m0 m :
  serve_run cfg (server_new relay client) ts s es -> SfuMetrics_new terms b interval edge = Ok m0 ->
  apply_effects (fields m0) es (series m0) = Some m ->
  Z.of_nat (length (clients (reg s))) <= i64_max ->
  value_at ("active_participants", []) m = Z.of_nat (length (clients (reg s))) /\
  forall f l, (f, l) ∈ gauges -> value_at (f, l) m = held f l (clients (reg s)).
Proof.
  intros Hr E Em Hlen. destruct (run_series _ _ _ _ _ _ _ _ _ _ _ Hr E) as (Hf & m' & Em' & _ & Hm & _).
  rewrite Hf, Em' in Em. injection Em as ->.
  destruct (started _ _ _ _ _ E) as (_ & _ & Hz).
  assert (ranged m) as Hrange.
  { apply (apply_all_ranged es (series m0)); [exact Em'|]. intros f l Hp. rewrite (Hz f l Hp). by vm_compute. }
  assert (forall f l, (f, l) ∈ gauges -> value_at (f, l) m = held f l (clients (reg s))) as Hg.
  { intros f l Hin. assert (f ∈ population) as Hp by (unfold gauges in Hin; unfold population; set_solver).
    pose proof (Hm f l Hp) as W. rewrite (Hz f l Hp), Z.add_0_l in W.
    rewrite (run_gauges _ _ _ _ _ _ _ _ _ _ _ _ _ f l Hr Hin) in W. cbn [held] in W.
    pose proof (held_range f l (clients (reg s))) as Hh. rewrite wrap_i64_id in W by (by apply Hrange).
    rewrite W. cbn. rewrite Z.sub_0_r. apply wrap_i64_id. unfold i64_min. lia. }
  split; [|exact Hg]. rewrite <- held_participants. apply Hg. left.
Qed.
End runs.

(** ** A run on concrete input *)

Definition demo_metrics : SfuMetrics :=
  match SfuMetrics_new ["client_hint"] false 250 None with
  | Ok m => m
  | Err _ => mkSfuMetrics [] [] ∅
  end.

Lemma demo_metrics_new : SfuMetrics_new ["client_hint"] false 250 None = Ok demo_metrics.
Proof.
  unfold demo_metrics. destruct (start_up ["client_hint"] false 250 None) as (m & E & _). by rewrite E.
Qed.

Lemma is_Some_default {A} (o : option A) d : is_Some o -> o = Some (default d o).
Proof. by intros [x ->]. Qed.

Definition demo_store : Store := default ∅ (apply_effects (fields demo_metrics) demo_effects (series demo_metrics)).

Lemma demo_applied : apply_effects (fields demo_metrics) demo_effects (series demo_metrics) = Some demo_store.
Proof.
  apply is_Some_default.
  destruct (run_series (H0 := Minted.jwt []) _ _ _ _ _ _ _ _ _ _ _ _ _ _ _ _ _ _ _ demo_runs demo_metrics_new)
    as (-> & m & -> & _). by eexists.
Qed.

(** One more turn in the room of the run, which client 1 has left. *)
Definition later_turn : option (Server * list Effect) :=
  serve_all (H := Minted.jwt []) render_object None false (fun _ _ => NoChange) (fun _ _ _ => None) true false
    0 20 demo_cfg [demo_turn (WSleep (fun _ => true) 100000000)] demo_state.
Definition later_state : Server := default demo_state (fst <$> later_turn).
Definition later_effects : list Effect := default [] (snd <$> later_turn).
Definition later_store : Store := default ∅ (apply_effects (fields demo_metrics) later_effects demo_store).

Lemma later_runs :
  serve_run (H := Minted.jwt []) render_object None false (fun _ _ => NoChange) (fun _ _ _ => None) true
    false 0 demo_cfg demo_state [demo_turn (WSleep (fun _ => true) 100000000)] later_state later_effects.
Proof. apply (serve_all_run _ _ _ _ _ _ _ _ 20). vm_compute. reflexivity. Qed.

Lemma later_applied : apply_effects (fields demo_metrics) later_effects demo_store = Some later_store.
Proof. apply is_Some_default. refine (bool_decide_eq_true_1 _ _). vm_compute. reflexivity. Qed.

(** The hints of a browser peer. *)
Definition demo_json (t : str) : option (string -> option str) :=
  Some (fun k => if bool_decide (k = "kind") then Some (lit (if is_empty t then "offer" else "bwe-hint"))
                 else Some (lit "x")).
Definition demo_session : Z * Z * str * SessionEnv * HintRegistry :=
  (100, 70, lit "r1",
   mkSessionEnv [RText []] true true true true true true [EvRecv (RText [1]) 5 SentNow true] 9, ∅).

Lemma updates_accepted_witness :
  is_Some (apply_effects (fields demo_metrics)
    ((session_metrics (upgraded demo_json 100 70 (lit "r1") demo_session.1.2 ∅).1) ++ demo_effects)
    (series demo_metrics)).
Proof.
  apply (updates_accepted (H0 := Minted.jwt []) render_object None false (fun _ _ => NoChange)
    (fun _ _ _ => None) true false 0 demo_cfg true true demo_turns demo_state demo_effects
    ["client_hint"] false 250 None demo_metrics demo_json [demo_session] _ demo_runs demo_metrics_new).
  unfold demo_session. cbn [mbind list_bind fst snd]. rewrite app_nil_r. apply Permutation_app_comm.
Defined.

Lemma unscrubbed_series_stay_witness :
  is_Some (later_store !! ("sfu_str0m_output_total", ["1"; "timeout"])) /\ 1 ∉ ids_of later_state.
Proof.
  split; [|refine (bool_decide_eq_true_1 _ _); vm_compute; reflexivity].
  apply (unscrubbed_series_stay (H0 := Minted.jwt []) render_object None false (fun _ _ => NoChange)
    (fun _ _ _ => None) true false 0 demo_cfg true true demo_turns demo_state demo_effects
    [demo_turn (WSleep (fun _ => true) 100000000)] later_state later_effects
    ["client_hint"] false 250 None demo_metrics demo_store later_store _ demo_runs later_runs
    demo_metrics_new demo_applied later_applied).
  - refine (bool_decide_eq_true_1 _ _); vm_compute; reflexivity.
  - refine (bool_decide_eq_true_1 _ _); vm_compute; reflexivity.
Defined.

Lemma gauges_scraped_witness :
  value_at ("active_participants", []) demo_store = 3 /\
  value_at ("chat_relay_active_channels", ["reactions"]) demo_store = 2.
Proof.
  destruct (gauges_scraped (H0 := Minted.jwt []) render_object None false (fun _ _ => NoChange)
    (fun _ _ _ => None) true false 0 demo_cfg true true demo_turns demo_state demo_effects
    ["client_hint"] false 250 None demo_metrics demo_store demo_runs demo_metrics_new demo_applied)
    as [H1 H2]; [vm_compute; discriminate|].
  split; [rewrite H1; vm_compute; reflexivity|].
  rewrite H2; [vm_compute; reflexivity|]. refine (bool_decide_eq_true_1 _ _). vm_compute. reflexivity.
Defined.

(** A run in which the peers send voice frames and the second one is replaced. *)
Definition voice_turn (w : Wake) : Turn :=
  mkTurn 0 0 0 (fun _ => mkWsEnv (fun _ => nego_env "o0" 1) [] false) 0 0
    (fun _ => [Some (OEvent (EChannelData (Some "voice") [1; 2])); Some (OTimeout 7)]) (fun _ => room_env)
    (fun _ => Sent) 0 w 1.
Definition voice_turns : list Turn :=
  [voice_turn (WClient (Some (mkPendingClient 70)) true room_env);
   voice_turn (WClient (Some (mkPendingClient 80)) true room_env);
   voice_turn (WClient (Some (mkPendingClient 80)) true room_env); voice_turn (WSleep (fun _ => true) 100000000)].
Definition voice_run : option (Server * list Effect) :=
  serve_all (H := Minted.jwt []) render_object None false (fun _ _ => NoChange) (fun _ _ _ => None) true false
    0 20 demo_cfg voice_turns (server_new true true).
Definition voice_state : Server := default demo_state (fst <$> voice_run).
Definition voice_effects : list Effect := default [] (snd <$> voice_run).
Definition voice_store : Store :=
  default ∅ (apply_effects (fields demo_metrics) voice_effects (series demo_metrics)).

Lemma voice_runs :
  serve_run (H := Minted.jwt []) render_object None false (fun _ _ => NoChange) (fun _ _ _ => None) true
    false 0 demo_cfg (server_new true true) voice_turns voice_state voice_effects.
Proof. apply (serve_all_run _ _ _ _ _ _ _ _ 20). vm_compute. reflexivity. Qed.

Lemma voice_applied : apply_effects (fields demo_metrics) voice_effects (series demo_metrics) = Some voice_store.
Proof.
  apply is_Some_default.
  destruct (run_series (H0 := Minted.jwt []) _ _ _ _ _ _ _ _ _ _ _ _ _ _ _ _ _ _ _ voice_runs demo_metrics_new)
    as (-> & m & -> & _). by eexists.
Qed.

Lemma merged_after {A} (a b : list A) : merged a b (a ++ b).
Proof.
  induction a as [|x a IH]; cbn; [|by constructor]. induction b as [|y b IH]; by constructor.
Qed.

(** The peer of client 2 also sends a hint. *)
Definition hinting : list Effect :=
  session_metrics (upgraded demo_json 100 80 (lit "r1") demo_session.1.2 ∅).1.
Definition hinting_store : Store :=
  default ∅ (apply_effects (fields demo_metrics) (voice_effects ++ hinting) (series demo_metrics)).

Lemma hinting_applied :
  apply_effects (fields demo_metrics) (voice_effects ++ hinting) (series demo_metrics) = Some hinting_store.
Proof. apply is_Some_default. refine (bool_decide_eq_true_1 _ _). vm_compute. reflexivity. Qed.

Lemma departed_series_gone_witness :
  (exists c, c ∈ clients (reg voice_state) /\
     client_series (label_of (id c)) ("voice_relay_rx_bytes_total", ["2"])) /\
  ~ is_Some (hinting_store !! ("voice_relay_rx_bytes_total", ["1"])).
Proof.
  split; [|refine (bool_decide_eq_true_1 _ _); vm_compute; reflexivity].
  apply (departed_series_gone (H0 := Minted.jwt []) render_object None false (fun _ _ => NoChange)
    (fun _ _ _ => None) true false 0 demo_cfg true true voice_turns voice_state voice_effects
    ["client_hint"] false 250 None demo_metrics demo_json [(100, 80, lit "r1", demo_session.1.2, ∅)]
    hinting (voice_effects ++ hinting) hinting_store _ voice_runs demo_metrics_new).
  - cbn [mbind list_bind]. by rewrite app_nil_r.
  - apply merged_after.
  - exact hinting_applied.
  - refine (bool_decide_eq_true_1 _ _); vm_compute; reflexivity.
  - refine (bool_decide_eq_true_1 _ _); vm_compute; reflexivity.
Defined.

(** ** Hint counters *)

(** A series that no effect removes stays. *)
Lemma unremoved_stays es x m m' :
  RemoveLabels x.1 x.2 ∉ es -> apply_effects families es m = Some m' -> is_Some (m !! x) -> is_Some (m' !! x).
Proof.
  revert m. induction es as [|e es IH]; intros m Hn; cbn [apply_effects]; [by intros [= <-]|].
  apply not_elem_of_cons in Hn as [He Hn].
  destruct (apply_effect families e m) as [m1|] eqn:E; [|discriminate]. intros Hr Hx.
  apply (IH m1 Hn Hr). unfold apply_effect in E. destruct (update_of e) as [[n l ok v|n l]|] eqn:Hu.
  - destruct (find_family families n) as [f|]; [|discriminate].
    destruct (ok f && series_ok f l); [|discriminate]. injection E as <-.
    apply lookup_insert_is_Some'. by right.
  - destruct (find_family families n) as [f|]; [|discriminate]. destruct (is_vec f); [|discriminate].
    injection E as <-. apply lookup_delete_is_Some. split; [|exact Hx]. intros <-. apply He.
    destruct e; try discriminate Hu. by injection Hu as <- <-.
  - injection E as <-. exact Hx.
Qed.

Definition HINT_FAMILIES : list string := ["sfu_bwe_hint_received_total"; "sfu_bwe_hint_throttled_total"].

(** A scrub removes the hint counters of its own label only. *)
Lemma scrub_hint n p q :
  n ∈ HINT_FAMILIES -> RemoveLabels n [p] ∈ scrub_labels q -> p = q.
Proof.
  unfold HINT_FAMILIES. rewrite !elem_of_cons, elem_of_nil. intros Hn Hr. unfold scrub_labels in Hr. cbn in Hr.
  destruct_or! Hn; try done; subst n;
    repeat (apply elem_of_cons in Hr as [Hr|Hr]; [first [discriminate Hr | by injection Hr as ->]|]);
    by apply elem_of_nil in Hr.
Qed.

Lemma reap_keeps_hints now r n peer :
  n ∈ HINT_FAMILIES -> peer ∉ (id <$> clients r) -> RemoveLabels n [label_of peer] ∉ (reap_dead now r).2.
Proof.
  intros Hn Hp Hin. unfold reap_dead in Hin. cbn [snd] in Hin. apply elem_of_app in Hin as [Hin|Hin].
  2: { destruct (filter _ (clients r)); [|by apply elem_of_nil in Hin].
       apply elem_of_cons in Hin as [Hin|Hin]; [discriminate Hin | by apply elem_of_nil in Hin]. }
  apply list_elem_of_bind in Hin as (c & Hin & [_ Hc]%list_elem_of_filter). unfold reap_client in Hin.
  apply elem_of_app in Hin as [Hin|Hin].
  { repeat (apply elem_of_cons in Hin as [Hin|Hin]; [discriminate Hin|]). by apply elem_of_nil in Hin. }
  apply elem_of_app in Hin as [Hin|Hin].
  - apply scrub_hint in Hin; [|done]. apply (inj (pretty : Z -> string)) in Hin. apply Hp, list_elem_of_fmap. by exists c.
  - unfold lower_gauges in Hin. rewrite !elem_of_app in Hin. destruct_or! Hin; repeat case_match; set_solver.
Qed.

(** The counters of a peer's bandwidth hints outlive the peer: they are
    labelled with the peer id of its token, the departure of its client removes
    the series labelled with the client id, so a hint that a session counted
    stays in every scrape after the reap, unless the room happens to hold a client
    whose id is that number. *)
Theorem hint_series_outlive_peer interval peer at_ p now r m m1 m2 :
  peer ∉ (id <$> clients r) ->
  apply_effects families (pk_effects (take_hint interval peer at_ p)) m = Some m1 ->
  apply_effects families (reap_dead now r).2 m1 = Some m2 ->
  exists n, n ∈ HINT_FAMILIES /\ is_Some (m2 !! (n, [label_of peer])).
Proof.
  intros Hp E1 E2. unfold take_hint in E1.
  destruct (hint_gate interval peer at_ (pk_hints p)) as [throttled reg]. cbn [pk_effects] in E1.
  set (n := if throttled then "sfu_bwe_hint_throttled_total" else "sfu_bwe_hint_received_total") in *.
  assert (n ∈ HINT_FAMILIES) as Hn by (unfold n, HINT_FAMILIES; destruct throttled; set_solver).
  exists n. split; [exact Hn|]. apply (unremoved_stays (reap_dead now r).2 (n, [label_of peer]) m1 m2); [|exact E2|].
  { by apply reap_keeps_hints. }
  rewrite apply_effects_app in E1. destruct (apply_effects families (pk_effects p) m) as [m0|]; [|discriminate].
  clearbody n. cbn [mbind option_bind apply_effects] in E1. unfold apply_effect in E1. cbn [update_of] in E1.
  destruct (find_family families n) as [f|]; [|discriminate].
  destruct (_ && _); [|discriminate]. injection E1 as <-. apply lookup_insert_is_Some'. by left.
Qed.

(** The peer 70 of the run above, as client 0, disconnects. *)
Definition left_room : Registry :=
  mkRegistry [put_alive false (with_external_peer_id 70 (client_new 0 150000))] [] None [].
Definition hinted_store : Store :=
  default ∅ (apply_effects families (pk_effects (take_hint 100 70 5 (mkParked ∅ [] []))) (series demo_metrics)).
Definition reaped_store : Store := default ∅ (apply_effects families (reap_dead 6 left_room).2 hinted_store).

Lemma hint_series_outlive_peer_witness :
  (exists n, n ∈ HINT_FAMILIES /\ is_Some (reaped_store !! (n, ["70"]))) /\
  clients (reap_dead 6 left_room).1 = [].
Proof.
  split; [|vm_compute; reflexivity].
  apply (hint_series_outlive_peer 100 70 5 (mkParked ∅ [] []) 6 left_room (series demo_metrics) hinted_store).
  - refine (bool_decide_eq_true_1 _ _); vm_compute; reflexivity.
  - apply is_Some_default. refine (bool_decide_eq_true_1 _ _); vm_compute; reflexivity.
  - apply is_Some_default. refine (bool_decide_eq_true_1 _ _); vm_compute; reflexivity.
Defined.
