(* ===== verification/SfuConfig.v ===== *)
(** * Configuration and start-up
      (crates/sfu/src/config.rs, main.rs, bwe_temporal_cap.rs, pacer_floor.rs,
       udp_loop.rs)

    The environment is a function from variable names to their text;
    [std::env::var] fails alike for a variable that is unset and for one that is
    not Unicode.  A failed [expect] is an error value.  [plan] is what [main]
    decides before it serves: which APIs run, with which keys, which addresses
    are advertised, and the arguments of the UDP loop. *)

From Stdlib Require Import ZArith Lia.
From stdpp Require Import base option numbers gmap strings list.
From S2P Require Import Prelude RustStr NetAddr DdParse DdCache SfuTypes RoomAuth SfuChannelData RelayApi ClientWs SfuUdpLoop.

Definition Vars := string -> option str.

(** [parse] of an unsigned integer type with the given maximum. *)
Definition parse_uint (max : Z) (s : str) : option Z :=
  match s with
  | c :: t => if c =? PLUS then parse_dec max t else parse_dec max s
  | [] => None
  end.
Definition u16_max : Z := 65535.

Record SfuConfig := mkConfig {
  udp_port : Z;
  metrics_port : Z;
  bind_address : str;
  log_level : str;
  relay_api_port : Z;
  client_ws_port : Z;
  cfg_relay_auth_secret : option (list Z);
  fips_mode : bool;
  sfu_signing_public_key : option str;
  public_ip : option IpAddr;
  local_ip : option IpAddr;
  stats_interval_secs : Z;
  solo_kick_after_secs : Z;
  metrics_bind : option str;
  relay_api_bind : option str;
  client_ws_bind : option str;
  cfg_relay_hs256_fallback_enabled : bool;
}.

Definition config_default : SfuConfig :=
  mkConfig 3478 9317 (lit "0.0.0.0") (lit "info") 8912 8920 None false None None None 2 120
    None None None true.

(** ** Readers of single variables *)

Definition env (vars : Vars) (key : string) (default_ : str) : str := default default_ (vars key).

Definition non_empty (s : option str) : option str :=
  match s with Some t => if is_empty t then None else Some t | None => None end.

Definition eq_ignore_ascii_case (a b : str) : bool :=
  bool_decide (to_ascii_lowercase a = to_ascii_lowercase b).

Definition parse_hs256_fallback_env (vars : Vars) : bool :=
  match vars "SFU_RELAY_HS256_FALLBACK" with
  | None => true
  | Some raw =>
      let v := trim raw in
      if is_empty v then true
      else if eq_ignore_ascii_case v (lit "false") || bool_decide (v = lit "0") then false
      else true
  end.

Definition parse_public_ip_env (vars : Vars) : option IpAddr :=
  match non_empty (vars "SFU_PUBLIC_IP") with
  | Some raw => parse_ip raw
  | None => None
  end.

Definition parse_local_ip_env (vars : Vars) : option IpAddr :=
  match non_empty (vars "SFU_LOCAL_IP") with
  | Some raw =>
      match parse_ip raw with
      | Some ip => if is_private_relay_target ip then Some ip else None
      | None => None
      end
  | None => None
  end.

Definition DEFAULT_MAX_PARTICIPANTS : Z := 50.
Definition max_participants (vars : Vars) : Z :=
  match non_empty (vars "SFU_MAX_PARTICIPANTS") with
  | Some raw => default DEFAULT_MAX_PARTICIPANTS (parse_uint u32_max raw)
  | None => DEFAULT_MAX_PARTICIPANTS
  end.

(** The two process-wide switches, read once. *)
Definition flag_on (vars : Vars) (key : string) : bool := bool_decide (vars key = Some (lit "1")).
Definition bwe_temporal_cap_enabled (vars : Vars) : bool := flag_on vars "SFU_BWE_TEMPORAL_CAP".
Definition pacer_floor_enabled (vars : Vars) : bool := flag_on vars "SFU_PACER_FLOOR".

(** ** [SfuConfig::from_env] *)

(** [env(key, default).parse().expect(..)]. *)
Definition port_env (vars : Vars) (key : string) (default_ : Z) : result Z string :=
  match parse_uint u16_max (env vars key (to_string default_)) with
  | Some p => Ok p
  | None => Err (key +:+ " must be a number")
  end.

Definition secs_env (vars : Vars) (key : string) (default_ : Z) : Z :=
  default default_ (match vars key with Some s => parse_uint u64_max s | None => None end).

Definition from_env (vars : Vars) : result SfuConfig string :=
  let d := config_default in
  let? udp := port_env vars "SFU_UDP_PORT" (udp_port d) in
  let? metrics := port_env vars "SFU_METRICS_PORT" (metrics_port d) in
  let? relay_api := port_env vars "SFU_RELAY_API_PORT" (relay_api_port d) in
  let? client_ws := port_env vars "SFU_CLIENT_WS_PORT" (client_ws_port d) in
  Ok {| udp_port := udp;
        metrics_port := metrics;
        bind_address := env vars "SFU_BIND_ADDRESS" (bind_address d);
        log_level := env vars "RUST_LOG" (log_level d);
        relay_api_port := relay_api;
        client_ws_port := client_ws;
        cfg_relay_auth_secret := as_bytes <$> non_empty (vars "SIGNALING_SFU_SECRET");
        fips_mode := bool_decide (vars "SFU_FIPS" = Some (lit "1"));
        sfu_signing_public_key := vars "SFU_SIGNING_PUBLIC_KEY";
        public_ip := parse_public_ip_env vars;
        local_ip := parse_local_ip_env vars;
        stats_interval_secs := secs_env vars "STR0M_STATS_INTERVAL_SECS" 2;
        solo_kick_after_secs := secs_env vars "SFU_SOLO_KICK_AFTER_SECS" 120;
        metrics_bind := non_empty (vars "SFU_METRICS_BIND");
        relay_api_bind := non_empty (vars "SFU_RELAY_API_BIND");
        client_ws_bind := non_empty (vars "SFU_CLIENT_WS_BIND");
        cfg_relay_hs256_fallback_enabled := parse_hs256_fallback_env vars |}.

(** ** What the configuration resolves to *)

Definition metrics_bind_addr (c : SfuConfig) : str := default (lit "127.0.0.1") (metrics_bind c).
Definition relay_api_bind_addr (c : SfuConfig) : str := default (bind_address c) (relay_api_bind c).
Definition client_ws_bind_addr (c : SfuConfig) : str := default (bind_address c) (client_ws_bind c).

Definition additional_host_candidates (c : SfuConfig) (primary : SocketAddr) : list SocketAddr :=
  match local_ip c with
  | Some ip => if bool_decide (ip <> addr_ip primary) then [mkAddr ip (addr_port primary)] else []
  | None => []
  end.

(** The statistics interval of [build_rtc]; zero turns statistics off. *)
Definition stats_interval (c : SfuConfig) : option Z :=
  if stats_interval_secs c =? 0 then None else Some (stats_interval_secs c * second).

Definition solo_kick_timeout (c : SfuConfig) : option Z :=
  if solo_kick_after_secs c =? 0 then None else Some (solo_kick_after_secs c * second).

(** The advertised address: [SFU_PUBLIC_IP] at the port that was bound. *)
Definition host_candidate_addr (c : SfuConfig) (local_addr : SocketAddr) : SocketAddr :=
  match public_ip c with
  | Some ip => mkAddr ip (addr_port local_addr)
  | None => local_addr
  end.

(** ** [main] *)

Inductive StartError :=
| BadConfig (panic : string)
| BadPolicy (e : PolicyError)
| FipsNotCompiled
| BadActivation (e : ActivationError).

Record Plan := mkPlan {
  pl_config : SfuConfig;
  pl_cell : PolicyCell;
  pl_relay_api : option RelayApiState;
  pl_client_ws : option ClientWsState;
  pl_host_candidate : SocketAddr;
  pl_additional : list SocketAddr;
  pl_serve : Serve;
  pl_relay_rx : bool;
  pl_client_rx : bool;
}.

(** [fips] is the cargo feature, [local_addr] the address the UDP socket got,
    [epoch] the time the registry was made, [low_min_bps] the kit's constant.
    Binding the sockets is left out. *)
Definition plan (vars : Vars) (fips : bool) (local_addr : SocketAddr) (epoch : Instant)
    (low_min_bps : Z) : result Plan StartError :=
  let? config := match from_env vars with Ok c => Ok c | Err e => Err (BadConfig e) end in
  let? policy := match from_lookup vars with Ok p => Ok p | Err e => Err (BadPolicy e) end in
  let? cell := match init_policy policy None with Ok c => Ok c | Err e => Err (BadPolicy e) end in
  let? _ := if fips_mode config && negb fips then Err FipsNotCompiled else Ok tt in
  let? activation :=
    match compute_relay_activation (vars "RELAY_JWT_SECRET") (sfu_signing_public_key config)
            (cfg_relay_hs256_fallback_enabled config) with
    | Ok a => Ok a
    | Err e => Err (BadActivation e)
    end in
  let host := host_candidate_addr config local_addr in
  Ok {| pl_config := config;
        pl_cell := cell;
        pl_relay_api := if ac_enabled activation
                        then Some (relay_api_state activation (sfu_signing_public_key config))
                        else None;
        pl_client_ws := (fun secret => mkWsState secret (sfu_signing_public_key config)
                                         (cfg_relay_hs256_fallback_enabled config))
                        <$> cfg_relay_auth_secret config;
        pl_host_candidate := host;
        pl_additional := additional_host_candidates config host;
        pl_serve := mkServe (cfg_relay_auth_secret config) (sfu_signing_public_key config)
                      (cfg_relay_hs256_fallback_enabled config) host (solo_kick_timeout config) epoch
                      low_min_bps;
        pl_relay_rx := ac_enabled activation;
        pl_client_rx := bool_decide (is_Some (cfg_relay_auth_secret config)) |}.
