(* ===== verification/SfuConfigFacts.v ===== *)
(** * Theorems on configuration and start-up

    Which environments start, what the hardening switch guarantees at every
    place that accepts a token, what an unusable public key does, and where
    datagrams to the additional host candidate go. *)

From Stdlib Require Import ZArith Lia.
From stdpp Require Import base option numbers gmap strings list.
From S2P Require Import Prelude RustStr NetAddr DdParse DdCache SfuTypes SfuRegistry SfuRegistryFacts.
From S2P Require Import RoomAuth SfuChannelData RelayApi RelayApiFacts ClientWs ClientWsFacts SfuDispatch SfuUdpLoop.
From S2P Require Import SfuUdpLoopFacts SfuUdpLoopProps SfuConfig.

(** ** Which environments start *)

Definition port_vars : list string :=
  ["SFU_UDP_PORT"; "SFU_METRICS_PORT"; "SFU_RELAY_API_PORT"; "SFU_CLIENT_WS_PORT"].

(** A port variable that is unset or holds a 16-bit number, with an optional
    plus sign. *)
Definition port_ok (vars : Vars) (key : string) : Prop :=
  match vars key with
  | None => True
  | Some s => exists ds sign, s = sign ++ ds /\ (sign = [] \/ sign = lit "+") /\
                digits ds = true /\ dec_value ds <= u16_max
  end.

Lemma parse_uint_Some max s :
  is_Some (parse_uint max s) <->
  exists ds sign, s = sign ++ ds /\ (sign = [] \/ sign = lit "+") /\ digits ds = true /\
    dec_value ds <= max.
Proof.
  assert (forall t, is_Some (parse_dec max t) <-> digits t = true /\ dec_value t <= max) as Hd.
  { intros t. unfold parse_dec. destruct (digits t); cbn [andb].
    - destruct (Z.leb_spec (dec_value t) max); split.
      + done.
      + intros _. by eexists.
      + by intros [? ?].
      + intros [_ ?]. lia.
    - split; [by intros [? ?] | by intros [? ?]]. }
  assert (forall t, digits (PLUS :: t) = false) as Hplus by done.
  unfold parse_uint. destruct s as [|c t].
  { split; [by intros [? ?]|]. intros (ds & sign & E & _ & Hds & _).
    symmetry in E. apply app_eq_nil in E as [-> ->]. done. }
  destruct (Z.eqb_spec c PLUS) as [->|Hne]; rewrite Hd.
  - split.
    + intros [? ?]. exists t, (lit "+"). auto.
    + intros (ds & sign & E & [->| ->] & Hds & Hv); cbn in E.
      * subst ds. by rewrite Hplus in Hds.
      * injection E as ->. auto.
  - split.
    + intros [? ?]. exists (c :: t), []. auto.
    + intros (ds & sign & E & [->| ->] & Hds & Hv); cbn in E; [by subst|]. by injection E as -> _.
Qed.

Lemma port_env_ok vars key d :
  0 <= d <= u16_max -> (exists p, port_env vars key d = Ok p) <-> port_ok vars key.
Proof.
  intros Hd. unfold port_env, port_ok, env. destruct (vars key) as [s|]; simpl.
  - rewrite <- parse_uint_Some. destruct (parse_uint u16_max s) as [p|].
    + split; intros _; by eexists.
    + split; [by intros [? ?] | by intros [? ?]].
  - assert (is_Some (parse_uint u16_max (to_string d))) as [p ->]; [|split; by eauto].
    apply parse_uint_Some. exists (to_string d), []. split; [done|]. split; [by left|].
    pose proof (parse_dec_to_string u16_max d Hd) as Hp. unfold parse_dec in Hp.
    destruct (digits (to_string d)); [|done]. cbn [andb] in Hp. split; [done|].
    destruct (Z.leb_spec (dec_value (to_string d)) u16_max); [done|discriminate].
Qed.

(** One port of [from_env]: go on when it is read, close the goal when not. *)
Ltac port_case H :=
  let E := fresh "E" in let O := fresh "O" in
  destruct H as [[[? E] O]|[E O]]; [done | |]; rewrite E; cbn [rbind is_ok];
  [|split_and!; [naive_solver | intros ? [= <-]; eexists; split_and!; [|done|exact O]; set_solver | done]].

(** Which environments start: the configuration is read successfully
    exactly when each of the four port variables is unset or holds a decimal
    16-bit number; otherwise start-up panics and names a port variable that is
    set to something else.  Nothing else in the environment can stop it, and an
    empty environment gives the documented defaults. *)
Theorem config_starts vars :
  (is_ok (from_env vars) = true <-> Forall (port_ok vars) port_vars) /\
  (forall e, from_env vars = Err e ->
     exists key, key ∈ port_vars /\ e = key +:+ " must be a number" /\ ~ port_ok vars key) /\
  from_env (fun _ => None) = Ok config_default.
Proof.
  assert (forall key d, 0 <= d <= u16_max ->
    (exists p, port_env vars key d = Ok p) /\ port_ok vars key \/
    port_env vars key d = Err (key +:+ " must be a number") /\ ~ port_ok vars key) as Hport.
  { intros key d Hd. pose proof (port_env_ok vars key d Hd) as Hok.
    destruct (port_env vars key d) as [p|e] eqn:E.
    - left. split; [by eexists|]. apply Hok. by eexists.
    - right. split; [|intros Hp; apply Hok in Hp as [? ?]; done].
      unfold port_env in E. destruct (parse_uint _ _); [done|]. by injection E as <-. }
  unfold from_env, port_vars. rewrite !Forall_cons, Forall_nil.
  cbn [udp_port metrics_port relay_api_port client_ws_port config_default].
  port_case (Hport "SFU_UDP_PORT" 3478). port_case (Hport "SFU_METRICS_PORT" 9317).
  port_case (Hport "SFU_RELAY_API_PORT" 8912). port_case (Hport "SFU_CLIENT_WS_PORT" 8920).
  split_and!; [naive_solver | done | done].
Qed.

(** ** The hardening switch *)

(** The switch is set to one of the two values that turn the fallback off. *)
Definition switched_off (raw : str) : Prop :=
  trim raw = lit "0" \/ to_ascii_lowercase (trim raw) = lit "false".

Lemma fallback_switched_off vars raw :
  vars "SFU_RELAY_HS256_FALLBACK" = Some raw -> switched_off raw ->
  parse_hs256_fallback_env vars = false.
Proof.
  unfold parse_hs256_fallback_env, switched_off, eq_ignore_ascii_case. intros -> [E|E].
  - rewrite E. reflexivity.
  - rewrite E. destruct (trim raw); [done|]. reflexivity.
Qed.

(** What a plan was made from. *)
Lemma plan_Ok vars fips la epoch lm pl :
  plan vars fips la epoch lm = Ok pl ->
  exists config policy act,
    from_env vars = Ok config /\ from_lookup vars = Ok policy /\
    (fips_mode config = true -> fips = true) /\
    compute_relay_activation (vars "RELAY_JWT_SECRET") (sfu_signing_public_key config)
      (cfg_relay_hs256_fallback_enabled config) = Ok act /\
    pl_config pl = config /\ pl_cell pl = Some policy /\
    pl_relay_api pl = (if ac_enabled act
                       then Some (relay_api_state act (sfu_signing_public_key config)) else None) /\
    pl_client_ws pl = (fun secret => mkWsState secret (sfu_signing_public_key config)
                         (cfg_relay_hs256_fallback_enabled config)) <$> cfg_relay_auth_secret config /\
    sv_auth_secret (pl_serve pl) = cfg_relay_auth_secret config /\
    sv_signing_pubkey (pl_serve pl) = sfu_signing_public_key config /\
    sv_hs256_fallback (pl_serve pl) = cfg_relay_hs256_fallback_enabled config /\
    pl_additional pl = additional_host_candidates config (host_candidate_addr config la).
Proof.
  unfold plan. destruct (from_env vars) as [config|]; [|done]. cbn [rbind].
  destruct (from_lookup vars) as [policy|]; [|done]. cbn [rbind init_policy].
  destruct (fips_mode config) eqn:Hf, fips; try done; cbn [andb negb rbind];
    (destruct (compute_relay_activation _ _ _) as [act|] eqn:Ha; [|done]); cbn [rbind];
    intros [= <-]; exists config, policy, act; split_and!; (done || congruence).
Qed.

Lemma from_env_fields vars config :
  from_env vars = Ok config ->
  sfu_signing_public_key config = vars "SFU_SIGNING_PUBLIC_KEY" /\
  cfg_relay_hs256_fallback_enabled config = parse_hs256_fallback_env vars /\
  local_ip config = parse_local_ip_env vars.
Proof.
  unfold from_env. repeat (destruct (port_env _ _ _); [|done]; cbn [rbind]). by intros [= <-].
Qed.

(** C22. A hardened deployment accepts nothing but Ed25519: when a public key is
    configured and the fallback switch is off, every token that opens a browser's
    session, promotes a peer to a relay, or has a relay task queued, carries a
    signature by the configured key, whatever shared secrets are also set.  A
    browser's and a promotion's token, by its own payload, also names the room and
    was unexpired, and it satisfied the issuer and audience binding read from the
    same environment; a relay grant was unexpired and not issued more than 30
    seconds ahead of the clock (it is held to no issuer or audience). *)
Theorem hardened_deployment `{JwtLaws} vars fips la epoch lm pl pem raw :
  plan vars fips la epoch lm = Ok pl ->
  vars "SFU_SIGNING_PUBLIC_KEY" = Some pem ->
  vars "SFU_RELAY_HS256_FALLBACK" = Some raw -> switched_off raw ->
  exists policy, from_lookup vars = Ok policy /\
    (forall st now cap active header room peer r fx,
       pl_client_ws pl = Some st ->
       client_ws_upgrade now (pl_cell pl) st cap active header room = (RunSession peer r, fx) ->
       exists token key c, extract_bearer_from_subprotocols header = Some token /\
         from_ed_pem pem = Some key /\ peer = rc_sub c /\ token_bound policy now token room EdDSA key c) /\
    (forall now vfm cid label data o url,
       handle_channel_data now (pl_cell pl) vfm cid label data (sv_auth_secret (pl_serve pl))
         (sv_signing_pubkey (pl_serve pl)) (sv_hs256_fallback (pl_serve pl)) = PMarkRelaySource o url ->
       exists text token key c, from_utf8 data = Some text /\
         extract_str_value text "roomToken" = Some token /\ from_ed_pem pem = Some key /\
         ends_in url (rc_room c) /\ token_bound policy now token (rc_room c) EdDSA key c) /\
    (forall parse_uri api k qo token sh resp sh' fx,
       pl_relay_api pl = Some api ->
       relay_connect parse_uri api k qo token sh = (resp, sh', fx) -> rs_code resp = OK_200 ->
       exists key jwt, from_ed_pem pem = Some key /\
         grant_bound token EdDSA key (at_eddsa k) (at_iat k) jwt).
Proof.
  intros Hpl Hpem Hraw Hoff. apply plan_Ok in Hpl
    as (config & policy & act & Hc & Hp & _ & Hact & _ & -> & -> & -> & -> & -> & -> & _).
  apply from_env_fields in Hc as (Hk & Hf & _). rewrite Hk, Hpem in *.
  rewrite (fallback_switched_off _ _ Hraw Hoff) in Hf. rewrite Hf in *.
  exists policy. split; [done|]. split; [|split].
  - intros st now cap active header room peer r fx Hst Hu.
    destruct (cfg_relay_auth_secret config) as [s|]; [|done]. injection Hst as <-.
    unfold client_ws_upgrade in Hu. destruct (extract_bearer_from_subprotocols header) as [token|]; [|done].
    destruct (verify_token _ _ _ _ _) as [[c|[]] vfx] eqn:Hv; try done.
    destruct (cap <=? active); [done|]. injection Hu as <- _ _.
    apply verify_token_sound in Hv as [(pem' & key & [= <-] & ? & ?)|(? & _ & [?|?] & _)]; try done.
    by exists token, key, c.
  - intros now vfm cid label data o url Hh.
    apply channel_promotion_sound in Hh as [_ [[_ ?]|(text & token & c & ? & ? & _ & _ & Hw)]]; [done|].
    destruct (promotion_warrant_claims _ _ _ _ _ _ _ _ Hw) as (_ & Hr & _).
    destruct Hw as [(pem' & key & [= <-] & ? & ?)|(? & _ & [?|?] & _)]; try done.
    exists text, token, key, c. rewrite Hr. split_and!; try done; apply last_segment_ends.
  - intros parse_uri api k qo token sh resp sh' fx Hapi Hrc Hok.
    destruct (ac_enabled act); [|done]. injection Hapi as <-.
    destruct (relay_connect_OK _ _ _ _ _ _ _ _ _ Hrc Hok) as (jwt & alg & Hv & _).
    apply activation_credentials in Hact as (Hcred & _).
    assert (ac_hs256_fallback_effective act = false) as Heff
      by (destruct (vars "RELAY_JWT_SECRET"); naive_solver).
    apply verify_relay_jwt_sound in Hv as [(pem' & key & Hpk & ? & ?)|[[Hn|Hfb] _]];
      cbn in *; [|done|congruence].
    injection Hpk as <-. by exists key, jwt.
Qed.

(** ** A deployment, evaluated *)

Definition demo_env (key : string) : option str :=
  if decide (key = "SFU_SIGNING_PUBLIC_KEY") then Some (lit "PEM")
  else if decide (key = "SFU_RELAY_HS256_FALLBACK") then Some (lit " False ")
  else if decide (key = "SIGNALING_SFU_SECRET") then Some (lit "secret")
  else if decide (key = "SFU_PUBLIC_IP") then Some (lit "203.0.113.9")
  else if decide (key = "SFU_LOCAL_IP") then Some (lit "10.0.0.7")
  else None.

(** The same deployment with the key variable set to nothing. *)
Definition demo_env_blank (key : string) : option str :=
  if decide (key = "SFU_SIGNING_PUBLIC_KEY") then Some []
  else if decide (key = "SFU_RELAY_HS256_FALLBACK") then None else demo_env key.

Definition demo_bound : SocketAddr := mkAddr (V4 0 0 0 0) 3478.

Definition demo_plan (vars : Vars) : option Plan :=
  match plan vars false demo_bound 0 150000 with Ok pl => Some pl | Err _ => None end.

(** A browser's Ed25519 token is accepted at the hardened deployment. *)
Lemma hardened_deployment_witness :
  exists token key c,
    extract_bearer_from_subprotocols (Some (lit "oxpulse-sfu-v1, bearer.tok-ed")) = Some token /\
    from_ed_pem (Jwt := Minted.jwt demo_table) (lit "PEM") = Some key /\ 7 = rc_sub c /\
    token_bound (H0 := Minted.jwt_laws demo_table) transitional 950 token (lit "r1") EdDSA key c.
Proof.
  destruct (hardened_deployment (H0 := Minted.jwt_laws demo_table) demo_env false demo_bound 0 150000
    _ (lit "PEM") (lit " False ") ltac:(reflexivity) ltac:(reflexivity) ltac:(reflexivity)
    ltac:(right; reflexivity)) as (policy & Hp & Hws & _).
  vm_compute in Hp. injection Hp as <-.
  exact (Hws _ 950 50 49 (Some (lit "oxpulse-sfu-v1, bearer.tok-ed")) (lit "r1") 7 (lit "r1")
    [Inc "relay_jwt_verify_total" ["eddsa"]] ltac:(reflexivity) ltac:(vm_compute; reflexivity)).
Defined.

(** ** A key that cannot be read *)

(** A public key that cannot be parsed locks everyone out: if the variable
    is set to anything the library does not accept as a key - the empty text
    among it - the process starts, reports its relay API as enabled, and then
    refuses every browser (401), every promotion and every relay grant, also
    those signed under a valid shared secret with the fallback switched on. *)
Theorem unusable_signing_key_locks_out `{Jwt} vars fips la epoch lm pl pem :
  plan vars fips la epoch lm = Ok pl ->
  vars "SFU_SIGNING_PUBLIC_KEY" = Some pem -> from_ed_pem pem = None ->
  (forall st now cap active header room, pl_client_ws pl = Some st ->
     (client_ws_upgrade now (pl_cell pl) st cap active header room).1 = Unauthorized) /\
  (forall now vfm cid label data o url,
     handle_channel_data now (pl_cell pl) vfm cid label data (sv_auth_secret (pl_serve pl))
       (sv_signing_pubkey (pl_serve pl)) (sv_hs256_fallback (pl_serve pl)) <> PMarkRelaySource o url) /\
  exists api, pl_relay_api pl = Some api /\
    forall k token, verify_relay_jwt k token (ra_secret api) (ra_signing_public_key api)
      (ra_hs256_fallback_enabled api) = Err RjMalformed.
Proof.
  intros Hpl Hpem Hkey. apply plan_Ok in Hpl
    as (config & policy & act & Hc & Hp & _ & Hact & _ & -> & -> & -> & -> & -> & -> & _).
  apply from_env_fields in Hc as (Hk & _ & _). rewrite Hk, Hpem in *. split_and!.
  - intros st now cap active header room Hst.
    destruct (cfg_relay_auth_secret config) as [s|]; [|done]. injection Hst as <-.
    unfold client_ws_upgrade. destruct (extract_bearer_from_subprotocols header); [|done].
    unfold verify_token, verify_room_token_ed25519, verify_room_token_ed25519_with. cbn.
    by rewrite Hkey.
  - intros now vfm cid label data o url. unfold handle_channel_data.
    destruct (from_utf8 data) as [s|]; [|apply handle_by_label_no_promotion].
    case_bool_decide; [|apply handle_by_label_no_promotion]. unfold handle_relay_source.
    destruct (extract_str_value s "upstreamUrl"); [|done]. cbn [orb].
    rewrite bool_decide_true by done. unfold promote_with_token. cbn [orb].
    destruct (extract_str_value s "roomToken"); [|done]. cbv zeta. destruct (is_empty _); [done|].
    unfold verify_promotion, verify_room_token_ed25519, verify_room_token_ed25519_with. by rewrite Hkey.
  - apply activation_credentials in Hact as (_ & Hen & _).
    rewrite (proj2 Hen) by (right; by eexists). eexists. split; [done|].
    intros k token. unfold verify_relay_jwt, relay_verify_ed25519. cbn. by rewrite Hkey.
Qed.

(** An empty variable: the shared-secret token that would do otherwise. *)
Lemma unusable_signing_key_locks_out_witness :
  exists st, (pl_client_ws <$> demo_plan demo_env_blank) = Some (Some st) /\
    (client_ws_upgrade (H := Minted.jwt demo_table) 950 (Some transitional) st 50 0
       (Some (lit "oxpulse-sfu-v1, bearer.tok-hs")) (lit "r1")).1 = Unauthorized /\
    (client_ws_upgrade (H := Minted.jwt demo_table) 950 (Some transitional)
       (mkWsState (ws_secret st) None true) 50 0
       (Some (lit "oxpulse-sfu-v1, bearer.tok-hs")) (lit "r1")).1 = RunSession 7 (lit "r1").
Proof.
  eexists. split; [reflexivity|]. split; [|vm_compute; reflexivity].
  exact (proj1 (unusable_signing_key_locks_out (H := Minted.jwt demo_table) demo_env_blank false
    demo_bound 0 150000 _ [] ltac:(reflexivity) ltac:(reflexivity) ltac:(reflexivity))
    _ 950 50 0 (Some (lit "oxpulse-sfu-v1, bearer.tok-hs")) (lit "r1") ltac:(reflexivity)).
Defined.

(** ** The additional candidate *)

(** Where datagrams to the additional candidate's address go: at most one
    private candidate is advertised next to the primary one, at the primary's
    port - and no flush ever hands the socket a datagram whose destination has
    that IP address, whatever port it is for: each is dropped and counted as
    [rfc1918].  A relay on the same address, which is what the candidate is
    for, can send to the SFU but never gets an answer. *)
Theorem private_candidate_unanswered vars fips la epoch lm pl a :
  plan vars fips la epoch lm = Ok pl -> a ∈ pl_additional pl ->
  pl_additional pl = [a] /\ addr_port a = addr_port la /\ is_private_relay_target (addr_ip a) = true /\
  forall now send s t,
    t ∈ sends (flush_transmits now send s).2 -> addr_ip (t_destination t) <> addr_ip a.
Proof.
  intros Hpl Ha. apply plan_Ok in Hpl as (config & policy & act & Hc & _ & _ & _ & _ & _ & _ & _ & _ & _ & _ & Hadd).
  apply from_env_fields in Hc as (_ & _ & Hl). rewrite Hadd in *. unfold additional_host_candidates in *.
  destruct (local_ip config) as [ip|]; [|by apply elem_of_nil in Ha].
  case_bool_decide; [|by apply elem_of_nil in Ha].
  apply list_elem_of_singleton in Ha as ->. cbn [addr_ip addr_port].
  assert (is_private_relay_target ip = true) as Hpriv.
  { unfold parse_local_ip_env in Hl. destruct (non_empty _) as [raw|]; [|done].
    destruct (parse_ip raw) as [ip'|]; [|done].
    destruct (is_private_relay_target ip') eqn:E; [|done]. by injection Hl as ->. }
  split; [done|]. split; [unfold host_candidate_addr; by destruct (public_ip config)|]. split; [done|].
  intros now send s t Hin E. rewrite flushed in Hin. apply list_elem_of_filter in Hin as [Hb _].
  destruct (t_destination t) as [dip dport]. cbn in E. subst dip.
  by rewrite (private_target_is_bogon _ _ Hpriv) in Hb.
Qed.

(** The deployment above behind a NAT without hairpin. *)
Lemma private_candidate_unanswered_witness :
  exists pl, demo_plan demo_env = Some pl /\
    pl_host_candidate pl = mkAddr (V4 203 0 113 9) 3478 /\
    forall now send s t, t ∈ sends (flush_transmits now send s).2 ->
      addr_ip (t_destination t) <> V4 10 0 0 7.
Proof.
  eexists. split; [reflexivity|]. split; [reflexivity|].
  exact (proj2 (proj2 (proj2 (private_candidate_unanswered demo_env false demo_bound 0 150000 _
    (mkAddr (V4 10 0 0 7) 3478) ltac:(reflexivity) ltac:(vm_compute; left))))).
Defined.
