(* ===== verification/AwgParams.v ===== *)
(** * AmneziaWG parameters and their grammar
      (crates/awg-params-agent/src/params.rs)

    The epoch record, the shape-only [IntOrRange] parser and the validators of
    every value the agent may write into [awg0.conf].  An error is the field it
    names with the reason; the text of the message is not modelled.  The
    base64 decoder of the [base64] crate is a parameter. *)

From Stdlib Require Import ZArith Lia.
From stdpp Require Import base option numbers sets strings list.
From S2P Require Import Prelude RustStr.

Inductive IntOrRange :=
| Single (n : Z)
| Range (lo hi : Z).
#[export] Instance IntOrRange_eq_dec : EqDecision IntOrRange.
Proof. solve_decision. Defined.

Record AwgParams := mkAwgParams {
  p_jc : option Z;
  p_jmin : option Z;
  p_jmax : option Z;
  p_s1 : Z;
  p_s2 : Z;
  p_s3 : option Z;
  p_s4 : Z;
  p_h1 : IntOrRange;
  p_h2 : IntOrRange;
  p_h3 : IntOrRange;
  p_h4 : IntOrRange;
  p_i1 : option str;
  p_i2 : option str;
  p_i3 : option str;
  p_i4 : option str;
  p_i5 : option str;
  p_header_protection_key : option str;
  p_content_padding_addition : option str;
  p_rekey_after_time : option str;
  p_rekey_timeout : option str;
  p_reject_after_time : option str;
  p_keepalive_timeout : option str;
  p_max_handshake_attempts : option str;
  p_random_trailers : option bool;
  p_disable_cookies : option bool;
}.

Inductive Reason :=
| ForbiddenChar
| OutsideJunk
| UnterminatedTag
| EmptyTag
| BadTagArgument
| UnknownTag
| NoTag
| ScanStuck
| OutsideS
| OutsideH
| BadRange
| BadBase64
| BadKeyLength
| TypeMismatch
| ReservedPair
| HOverlap
| ShortJunkForKey
| JunkInverted.

(** [Rejected field why]: an error that carries the [field=] marker. *)
Inductive Error :=
| Rejected (field : string) (why : Reason)
| NoSection.

(** ** The error texts *)

(** The words that follow the field name, up to the first value quoted. *)
Definition reason_words (why : Reason) : str :=
  match why with
  | ForbiddenChar => lit " contains forbidden character "
  | OutsideJunk | OutsideS | BadRange => lit " value "
  | UnterminatedTag | EmptyTag | BadTagArgument | UnknownTag | NoTag | ScanStuck => lit " value "
  | OutsideH => lit " range "
  | BadBase64 => lit " value is not valid base64 ("
  | BadKeyLength => lit " base64-decodes to "
  | TypeMismatch => lit " internal type mismatch "
  | ReservedPair => lit " post-merge S2="
  | HOverlap => lit " post-merge H range "
  | ShortJunkForKey => lit " active HPK requires all post-merge S1-S4 >= 12 (got s1="
  | JunkInverted => lit " post-merge jmin="
  end.

(** The text of an error; [quoted] is the rest of it, from the first value it
    quotes on. *)
Definition rejection_text (quoted : Error -> str) (e : Error) : str :=
  match e with
  | Rejected field why => lit "awg param rejected: field=" ++ lit field ++ reason_words why ++ quoted e
  | NoSection => lit "conf merge: no " ++ quoted e
  end.

(** ** [IntOrRange::parse] *)

Definition int_or_range_parse (s : str) : option IntOrRange :=
  match split_once MINUS s with
  | Some (lo, hi) => lo ← parse_i64 lo; hi ← parse_i64 hi; Some (Range lo hi)
  | None => Single <$> parse_i64 s
  end.

(** ** The conf-injection guard *)

Definition FORBIDDEN_CONF_CHARS : list Z := [NL; CR; LBRACKET; RBRACKET].

Definition forbidden (c : Z) : bool := existsb (Z.eqb c) FORBIDDEN_CONF_CHARS.

Definition validate_conf_string (field : string) (value : str) : result unit Error :=
  if existsb forbidden value then Err (Rejected field ForbiddenChar) else Ok tt.

(** ** Numeric validators *)

Definition validate_junk_value (field : string) (n : Z) : result unit Error :=
  if (0 <=? n) && (n <=? u32_max) then Ok tt else Err (Rejected field OutsideJunk).

Definition validate_s_value (field : string) (n : Z) : result unit Error :=
  if (0 <=? n) && (n <=? 65535) then Ok tt else Err (Rejected field OutsideS).

Definition validate_h_value (field : string) (v : IntOrRange) : result unit Error :=
  let '(lo, hi) := match v with Single n => (n, n) | Range lo hi => (lo, hi) end in
  if (lo <? 5) || (4294967295 <? hi) || (hi <? lo) then Err (Rejected field OutsideH) else Ok tt.

(** ** I-tags *)

Definition is_key (key : str) (l : list string) : bool := bool_decide (key ∈ lit <$> l).

(** The body of the tag loop: why the tag is rejected, if it is.  ([len] counts
    bytes; where every character is a hex digit bytes and characters agree, and
    elsewhere the argument is rejected anyway.) *)
Definition tag_rejected (tag : str) : option Reason :=
  let '(key, arg) := match split_once SPACE tag with
                     | Some (k, a) => (k, Some a)
                     | None => (tag, None)
                     end in
  if is_empty key then Some EmptyTag
  else if is_key key ["b"] then
    match arg with
    | None => Some BadTagArgument
    | Some arg =>
        let hex := default arg (strip_prefix (lit "0x") arg) in
        if is_empty hex || Nat.odd (length hex) || negb (forallb is_ascii_hexdigit hex)
        then Some BadTagArgument else None
    end
  else if is_key key ["r"; "rc"; "rd"; "dz"] then
    match arg with
    | None => Some BadTagArgument
    | Some arg =>
        match parse_u64 arg with
        | Some n => if n <=? 65535 then None else Some BadTagArgument
        | None => Some BadTagArgument
        end
    end
  else if is_key key ["t"; "d"; "ds"] then None
  else Some UnknownTag.

(** [while let Some(start) = rest.find('<')]: every turn consumes at least two
    characters, so the length of the value is fuel enough. *)
Fixpoint scan_tags (fuel : nat) (rest : str) (saw_tag : bool) : result bool Reason :=
  match split_once LT rest with
  | None => Ok saw_tag
  | Some (_, after) =>
      match split_once GT after with
      | None => Err UnterminatedTag
      | Some (tag, rest) =>
          match tag_rejected tag with
          | Some why => Err why
          | None => match fuel with
                    | O => Err ScanStuck
                    | S fuel => scan_tags fuel rest true
                    end
          end
      end
  end.

Definition validate_i_tag (field : string) (value : str) : result unit Error :=
  let? _ := validate_conf_string field value in
  if is_empty value then Ok tt
  else match scan_tags (length value) value false with
       | Err why => Err (Rejected field why)
       | Ok true => Ok tt
       | Ok false => Err (Rejected field NoTag)
       end.

(** ** Ranges *)

Definition validate_range_string (field : string) (value : str) : result unit Error :=
  let? _ := validate_conf_string field value in
  let '(lo_s, hi_s) := match split_once MINUS value with
                       | Some (lo, hi) => (lo, hi)
                       | None => (value, value)
                       end in
  let ok := digits lo_s && digits hi_s &&
            match parse_u64 lo_s, parse_u64 hi_s with
            | Some lo, Some hi => lo <=? hi
            | _, _ => false
            end in
  if ok then Ok tt else Err (Rejected field BadRange).

(** ** Header-protection key *)

Section Base64.
(** [BASE64.decode]. *)
Context (b64_decode : str -> option (list Z)).

Definition decode_hpk (field : string) (value : str) : result (list Z) Error :=
  let? _ := validate_conf_string field value in
  match b64_decode value with
  | None => Err (Rejected field BadBase64)
  | Some bytes =>
      if Nat.eqb (length bytes) 32 then Ok bytes else Err (Rejected field BadKeyLength)
  end.

Definition hpk_is_active (value : str) : bool :=
  match b64_decode value with
  | Some b => negb (Nat.eqb (length b) 32 && forallb (Z.eqb 0) b)
  | None => true
  end.

End Base64.

(** ** The grammars, stated as such *)

(** A character that starts a new line or a section header. *)
Definition clean (v : str) : Prop := Forall (fun c => c ∉ FORBIDDEN_CONF_CHARS) v.

Inductive good_tag : str -> Prop :=
| good_hex prefix hex :
    prefix ∈ [[]; lit "0x"] -> hex <> [] -> Nat.Even (length hex) ->
    Forall (fun c => is_ascii_hexdigit c = true) hex ->
    good_tag (lit "b" ++ SPACE :: prefix ++ hex)
| good_length key arg n :
    key ∈ ["r"; "rc"; "rd"; "dz"] -> parse_u64 arg = Some n -> n <= 65535 ->
    good_tag (lit key ++ SPACE :: arg)
| good_plain key : key ∈ ["t"; "d"; "ds"] -> good_tag (lit key)
| good_ignored key arg : key ∈ ["t"; "d"; "ds"] -> good_tag (lit key ++ SPACE :: arg).

(** Text, a tag in angle brackets, and so on; text is whatever has no [<]. *)
Inductive tag_chain : str -> Prop :=
| chain_text text : LT ∉ text -> tag_chain text
| chain_tag text tag rest :
    LT ∉ text -> GT ∉ tag -> good_tag tag -> tag_chain rest ->
    tag_chain (text ++ LT :: tag ++ GT :: rest).

(** ** Theorems *)

Lemma validate_conf_string_ok f v : validate_conf_string f v = Ok tt <-> clean v.
Proof.
  unfold validate_conf_string, clean. destruct (existsb forbidden v) eqn:E; split; try done.
  - intros H. exfalso. apply existsb_exists in E as (c & Hc & Hf).
    rewrite Forall_forall in H. apply (H c); [by apply list_elem_of_In|].
    apply existsb_exists in Hf as (x & Hx & Heq). apply Z.eqb_eq in Heq as ->.
    by apply list_elem_of_In.
  - intros _. apply Forall_forall. intros c Hc Hbad.
    assert (existsb forbidden v = true) as Ht; [|congruence].
    apply existsb_exists. exists c. split; [by apply list_elem_of_In|].
    apply existsb_exists. exists c. split; [by apply list_elem_of_In | apply Z.eqb_refl].
Qed.

Lemma validate_conf_string_cases f v :
  validate_conf_string f v = Ok tt /\ clean v \/
  validate_conf_string f v = Err (Rejected f ForbiddenChar) /\ ~ clean v.
Proof.
  destruct (validate_conf_string f v) as [[]|e] eqn:E.
  - left. split; [done|]. by apply (validate_conf_string_ok f).
  - right. split.
    + unfold validate_conf_string in E. destruct (existsb _ _); by simplify_eq.
    + intros H. apply (validate_conf_string_ok f) in H. congruence.
Qed.

Lemma clean_no_nl v : clean v -> NL ∉ v.
Proof. unfold clean. rewrite Forall_forall. intros H Hn. apply (H NL Hn). left. Qed.

Lemma is_key_spec key l : is_key key l = true <-> exists k, k ∈ l /\ key = lit k.
Proof.
  unfold is_key. rewrite bool_decide_eq_true, list_elem_of_fmap. naive_solver.
Qed.

(** The key of a tag has no space. *)
Lemma key_no_space k :
  k ∈ ["b"; "r"; "rc"; "rd"; "dz"; "t"; "d"; "ds"] -> (SPACE ∉ lit k) /\ lit k <> [].
Proof.
  intros H. repeat (apply elem_of_cons in H as [->|H]; [split; [|done]; vm_compute;
    intros Hin; repeat (apply elem_of_cons in Hin as [?|Hin]; [done|]);
    by apply elem_of_nil in Hin|]).
  by apply elem_of_nil in H.
Qed.

(** Case on the concrete key of a membership hypothesis. *)
Ltac each_key H :=
  repeat (apply elem_of_cons in H as [->|H]); try (by apply elem_of_nil in H).

Lemma split_key k arg :
  k ∈ ["b"; "r"; "rc"; "rd"; "dz"; "t"; "d"; "ds"] ->
  split_once SPACE (lit k ++ SPACE :: arg) = Some (lit k, arg).
Proof. intros Hk. apply split_once_Some. split; [done|]. by apply key_no_space. Qed.

Lemma split_key_alone k :
  k ∈ ["b"; "r"; "rc"; "rd"; "dz"; "t"; "d"; "ds"] -> split_once SPACE (lit k) = None.
Proof. intros Hk. apply split_once_None. by apply key_no_space. Qed.

Lemma hex_argument arg :
  (let hex := default arg (strip_prefix (lit "0x") arg) in
   is_empty hex || Nat.odd (length hex) || negb (forallb is_ascii_hexdigit hex)) = false <->
  exists prefix hex, prefix ∈ [[]; lit "0x"] /\ arg = prefix ++ hex /\ hex <> [] /\
    Nat.Even (length hex) /\ Forall (fun c => is_ascii_hexdigit c = true) hex.
Proof.
  cbv zeta. rewrite !orb_false_iff, negb_false_iff.
  assert (forall hex, (is_empty hex = false /\ Nat.odd (length hex) = false) /\
      forallb is_ascii_hexdigit hex = true <->
    hex <> [] /\ Nat.Even (length hex) /\ Forall (fun c => is_ascii_hexdigit c = true) hex) as H.
  { intros hex. rewrite <- Nat.negb_even, negb_false_iff, Nat.even_spec, Forall_forall, forallb_forall.
    setoid_rewrite <- list_elem_of_In. destruct hex; naive_solver. }
  rewrite H. split.
  - intros Hh. destruct (strip_prefix (lit "0x") arg) as [t|] eqn:E; cbn in Hh.
    + apply strip_prefix_Some in E as ->. exists (lit "0x"), t. split; [right; left | done].
    + exists [], arg. split; [left | done].
  - intros (prefix & hex & Hp & -> & Hh). each_key Hp.
    + destruct (strip_prefix (lit "0x") ([] ++ hex)) as [t|] eqn:E; [|done].
      apply strip_prefix_Some in E. cbn in E. subst hex. destruct Hh as (_ & _ & Hf).
      by inversion_clear Hf as [|? ? _ Hx]; inversion_clear Hx.
    + by rewrite (proj2 (strip_prefix_Some (lit "0x") (lit "0x" ++ hex) hex) eq_refl).
Qed.

Lemma tag_rejected_complete tag : good_tag tag -> tag_rejected tag = None.
Proof.
  unfold tag_rejected. destruct 1 as [prefix hex Hp Hne He Hf|key arg n Hk Hn Hle|key Hk|key arg Hk].
  - rewrite (split_key "b") by left. change (is_key (lit "b") ["b"]) with true.
    change (is_empty (lit "b")) with false.
    pose proof (proj2 (hex_argument (prefix ++ hex)) ltac:(by exists prefix, hex)) as Hh.
    cbv zeta in Hh |- *. by rewrite Hh.
  - rewrite split_key by (each_key Hk; set_solver). each_key Hk; cbv [is_key]; cbn;
      rewrite Hn; by destruct (Z.leb_spec n 65535); [|lia].
  - rewrite split_key_alone by (each_key Hk; set_solver). by each_key Hk.
  - rewrite split_key by (each_key Hk; set_solver). by each_key Hk.
Qed.

Lemma tag_rejected_sound tag : tag_rejected tag = None -> good_tag tag.
Proof.
  unfold tag_rejected. destruct (split_once SPACE tag) as [[key arg]|] eqn:Hs.
  - apply split_once_Some in Hs as [-> _]. destruct (is_empty key); [done|].
    destruct (is_key key ["b"]) eqn:Hb.
    { apply is_key_spec in Hb as (k & Hk & ->). each_key Hk. intros H.
      assert (Hh : (let hex := default arg (strip_prefix (lit "0x") arg) in
        is_empty hex || Nat.odd (length hex) || negb (forallb is_ascii_hexdigit hex)) = false).
      { cbv zeta in H |- *. by destruct (_ || _). }
      apply hex_argument in Hh as (prefix & hex & ? & -> & ? & ? & ?). by constructor. }
    destruct (is_key key ["r"; "rc"; "rd"; "dz"]) eqn:Hr.
    { apply is_key_spec in Hr as (k & Hk & ->). destruct (parse_u64 arg) as [n|] eqn:Hn; [|done].
      destruct (Z.leb_spec n 65535); [|done]. intros _. by eapply good_length. }
    destruct (is_key key ["t"; "d"; "ds"]) eqn:Ht; [|done].
    apply is_key_spec in Ht as (k & Hk & ->). intros _. by apply good_ignored.
  - destruct (is_empty tag); [done|]. destruct (is_key tag ["b"]); [done|].
    destruct (is_key tag ["r"; "rc"; "rd"; "dz"]); [done|].
    destruct (is_key tag ["t"; "d"; "ds"]) eqn:Ht; [|done].
    apply is_key_spec in Ht as (k & Hk & ->). intros _. by apply good_plain.
Qed.

Lemma scan_tags_sound fuel rest saw b :
  scan_tags fuel rest saw = Ok b -> tag_chain rest /\ (b = true <-> saw = true \/ LT ∈ rest).
Proof.
  revert rest saw. induction fuel as [|fuel IH]; intros rest saw; cbn [scan_tags].
  all: destruct (split_once LT rest) as [[text after]|] eqn:Hlt;
    [|apply split_once_None in Hlt; intros [= <-]; split; [by constructor | tauto]].
  all: apply split_once_Some in Hlt as [-> Htext].
  all: destruct (split_once GT after) as [[tag rest']|] eqn:Hgt; [|done].
  all: apply split_once_Some in Hgt as [-> Htag].
  all: destruct (tag_rejected tag) eqn:Hr; [done|]; [done || idtac].
  intros H. apply IH in H as [Hc Hb]. split.
  - apply chain_tag; [done | done | by apply tag_rejected_sound | done].
  - rewrite Hb. split; [|tauto]. intros _. right. apply elem_of_app. right. left.
Qed.

Lemma scan_tags_complete rest : tag_chain rest -> forall fuel saw, (length rest <= fuel)%nat ->
  exists b, scan_tags fuel rest saw = Ok b.
Proof.
  induction 1 as [text Ht|text tag rest Ht Hg Hgood _ IH]; intros fuel saw Hf.
  - exists saw. destruct fuel; cbn [scan_tags]; by rewrite (proj2 (split_once_None LT text) Ht).
  - rewrite length_app in Hf. cbn in Hf. rewrite length_app in Hf. cbn in Hf.
    destruct fuel as [|fuel]; [lia|]. cbn [scan_tags].
    rewrite (proj2 (split_once_Some LT _ text (tag ++ GT :: rest)) (conj eq_refl Ht)).
    rewrite (proj2 (split_once_Some GT _ tag rest) (conj eq_refl Hg)).
    rewrite tag_rejected_complete by done. apply IH. lia.
Qed.

(** The I-tag validator decides its grammar: it accepts exactly the values
    that are free of line breaks and brackets and are either empty or a chain of
    well-formed tags with at least one of them (a hex literal of even length, a
    length up to 65535, or a tag without a checked argument); its scan of any
    value ends. *)
Theorem validate_i_tag_grammar field v :
  validate_i_tag field v = Ok tt <-> clean v /\ (v = [] \/ LT ∈ v /\ tag_chain v).
Proof.
  unfold validate_i_tag. destruct (validate_conf_string_cases field v) as [[-> Hc]|[-> Hc]];
    cbn [rbind]; [|split; [done | tauto]].
  destruct v as [|c v']; [cbn; tauto|]. cbn [is_empty]. set (v := c :: v') in *.
  split.
  - destruct (scan_tags (length v) v false) as [[|]|why] eqn:Hs; [|done|done]. intros _.
    apply scan_tags_sound in Hs as [Hch Hb]. split; [done|]. right. split; [|done].
    by destruct (proj1 Hb eq_refl).
  - intros [_ [?|[Hlt Hch]]]; [done|].
    destruct (scan_tags_complete v Hch (length v) false (le_n _)) as [b Hb].
    rewrite Hb. apply scan_tags_sound in Hb as [_ Hb].
    by rewrite (proj2 Hb (or_intror Hlt)).
Qed.

(** ** Ranges *)

Lemma parse_u64_digits s : digits s = true ->
  parse_u64 s = if dec_value s <=? u64_max then Some (dec_value s) else None.
Proof.
  intros Hd. destruct s as [|c t]; [done|]. pose proof (digits_head _ c t Hd eq_refl).
  cbn [parse_u64]. destruct (Z.eqb_spec c PLUS) as [->|_]; [unfold PLUS in *; lia|].
  unfold parse_dec. by rewrite Hd.
Qed.

Lemma digits_no_minus s : digits s = true -> MINUS ∉ s.
Proof.
  intros [_ H]%digits_spec Hin. rewrite Forall_forall in H. specialize (H _ Hin).
  unfold MINUS in H. lia.
Qed.

Lemma digits_clean s : digits s = true -> clean s.
Proof.
  intros [_ H]%digits_spec. eapply Forall_impl; [exact H|]. intros c Hc Hin.
  unfold FORBIDDEN_CONF_CHARS, NL, CR, LBRACKET, RBRACKET in Hin.
  repeat (apply elem_of_cons in Hin as [->|Hin]; [lia|]). by apply elem_of_nil in Hin.
Qed.

(** A value the range validator accepts is one or two runs of digits, in
    order. *)
Lemma validate_range_string_grammar field v :
  validate_range_string field v = Ok tt <->
  exists lo hi, digits lo = true /\ digits hi = true /\ dec_value hi <= u64_max /\
    dec_value lo <= dec_value hi /\ (v = lo /\ hi = lo \/ v = lo ++ MINUS :: hi).
Proof.
  unfold validate_range_string. destruct (validate_conf_string_cases field v) as [[-> Hc]|[-> Hc]];
    cbn [rbind].
  - destruct (split_once MINUS v) as [[a b]|] eqn:Hs.
    + apply split_once_Some in Hs as [-> Ha]. split.
      * destruct (digits a) eqn:Hda, (digits b) eqn:Hdb; cbn; try done.
        rewrite !parse_u64_digits by done. intros H. exists a, b.
        destruct (Z.leb_spec (dec_value a) u64_max), (Z.leb_spec (dec_value b) u64_max); try done.
        destruct (Z.leb_spec (dec_value a) (dec_value b)); try done. split_and!; auto.
      * intros (lo & hi & Hlo & Hhi & Hm & Hle & [[<- _]|E]).
        { exfalso. apply (digits_no_minus _ Hlo), elem_of_app. right. left. }
        assert (split_once MINUS (a ++ MINUS :: b) = Some (a, b)) as E1 by by apply split_once_Some.
        assert (split_once MINUS (a ++ MINUS :: b) = Some (lo, hi)) as E2
          by (apply split_once_Some; split; [done | by apply digits_no_minus]).
        rewrite E1 in E2. injection E2 as -> ->. rewrite Hlo, Hhi, !parse_u64_digits by done. cbn.
        destruct (Z.leb_spec (dec_value lo) u64_max), (Z.leb_spec (dec_value hi) u64_max); try lia.
        by destruct (Z.leb_spec (dec_value lo) (dec_value hi)); [|lia].
    + apply split_once_None in Hs. split.
      * destruct (digits v) eqn:Hd; cbn; [|done]. rewrite !parse_u64_digits by done.
        destruct (Z.leb_spec (dec_value v) u64_max); [|done]. intros _. exists v, v.
        split_and!; auto; lia.
      * intros (lo & hi & Hlo & Hhi & Hm & Hle & [[-> ->]| ->]);
          [|exfalso; apply Hs, elem_of_app; right; left].
        rewrite Hlo, parse_u64_digits by done. cbn.
        destruct (Z.leb_spec (dec_value lo) u64_max); [|lia]. by rewrite Z.leb_refl.
  - split; [done|]. intros (lo & hi & Hlo & Hhi & _ & _ & Hv). exfalso. apply Hc.
    destruct Hv as [[-> _]| ->]; [by apply digits_clean|].
    apply Forall_app. split; [by apply digits_clean|]. constructor; [|by apply digits_clean].
    vm_compute. set_solver.
Qed.
