(* ===== verification/ConfMerge.v ===== *)
(** * Merging an epoch into awg0.conf
      (crates/awg-params-agent/src/conf_merge.rs)

    The field table, the resolve, validate and splice pipeline, and the
    generated client defaults.  The [regex] crate's answers on the two line
    patterns of the module are the operations of the class [ConfRegex]; the
    laws [ConfRegexLaws] state what the patterns mean, line by line, and
    [line_regex] is an implementation that has them.  The base64 decoder is a
    parameter; log lines are dropped. *)

From Stdlib Require Import ZArith Lia.
From stdpp Require Import base option numbers gmap strings list.
From S2P Require Import Prelude RustStr AwgParams.

Inductive MergeClass := MustMatch | ClientSide.
#[export] Instance MergeClass_eq_dec : EqDecision MergeClass.
Proof. solve_decision. Defined.

Inductive ConfSection := Interface.
#[export] Instance ConfSection_eq_dec : EqDecision ConfSection.
Proof. solve_decision. Defined.

Inductive SpecKind :=
| SInt
| HRange
| RangeString
| TagLiteral
| HeaderProtectionKey
| OnOff
| JunkCount.

Inductive FieldValue :=
| VInt (n : Z)
| VRange (lo hi : Z)
| VStr (s : str)
| VBool (b : bool).
#[export] Instance FieldValue_eq_dec : EqDecision FieldValue.
Proof. solve_decision. Defined.

Definition of_int_or_range (v : IntOrRange) : FieldValue :=
  match v with
  | Single n => VInt n
  | Range lo hi => VRange lo hi
  end.

Record ClientDefaults := mkClientDefaults {
  d_i1 : str;
  d_content_padding_addition : str;
  d_jc : Z;
  d_jmin : Z;
  d_jmax : Z;
}.

Record FieldSpec := mkFieldSpec {
  key : string;
  field : string;
  section : ConfSection;
  class : MergeClass;
  kind : SpecKind;
  epoch : AwgParams -> option FieldValue;
  dflt : ClientDefaults -> option FieldValue;
}.

(** ** The field table *)

Definition epoch_str (p : AwgParams) (get : AwgParams -> option str) : option FieldValue :=
  match get p with
  | Some s => if is_empty s then None else Some (VStr s)
  | None => None
  end.

Definition no_default (_ : ClientDefaults) : option FieldValue := None.

Definition FIELD_SPECS : list FieldSpec := [
  mkFieldSpec "Jc" "jc" Interface ClientSide JunkCount
    (fun p => VInt <$> p_jc p) (fun d => Some (VInt (d_jc d)));
  mkFieldSpec "Jmin" "jmin" Interface ClientSide JunkCount
    (fun p => VInt <$> p_jmin p) (fun d => Some (VInt (d_jmin d)));
  mkFieldSpec "Jmax" "jmax" Interface ClientSide JunkCount
    (fun p => VInt <$> p_jmax p) (fun d => Some (VInt (d_jmax d)));
  mkFieldSpec "S1" "s1" Interface MustMatch SInt (fun p => Some (VInt (p_s1 p))) no_default;
  mkFieldSpec "S2" "s2" Interface MustMatch SInt (fun p => Some (VInt (p_s2 p))) no_default;
  mkFieldSpec "S3" "s3" Interface MustMatch SInt (fun p => VInt <$> p_s3 p) no_default;
  mkFieldSpec "S4" "s4" Interface MustMatch SInt (fun p => Some (VInt (p_s4 p))) no_default;
  mkFieldSpec "H1" "h1" Interface MustMatch HRange
    (fun p => Some (of_int_or_range (p_h1 p))) no_default;
  mkFieldSpec "H2" "h2" Interface MustMatch HRange
    (fun p => Some (of_int_or_range (p_h2 p))) no_default;
  mkFieldSpec "H3" "h3" Interface MustMatch HRange
    (fun p => Some (of_int_or_range (p_h3 p))) no_default;
  mkFieldSpec "H4" "h4" Interface MustMatch HRange
    (fun p => Some (of_int_or_range (p_h4 p))) no_default;
  mkFieldSpec "I1" "i1" Interface ClientSide TagLiteral
    (fun p => epoch_str p p_i1) (fun d => Some (VStr (d_i1 d)));
  mkFieldSpec "I2" "i2" Interface ClientSide TagLiteral (fun p => epoch_str p p_i2) no_default;
  mkFieldSpec "I3" "i3" Interface ClientSide TagLiteral (fun p => epoch_str p p_i3) no_default;
  mkFieldSpec "I4" "i4" Interface ClientSide TagLiteral (fun p => epoch_str p p_i4) no_default;
  mkFieldSpec "I5" "i5" Interface ClientSide TagLiteral (fun p => epoch_str p p_i5) no_default;
  mkFieldSpec "HeaderProtectionKey" "header_protection_key" Interface MustMatch
    HeaderProtectionKey (fun p => epoch_str p p_header_protection_key) no_default;
  mkFieldSpec "ContentPaddingAddition" "content_padding_addition" Interface ClientSide
    RangeString (fun p => epoch_str p p_content_padding_addition)
    (fun d => Some (VStr (d_content_padding_addition d)));
  mkFieldSpec "RekeyAfterTime" "rekey_after_time" Interface ClientSide RangeString
    (fun p => epoch_str p p_rekey_after_time) no_default;
  mkFieldSpec "RekeyTimeout" "rekey_timeout" Interface ClientSide RangeString
    (fun p => epoch_str p p_rekey_timeout) no_default;
  mkFieldSpec "RejectAfterTime" "reject_after_time" Interface ClientSide RangeString
    (fun p => epoch_str p p_reject_after_time) no_default;
  mkFieldSpec "KeepaliveTimeout" "keepalive_timeout" Interface ClientSide RangeString
    (fun p => epoch_str p p_keepalive_timeout) no_default;
  mkFieldSpec "MaxHandshakeAttempts" "max_handshake_attempts" Interface ClientSide RangeString
    (fun p => epoch_str p p_max_handshake_attempts) no_default;
  mkFieldSpec "RandomTrailers" "random_trailers" Interface MustMatch OnOff
    (fun p => VBool <$> p_random_trailers p) no_default;
  mkFieldSpec "DisableCookies" "disable_cookies" Interface ClientSide OnOff
    (fun p => VBool <$> p_disable_cookies p) no_default
].

(** ** The line patterns *)

(** The pattern of a key (the key at the start of a line, blanks, an equals
    sign, blanks, and the captured rest of the line) and the pattern of the
    [Interface] header, on the text of a configuration file: the first captured
    value of a key, the text with every matching line replaced, and the end of
    the first header line. *)
Class ConfRegex := {
  captures : string -> str -> option str;
  replace_all : string -> str -> str -> str;
  header_end : str -> option nat;
}.

Definition is_blank (c : Z) : bool := (c =? SPACE) || (c =? TAB).

(** The value on a line of the key. *)
Definition line_value (k : string) (l : str) : option str :=
  t ← strip_prefix (lit k) l;
  match drop_while is_blank t with
  | c :: u => if c =? EQUALS then Some (drop_while is_blank u) else None
  | [] => None
  end.

Definition has_key (k : string) (l : str) : Prop := is_Some (line_value k l).

Definition is_header (l : str) : Prop := is_Some (strip_prefix (lit "[Interface]") l).

#[export] Instance has_key_dec k l : Decision (has_key k l).
Proof. unfold has_key. apply _. Defined.
#[export] Instance is_header_dec l : Decision (is_header l).
Proof. unfold is_header. apply _. Defined.

Definition put_line (k : string) (new l : str) : str := if decide (has_key k l) then new else l.

(** What the patterns mean: in multi-line mode the anchors match at the ends of
    each line, and a class that excludes the line feed stays within one. *)
Class ConfRegexLaws `{ConfRegex} : Prop := {
  captures_law k conf : captures k conf = head (omap (line_value k) (lines conf));
  replace_all_law k conf new :
    replace_all k conf new = unlines (put_line k new <$> lines conf);
  header_end_law conf :
    header_end conf =
      (fun x => length (unlines (take (S x.1) (lines conf)))) <$> list_find is_header (lines conf);
}.

Definition line_regex : ConfRegex := {|
  captures k conf := head (omap (line_value k) (lines conf));
  replace_all k conf new := unlines (put_line k new <$> lines conf);
  header_end conf :=
    (fun x => length (unlines (take (S x.1) (lines conf)))) <$> list_find is_header (lines conf);
|}.

#[export] Instance line_regex_laws : @ConfRegexLaws line_regex.
Proof. by split. Qed.

(** ** The operations of a field *)

Section Merge.
Context `{ConfRegex} (b64_decode : str -> option (list Z)).

Definition parse_conf_value (spec : FieldSpec) (raw : str) : option FieldValue :=
  let raw := trim raw in
  if is_empty raw then None
  else match kind spec with
       | SInt | JunkCount => VInt <$> parse_i64 raw
       | HRange => of_int_or_range <$> int_or_range_parse raw
       | OnOff => if decide (raw = lit "on") then Some (VBool true)
                  else if decide (raw = lit "off") then Some (VBool false)
                  else None
       | TagLiteral | HeaderProtectionKey | RangeString => Some (VStr raw)
       end.

Definition validate (spec : FieldSpec) (v : FieldValue) : result unit Error :=
  match kind spec, v with
  | SInt, VInt n => validate_s_value (field spec) n
  | HRange, VInt n => validate_h_value (field spec) (Single n)
  | HRange, VRange lo hi => validate_h_value (field spec) (Range lo hi)
  | RangeString, VStr s => validate_range_string (field spec) s
  | TagLiteral, VStr s => validate_i_tag (field spec) s
  | HeaderProtectionKey, VStr s =>
      let? _ := decode_hpk b64_decode (field spec) s in Ok tt
  | OnOff, VBool _ => Ok tt
  | JunkCount, VInt n => validate_junk_value (field spec) n
  | _, _ => Err (Rejected (field spec) TypeMismatch)
  end.

Definition value_text (v : FieldValue) : str :=
  match v with
  | VInt n => to_string n
  | VRange lo hi => if lo =? hi then to_string lo else to_string lo ++ MINUS :: to_string hi
  | VStr s => s
  | VBool b => lit (if b then "on" else "off")
  end.

Definition render (spec : FieldSpec) (v : FieldValue) : str :=
  lit (key spec) ++ lit " = " ++ value_text v.

(** ** Pass 1: resolve and validate *)

Record Resolved := mkResolved {
  effective : gmap string FieldValue;
  replaces : list (FieldSpec * str);
  inserts : list (FieldSpec * str);
  dropped : list string;
}.

Definition keep_conf (spec : FieldSpec) (conf_val : option FieldValue) (st : Resolved) : Resolved :=
  match conf_val with
  | Some v => mkResolved (<[field spec := v]> (effective st)) (replaces st) (inserts st) (dropped st)
  | None => st
  end.

(** One turn of the loop over the table. *)
Definition resolve_step (conf : str) (params : option AwgParams) (defaults : ClientDefaults)
    (st : Resolved) (spec : FieldSpec) : result Resolved Error :=
  let conf_raw := captures (key spec) conf in
  let conf_val := raw ← conf_raw; parse_conf_value spec raw in
  match (p ← params; epoch spec p) with
  | Some v =>
      match validate spec v with
      | Ok _ =>
          let line := render spec v in
          let eff := <[field spec := v]> (effective st) in
          Ok (match conf_raw with
              | Some _ => mkResolved eff (replaces st ++ [(spec, line)]) (inserts st) (dropped st)
              | None => mkResolved eff (replaces st) (inserts st ++ [(spec, line)]) (dropped st)
              end)
      | Err e =>
          match class spec with
          | MustMatch => Err e
          | ClientSide =>
              Ok (keep_conf spec conf_val
                    (mkResolved (effective st) (replaces st) (inserts st)
                       (dropped st ++ [field spec])))
          end
      end
  | None =>
      match conf_raw with
      | Some _ => Ok (keep_conf spec conf_val st)
      | None =>
          match dflt spec defaults with
          | Some v =>
              match validate spec v with
              | Ok _ => Ok (mkResolved (<[field spec := v]> (effective st)) (replaces st)
                              (inserts st ++ [(spec, render spec v)]) (dropped st))
              | Err _ => Ok st
              end
          | None => Ok st
          end
      end
  end.

Fixpoint resolve (conf : str) (params : option AwgParams) (defaults : ClientDefaults)
    (specs : list FieldSpec) (st : Resolved) : result Resolved Error :=
  match specs with
  | [] => Ok st
  | spec :: specs =>
      let? st := resolve_step conf params defaults st spec in
      resolve conf params defaults specs st
  end.

(** ** Pass 1.5: preconditions on the resolved set *)

Definition s_val (eff : gmap string FieldValue) (f : string) : Z :=
  match eff !! f with Some (VInt n) => n | _ => 0 end.

Definition h_range (eff : gmap string FieldValue) (f : string) : option (Z * Z) :=
  match eff !! f with
  | Some (VInt n) => Some (n, n)
  | Some (VRange lo hi) => Some (lo, hi)
  | _ => None
  end.

(** Two inclusive ranges share a value. *)
Definition overlap (a b : option (Z * Z)) : bool :=
  match a, b with
  | Some (alo, ahi), Some (blo, bhi) => (alo <=? bhi) && (blo <=? ahi)
  | _, _ => false
  end.

(** The later field of the first overlapping pair, in the order of the nested
    index loops. *)
Fixpoint h_overlap (eff : gmap string FieldValue) (fs : list string) : option string :=
  match fs with
  | [] => None
  | a :: rest =>
      match list_find (fun b => overlap (h_range eff a) (h_range eff b) = true) rest with
      | Some (_, b) => Some b
      | None => h_overlap eff rest
      end
  end.

Definition H_FIELDS : list string := ["h1"; "h2"; "h3"; "h4"].

Definition check_preconditions (eff : gmap string FieldValue) : result unit Error :=
  let s1 := s_val eff "s1" in
  let s2 := s_val eff "s2" in
  let s3 := s_val eff "s3" in
  let s4 := s_val eff "s4" in
  if wrap_i64 (s1 + 56) =? s2 then Err (Rejected "s2" ReservedPair)
  else match h_overlap eff H_FIELDS with
       | Some f => Err (Rejected f HOverlap)
       | None =>
           match eff !! "header_protection_key" with
           | Some (VStr hpk) =>
               if hpk_is_active b64_decode hpk &&
                  ((s1 <? 12) || (s2 <? 12) || (s3 <? 12) || (s4 <? 12))
               then Err (Rejected "header_protection_key" ShortJunkForKey)
               else Ok tt
           | _ => Ok tt
           end
       end.

Definition junk_pair (eff : gmap string FieldValue) : option (Z * Z) :=
  match eff !! "jmin", eff !! "jmax" with
  | Some (VInt lo), Some (VInt hi) => Some (lo, hi)
  | _, _ => None
  end.

Definition junk_inverted (eff : gmap string FieldValue) : bool :=
  match junk_pair eff with Some (lo, hi) => hi <? lo | None => false end.

(** Forget the epoch's value of a junk field. *)
Definition drop_junk (conf : str) (params : option AwgParams) (st : Resolved) (f : string)
    : Resolved :=
  match list_find (fun s => field s = f) FIELD_SPECS with
  | None => st
  | Some (_, spec) =>
      match (p ← params; epoch spec p) with
      | None => st
      | Some _ =>
          mkResolved
            (match (raw ← captures (key spec) conf; parse_conf_value spec raw) with
             | Some v => <[f := v]> (effective st)
             | None => delete f (effective st)
             end)
            (filter (fun x => field x.1 <> f) (replaces st))
            (filter (fun x => field x.1 <> f) (inserts st))
            (dropped st ++ [f])
      end
  end.

Definition settle_junk (conf : str) (params : option AwgParams) (st : Resolved)
    : result Resolved Error :=
  if junk_inverted (effective st) then
    let st := fold_left (drop_junk conf params) ["jmin"; "jmax"] st in
    if junk_inverted (effective st) then Err (Rejected "jmax" JunkInverted) else Ok st
  else Ok st.

(** ** Pass 2: splice *)

Fixpoint add_to_section (s : ConfSection) (line : str) (groups : list (ConfSection * list str))
    : list (ConfSection * list str) :=
  match groups with
  | [] => [(s, [line])]
  | (s', ls) :: rest =>
      if decide (s' = s) then (s', ls ++ [line]) :: rest
      else (s', ls) :: add_to_section s line rest
  end.

Definition by_section (ins : list (FieldSpec * str)) : list (ConfSection * list str) :=
  fold_left (fun g '(spec, line) => add_to_section (section spec) line g) ins [].

Fixpoint insert_blocks (text : str) (groups : list (ConfSection * list str)) : result str Error :=
  match groups with
  | [] => Ok text
  | (_, ls) :: rest =>
      match header_end text with
      | None => Err NoSection
      | Some e => insert_blocks (take e text ++ NL :: unlines ls ++ drop e text) rest
      end
  end.

Definition splice (conf : str) (st : Resolved) : result str Error :=
  let text := fold_left (fun text '(spec, line) => replace_all (key spec) text line)
                (replaces st) conf in
  insert_blocks text (by_section (inserts st)).

Definition merge_obfuscation_params_reporting (conf : str) (params : option AwgParams)
    (defaults : ClientDefaults) : result (str * list string) Error :=
  let? st := resolve conf params defaults FIELD_SPECS (mkResolved ∅ [] [] []) in
  let? _ := check_preconditions (effective st) in
  let? st := settle_junk conf params st in
  let? text := splice conf st in
  Ok (text, dropped st).

End Merge.

(** ** Generated defaults *)

Definition I1_RAND_LO : Z := 32.
Definition I1_RAND_HI : Z := 256.
Definition JC_LO : Z := 3.
Definition JC_HI : Z := 6.
Definition JMIN_LO : Z := 40.
Definition JMIN_HI : Z := 89.
Definition JMAX_DELTA_LO : Z := 50.
Definition JMAX_DELTA_HI : Z := 250.
Definition CPA_LO_LO : Z := 8.
Definition CPA_LO_HI : Z := 24.
Definition CPA_DELTA_LO : Z := 8.
Definition CPA_DELTA_HI : Z := 40.

(** [draw] is the [u64] of OS entropy, or a failed read. *)
Definition rand_inclusive (draw : option Z) (lo hi : Z) : option Z :=
  d ← draw; Some (lo + d mod (hi - lo + 1)).

(** [draw i] is the [i]-th draw of the call. *)
Definition generate (draw : nat -> option Z) : option ClientDefaults :=
  jc ← rand_inclusive (draw 0%nat) JC_LO JC_HI;
  jmin ← rand_inclusive (draw 1%nat) JMIN_LO JMIN_HI;
  jd ← rand_inclusive (draw 2%nat) JMAX_DELTA_LO JMAX_DELTA_HI;
  cpa_lo ← rand_inclusive (draw 3%nat) CPA_LO_LO CPA_LO_HI;
  cd ← rand_inclusive (draw 4%nat) CPA_DELTA_LO CPA_DELTA_HI;
  i1 ← rand_inclusive (draw 5%nat) I1_RAND_LO I1_RAND_HI;
  Some (mkClientDefaults (lit "<r " ++ to_string i1 ++ lit ">")
          (to_string cpa_lo ++ MINUS :: to_string (cpa_lo + cd)) jc jmin (jmin + jd)).
