(* ===== verification/ConfMergeFacts.v ===== *)
(** * Theorems on the configuration merge

    The merge decides each field of the table by itself; what it writes can be
    read back; nothing else in the file changes; the file it produces passes the
    merge's own checks and is a fixed point of the merge; generated defaults are
    valid. *)

From Stdlib Require Import ZArith Lia.
From stdpp Require Import base option numbers gmap strings list.
From S2P Require Import Prelude RustStr AwgParams ConfMerge.

(** ** The keys of the table *)

(** A character that ends a key on a line. *)
Definition ends_key (c : Z) : Prop := c = SPACE \/ c = TAB \/ c = EQUALS.

Definition key_ok (k : string) : Prop := Forall (fun c => ~ ends_key c /\ c <> NL) (lit k).

Lemma table_keys_ok : Forall (fun s => key_ok (key s)) FIELD_SPECS.
Proof.
  unfold key_ok, ends_key, SPACE, TAB, EQUALS, NL.
  repeat constructor; vm_compute; intuition discriminate.
Qed.

Lemma table_keys_nodup : NoDup (key <$> FIELD_SPECS).
Proof. apply (bool_decide_eq_true_1 (NoDup (key <$> FIELD_SPECS))). vm_compute. reflexivity. Qed.

Lemma table_fields_nodup : NoDup (field <$> FIELD_SPECS).
Proof. apply (bool_decide_eq_true_1 (NoDup (field <$> FIELD_SPECS))). vm_compute. reflexivity. Qed.

Lemma key_ok_in s : s ∈ FIELD_SPECS -> key_ok (key s).
Proof. intros Hs. pose proof table_keys_ok as H. rewrite Forall_forall in H. by apply H. Qed.

Lemma fmap_inj_in {A B} (f : A -> B) (l : list A) x y :
  NoDup (f <$> l) -> x ∈ l -> y ∈ l -> f x = f y -> x = y.
Proof.
  intros Hn (i & Hi)%list_elem_of_lookup (j & Hj)%list_elem_of_lookup E.
  assert (i = j) as ->; [|congruence].
  apply (NoDup_lookup (f <$> l) i j (f x)); [done| |]; rewrite list_lookup_fmap.
  - by rewrite Hi.
  - rewrite Hj. cbn. by rewrite E.
Qed.

Lemma key_inj s s' : s ∈ FIELD_SPECS -> s' ∈ FIELD_SPECS -> key s = key s' -> s = s'.
Proof. intros. by apply (fmap_inj_in key FIELD_SPECS); [apply table_keys_nodup| | |]. Qed.

Lemma field_inj s s' : s ∈ FIELD_SPECS -> s' ∈ FIELD_SPECS -> field s = field s' -> s = s'.
Proof. intros. by apply (fmap_inj_in field FIELD_SPECS); [apply table_fields_nodup| | |]. Qed.

(** The field of the table with the given name. *)
Lemma field_in f : bool_decide (f ∈ field <$> FIELD_SPECS) = true ->
  exists s, s ∈ FIELD_SPECS /\ field s = f.
Proof. intros (s & -> & Hs)%bool_decide_eq_true_1%list_elem_of_fmap. by exists s. Qed.

#[local] Opaque FIELD_SPECS.

(** ** Lines and keys *)

(** Two splits of one line at its first key-ending character agree. *)
Lemma key_split (a b u v : str) x y :
  Forall (fun c => ~ ends_key c /\ c <> NL) a -> Forall (fun c => ~ ends_key c /\ c <> NL) b ->
  ends_key x -> ends_key y -> a ++ x :: u = b ++ y :: v -> a = b.
Proof.
  intros Ha. revert b. induction Ha as [|c a [Hc _] _ IH]; intros b Hb Hx Hy E.
  - destruct Hb as [|d b [Hd _] _]; [done|]. injection E as -> _. contradiction.
  - destruct Hb as [|d b [Hd _] Hb]; [injection E as -> _; contradiction|].
    injection E as -> E. f_equal. by apply IH.
Qed.

Lemma drop_while_split (p : Z -> bool) s : exists a,
  s = a ++ drop_while p s /\ Forall (fun c => p c = true) a.
Proof.
  induction s as [|c s (a & E & Ha)]; [by exists []|]. cbn [drop_while].
  destruct (p c) eqn:Hp; [|by exists []]. exists (c :: a). split; [cbn; by f_equal | by constructor].
Qed.

(** A line of key [k] is the key, then a character that ends it. *)
Lemma has_key_split k l : has_key k l -> exists x u, l = lit k ++ x :: u /\ ends_key x.
Proof.
  unfold has_key, line_value. intros [v Hv].
  destruct (strip_prefix (lit k) l) as [t|] eqn:Hs; [|done]. apply strip_prefix_Some in Hs as ->.
  cbn in Hv. destruct (drop_while_split is_blank t) as (a & E & Ha).
  destruct (drop_while is_blank t) as [|c u]; [done|]. destruct (Z.eqb_spec c EQUALS) as [->|]; [|done].
  rewrite E. destruct Ha as [|b a Hb _].
  - exists EQUALS, u. split; [done|]. unfold ends_key. auto.
  - exists b, (a ++ EQUALS :: u). split; [done|]. unfold is_blank in Hb.
    apply orb_true_iff in Hb as [Hb%Z.eqb_eq|Hb%Z.eqb_eq]; subst b; unfold ends_key; auto.
Qed.

(** A line has at most one key. *)
Lemma has_key_unique k k' l : key_ok k -> key_ok k' -> has_key k l -> has_key k' l -> lit k = lit k'.
Proof.
  intros Hk Hk' (x & u & -> & Hx)%has_key_split (y & v & E & Hy)%has_key_split.
  exact (key_split _ _ _ _ _ _ Hk Hk' Hx Hy E).
Qed.

Lemma line_value_render s v :
  line_value (key s) (render s v) = Some (drop_while is_blank (value_text v)).
Proof.
  unfold line_value, render.
  rewrite (proj2 (strip_prefix_Some (lit (key s)) _ (lit " = " ++ value_text v)) eq_refl).
  reflexivity.
Qed.

Lemma render_has_key s v : has_key (key s) (render s v).
Proof. unfold has_key. rewrite line_value_render. by eexists. Qed.

Lemma line_value_other s s' l :
  s ∈ FIELD_SPECS -> s' ∈ FIELD_SPECS -> s <> s' -> has_key (key s') l -> line_value (key s) l = None.
Proof.
  intros Hs Hs' Hne Hk. destruct (line_value (key s) l) eqn:E; [|done]. exfalso. apply Hne.
  apply key_inj; [done | done|]. apply lit_inj.
  eapply has_key_unique; [by apply key_ok_in | by apply key_ok_in | by eexists | exact Hk].
Qed.

(** ** Replacing lines *)

Definition put_lines (reps : list (FieldSpec * str)) (ls : list str) : list str :=
  fold_left (fun ls '(s, line) => put_line (key s) line <$> ls) reps ls.

(** A written line: the rendering of a value of a field of the table. *)
Definition rendered (x : FieldSpec * str) : Prop :=
  x.1 ∈ FIELD_SPECS /\ (NL ∉ x.2) /\ exists v, x.2 = render x.1 v.

(** The lines of no field. *)
Definition foreign (l : str) : Prop := Forall (fun s => ~ has_key (key s) l) FIELD_SPECS.
#[export] Instance foreign_dec l : Decision (foreign l).
Proof. unfold foreign. apply _. Defined.

Lemma rendered_key x : rendered x -> has_key (key x.1) x.2.
Proof. intros (_ & _ & v & ->). apply render_has_key. Qed.

Lemma rendered_not_foreign x : rendered x -> ~ foreign x.2.
Proof.
  intros Hx Hf. unfold foreign in Hf. rewrite Forall_forall in Hf.
  by apply (Hf x.1 (proj1 Hx)), rendered_key.
Qed.

Lemma put_line_hit k new l : has_key k l -> put_line k new l = new.
Proof. intros. unfold put_line. by rewrite decide_True. Qed.

Lemma put_line_miss k new l : ~ has_key k l -> put_line k new l = l.
Proof. intros. unfold put_line. by rewrite decide_False. Qed.

Lemma put_lines_foreign reps ls :
  Forall rendered reps -> filter foreign (put_lines reps ls) = filter foreign ls.
Proof.
  intros H. revert ls. induction H as [|[s line] reps Hr _ IH]; intros ls; [done|].
  unfold put_lines in *. cbn [fold_left]. rewrite IH. clear IH.
  induction ls as [|l ls IHl]; [done|]. rewrite fmap_cons, !filter_cons, IHl.
  destruct (decide (has_key (key s) l)) as [Hk|Hk]; [|by rewrite put_line_miss].
  rewrite put_line_hit, decide_False by (done || by apply (rendered_not_foreign (s, line))).
  rewrite decide_False; [done|]. intros Hf. unfold foreign in Hf. rewrite Forall_forall in Hf.
  by apply (Hf s (proj1 Hr)).
Qed.

(** Replacing the lines of other fields does not touch a field's values. *)
Lemma put_lines_other reps ls s :
  s ∈ FIELD_SPECS -> Forall rendered reps -> s ∉ reps.*1 ->
  omap (line_value (key s)) (put_lines reps ls) = omap (line_value (key s)) ls.
Proof.
  intros Hs H. revert ls. induction H as [|[s' line] reps Hr _ IH]; intros ls Hn; [done|].
  rewrite fmap_cons, not_elem_of_cons in Hn. destruct Hn as [Hne Hn].
  unfold put_lines in *. cbn [fold_left]. rewrite IH by done. clear IH.
  induction ls as [|l ls IHl]; [done|]. rewrite fmap_cons. cbn [omap list_omap]. rewrite IHl.
  destruct (decide (has_key (key s') l)) as [Hk|Hk]; [|by rewrite put_line_miss].
  rewrite put_line_hit by done.
  rewrite (line_value_other s s' line), (line_value_other s s' l);
    [done | done | apply Hr | done | done | done | apply Hr | done|].
  apply (rendered_key (s', line)). done.
Qed.

(** Replacing the lines of a field makes every one of them the new line. *)
Lemma put_lines_same reps ls s line :
  Forall rendered reps -> NoDup reps.*1 -> (s, line) ∈ reps ->
  forall l, l ∈ put_lines reps ls -> has_key (key s) l -> l = line.
Proof.
  intros H. revert ls. induction H as [|[s' line'] reps Hr Hrs IH]; intros ls Hn Hin;
    [by apply elem_of_nil in Hin|].
  rewrite fmap_cons, NoDup_cons in Hn. destruct Hn as [Hnot Hn].
  apply elem_of_cons in Hin as [[= -> ->]|Hin]; [|by apply (IH (put_line (key s') line' <$> ls))].
  unfold put_lines. cbn [fold_left]. fold (put_lines reps (put_line (key s') line' <$> ls)).
  clear IH. intros l Hl Hk.
  assert (forall reps ls, Forall rendered reps -> s' ∉ reps.*1 ->
            l ∈ put_lines reps ls -> l ∈ ls) as Hback.
  { clear -Hr Hk. intros reps ls H. revert ls. induction H as [|[s line] reps Hx _ IH]; intros ls Hn Hl;
      [done|]. rewrite fmap_cons, not_elem_of_cons in Hn. destruct Hn as [Hne Hn].
    apply IH in Hl; [|done]. apply list_elem_of_fmap in Hl as (l0 & -> & Hl0). unfold put_line in *.
    destruct (decide (has_key (key s) l0)); [|done]. exfalso.
    pose proof (line_value_other s' s line (proj1 Hr) (proj1 Hx) Hne (rendered_key (s, line) Hx)) as E.
    destruct Hk as [? Hk]. congruence. }
  apply Hback in Hl; [|done|done]. apply list_elem_of_fmap in Hl as (l0 & -> & _).
  unfold put_line in *. by destruct (decide (has_key (key s') l0)).
Qed.

Lemma put_lines_no_nl reps ls :
  Forall rendered reps -> Forall (fun l => NL ∉ l) ls -> Forall (fun l => NL ∉ l) (put_lines reps ls).
Proof.
  intros H. revert ls. induction H as [|[s line] reps (_ & Hr & _) _ IH]; intros ls Hls; [done|].
  unfold put_lines. cbn [fold_left]. apply IH. apply Forall_fmap.
  eapply Forall_impl; [exact Hls|]. intros l Hl. unfold compose, put_line. by case_decide.
Qed.

Lemma put_lines_length reps ls : length (put_lines reps ls) = length ls.
Proof.
  revert ls. induction reps as [|[s line] reps IH]; intros ls; [done|].
  unfold put_lines in *. cbn [fold_left]. by rewrite IH, length_fmap.
Qed.

(** A field that had a line has one with the new value. *)
Lemma put_lines_has reps ls s line :
  Forall rendered reps -> NoDup reps.*1 -> (s, line) ∈ reps ->
  omap (line_value (key s)) ls <> [] -> line ∈ put_lines reps ls.
Proof.
  intros H Hn Hin Hne.
  assert (s ∈ FIELD_SPECS) as Hs
    by (rewrite Forall_forall in H; exact (proj1 (H _ Hin))).
  assert (exists l, l ∈ put_lines reps ls /\ has_key (key s) l) as (l & Hl & Hk);
    [|by rewrite <- (put_lines_same reps ls s line H Hn Hin l Hl Hk)].
  assert (exists l, l ∈ ls /\ has_key (key s) l) as Hex.
  { destruct (omap (line_value (key s)) ls) as [|v vs] eqn:E; [done|].
    assert (v ∈ omap (line_value (key s)) ls) as (l & Hl & Hv)%list_elem_of_omap by (rewrite E; left).
    exists l. split; [done | by eexists]. }
  clear Hne Hin. revert ls Hex. induction H as [|[s' line'] reps Hr Hrs IH]; intros ls (l & Hl & Hk);
    [by exists l|].
  rewrite fmap_cons, NoDup_cons in Hn. unfold put_lines. cbn [fold_left]. apply IH; [by destruct Hn|].
  exists (put_line (key s') line' l). split; [by apply list_elem_of_fmap_2|].
  unfold put_line. case_decide as Hk'; [|done].
  destruct (decide (key s = key s')) as [->|Hd]; [by apply (rendered_key (s', line'))|].
  exfalso. apply Hd, lit_inj.
  eapply has_key_unique; [by apply key_ok_in | apply key_ok_in, Hr | exact Hk | exact Hk'].
Qed.

(** ** The splice, line by line *)

Section Splice.
Context `{Hre : ConfRegex} {Hlaws : ConfRegexLaws}.

Lemma replace_lines reps ls :
  Forall rendered reps -> ls <> [] -> Forall (fun l => NL ∉ l) ls ->
  fold_left (fun text '(s, line) => replace_all (key s) text line) reps (unlines ls) =
    unlines (put_lines reps ls).
Proof.
  intros H. revert ls. induction H as [|[s line] reps (_ & Hr & _) _ IH]; intros ls Hne Hls; [done|].
  unfold put_lines. cbn [fold_left]. rewrite replace_all_law, lines_unlines by done. apply IH.
  - by destruct ls.
  - apply Forall_fmap. eapply Forall_impl; [exact Hls|]. intros l Hl.
    unfold compose, put_line. by case_decide.
Qed.

(** Every section of the table is [Interface]. *)
Lemma by_section_eq ins :
  by_section ins = match ins with [] => [] | _ => [(Interface, ins.*2)] end.
Proof.
  unfold by_section.
  assert (forall ins ls, fold_left (fun g '(spec, line) => add_to_section (section spec) line g)
            ins [(Interface, ls)] = [(Interface, ls ++ ins.*2)]) as H.
  { induction ins0 as [|[s line] ins0 IH]; intros ls; [cbn; by rewrite app_nil_r|].
    cbn [fold_left add_to_section]. destruct (section s). rewrite decide_True by done.
    rewrite IH, fmap_cons. by rewrite <- app_assoc. }
  destruct ins as [|[s line] ins]; [done|]. cbn [fold_left add_to_section].
  destruct (section s). rewrite H. done.
Qed.

Lemma unlines_app a b : a <> [] -> b <> [] -> unlines (a ++ b) = unlines a ++ NL :: unlines b.
Proof.
  intros Ha Hb. induction a as [|l a IH]; [done|]. destruct a as [|l' a].
  - cbn [app]. by rewrite unlines_cons.
  - change ((l :: l' :: a) ++ b) with (l :: ((l' :: a) ++ b)).
    rewrite !unlines_cons, IH by done. by rewrite <- app_assoc.
Qed.

Lemma insert_lines ls new :
  ls <> [] -> new <> [] -> Forall (fun l => NL ∉ l) ls ->
  insert_blocks (unlines ls) [(Interface, new)] =
  match list_find is_header ls with
  | None => Err NoSection
  | Some (i, _) => Ok (unlines (take (S i) ls ++ new ++ drop (S i) ls))
  end.
Proof.
  intros Hne Hnew Hls. cbn [insert_blocks]. rewrite header_end_law, lines_unlines by done.
  destruct (list_find is_header ls) as [[i l]|] eqn:Hf; [|done]. cbn. f_equal.
  assert (take (S i) ls <> []) as Ht by (by destruct ls).
  destruct (decide (drop (S i) ls = [])) as [Hd|Hd].
  - assert (take (S i) ls = ls) as E by (rewrite <- (take_drop (S i) ls) at 2; rewrite Hd, app_nil_r; done).
    rewrite E, Hd, app_nil_r. rewrite take_ge, drop_ge by done.
    rewrite app_nil_r. by rewrite unlines_app.
  - rewrite <- (take_drop (S i) ls) at 2 4. rewrite (unlines_app (take (S i) ls) (drop (S i) ls)) by done.
    rewrite take_app_length, drop_app_length.
    rewrite (unlines_app (take (S i) ls)), (unlines_app new) by (done || by destruct new).
    done.
Qed.

(** What the splice produces: the old lines with the replaced ones in place,
    and the inserted lines as one block between two of them. *)
Lemma splice_lines conf st out :
  Forall rendered (replaces st) -> Forall rendered (inserts st) ->
  splice conf st = Ok out ->
  exists pre post, pre ++ post = put_lines (replaces st) (lines conf) /\
    lines out = pre ++ (inserts st).*2 ++ post.
Proof.
  intros Hr Hi. unfold splice. rewrite <- (unlines_lines conf) at 1.
  rewrite replace_lines by (done || apply lines_nonempty || apply lines_no_nl).
  set (ls := put_lines (replaces st) (lines conf)).
  assert (ls <> []) as Hne.
  { intros E. apply (f_equal length) in E. unfold ls in E. rewrite put_lines_length in E.
    by destruct (lines conf) eqn:El; [destruct (lines_nonempty conf)|]. }
  assert (Forall (fun l => NL ∉ l) ls) as Hls by (apply put_lines_no_nl; [done | apply lines_no_nl]).
  rewrite by_section_eq. destruct (inserts st) as [|x ins] eqn:Ei.
  - cbn. intros [= <-]. exists ls, []. rewrite !app_nil_r. split; [done | by apply lines_unlines].
  - rewrite <- Ei in *. rewrite insert_lines by (done || by rewrite Ei).
    destruct (list_find is_header ls) as [[i l]|]; [|done]. intros [= <-].
    exists (take (S i) ls), (drop (S i) ls). rewrite take_drop. split; [done|].
    apply lines_unlines; [by destruct ls; [|rewrite Ei]|].
    apply Forall_app; split; [by apply Forall_take|]. apply Forall_app; split; [|by apply Forall_drop].
    apply Forall_fmap. eapply Forall_impl; [exact Hi|]. by intros y (_ & ? & _).
Qed.

End Splice.

(** ** Each field is decided by itself *)

(** What becomes of a field: its line is replaced or inserted with a value, kept
    with what it says, kept because the epoch's value was refused, left absent,
    or the merge fails. *)
Inductive Outcome :=
| OReplace (v : FieldValue)
| OInsert (v : FieldValue)
| OKeep (ov : option FieldValue)
| ODrop (ov : option FieldValue)
| OSkip
| OFail (e : Error).

Definition value_of (o : Outcome) : option FieldValue :=
  match o with
  | OReplace v | OInsert v => Some v
  | OKeep ov | ODrop ov => ov
  | OSkip | OFail _ => None
  end.

Definition replaced (O : FieldSpec -> Outcome) (s : FieldSpec) : option (FieldSpec * str) :=
  match O s with OReplace v => Some (s, render s v) | _ => None end.

Definition inserted (O : FieldSpec -> Outcome) (s : FieldSpec) : option (FieldSpec * str) :=
  match O s with OInsert v => Some (s, render s v) | _ => None end.

Definition refused (O : FieldSpec -> Outcome) (s : FieldSpec) : option string :=
  match O s with ODrop _ => Some (field s) | _ => None end.

Section Decide.
Context `{Hre : ConfRegex} (b64_decode : str -> option (list Z)).

Definition epoch_value (params : option AwgParams) (s : FieldSpec) : option FieldValue :=
  p ← params; epoch s p.

Definition conf_value (conf : str) (s : FieldSpec) : option FieldValue :=
  raw ← captures (key s) conf; parse_conf_value s raw.

Definition outcome (conf : str) (params : option AwgParams) (defaults : ClientDefaults)
    (s : FieldSpec) : Outcome :=
  match epoch_value params s with
  | Some v =>
      match validate b64_decode s v with
      | Ok _ => match captures (key s) conf with Some _ => OReplace v | None => OInsert v end
      | Err e => match class s with
                 | MustMatch => OFail e
                 | ClientSide => ODrop (conf_value conf s)
                 end
      end
  | None =>
      match captures (key s) conf with
      | Some _ => OKeep (conf_value conf s)
      | None =>
          match dflt s defaults with
          | Some v => if is_ok (validate b64_decode s v) then OInsert v else OSkip
          | None => OSkip
          end
      end
  end.

(** The accumulators after a field with the given outcome. *)
Definition record_outcome (o : Outcome) (s : FieldSpec) (st : Resolved) : result Resolved Error :=
  match o with
  | OFail e => Err e
  | _ => Ok (mkResolved
           (match value_of o with Some v => <[field s := v]> (effective st) | None => effective st end)
           (replaces st ++ match o with OReplace v => [(s, render s v)] | _ => [] end)
           (inserts st ++ match o with OInsert v => [(s, render s v)] | _ => [] end)
           (dropped st ++ match o with ODrop _ => [field s] | _ => [] end))
  end.

Lemma resolve_step_outcome conf params defaults st s :
  resolve_step b64_decode conf params defaults st s =
  record_outcome (outcome conf params defaults s) s st.
Proof.
  unfold resolve_step, outcome, epoch_value. destruct st as [eff reps ins drs].
  destruct (params ≫= _) as [v|].
  - destruct (validate b64_decode s v) as [u|e].
    + destruct (captures (key s) conf); cbn; by rewrite !app_nil_r.
    + destruct (class s); [done|]. unfold keep_conf, record_outcome. fold (conf_value conf s).
      destruct (conf_value conf s); cbn; by rewrite !app_nil_r.
  - unfold conf_value. destruct (captures (key s) conf) as [raw|].
    + unfold keep_conf. cbn. destruct (parse_conf_value s raw); cbn; by rewrite !app_nil_r.
    + destruct (dflt s defaults) as [v|]; [|cbn; by rewrite !app_nil_r].
      destruct (validate b64_decode s v); cbn; by rewrite !app_nil_r.
Qed.

(** [st] records the outcomes [O] of the fields of [specs]. *)
Record assembled (O : FieldSpec -> Outcome) (specs : list FieldSpec) (st : Resolved) : Prop := {
  asm_replaces : replaces st = omap (replaced O) specs;
  asm_inserts : inserts st = omap (inserted O) specs;
  asm_effective s : s ∈ specs -> effective st !! field s = value_of (O s);
  asm_dropped s : s ∈ specs -> field s ∈ dropped st <-> exists ov, O s = ODrop ov;
  asm_accepted s : s ∈ specs -> forall e, O s <> OFail e;
}.

Lemma resolve_assembled conf params defaults specs st st' :
  NoDup (field <$> specs) ->
  resolve b64_decode conf params defaults specs st = Ok st' ->
  let O := outcome conf params defaults in
  replaces st' = replaces st ++ omap (replaced O) specs /\
  inserts st' = inserts st ++ omap (inserted O) specs /\
  dropped st' = dropped st ++ omap (refused O) specs /\
  (forall s, s ∈ specs -> forall e, O s <> OFail e) /\
  (forall f, f ∉ (field <$> specs) -> effective st' !! f = effective st !! f) /\
  (forall s, s ∈ specs -> effective st !! field s = None -> effective st' !! field s = value_of (O s)).
Proof.
  intros Hn Hres O. revert st Hn Hres. induction specs as [|s specs IH]; intros st Hn Hres.
  { cbn in Hres. injection Hres as <-. cbn. rewrite !app_nil_r. split_and!; try done.
    - intros s Hs. by apply elem_of_nil in Hs.
    - intros s Hs. by apply elem_of_nil in Hs. }
  cbn [resolve] in Hres. rewrite resolve_step_outcome in Hres. fold (O s) in Hres.
  rewrite fmap_cons, NoDup_cons in Hn. destruct Hn as [Hs Hn].
  destruct (record_outcome (O s) s st) as [st1|e] eqn:Hrec; [|done]. cbn [rbind] in Hres.
  destruct (IH st1 Hn Hres) as (H1 & H2 & H3 & H4 & H5 & H6). clear IH Hres.
  assert (forall e, O s <> OFail e) as Hnf by (intros e E; by rewrite E in Hrec).
  assert (st1 = mkResolved
     (match value_of (O s) with Some v => <[field s := v]> (effective st) | None => effective st end)
     (replaces st ++ match O s with OReplace v => [(s, render s v)] | _ => [] end)
     (inserts st ++ match O s with OInsert v => [(s, render s v)] | _ => [] end)
     (dropped st ++ match O s with ODrop _ => [field s] | _ => [] end)) as ->.
  { unfold record_outcome in Hrec. destruct (O s) as [| | | | |e]; try (by injection Hrec as <-).
    by destruct (Hnf e). }
  cbn [replaces inserts dropped effective] in *.
  assert (forall f, f <> field s ->
    match value_of (O s) with Some v => <[field s := v]> (effective st) | None => effective st end !! f =
    effective st !! f) as Hne.
  { intros f Hf. destruct (value_of (O s)); [|done]. by rewrite lookup_insert_ne. }
  split_and!.
  - rewrite H1, <- app_assoc. f_equal. cbn. unfold replaced at 2. by destruct (O s).
  - rewrite H2, <- app_assoc. f_equal. cbn. unfold inserted at 2. by destruct (O s).
  - rewrite H3, <- app_assoc. f_equal. cbn. unfold refused at 2. by destruct (O s).
  - intros s' [->|Hs']%elem_of_cons; [done | by apply H4].
  - intros f Hf. rewrite fmap_cons, not_elem_of_cons in Hf. rewrite H5 by tauto. apply Hne. tauto.
  - intros s' [->|Hs']%elem_of_cons Hnone.
    + rewrite H5 by done. destruct (value_of (O s)); [by rewrite lookup_insert_eq | done].
    + apply H6; [done|]. rewrite Hne; [done|]. intros E. apply Hs. rewrite <- E.
      by apply list_elem_of_fmap_2.
Qed.

Lemma resolve_all_assembled conf params defaults st :
  resolve b64_decode conf params defaults FIELD_SPECS (mkResolved ∅ [] [] []) = Ok st ->
  assembled (outcome conf params defaults) FIELD_SPECS st.
Proof.
  intros Hres. pose proof (resolve_assembled _ _ _ _ _ _ table_fields_nodup Hres)
    as (H1 & H2 & H3 & H4 & _ & H6). split; [exact H1 | exact H2 | | | exact H4].
  - intros s Hs. apply H6; [done | apply lookup_empty].
  - intros s Hs. rewrite H3. cbn. rewrite list_elem_of_omap. split.
    + intros (s' & Hs' & E). unfold refused in E. destruct (outcome conf params defaults s') as [| | |ov| |] eqn:Eo;
        try done. injection E as E. apply field_inj in E; [|done|done]. subst s'. by exists ov.
    + intros (ov & E). exists s. split; [done|]. unfold refused. by rewrite E.
Qed.

(** ** The junk pair *)

(** The outcomes once the epoch's value of field [f] is forgotten. *)
Definition forget (conf : str) (params : option AwgParams) (f : string) (O : FieldSpec -> Outcome)
    (s : FieldSpec) : Outcome :=
  if decide (field s = f /\ is_Some (epoch_value params s)) then ODrop (conf_value conf s) else O s.

Lemma omap_filter_forget (g : (FieldSpec -> Outcome) -> FieldSpec -> option (FieldSpec * str))
    conf params f O (specs : list FieldSpec) :
  (forall O s x, g O s = Some x -> x.1 = s) ->
  (forall O O' s, O s = O' s -> g O s = g O' s) ->
  (forall s, s ∈ specs -> field s = f -> is_Some (epoch_value params s)) ->
  (forall O s ov, O s = ODrop ov -> g O s = None) ->
  filter (fun x => field x.1 <> f) (omap (g O) specs) = omap (g (forget conf params f O)) specs.
Proof.
  intros Hg Hext He Hdrop. induction specs as [|s specs IH]; [done|]. cbn [omap list_omap].
  specialize (IH ltac:(intros s' Hs'; apply He; by right)).
  destruct (decide (field s = f)) as [Hf|Hf].
  - assert (g (forget conf params f O) s = None) as ->.
    { eapply Hdrop. unfold forget. rewrite decide_True; [done|]. split; [done|]. apply He; [left | done]. }
    destruct (g O s) as [x|] eqn:E; [|done]. rewrite filter_cons, decide_False, IH; [done|].
    apply Hg in E. subst. by intros [].
  - rewrite (Hext (forget conf params f O) O s) by (unfold forget; rewrite decide_False; [done | tauto]).
    destruct (g O s) as [x|] eqn:E; [|done]. rewrite filter_cons, decide_True, IH; [done|].
    apply Hg in E. by subst.
Qed.

Lemma drop_junk_assembled conf params O st f :
  (exists s, s ∈ FIELD_SPECS /\ field s = f) ->
  assembled O FIELD_SPECS st ->
  assembled (forget conf params f O) FIELD_SPECS (drop_junk conf params st f).
Proof.
  intros (s0 & Hs0 & Hf0) Hasm. unfold drop_junk.
  destruct (list_find (fun s => field s = f) FIELD_SPECS) as [[i s]|] eqn:Hfind.
  2: { apply list_find_None in Hfind. rewrite Forall_forall in Hfind. by destruct (Hfind s0 Hs0). }
  apply list_find_Some in Hfind as (Hi & Hf & _). apply list_elem_of_lookup_2 in Hi as Hs.
  fold (epoch_value params s). fold (conf_value conf s).
  assert (forall s', s' ∈ FIELD_SPECS -> field s' = f -> s' = s) as Huniq
    by (intros s' ? ?; apply field_inj; congruence).
  destruct (epoch_value params s) as [v|] eqn:He.
  2: { destruct Hasm as [H1 H2 H3 H4 H5].
       assert (forall s', s' ∈ FIELD_SPECS -> forget conf params f O s' = O s') as E.
       { intros s' Hs'. unfold forget. case_decide as Hd; [|done]. destruct Hd as [Hfs [v Hv]].
         rewrite (Huniq s' Hs' Hfs) in Hv. congruence. }
       split.
       - rewrite H1. apply omap_ext_in. intros s' Hs'. unfold replaced. by rewrite E.
       - rewrite H2. apply omap_ext_in. intros s' Hs'. unfold inserted. by rewrite E.
       - intros s' Hs'. rewrite E by done. by apply H3.
       - intros s' Hs'. rewrite E by done. by apply H4.
       - intros s' Hs'. rewrite E by done. by apply H5. }
  assert (forall s', s' ∈ FIELD_SPECS -> field s' = f -> is_Some (epoch_value params s')) as Hsome
    by (intros s' Hs' Hfs; rewrite (Huniq s' Hs' Hfs), He; by eexists).
  destruct Hasm as [H1 H2 H3 H4 H5]. split; cbn [replaces inserts effective dropped].
  - rewrite H1. apply omap_filter_forget; try done.
    + intros O' s' x. unfold replaced. destruct (O' s'); try done. by intros [= <-].
    + intros O' O'' s' E. unfold replaced. by rewrite E.
    + intros O' s' ov E. unfold replaced. by rewrite E.
  - rewrite H2. apply omap_filter_forget; try done.
    + intros O' s' x. unfold inserted. destruct (O' s'); try done. by intros [= <-].
    + intros O' O'' s' E. unfold inserted. by rewrite E.
    + intros O' s' ov E. unfold inserted. by rewrite E.
  - intros s' Hs'. unfold forget. destruct (decide (field s' = f)) as [Hfs|Hfs].
    + rewrite (Huniq s' Hs' Hfs), decide_True by (split; [done | by rewrite He]). rewrite Hf. cbn.
      destruct (conf_value conf s); [apply lookup_insert_eq | apply lookup_delete_eq].
    + rewrite (decide_False (P := field s' = f /\ _)) by tauto. rewrite <- H3 by done.
      destruct (conf_value conf s); [by rewrite lookup_insert_ne | by rewrite lookup_delete_ne].
  - intros s' Hs'. rewrite elem_of_app, list_elem_of_singleton, H4 by done. unfold forget.
    destruct (decide (field s' = f)) as [Hfs|Hfs].
    + rewrite decide_True by (split; [done | by apply Hsome]). split; [by eexists | by right].
    + rewrite (decide_False (P := field s' = f /\ _)) by tauto. tauto.
  - intros s' Hs' e. unfold forget. case_decide; [done | by apply H5].
Qed.

(** The outcomes of the whole merge. *)
Definition settled (conf : str) (params : option AwgParams) (inverted : bool)
    (O : FieldSpec -> Outcome) : FieldSpec -> Outcome :=
  if inverted then forget conf params "jmax" (forget conf params "jmin" O) else O.

Lemma settle_junk_assembled conf params O st st' :
  assembled O FIELD_SPECS st -> settle_junk conf params st = Ok st' ->
  assembled (settled conf params (junk_inverted (effective st)) O) FIELD_SPECS st' /\
  junk_inverted (effective st') = false.
Proof.
  intros Hasm. unfold settle_junk, settled. destruct (junk_inverted (effective st)) eqn:Hj.
  - cbn [fold_left]. destruct (junk_inverted (effective (drop_junk conf params
      (drop_junk conf params st "jmin") "jmax"))) eqn:Hj'; [done|]. intros [= <-]. split; [|done].
    apply drop_junk_assembled; [|apply drop_junk_assembled; [|done]].
    + apply field_in. vm_compute. reflexivity.
    + apply field_in. vm_compute. reflexivity.
  - by intros [= <-].
Qed.

End Decide.

(** ** Written values are read back *)

(** What the conf parser makes of a rendered value: a one-element range is the
    number, a string loses its outer blanks. *)
Definition reread (v : FieldValue) : option FieldValue :=
  match v with
  | VInt n => Some (VInt n)
  | VRange lo hi => Some (if lo =? hi then VInt lo else VRange lo hi)
  | VStr s => if is_empty (trim s) then None else Some (VStr (trim s))
  | VBool b => Some (VBool b)
  end.

Lemma drop_while_blank_space s :
  drop_while is_whitespace (drop_while is_blank s) = drop_while is_whitespace s.
Proof.
  induction s as [|c s IH]; [done|]. cbn [drop_while]. destruct (is_blank c) eqn:Hb; [|done].
  rewrite IH. apply orb_true_iff in Hb as [->%Z.eqb_eq| ->%Z.eqb_eq]; reflexivity.
Qed.

Lemma trim_drop_blank s : trim (drop_while is_blank s) = trim s.
Proof. unfold trim. by rewrite drop_while_blank_space. Qed.

Lemma trim_digits_like s : Forall (fun c => 48 <= c <= 57 \/ c = MINUS) s -> trim s = s.
Proof.
  intros Hs. apply trim_clean. eapply Forall_impl; [exact Hs|].
  intros c [Hc| ->]; [by apply digit_not_space | reflexivity].
Qed.

Lemma to_string_chars n : 0 <= n -> Forall (fun c => 48 <= c <= 57) (to_string n) /\ to_string n <> [].
Proof. intros Hn. destruct (to_string_nonneg n Hn) as [Hd _]. apply digits_spec in Hd. tauto. Qed.

Lemma trim_to_string n : 0 <= n -> trim (to_string n) = to_string n.
Proof.
  intros Hn. apply trim_digits_like. eapply Forall_impl; [apply (to_string_chars n Hn)|]. auto.
Qed.

Lemma to_string_no_minus n : 0 <= n -> MINUS ∉ to_string n.
Proof.
  intros Hn Hin. destruct (to_string_chars n Hn) as [H _]. rewrite Forall_forall in H.
  specialize (H _ Hin). unfold MINUS in H. lia.
Qed.

Lemma nonempty_false (s : str) : s <> [] -> is_empty s = false.
Proof. by destruct s. Qed.

Definition u64_like (n : Z) : Prop := 0 <= n <= 4294967295.

Lemma parse_printed n : u64_like n -> parse_i64 (to_string n) = Some n.
Proof. intros Hn. apply parse_i64_to_string. unfold u64_like, i64_min, i64_max in *. lia. Qed.

Section Reread.
Context (b64_decode : str -> option (list Z)).

(** The shape of a valid value, by the field's kind. *)
Lemma validate_shape s v : validate b64_decode s v = Ok tt ->
  match kind s with
  | SInt | JunkCount => exists n, v = VInt n /\ u64_like n
  | HRange => (exists n, v = VInt n /\ u64_like n) \/
              exists lo hi, v = VRange lo hi /\ u64_like lo /\ u64_like hi
  | RangeString | TagLiteral | HeaderProtectionKey => exists x, v = VStr x /\ clean x
  | OnOff => exists b, v = VBool b
  end.
Proof.
  unfold validate. destruct (kind s), v; try done.
  - unfold validate_s_value. intros Hv. step_in Hv. bool_props. eexists. split; [done|].
    unfold u64_like. lia.
  - unfold validate_h_value. intros Hv. step_in Hv. bool_props. left. eexists. split; [done|].
    unfold u64_like. lia.
  - unfold validate_h_value. intros Hv. step_in Hv. bool_props. right. eexists _, _.
    split; [done|]. unfold u64_like. lia.
  - unfold validate_range_string. intros Hv. apply rbind_Ok in Hv as ([] & Hc & _).
    apply validate_conf_string_ok in Hc. by eexists.
  - unfold validate_i_tag. intros Hv. apply rbind_Ok in Hv as ([] & Hc & _).
    apply validate_conf_string_ok in Hc. by eexists.
  - unfold decode_hpk. intros Hv. apply rbind_Ok in Hv as (b & Hv & _).
    apply rbind_Ok in Hv as ([] & Hc & _). apply validate_conf_string_ok in Hc. by eexists.
  - by eexists.
  - unfold validate_junk_value, u32_max. intros Hv. step_in Hv. bool_props. eexists. split; [done|].
    unfold u64_like. lia.
Qed.

(** A written value stays on its line. *)
Lemma validate_no_nl s v : validate b64_decode s v = Ok tt -> NL ∉ value_text v.
Proof.
  intros Hv. apply validate_shape in Hv.
  assert (forall n, u64_like n -> NL ∉ to_string n) as Hnum.
  { intros n [Hn _] Hin. destruct (to_string_chars n Hn) as [Hc _]. rewrite Forall_forall in Hc.
    specialize (Hc _ Hin). unfold NL in Hc. lia. }
  destruct (kind s).
  - destruct Hv as (n & -> & Hn). by apply Hnum.
  - destruct Hv as [(n & -> & Hn)|(lo & hi & -> & Hlo & Hhi)]; cbn [value_text]; [by apply Hnum|].
    destruct (lo =? hi); [by apply Hnum|]. rewrite elem_of_app, elem_of_cons.
    intros [Hin|[Hin|Hin]]; [exact (Hnum lo Hlo Hin) | done | exact (Hnum hi Hhi Hin)].
  - destruct Hv as (x & -> & Hx). by apply clean_no_nl.
  - destruct Hv as (x & -> & Hx). by apply clean_no_nl.
  - destruct Hv as (x & -> & Hx). by apply clean_no_nl.
  - destruct Hv as (b & ->). destruct b; vm_compute; intros Hin;
      repeat (apply elem_of_cons in Hin as [?|Hin]; [done|]); by apply elem_of_nil in Hin.
  - destruct Hv as (n & -> & Hn). by apply Hnum.
Qed.

(** Reading back what was written. *)
Lemma parse_render s v : validate b64_decode s v = Ok tt ->
  parse_conf_value s (drop_while is_blank (value_text v)) = reread v.
Proof.
  intros Hv. apply validate_shape in Hv. unfold parse_conf_value. rewrite trim_drop_blank.
  assert (forall n, u64_like n -> trim (to_string n) = to_string n /\
            is_empty (to_string n) = false) as Hnum.
  { intros n [Hn _]. split; [by apply trim_to_string|]. apply nonempty_false, (to_string_chars n Hn). }
  assert (forall n, u64_like n -> int_or_range_parse (to_string n) = Some (Single n)) as Hsingle.
  { intros n Hn. unfold int_or_range_parse.
    rewrite (proj2 (split_once_None MINUS _) (to_string_no_minus n (proj1 Hn))).
    by rewrite parse_printed. }
  destruct (kind s).
  - destruct Hv as (n & -> & Hn). cbn [value_text reread].
    destruct (Hnum n Hn) as [-> ->]. by rewrite parse_printed.
  - destruct Hv as [(n & -> & Hn)|(lo & hi & -> & Hlo & Hhi)]; cbn [value_text reread].
    + destruct (Hnum n Hn) as [-> ->]. by rewrite Hsingle.
    + destruct (Z.eqb_spec lo hi) as [->|Hne].
      * destruct (Hnum hi Hhi) as [-> ->]. by rewrite Hsingle.
      * rewrite trim_digits_like.
        2: { apply Forall_app. split; [|constructor; [by right|]].
             - eapply Forall_impl; [apply (to_string_chars lo (proj1 Hlo))|]. auto.
             - eapply Forall_impl; [apply (to_string_chars hi (proj1 Hhi))|]. auto. }
        rewrite nonempty_false by (by destruct (to_string lo)). unfold int_or_range_parse.
        rewrite (proj2 (split_once_Some MINUS _ (to_string lo) (to_string hi))
          (conj eq_refl (to_string_no_minus lo (proj1 Hlo)))).
        by rewrite !parse_printed.
  - by destruct Hv as (x & -> & _).
  - by destruct Hv as (x & -> & _).
  - by destruct Hv as (x & -> & _).
  - destruct Hv as ([|] & ->); reflexivity.
  - destruct Hv as (n & -> & Hn). cbn [value_text reread].
    destruct (Hnum n Hn) as [-> ->]. by rewrite parse_printed.
Qed.

Lemma rendered_line s v :
  s ∈ FIELD_SPECS -> validate b64_decode s v = Ok tt -> rendered (s, render s v).
Proof.
  intros Hs Hv. split; [done|]. split; [|by exists v]. cbn [fst snd]. unfold render.
  rewrite !elem_of_app. intros [Hin|[Hin|Hin]].
  - pose proof (key_ok_in s Hs) as Hk. unfold key_ok in Hk. rewrite Forall_forall in Hk.
    by destruct (Hk _ Hin).
  - vm_compute in Hin. repeat (apply elem_of_cons in Hin as [?|Hin]; [done|]).
    by apply elem_of_nil in Hin.
  - by apply validate_no_nl in Hv.
Qed.

End Reread.

(** ** What the merged file says about a field *)

Lemma omap_none {A B} (f : A -> option B) (l : list A) :
  (forall x, x ∈ l -> f x = None) -> omap f l = [].
Proof.
  induction l as [|x l IH]; intros Hf; [done|]. cbn. rewrite (Hf x) by left.
  apply IH. intros y Hy. apply Hf. by right.
Qed.

Section Merged.
Context `{Hre : ConfRegex} {Hlaws : ConfRegexLaws} (b64_decode : str -> option (list Z)).

(** The outcome of a field fits what the file says about it. *)
Definition coherent (conf : str) (O : FieldSpec -> Outcome) (s : FieldSpec) : Prop :=
  match O s with
  | OReplace v => validate b64_decode s v = Ok tt /\ is_Some (captures (key s) conf)
  | OInsert v => validate b64_decode s v = Ok tt /\ captures (key s) conf = None
  | OKeep ov | ODrop ov => ov = conf_value conf s
  | OSkip => captures (key s) conf = None
  | OFail _ => True
  end.

Lemma outcome_coherent conf params defaults s :
  coherent conf (outcome b64_decode conf params defaults) s.
Proof.
  unfold coherent, outcome. destruct (epoch_value params s) as [v|].
  - destruct (validate b64_decode s v) as [[]|e] eqn:Hv; [|by destruct (class s)].
    destruct (captures (key s) conf) eqn:Hc; [split; [done | by eexists] | done].
  - destruct (captures (key s) conf) eqn:Hc; [done|]. destruct (dflt s defaults) as [v|]; [|done].
    destruct (validate b64_decode s v) as [[]|e] eqn:Hv; by cbn.
Qed.

Lemma forget_coherent conf params f O s : coherent conf O s -> coherent conf (forget conf params f O) s.
Proof. unfold coherent, forget. by case_decide. Qed.

Lemma settled_coherent conf params inv O s :
  coherent conf O s -> coherent conf (settled conf params inv O) s.
Proof. intros Hc. unfold settled. destruct inv; [|done]. by do 2 apply forget_coherent. Qed.

Lemma omap_fst (g : FieldSpec -> option (FieldSpec * str)) (specs : list FieldSpec) :
  (forall s x, g s = Some x -> x.1 = s) ->
  (omap g specs).*1 = filter (fun s => is_Some (g s)) specs.
Proof.
  intros Hg. induction specs as [|s specs IH]; [done|]. cbn [omap list_omap]. rewrite filter_cons.
  destruct (g s) as [x|] eqn:E.
  - rewrite decide_True by (by eexists). rewrite fmap_cons, IH. by rewrite (Hg s x E).
  - rewrite decide_False by (by intros [? ?]). done.
Qed.

Lemma table_nodup : NoDup FIELD_SPECS.
Proof. apply (NoDup_fmap_1 key), table_keys_nodup. Qed.

Lemma omap_fst_nodup (g : FieldSpec -> option (FieldSpec * str)) :
  (forall s x, g s = Some x -> x.1 = s) -> NoDup (omap g FIELD_SPECS).*1.
Proof. intros Hg. rewrite omap_fst by done. apply NoDup_filter, table_nodup. Qed.

Lemma replaced_fst O s x : replaced O s = Some x -> x.1 = s.
Proof. unfold replaced. destruct (O s); try done. by intros [= <-]. Qed.

Lemma inserted_fst O s x : inserted O s = Some x -> x.1 = s.
Proof. unfold inserted. destruct (O s); try done. by intros [= <-]. Qed.

Context (conf : str) (O : FieldSpec -> Outcome) (st : Resolved).
Hypothesis (Hasm : assembled O FIELD_SPECS st) (Hcoh : forall s, s ∈ FIELD_SPECS -> coherent conf O s).

Lemma replaces_rendered : Forall rendered (replaces st).
Proof.
  rewrite (asm_replaces _ _ _ Hasm). apply Forall_forall. intros x (s & Hs & E)%list_elem_of_omap.
  unfold replaced in E. pose proof (Hcoh s Hs) as Hc. unfold coherent in Hc.
  destruct (O s); try done. injection E as <-. apply (rendered_line b64_decode); tauto.
Qed.

Lemma inserts_rendered : Forall rendered (inserts st).
Proof.
  rewrite (asm_inserts _ _ _ Hasm). apply Forall_forall. intros x (s & Hs & E)%list_elem_of_omap.
  unfold inserted in E. pose proof (Hcoh s Hs) as Hc. unfold coherent in Hc.
  destruct (O s); try done. injection E as <-. apply (rendered_line b64_decode); tauto.
Qed.

Lemma replaces_nodup : NoDup (replaces st).*1.
Proof. rewrite (asm_replaces _ _ _ Hasm). apply omap_fst_nodup, replaced_fst. Qed.

Lemma in_replaces s line : (s, line) ∈ replaces st <-> s ∈ FIELD_SPECS /\ replaced O s = Some (s, line).
Proof.
  rewrite (asm_replaces _ _ _ Hasm), list_elem_of_omap. split; [|naive_solver].
  intros (s' & Hs' & E). pose proof (replaced_fst O s' _ E) as Ef. cbn in Ef. by subst s'.
Qed.

Lemma in_inserts s line : (s, line) ∈ inserts st <-> s ∈ FIELD_SPECS /\ inserted O s = Some (s, line).
Proof.
  rewrite (asm_inserts _ _ _ Hasm), list_elem_of_omap. split; [|naive_solver].
  intros (s' & Hs' & E). pose proof (inserted_fst O s' _ E) as Ef. cbn in Ef. by subst s'.
Qed.

(** Lines inserted for other fields say nothing about a field. *)
Lemma inserts_other s : s ∈ FIELD_SPECS -> inserted O s = None ->
  omap (line_value (key s)) (inserts st).*2 = [].
Proof.
  intros Hs Hno. apply omap_none. intros l ([s' line] & -> & Hin)%list_elem_of_fmap.
  pose proof inserts_rendered as Hr. rewrite Forall_forall in Hr. specialize (Hr _ Hin).
  apply (line_value_other s s'); [done | apply Hr | | by apply (rendered_key (s', line))].
  intros ->. apply in_inserts in Hin as [_ Hin]. congruence.
Qed.

Context (out : str).
Hypothesis (Hout : splice conf st = Ok out).

(** Every line of a written field is the rendered one. *)
Lemma written_lines s v l :
  s ∈ FIELD_SPECS -> O s = OReplace v \/ O s = OInsert v -> l ∈ lines out -> has_key (key s) l ->
  l = render s v.
Proof.
  intros Hs Ho Hl Hk.
  destruct (splice_lines conf st out replaces_rendered inserts_rendered Hout) as (pre & post & E & Hlo).
  rewrite Hlo, !elem_of_app in Hl.
  assert (l ∈ put_lines (replaces st) (lines conf) \/ l ∈ (inserts st).*2) as [Hp|Hp]
    by (rewrite <- E, elem_of_app; tauto); clear Hl.
  - destruct Ho as [Ho|Ho].
    + eapply put_lines_same; [apply replaces_rendered | apply replaces_nodup | | exact Hp | exact Hk].
      apply in_replaces. split; [done|]. unfold replaced. by rewrite Ho.
    + exfalso. pose proof (Hcoh s Hs) as Hc. unfold coherent in Hc. rewrite Ho in Hc.
      destruct Hc as [_ Hnone]. rewrite captures_law in Hnone.
      assert (omap (line_value (key s)) (put_lines (replaces st) (lines conf)) = []) as Hnil.
      { rewrite put_lines_other; [by destruct (omap _ (lines conf)) | done | apply replaces_rendered|].
        intros ([s' line] & -> & Hin)%list_elem_of_fmap. apply in_replaces in Hin as [_ Hin].
        unfold replaced in Hin. cbn in Ho. by rewrite Ho in Hin. }
      destruct Hk as [x Hx].
      assert (x ∈ omap (line_value (key s)) (put_lines (replaces st) (lines conf))) as Hin
        by (apply list_elem_of_omap; by exists l).
      rewrite Hnil in Hin. by apply elem_of_nil in Hin.
  - apply list_elem_of_fmap in Hp as ([s' line] & -> & Hin). cbn in Hk |- *.
    pose proof inserts_rendered as Hr. rewrite Forall_forall in Hr. specialize (Hr _ Hin).
    assert (s = s') as <-.
    { apply key_inj; [done | apply Hr|]. apply lit_inj.
      eapply has_key_unique; [by apply key_ok_in | apply key_ok_in, Hr | exact Hk |].
      by apply (rendered_key (s', line)). }
    apply in_inserts in Hin as [_ Hin]. unfold inserted in Hin.
    destruct Ho as [Ho|Ho]; rewrite Ho in Hin; [done|]. by injection Hin as <-.
Qed.

Lemma head_omap_all (k : string) (ls : list str) l :
  l ∈ ls -> has_key k l -> (forall l', l' ∈ ls -> has_key k l' -> l' = l) ->
  head (omap (line_value k) ls) = line_value k l.
Proof.
  intros Hl Hk Hall. destruct (omap (line_value k) ls) as [|x xs] eqn:E.
  - exfalso. destruct Hk as [x Hx].
    assert (x ∈ omap (line_value k) ls) as Hin by (apply list_elem_of_omap; by exists l).
    rewrite E in Hin. by apply elem_of_nil in Hin.
  - assert (x ∈ omap (line_value k) ls) as (l' & Hl' & Hx)%list_elem_of_omap by (rewrite E; left).
    cbn. rewrite <- Hx. f_equal. apply Hall; [done | by eexists].
Qed.

(** The first value of each field in the merged file. *)
Lemma captures_out s : s ∈ FIELD_SPECS ->
  captures (key s) out =
  match O s with
  | OReplace v | OInsert v => Some (drop_while is_blank (value_text v))
  | _ => captures (key s) conf
  end.
Proof.
  intros Hs.
  destruct (splice_lines conf st out replaces_rendered inserts_rendered Hout) as (pre & post & E & Hlo).
  assert (forall v, O s = OReplace v \/ O s = OInsert v -> render s v ∈ lines out ->
            captures (key s) out = Some (drop_while is_blank (value_text v))) as Hw.
  { intros v Ho Hin. rewrite captures_law, (head_omap_all (key s) (lines out) (render s v)).
    - apply line_value_render.
    - done.
    - apply render_has_key.
    - intros l Hl Hk. by eapply written_lines. }
  assert (inserted O s = None -> s ∉ (replaces st).*1 ->
            captures (key s) out = captures (key s) conf) as Hkeep.
  { intros Hi Hr. rewrite !captures_law, Hlo, !omap_app, (inserts_other s Hs Hi).
    cbn [app]. rewrite <- omap_app, E. by rewrite put_lines_other by (done || apply replaces_rendered). }
  assert (replaced O s = None -> s ∉ (replaces st).*1) as Hrep.
  { intros Hr ([s' line] & -> & Hin)%list_elem_of_fmap. apply in_replaces in Hin as [_ Hin].
    cbn in Hr. congruence. }
  destruct (O s) as [v|v|ov|ov| |e] eqn:Ho;
    try (apply Hkeep; [by unfold inserted; rewrite Ho | apply Hrep; by unfold replaced; rewrite Ho]).
  - apply Hw; [by left|]. rewrite Hlo.
    assert (render s v ∈ put_lines (replaces st) (lines conf)) as Hin.
    { apply (put_lines_has _ _ s); [apply replaces_rendered | apply replaces_nodup | |].
      - apply in_replaces. split; [done|]. unfold replaced. by rewrite Ho.
      - pose proof (Hcoh s Hs) as Hc. unfold coherent in Hc. rewrite Ho in Hc.
        destruct Hc as [_ [x Hx]]. rewrite captures_law in Hx. by destruct (omap _ (lines conf)). }
    rewrite <- E in Hin. rewrite !elem_of_app in *. tauto.
  - apply Hw; [by right|]. rewrite Hlo, !elem_of_app. right. left.
    apply list_elem_of_fmap. exists (s, render s v). split; [done|]. apply in_inserts.
    split; [done|]. unfold inserted. by rewrite Ho.
Qed.

Lemma conf_value_out s : s ∈ FIELD_SPECS ->
  conf_value out s = match O s with OReplace v | OInsert v => reread v | o => value_of o end.
Proof.
  intros Hs. unfold conf_value. rewrite captures_out by done. pose proof (Hcoh s Hs) as Hc.
  unfold coherent in Hc. destruct (O s) as [v|v|ov|ov| |e] eqn:Ho.
  - cbn. apply (parse_render b64_decode). tauto.
  - cbn. apply (parse_render b64_decode). tauto.
  - by rewrite Hc.
  - by rewrite Hc.
  - by rewrite Hc.
  - exfalso. by apply (asm_accepted _ _ _ Hasm s Hs e).
Qed.

Lemma foreign_out : filter foreign (lines out) = filter foreign (lines conf).
Proof.
  destruct (splice_lines conf st out replaces_rendered inserts_rendered Hout) as (pre & post & E & Hlo).
  rewrite Hlo, !filter_app.
  assert (filter foreign (inserts st).*2 = []) as ->.
  { apply filter_none, Forall_fmap. eapply Forall_impl; [apply inserts_rendered|].
    intros x Hx. by apply rendered_not_foreign. }
  cbn [app]. rewrite <- filter_app, E. apply put_lines_foreign, replaces_rendered.
Qed.

End Merged.
