(* ===== verification/ConfMergeProps.v ===== *)
(** * What the configuration merge guarantees

    The properties of [merge_obfuscation_params_reporting] against any
    implementation of the line patterns that has the laws. *)

From Stdlib Require Import ZArith Lia.
From stdpp Require Import base option numbers gmap strings list.
From S2P Require Import Prelude RustStr AwgParams ConfMerge ConfMergeFacts.

(** ** Facts read off the table *)

(** [P] holds of every row. *)
Lemma table_all (P : FieldSpec -> Prop) : Forall P FIELD_SPECS -> forall s, s ∈ FIELD_SPECS -> P s.
Proof. by rewrite Forall_forall. Qed.

(** Check a row: refute or compute the condition on its name. *)
Ltac each_row :=
  repeat (apply Forall_cons_2;
    [cbn; intros Hrow;
     first [done | by repeat (apply elem_of_cons in Hrow as [?|Hrow]; [done|])
           | exfalso; repeat (apply elem_of_cons in Hrow as [Hrow|Hrow]; [discriminate|]);
             by apply elem_of_nil in Hrow] |]);
  apply Forall_nil_2.

Lemma table_junk s : s ∈ FIELD_SPECS -> field s ∈ ["jmin"; "jmax"] ->
  class s = ClientSide /\ kind s = JunkCount.
Proof.
  revert s. refine (table_all (fun s => field s ∈ ["jmin"; "jmax"] -> _) _).
  each_row.
Qed.

Definition S_FIELDS : list string := ["s1"; "s2"; "s3"; "s4"].

Lemma table_s s : s ∈ FIELD_SPECS -> field s ∈ S_FIELDS ->
  kind s = SInt /\ forall d, dflt s d = None.
Proof.
  revert s. refine (table_all (fun s => field s ∈ S_FIELDS -> _) _).
  each_row.
Qed.

Lemma table_h s : s ∈ FIELD_SPECS -> field s ∈ H_FIELDS ->
  kind s = HRange /\ forall d, dflt s d = None.
Proof.
  revert s. refine (table_all (fun s => field s ∈ H_FIELDS -> _) _).
  each_row.
Qed.

Lemma table_hpk s : s ∈ FIELD_SPECS -> field s = "header_protection_key" ->
  kind s = HeaderProtectionKey /\ forall d, dflt s d = None.
Proof.
  revert s. refine (table_all (fun s => field s = "header_protection_key" -> _) _).
  each_row.
Qed.

Lemma table_must_match s : s ∈ FIELD_SPECS -> class s = MustMatch -> forall d, dflt s d = None.
Proof.
  revert s. refine (table_all (fun s => class s = MustMatch -> _) _).
  each_row.
Qed.

#[local] Opaque FIELD_SPECS.

Section Props.
Context `{Hre : ConfRegex} {Hlaws : ConfRegexLaws} (b64_decode : str -> option (list Z)).

(** The stages of a merge that succeeds. *)
Lemma merge_stages conf params defaults out dr :
  merge_obfuscation_params_reporting b64_decode conf params defaults = Ok (out, dr) ->
  exists st st', let O := outcome b64_decode conf params defaults in
    let O' := settled conf params (junk_inverted (effective st)) O in
    assembled O FIELD_SPECS st /\ check_preconditions b64_decode (effective st) = Ok tt /\
    assembled O' FIELD_SPECS st' /\ junk_inverted (effective st') = false /\
    (forall s, s ∈ FIELD_SPECS -> coherent b64_decode conf O' s) /\
    splice conf st' = Ok out /\ dr = dropped st' /\
    resolve b64_decode conf params defaults FIELD_SPECS (mkResolved ∅ [] [] []) = Ok st /\
    settle_junk conf params st = Ok st'.
Proof.
  unfold merge_obfuscation_params_reporting.
  intros (st & Hres & Hm)%rbind_Ok. apply rbind_Ok in Hm as ([] & Hpre & Hm).
  apply rbind_Ok in Hm as (st' & Hjunk & Hm). apply rbind_Ok in Hm as (text & Hsp & Hm).
  injection Hm as <- <-. exists st, st'. cbv zeta.
  pose proof (resolve_all_assembled b64_decode _ _ _ _ Hres) as Hasm.
  destruct (settle_junk_assembled b64_decode _ _ _ _ _ Hasm Hjunk) as [Hasm' Hj].
  split_and!; try done. intros s _. apply settled_coherent, outcome_coherent.
Qed.

(** C29. The merge touches nothing but its own keys: the lines of the produced
    file that belong to no field of the table (section headers, keys, addresses,
    peers, comments, blank lines) are those of the input, unchanged and in
    order; in particular no value can smuggle in a line or a section. *)
Theorem merge_preserves_foreign conf params defaults out dr :
  merge_obfuscation_params_reporting b64_decode conf params defaults = Ok (out, dr) ->
  filter foreign (lines out) = filter foreign (lines conf).
Proof.
  intros (st & st' & _ & _ & Hasm & _ & Hcoh & Hsp & _)%merge_stages.
  by eapply foreign_out.
Qed.

(** ** The epoch lands *)

Lemma settled_cases conf params inv O s :
  settled conf params inv O s = O s \/
  inv = true /\ is_Some (epoch_value params s) /\ field s ∈ ["jmin"; "jmax"] /\
  settled conf params inv O s = ODrop (conf_value conf s).
Proof.
  unfold settled. destruct inv; [|by left]. unfold forget.
  destruct (decide (field s = "jmax" /\ _)) as [[Hf He]|_];
    [right; split_and!; try done; rewrite Hf; right; left|].
  destruct (decide (field s = "jmin" /\ _)) as [[Hf He]|_]; [|by left].
  right; split_and!; try done; rewrite Hf; left.
Qed.

Lemma settled_eq conf params inv O s :
  settled conf params inv O s =
  if decide (inv = true /\ field s ∈ ["jmin"; "jmax"] /\ is_Some (epoch_value params s))
  then ODrop (conf_value conf s) else O s.
Proof.
  destruct (settled_cases conf params inv O s) as [E|(-> & He & Hf & E)].
  - case_decide as Hd; [|done]. destruct Hd as (-> & Hf & He). unfold settled, forget.
    each_key Hf; repeat (case_decide; [done|]); naive_solver.
  - by rewrite decide_True.
Qed.

Lemma outcome_drop conf params defaults s ov :
  outcome b64_decode conf params defaults s = ODrop ov ->
  class s = ClientSide /\ ov = conf_value conf s /\ is_Some (epoch_value params s).
Proof.
  unfold outcome. destruct (epoch_value params s) as [v|].
  - destruct (validate b64_decode s v) as [[]|e]; [by destruct (captures (key s) conf)|].
    destruct (class s); [done|]. intros [= <-]. split_and!; [done | done | by eexists].
  - destruct (captures (key s) conf); [done|]. destruct (dflt s defaults) as [v|]; [|done].
    by destruct (is_ok _).
Qed.

(** C30. The epoch lands: after a merge that succeeds, each field the epoch
    carries passed its validator and its first line in the file reads back as the
    epoch's value (a string without its outer blanks, a range of one number as that
    number), or the field is a client-side one, is reported as dropped and its line
    is as it was; each field the epoch does not carry keeps its line, or gets the
    generated default if it had none and the default is valid. *)
Theorem merge_applies_epoch conf params defaults out dr s :
  merge_obfuscation_params_reporting b64_decode conf params defaults = Ok (out, dr) -> s ∈ FIELD_SPECS ->
  match epoch_value params s with
  | Some v =>
      (field s ∉ dr) /\ validate b64_decode s v = Ok tt /\ conf_value out s = reread v \/
      field s ∈ dr /\ class s = ClientSide /\ captures (key s) out = captures (key s) conf
  | None =>
      (field s ∉ dr) /\
      (captures (key s) conf <> None -> captures (key s) out = captures (key s) conf) /\
      (captures (key s) conf = None ->
       conf_value out s = match dflt s defaults with
                          | Some v => if is_ok (validate b64_decode s v) then reread v else None
                          | None => None
                          end)
  end.
Proof.
  intros (st & st' & Hasm0 & _ & Hasm & _ & Hcoh & Hsp & -> & _)%merge_stages Hs.
  pose proof (asm_dropped _ _ _ Hasm s Hs) as Hdr.
  pose proof (asm_accepted _ _ _ Hasm0 s Hs) as Hacc.
  pose proof (captures_out b64_decode conf _ st' Hasm Hcoh out Hsp s Hs) as Hcap.
  pose proof (conf_value_out b64_decode conf _ st' Hasm Hcoh out Hsp s Hs) as Hval.
  destruct (settled_cases conf params (junk_inverted (effective st))
    (outcome b64_decode conf params defaults) s) as [E|(_ & [v Hv] & Hf & E)].
  2: { rewrite Hv. right. rewrite E in Hcap, Hdr. split_and!; [apply Hdr; by eexists | | done].
       by apply table_junk. }
  rewrite E in Hcap, Hdr, Hval. clear E. unfold outcome in *.
  destruct (epoch_value params s) as [v|].
  - destruct (validate b64_decode s v) as [[]|e] eqn:Hv.
    + left. split_and!; [|done|]; destruct (captures (key s) conf); try done;
        intros Hin; apply Hdr in Hin as [? ?]; done.
    + destruct (class s) eqn:Hc; [by destruct (Hacc e)|]. right. split_and!; [|done|done].
      apply Hdr. by eexists.
  - split_and!.
    + intros Hin. apply Hdr in Hin as [ov Hov]. destruct (captures (key s) conf); [done|].
      destruct (dflt s defaults); [|done]. by destruct (is_ok _).
    + intros Hne. by destruct (captures (key s) conf).
    + intros Hnone. rewrite Hnone in Hval. destruct (dflt s defaults) as [v|]; [|done].
      by destruct (is_ok (validate b64_decode s v)).
Qed.

(** The two facts clients of the merge rely on. *)
Lemma merge_keeps_foreign conf params defaults out dr :
  merge_obfuscation_params_reporting b64_decode conf params defaults = Ok (out, dr) ->
  filter foreign (lines out) = filter foreign (lines conf).
Proof.
  intros (st & st' & _ & _ & Hasm & _ & Hcoh & Hsp & _)%merge_stages. by eapply foreign_out.
Qed.

Lemma merge_must_match conf params defaults out dr s v :
  merge_obfuscation_params_reporting b64_decode conf params defaults = Ok (out, dr) ->
  s ∈ FIELD_SPECS -> class s = MustMatch -> epoch_value params s = Some v ->
  validate b64_decode s v = Ok tt /\ conf_value out s = reread v.
Proof.
  intros (st & st' & Hasm0 & _ & Hasm & _ & Hcoh & Hsp & _)%merge_stages Hs Hcl Hv.
  pose proof (asm_accepted _ _ _ Hasm0 s Hs) as Hacc.
  pose proof (conf_value_out b64_decode conf _ st' Hasm Hcoh out Hsp s Hs) as Hval.
  destruct (settled_cases conf params (junk_inverted (effective st))
    (outcome b64_decode conf params defaults) s) as [E|(_ & _ & Hf & _)].
  2: { apply table_junk in Hf as [Hf _]; congruence. }
  rewrite E in Hval. unfold outcome in *. rewrite Hv, Hcl in *.
  destruct (validate b64_decode s v) as [[]|e] eqn:Hok; [|by destruct (Hacc e)].
  split; [done|]. by destruct (captures (key s) conf).
Qed.

(** ** The produced file passes the merge's own checks *)

(** What the file says about every field of the table. *)
Definition conf_effective (conf : str) : gmap string FieldValue :=
  list_to_map (omap (fun s => (fun v => (field s, v)) <$> conf_value conf s) FIELD_SPECS).

Lemma conf_effective_lookup conf s :
  s ∈ FIELD_SPECS -> conf_effective conf !! field s = conf_value conf s.
Proof.
  intros Hs. unfold conf_effective.
  assert (forall specs : list FieldSpec, NoDup (field <$> specs) -> s ∈ specs ->
    (list_to_map (omap (fun s => (fun v => (field s, v)) <$> conf_value conf s) specs)
       : gmap string FieldValue) !! field s = conf_value conf s) as H;
    [|by apply H; [apply table_fields_nodup|]].
  assert (forall specs f, f ∉ (field <$> specs) ->
    (list_to_map (omap (fun s => (fun v => (field s, v)) <$> conf_value conf s) specs)
       : gmap string FieldValue) !! f = None) as Hnone.
  { intros specs f Hf. apply not_elem_of_list_to_map_1. intros (x & -> & Hx)%list_elem_of_fmap.
    apply list_elem_of_omap in Hx as (s' & Hs' & E). destruct (conf_value conf s'); [|done].
    injection E as <-. apply Hf. cbn [fst]. by apply list_elem_of_fmap_2. }
  clear Hs. induction specs as [|s' specs IH]; intros Hn Hs; [by apply elem_of_nil in Hs|].
  rewrite fmap_cons, NoDup_cons in Hn. destruct Hn as [Hs' Hn]. cbn [omap list_omap].
  apply elem_of_cons in Hs as [->|Hs].
  - destruct (conf_value conf s') as [v|]; cbn; [apply lookup_insert_eq | by apply Hnone].
  - assert (field s' <> field s) as Hne
      by (intros E; apply Hs'; rewrite E; by apply list_elem_of_fmap_2).
    destruct (conf_value conf s') as [v|]; cbn; [rewrite lookup_insert_ne by done|]; by apply IH.
Qed.

Lemma list_find_ext_in {A} (P Q : A -> Prop) `{forall x, Decision (P x)}
    `{forall x, Decision (Q x)} (l : list A) :
  (forall x, x ∈ l -> P x <-> Q x) -> list_find P l = list_find Q l.
Proof.
  induction l as [|x l IH]; intros HPQ; [done|]. cbn.
  rewrite (decide_ext (P x) (Q x)) by (apply HPQ; left).
  destruct (decide (Q x)); [done|]. rewrite IH; [done|]. intros y Hy. apply HPQ. by right.
Qed.

(** The checks read nine fields only. *)
Lemma h_overlap_ext eff eff' fs :
  (forall f, f ∈ fs -> h_range eff f = h_range eff' f) -> h_overlap eff fs = h_overlap eff' fs.
Proof.
  induction fs as [|f fs IH]; intros Hf; [done|]. cbn [h_overlap].
  rewrite (list_find_ext_in (fun b => overlap (h_range eff f) (h_range eff b) = true)
             (fun b => overlap (h_range eff' f) (h_range eff' b) = true)).
  - rewrite IH; [done|]. intros g Hg. apply Hf. by right.
  - intros g Hg. rewrite (Hf f), (Hf g); [done | by right | left].
Qed.

Lemma check_preconditions_ext eff eff' :
  (forall f, f ∈ S_FIELDS -> s_val eff f = s_val eff' f) ->
  (forall f, f ∈ H_FIELDS -> h_range eff f = h_range eff' f) ->
  eff !! "header_protection_key" = eff' !! "header_protection_key" ->
  check_preconditions b64_decode eff = check_preconditions b64_decode eff'.
Proof.
  intros Hs Hh Hk. unfold check_preconditions. rewrite (h_overlap_ext eff eff' H_FIELDS Hh), Hk.
  rewrite (Hs "s1"), (Hs "s2"), (Hs "s3"), (Hs "s4"); [done|..]; unfold S_FIELDS; set_solver.
Qed.

Lemma h_overlap_None eff fs :
  h_overlap eff fs = None <->
  forall i j a b, (i < j)%nat -> fs !! i = Some a -> fs !! j = Some b ->
    overlap (h_range eff a) (h_range eff b) = false.
Proof.
  induction fs as [|f fs IH]; [by split; [intros _ ? ? ? ? _ Hi; rewrite lookup_nil in Hi|]|].
  cbn [h_overlap]. destruct (list_find _ fs) as [[k b]|] eqn:Hf.
  - split; [done|]. intros H. exfalso. apply list_find_Some in Hf as (Hk & Hov & _).
    specialize (H 0%nat (S k) f b ltac:(lia) eq_refl Hk). congruence.
  - apply list_find_None in Hf. rewrite Forall_forall in Hf. rewrite IH. split.
    + intros H [|i] [|j] a b Hij Hi Hj; [lia | | lia | by apply (H i j); [lia|..]].
      injection Hi as <-. apply not_true_is_false, Hf. by eapply list_elem_of_lookup_2.
    + intros H i j a b Hij Hi Hj. by apply (H (S i) (S j)); [lia|..].
Qed.

(** What the preconditions demand of a set of values. *)
Definition sound_set (eff : gmap string FieldValue) : Prop :=
  wrap_i64 (s_val eff "s1" + 56) <> s_val eff "s2" /\
  (forall i j a b, (i < j)%nat -> H_FIELDS !! i = Some a -> H_FIELDS !! j = Some b ->
     overlap (h_range eff a) (h_range eff b) = false) /\
  (forall hpk, eff !! "header_protection_key" = Some (VStr hpk) ->
     hpk_is_active b64_decode hpk = true -> Forall (fun f => 12 <= s_val eff f) S_FIELDS).

Lemma check_preconditions_sound eff : check_preconditions b64_decode eff = Ok tt <-> sound_set eff.
Proof.
  unfold check_preconditions, sound_set. rewrite <- h_overlap_None.
  destruct (Z.eqb_spec (wrap_i64 (s_val eff "s1" + 56)) (s_val eff "s2")) as [|Hne]; [split; [done | tauto]|].
  destruct (h_overlap eff H_FIELDS); [split; [done | naive_solver]|].
  destruct (eff !! "header_protection_key") as [[n|lo hi|hpk|b]|]; 
    try (split; [|done]; intros _; split_and!; [done | done | by intros ? [=]]).
  destruct (hpk_is_active b64_decode hpk) eqn:Ha; cbn [andb].
  2: { split; [|done]. intros _. split_and!; [done | done|]. intros k [= <-]. congruence. }
  destruct (_ || _) eqn:Hlt.
  - split; [done|]. intros (_ & _ & H). specialize (H hpk eq_refl Ha). exfalso.
    unfold S_FIELDS in H. rewrite !Forall_cons in H. deep_destruct.
    rewrite !orb_true_iff, !Z.ltb_lt in Hlt. lia.
  - split; [|done]. intros _. split_and!; [done | done|]. intros k _ _. bool_props.
    unfold S_FIELDS. repeat constructor; lia.
Qed.

(** How the file's value of a field relates to the resolved one. *)
Definition agrees (s : FieldSpec) (written resolved : option FieldValue) : Prop :=
  written = resolved \/
  exists v, validate b64_decode s v = Ok tt /\ resolved = Some v /\ written = reread v.

Lemma merge_agrees conf O st out :
  assembled O FIELD_SPECS st -> (forall s, s ∈ FIELD_SPECS -> coherent b64_decode conf O s) ->
  splice conf st = Ok out ->
  forall s, s ∈ FIELD_SPECS -> agrees s (conf_effective out !! field s) (effective st !! field s).
Proof.
  intros Hasm Hcoh Hsp s Hs. rewrite conf_effective_lookup by done.
  rewrite (conf_value_out b64_decode conf O st Hasm Hcoh out Hsp s Hs).
  rewrite (asm_effective _ _ _ Hasm s Hs). pose proof (Hcoh s Hs) as Hc. unfold coherent in Hc.
  destruct (O s) as [v|v|ov|ov| |e]; try by left.
  - right. exists v. split_and!; [tauto | done | done].
  - right. exists v. split_and!; [tauto | done | done].
Qed.

Lemma agrees_s s w r eff eff' :
  kind s = SInt -> agrees s w r -> eff !! field s = w -> eff' !! field s = r ->
  s_val eff (field s) = s_val eff' (field s).
Proof.
  unfold s_val. intros Hk Ha -> ->. destruct Ha as [->|(v & Hv & -> & ->)]; [done|].
  apply validate_shape in Hv. rewrite Hk in Hv. by destruct Hv as (n & -> & _).
Qed.

Lemma agrees_h s w r eff eff' :
  kind s = HRange -> agrees s w r -> eff !! field s = w -> eff' !! field s = r ->
  h_range eff (field s) = h_range eff' (field s).
Proof.
  unfold h_range. intros Hk Ha -> ->. destruct Ha as [->|(v & Hv & -> & ->)]; [done|].
  apply validate_shape in Hv. rewrite Hk in Hv.
  destruct Hv as [(n & -> & _)|(lo & hi & -> & _)]; [done|]. cbn.
  by destruct (Z.eqb_spec lo hi) as [->|].
Qed.

(** Only text over the base64 alphabet decodes, and only the empty text decodes
    to nothing. *)
Definition b64_alphabet : Prop :=
  forall s bytes, b64_decode s = Some bytes -> bytes <> [] ->
    s <> [] /\ Forall (fun c => is_whitespace c = false) s.

Lemma agrees_hpk s w r :
  b64_alphabet -> kind s = HeaderProtectionKey -> agrees s w r -> w = r.
Proof.
  intros Hb Hk [->|(v & Hv & -> & ->)]; [done|]. unfold validate in Hv. rewrite Hk in Hv.
  destruct v as [n|lo hi|x|b]; try done. unfold decode_hpk in Hv.
  apply rbind_Ok in Hv as (bytes & Hv & _). apply rbind_Ok in Hv as ([] & _ & Hv).
  destruct (b64_decode x) as [bs|] eqn:Hd; [|done].
  destruct (Nat.eqb_spec (length bs) 32); [|done]. destruct (Hb x bs Hd ltac:(by destruct bs)) as [Hne Hsp].
  cbn. rewrite trim_clean by done. by destruct x.
Qed.

Lemma agrees_junk s w r n :
  kind s = JunkCount -> agrees s w r -> w = Some (VInt n) -> r = Some (VInt n).
Proof.
  intros Hk [->|(v & Hv & -> & ->)]; [done|]. apply validate_shape in Hv. rewrite Hk in Hv.
  by destruct Hv as (m & -> & _).
Qed.

(** C31. The produced file passes the merge's own checks when it is read back:
    S2 is not the reserved size S1 + 56, the four H ranges are pairwise
    disjoint, an active header-protection key comes with S1 to S4 of at least
    12, and Jmin does not exceed Jmax. *)
Theorem merge_output_sound conf params defaults out dr :
  b64_alphabet -> merge_obfuscation_params_reporting b64_decode conf params defaults = Ok (out, dr) ->
  sound_set (conf_effective out) /\
  (forall lo hi, conf_effective out !! "jmin" = Some (VInt lo) ->
     conf_effective out !! "jmax" = Some (VInt hi) -> lo <= hi).
Proof.
  intros Hb (st & st' & Hasm0 & Hchk & Hasm & Hj & Hcoh & Hsp & _)%merge_stages.
  pose proof (merge_agrees _ _ _ _ Hasm Hcoh Hsp) as Hag.
  assert (forall s, s ∈ FIELD_SPECS -> field s ∉ ["jmin"; "jmax"] ->
            effective st' !! field s = effective st !! field s) as Hsame.
  { intros s Hs Hf. rewrite (asm_effective _ _ _ Hasm s Hs), (asm_effective _ _ _ Hasm0 s Hs).
    destruct (settled_cases conf params (junk_inverted (effective st))
      (outcome b64_decode conf params defaults) s) as [->|(_ & _ & ? & _)]; done. }
  assert (forall f, bool_decide (f ∈ field <$> FIELD_SPECS) = true -> f ∉ ["jmin"; "jmax"] ->
            exists s, s ∈ FIELD_SPECS /\ field s = f /\
              agrees s (conf_effective out !! field s) (effective st !! field s)) as Hf.
  { intros f Hin Hn. destruct (field_in f Hin) as (s & Hs & <-). exists s.
    rewrite <- (Hsame s Hs Hn). auto. }
  split.
  - apply check_preconditions_sound.
    rewrite (check_preconditions_ext (conf_effective out) (effective st)); [done| | |].
    + intros f HfS. destruct (Hf f) as (s & Hs & <- & Ha); [by each_key HfS | by each_key HfS; set_solver|].
      eapply agrees_s; [by apply table_s | exact Ha | done | done].
    + intros f HfS. destruct (Hf f) as (s & Hs & <- & Ha); [by each_key HfS | by each_key HfS; set_solver|].
      eapply agrees_h; [by apply table_h | exact Ha | done | done].
    + destruct (Hf "header_protection_key") as (s & Hs & Hfs & Ha); [done | set_solver|].
      rewrite Hfs in Ha. eapply agrees_hpk; [done | by apply table_hpk | exact Ha].
  - intros lo hi Hlo Hhi.
    destruct (field_in "jmin" ltac:(reflexivity)) as (s & Hs & Hfs).
    destruct (field_in "jmax" ltac:(reflexivity)) as (s' & Hs' & Hfs').
    pose proof (Hag s Hs) as Ha. pose proof (Hag s' Hs') as Ha'. rewrite Hfs in Ha. rewrite Hfs' in Ha'.
    apply (agrees_junk s _ _ lo) in Ha; [|apply table_junk; [done | rewrite Hfs; left] | done].
    apply (agrees_junk s' _ _ hi) in Ha'; [|apply table_junk; [done | rewrite Hfs'; right; left] | done].
    unfold junk_inverted, junk_pair in Hj. rewrite Ha, Ha' in Hj. bool_props. lia.
Qed.

(** ** A second merge changes nothing *)

Lemma resolve_total conf params defaults specs st :
  (forall s, s ∈ specs -> forall e, outcome b64_decode conf params defaults s <> OFail e) ->
  exists st', resolve b64_decode conf params defaults specs st = Ok st'.
Proof.
  revert st. induction specs as [|s specs IH]; intros st Hok; [by exists st|]. cbn [resolve].
  rewrite resolve_step_outcome. pose proof (Hok s ltac:(left)) as Hs.
  destruct (outcome b64_decode conf params defaults s) as [| | | | |e];
    cbn [record_outcome rbind]; try (apply IH; intros s' Hs'; apply Hok; by right).
  by destruct (Hs e).
Qed.

(** The fields a conflict of the junk pair drops. *)
Definition junk_drops (params : option AwgParams) (f : string) : list string :=
  match list_find (fun s => field s = f) FIELD_SPECS with
  | Some (_, s) => match epoch_value params s with Some _ => [f] | None => [] end
  | None => []
  end.

Lemma drop_junk_dropped conf params st f :
  dropped (drop_junk conf params st f) = dropped st ++ junk_drops params f.
Proof.
  unfold drop_junk, junk_drops. destruct (list_find _ _) as [[i s]|]; [|by rewrite app_nil_r].
  fold (epoch_value params s). destruct (epoch_value params s); [done | by rewrite app_nil_r].
Qed.

Lemma junk_inverted_ext eff eff' :
  eff !! "jmin" = eff' !! "jmin" -> eff !! "jmax" = eff' !! "jmax" ->
  junk_inverted eff = junk_inverted eff'.
Proof. unfold junk_inverted, junk_pair. by intros -> ->. Qed.

Lemma put_lines_id reps ls :
  (forall s line, (s, line) ∈ reps -> forall l, l ∈ ls -> has_key (key s) l -> l = line) ->
  put_lines reps ls = ls.
Proof.
  revert ls. induction reps as [|[s line] reps IH]; intros ls Hid; [done|].
  unfold put_lines. cbn [fold_left].
  assert (put_line (key s) line <$> ls = ls) as ->.
  { rewrite <- (list_fmap_id ls) at 2. apply list_fmap_ext. intros i l Hl. unfold put_line.
    case_decide as Hk; [|done]. symmetry. eapply (Hid s line); [left | | exact Hk].
    by eapply list_elem_of_lookup_2. }
  apply IH. intros s' line' Hin. apply Hid. by right.
Qed.

Section Again.
Context (conf out : str) (params : option AwgParams) (defaults : ClientDefaults) (inv : bool).
#[local] Abbreviation O1 := (outcome b64_decode conf params defaults).
#[local] Abbreviation O := (settled conf params inv O1).
#[local] Abbreviation O1' := (outcome b64_decode out params defaults).
#[local] Abbreviation O' := (settled out params inv O1').
Context (s : FieldSpec).
Hypothesis (Hnofail : forall e, O1 s <> OFail e).
Hypothesis (Hcap : captures (key s) out =
  match O s with
  | OReplace v | OInsert v => Some (drop_while is_blank (value_text v))
  | _ => captures (key s) conf
  end).
Hypothesis (Hval : conf_value out s =
  match O s with OReplace v | OInsert v => reread v | o => value_of o end).

(** The second pass decides the field alike: what was inserted is replaced, a
    default that was inserted is kept. *)
Lemma outcome_again :
  O1' s = O1 s \/
  (exists v, O1 s = OInsert v /\ O s = OInsert v /\ O1' s = OReplace v) \/
  (exists v, O1 s = OInsert v /\ O s = OInsert v /\ O1' s = OKeep (reread v) /\
     epoch_value params s = None /\ dflt s defaults = Some v /\ validate b64_decode s v = Ok tt).
Proof.
  destruct (settled_cases conf params inv O1 s) as [E|(_ & [v Hv] & _ & E)].
  - rewrite E in Hcap, Hval. rewrite E. clear E.
    unfold outcome in *. destruct (epoch_value params s) as [v|] eqn:He.
    + destruct (validate b64_decode s v) as [[]|e] eqn:Hv.
      * destruct (captures (key s) conf) eqn:Hc; rewrite Hcap; [by left|]. right. left. by exists v.
      * destruct (class s); [by destruct (Hnofail e)|]. left. cbn in Hval. by rewrite Hval.
    + destruct (captures (key s) conf) eqn:Hc; [rewrite Hcap; left; cbn in Hval; by rewrite Hval|].
      destruct (dflt s defaults) as [v|] eqn:Hd; [|by rewrite Hcap; left].
      destruct (validate b64_decode s v) as [[]|e] eqn:Hv; cbn [is_ok] in *; rewrite Hcap; [|by left].
      right. right. exists v. rewrite Hval. by split_and!.
  - rewrite E in Hcap, Hval. left. unfold outcome. rewrite Hv. cbn in Hval. by rewrite Hcap, Hval.
Qed.

Lemma refused_again : refused O1' s = refused O1 s.
Proof.
  unfold refused. destruct outcome_again as [->|[(v & -> & _ & ->)|(v & -> & _ & -> & _)]]; done.
Qed.

(** The resolved value of a field without a default, or of a junk count, is the
    same the second time. *)
Lemma value_again :
  (forall d, dflt s d = None) \/ kind s = JunkCount -> value_of (O1' s) = value_of (O1 s).
Proof.
  intros Hk. destruct outcome_again as [->|[(v & -> & _ & ->)|(v & -> & _ & -> & _ & Hd & Hv)]];
    [done | done|].
  destruct Hk as [Hk|Hk]; [by rewrite Hk in Hd|]. apply validate_shape in Hv. rewrite Hk in Hv.
  by destruct Hv as (n & -> & _).
Qed.

Lemma settled_again :
  value_of (O1' s) = value_of (O1 s) -> value_of (O' s) = value_of (O s).
Proof.
  intros Hv. rewrite !settled_eq. rewrite settled_eq in Hval. case_decide; [|done].
  cbn in Hval |- *. exact Hval.
Qed.

Lemma no_insert_again v : O' s <> OInsert v.
Proof.
  rewrite settled_eq. case_decide as Hf; [done|].
  destruct outcome_again as [E|[(v' & _ & _ & ->)|(v' & _ & _ & -> & _)]]; [|done|done].
  rewrite E. intros Ho. rewrite settled_eq, decide_False in Hcap by done. rewrite Ho in Hcap.
  revert E. rewrite Ho. unfold outcome. destruct (epoch_value params s) as [u|].
  - destruct (validate b64_decode s u) as [[]|]; [by rewrite Hcap | by destruct (class s)].
  - by rewrite Hcap.
Qed.

Lemma replace_again v : O' s = OReplace v -> O s = OReplace v \/ O s = OInsert v.
Proof.
  rewrite !settled_eq. case_decide; [done|]. intros Ho.
  destruct outcome_again as [<-|[(v' & -> & _ & E)|(v' & -> & _ & E & _)]]; [by left| |congruence].
  right. congruence.
Qed.

End Again.

Lemma settle_junk_dropped conf params st st' :
  settle_junk conf params st = Ok st' ->
  dropped st' = dropped st ++
    if junk_inverted (effective st) then junk_drops params "jmin" ++ junk_drops params "jmax" else [].
Proof.
  unfold settle_junk. destruct (junk_inverted (effective st)).
  - cbn [fold_left]. destruct (junk_inverted _); [done|]. intros [= <-].
    by rewrite !drop_junk_dropped, app_assoc.
  - intros [= <-]. by rewrite app_nil_r.
Qed.

Lemma settle_junk_total conf params O st :
  assembled O FIELD_SPECS st ->
  (forall eff, (forall s, s ∈ FIELD_SPECS -> field s ∈ ["jmin"; "jmax"] ->
     eff !! field s = value_of (settled conf params (junk_inverted (effective st)) O s)) ->
     junk_inverted eff = false) ->
  exists st', settle_junk conf params st = Ok st'.
Proof.
  intros Hasm Hok. unfold settle_junk. destruct (junk_inverted (effective st)) eqn:Hj; [|by eexists].
  cbn [fold_left]. rewrite Hok; [by eexists|]. intros s Hs _. cbn [settled].
  apply (asm_effective _ FIELD_SPECS); [|done].
  apply (drop_junk_assembled b64_decode); [by apply field_in|].
  by apply (drop_junk_assembled b64_decode); [apply field_in|].
Qed.

(** A splice that inserts nothing and whose replaced lines are there already. *)
Lemma splice_again O st out :
  assembled O FIELD_SPECS st -> (forall s, s ∈ FIELD_SPECS -> coherent b64_decode out O s) ->
  (forall s v, s ∈ FIELD_SPECS -> O s <> OInsert v) ->
  (forall s v, s ∈ FIELD_SPECS -> O s = OReplace v ->
     forall l, l ∈ lines out -> has_key (key s) l -> l = render s v) ->
  splice out st = Ok out.
Proof.
  intros Hasm Hcoh Hins Hrep. pose proof (replaces_rendered b64_decode out O st Hasm Hcoh) as Hr.
  unfold splice. rewrite <- (unlines_lines out) at 1.
  rewrite replace_lines by (done || apply lines_nonempty || apply lines_no_nl).
  rewrite put_lines_id, unlines_lines.
  - rewrite (asm_inserts _ _ _ Hasm), omap_none; [done|]. intros s Hs. unfold inserted.
    destruct (O s) eqn:Ho; try done. by destruct (Hins s v Hs).
  - intros s line Hin. apply (in_replaces O st Hasm) in Hin as [Hs Hin]. unfold replaced in Hin.
    destruct (O s) eqn:Ho; try done. injection Hin as <-. by apply Hrep.
Qed.

Lemma resolve_dropped conf params defaults st :
  resolve b64_decode conf params defaults FIELD_SPECS (mkResolved ∅ [] [] []) = Ok st ->
  dropped st = omap (refused (outcome b64_decode conf params defaults)) FIELD_SPECS.
Proof.
  intros Hres. by pose proof (resolve_assembled _ _ _ _ _ _ _ table_fields_nodup Hres)
    as (_ & _ & H & _).
Qed.

(** The junk pair is a function of the two fields' values. *)
Lemma junk_inverted_fields eff eff' :
  (forall s, s ∈ FIELD_SPECS -> field s ∈ ["jmin"; "jmax"] -> eff !! field s = eff' !! field s) ->
  junk_inverted eff = junk_inverted eff'.
Proof.
  intros H. destruct (field_in "jmin" eq_refl) as (s & Hs & Ef).
  destruct (field_in "jmax" eq_refl) as (s' & Hs' & Ef').
  apply junk_inverted_ext; [rewrite <- Ef|rewrite <- Ef']; apply H; rewrite ?Ef, ?Ef'; set_solver.
Qed.

(** What is reported as dropped are fields of the table. *)
Lemma merge_dropped_fields conf params defaults out dr f :
  merge_obfuscation_params_reporting b64_decode conf params defaults = Ok (out, dr) ->
  f ∈ dr -> exists s, s ∈ FIELD_SPECS /\ field s = f.
Proof.
  intros (st & st' & _ & _ & _ & _ & _ & _ & -> & Hres & Hset)%merge_stages.
  rewrite (settle_junk_dropped _ _ _ _ Hset), (resolve_dropped _ _ _ _ Hres), elem_of_app.
  intros [(s & Hs & E)%list_elem_of_omap|Hf].
  - exists s. split; [done|]. unfold refused in E. destruct (outcome _ _ _ _ s); congruence.
  - destruct (junk_inverted (effective st)); [|by apply elem_of_nil in Hf].
    assert (forall g, f ∈ junk_drops params g -> f = g) as Hg.
    { intros g. unfold junk_drops. destruct (list_find _ _) as [[i s]|]; [|by rewrite elem_of_nil].
      destruct (epoch_value params s); rewrite ?elem_of_cons, elem_of_nil; tauto. }
    apply elem_of_app in Hf as [->%Hg| ->%Hg]; by apply field_in.
Qed.

(** The second merge, stage by stage. *)
Section Second.
Context (conf out : str) (params : option AwgParams) (defaults : ClientDefaults) (st st' : Resolved).
#[local] Abbreviation inv := (junk_inverted (effective st)).
#[local] Abbreviation O1 := (outcome b64_decode conf params defaults).
#[local] Abbreviation O := (settled conf params inv O1).
#[local] Abbreviation O1' := (outcome b64_decode out params defaults).
#[local] Abbreviation O' := (settled out params inv O1').
Hypothesis (Hasm0 : assembled O1 FIELD_SPECS st) (Hasm : assembled O FIELD_SPECS st').
Hypothesis (Hcoh : forall s, s ∈ FIELD_SPECS -> coherent b64_decode conf O s).
Hypothesis (Hsp : splice conf st' = Ok out).

Lemma resolve_again :
  exists st1, resolve b64_decode out params defaults FIELD_SPECS (mkResolved ∅ [] [] []) = Ok st1.
Proof.
  apply resolve_total. intros s Hs e.
  destruct (outcome_again conf out params defaults inv s) as [->|[(v & _ & _ & ->)|(v & _ & _ & -> & _)]];
    [by apply Hasm0 | by eapply captures_out | by eapply conf_value_out | by apply Hasm0 | done | done].
Qed.

Section Resolved.
Context (st1 : Resolved).
Hypothesis (Hres : resolve b64_decode out params defaults FIELD_SPECS (mkResolved ∅ [] [] []) = Ok st1).

Lemma effective_again s :
  s ∈ FIELD_SPECS -> (forall d, dflt s d = None) \/ kind s = JunkCount ->
  effective st1 !! field s = effective st !! field s.
Proof.
  intros Hs Hk. rewrite (asm_effective _ _ _ (resolve_all_assembled _ _ _ _ _ Hres) s Hs).
  rewrite (asm_effective _ _ _ Hasm0 s Hs). apply (value_again conf out params defaults inv); [| | |done].
  - by apply Hasm0.
  - by eapply captures_out.
  - by eapply conf_value_out.
Qed.

Lemma preconditions_again :
  check_preconditions b64_decode (effective st1) = check_preconditions b64_decode (effective st).
Proof.
  apply check_preconditions_ext.
  - intros f Hf. destruct (field_in f) as (s & Hs & <-); [by each_key Hf|]. unfold s_val.
    rewrite effective_again; [done | done | left; by apply table_s].
  - intros f Hf. destruct (field_in f) as (s & Hs & <-); [by each_key Hf|]. unfold h_range.
    rewrite effective_again; [done | done | left; by apply table_h].
  - destruct (field_in "header_protection_key" eq_refl) as (s & Hs & Ef). rewrite <- Ef.
    apply effective_again; [done | left; by apply table_hpk].
Qed.

Lemma inverted_again : junk_inverted (effective st1) = inv.
Proof.
  apply junk_inverted_fields. intros s Hs Hf. apply effective_again; [done|].
  right. by apply table_junk.
Qed.

Lemma settle_again :
  junk_inverted (effective st') = false -> exists st2, settle_junk out params st1 = Ok st2.
Proof.
  intros Hj. apply (settle_junk_total out params O1'); [by apply resolve_all_assembled|].
  intros eff He. rewrite inverted_again in He. rewrite <- Hj. apply junk_inverted_fields.
  intros s Hs Hf. rewrite (He s Hs Hf), (asm_effective _ _ _ Hasm s Hs).
  apply settled_again; [by eapply conf_value_out|].
  apply (value_again conf out params defaults inv);
    [by apply Hasm0 | by eapply captures_out | by eapply conf_value_out | right; by apply table_junk].
Qed.

Lemma splice_second st2 : settle_junk out params st1 = Ok st2 -> splice out st2 = Ok out.
Proof.
  intros Hset. destruct (settle_junk_assembled b64_decode out params O1' st1 st2) as [Hasm2 _];
    [by apply resolve_all_assembled | done|].
  rewrite inverted_again in Hasm2. apply (splice_again O'); [done | | |].
  - intros s _. apply settled_coherent, outcome_coherent.
  - intros s v Hs. apply (no_insert_again conf);
      [by apply Hasm0 | by eapply captures_out | by eapply conf_value_out].
  - intros s v Hs Ho l Hl Hk. eapply written_lines; [exact Hasm | exact Hcoh | exact Hsp | done | | done | done].
    eapply replace_again;
      [by apply Hasm0 | by eapply captures_out | by eapply conf_value_out | exact Ho].
Qed.

Lemma dropped_again st2 :
  resolve b64_decode conf params defaults FIELD_SPECS (mkResolved ∅ [] [] []) = Ok st ->
  settle_junk conf params st = Ok st' -> settle_junk out params st1 = Ok st2 ->
  dropped st2 = dropped st'.
Proof.
  intros Hres0 Hset Hset2. rewrite (settle_junk_dropped _ _ _ _ Hset).
  rewrite (settle_junk_dropped _ _ _ _ Hset2), inverted_again. f_equal.
  rewrite (resolve_dropped _ _ _ _ Hres), (resolve_dropped _ _ _ _ Hres0).
  apply omap_ext_in. intros s Hs. apply (refused_again conf out params defaults inv);
    [by apply Hasm0 | by eapply captures_out | by eapply conf_value_out].
Qed.

End Resolved.
End Second.

(** C32. Merging is idempotent: merging the same epoch (or none) with the same
    defaults into the produced file reports the same dropped fields and leaves
    every byte of it as it is. *)
Theorem merge_idempotent conf params defaults out dr :
  merge_obfuscation_params_reporting b64_decode conf params defaults = Ok (out, dr) ->
  merge_obfuscation_params_reporting b64_decode out params defaults = Ok (out, dr).
Proof.
  intros (st & st' & Hasm0 & Hchk & Hasm & Hj & Hcoh & Hsp & Hdr & Hres & Hset)%merge_stages.
  destruct (resolve_again conf out params defaults st st' Hasm0 Hasm Hcoh Hsp) as [st1 Hres1].
  destruct (settle_again conf out params defaults st st' Hasm0 Hasm Hcoh Hsp st1 Hres1 Hj) as [st2 Hset2].
  unfold merge_obfuscation_params_reporting. rewrite Hres1. cbn [rbind].
  rewrite (preconditions_again conf out params defaults st st' Hasm0 Hasm Hcoh Hsp st1 Hres1), Hchk.
  cbn [rbind]. rewrite Hset2. cbn [rbind].
  rewrite (splice_second conf out params defaults st st' Hasm0 Hasm Hcoh Hsp st1 Hres1 st2 Hset2).
  cbn [rbind]. rewrite Hdr.
  by rewrite (dropped_again conf out params defaults st st' Hasm0 Hasm Hcoh Hsp st1 Hres1 st2 Hres Hset Hset2).
Qed.

(** ** When a merge fails *)

Lemma resolve_fails conf params defaults specs st e :
  resolve b64_decode conf params defaults specs st = Err e ->
  exists s, s ∈ specs /\ outcome b64_decode conf params defaults s = OFail e.
Proof.
  revert st. induction specs as [|s specs IH]; intros st; [done|]. cbn [resolve].
  rewrite resolve_step_outcome. destruct (outcome b64_decode conf params defaults s) as [| | | | |e'] eqn:Ho;
    cbn [record_outcome rbind];
    try (intros (s' & Hs' & E)%IH; exists s'; split; [by right | done]).
  intros [= ->]. exists s. split; [left | done].
Qed.

Lemma outcome_fail conf params defaults s e :
  outcome b64_decode conf params defaults s = OFail e ->
  class s = MustMatch /\ exists v, epoch_value params s = Some v /\ validate b64_decode s v = Err e.
Proof.
  unfold outcome. destruct (epoch_value params s) as [v|].
  - destruct (validate b64_decode s v) as [u|e'] eqn:Hv; [by destruct (captures (key s) conf)|].
    destruct (class s); [|done]. intros [= <-]. split; [done | by exists v].
  - destruct (captures (key s) conf); [done|]. destruct (dflt s defaults); [|done]. by destruct (is_ok _).
Qed.

Lemma junk_inverted_pair eff : junk_inverted eff = true ->
  exists lo hi, eff !! "jmin" = Some (VInt lo) /\ eff !! "jmax" = Some (VInt hi) /\ hi < lo.
Proof.
  unfold junk_inverted, junk_pair.
  destruct (eff !! "jmin") as [[lo| | |]|]; try done. destruct (eff !! "jmax") as [[hi| | |]|]; try done.
  intros H. bool_props. by exists lo, hi.
Qed.

(** The value of a field with the epoch left out of account. *)
Definition without_epoch (conf : str) (params : option AwgParams) (O : FieldSpec -> Outcome)
    (s : FieldSpec) : option FieldValue :=
  if decide (is_Some (epoch_value params s)) then conf_value conf s else value_of (O s).

Lemma settle_junk_fails conf params O st e :
  assembled O FIELD_SPECS st -> settle_junk conf params st = Err e ->
  e = Rejected "jmax" JunkInverted /\
  exists smin smax lo hi, smin ∈ FIELD_SPECS /\ field smin = "jmin" /\
    smax ∈ FIELD_SPECS /\ field smax = "jmax" /\
    without_epoch conf params O smin = Some (VInt lo) /\
    without_epoch conf params O smax = Some (VInt hi) /\ hi < lo.
Proof.
  intros Hasm. unfold settle_junk. destruct (junk_inverted (effective st)); [|done]. cbn [fold_left].
  destruct (junk_inverted _) eqn:Hj; [|done]. intros [= <-]. split; [done|].
  assert (assembled (settled conf params true O) FIELD_SPECS
            (drop_junk conf params (drop_junk conf params st "jmin") "jmax")) as Hasm'
    by (by do 2 (apply (drop_junk_assembled b64_decode); [apply field_in; reflexivity|])).
  apply junk_inverted_pair in Hj as (lo & hi & Hlo & Hhi & Hlt).
  destruct (field_in "jmin" eq_refl) as (s & Hs & Ef). destruct (field_in "jmax" eq_refl) as (s' & Hs' & Ef').
  exists s, s', lo, hi. pose proof (asm_effective _ _ _ Hasm' s Hs) as E.
  pose proof (asm_effective _ _ _ Hasm' s' Hs') as E'. rewrite Ef, Hlo, settled_eq, Ef in E.
  rewrite Ef', Hhi, settled_eq, Ef' in E'.
  unfold without_epoch. split_and!; try done.
  - rewrite E. repeat case_decide; try done; set_solver.
  - rewrite E'. repeat case_decide; try done; set_solver.
Qed.

(** A replaced line is no header and replaces no header. *)
Lemma is_header_key s l : s ∈ FIELD_SPECS -> has_key (key s) l -> ~ is_header l.
Proof.
  intros Hs (x & u & -> & _)%has_key_split [t Ht]. revert s Hs Ht.
  refine (table_all (fun s => strip_prefix _ (lit (key s) ++ x :: u) = Some t -> False) _).
  Transparent FIELD_SPECS. repeat (apply Forall_cons_2; [cbn; discriminate|]). apply Forall_nil_2.
  Opaque FIELD_SPECS.
Qed.

Lemma put_lines_header reps ls :
  Forall rendered reps -> list_find is_header (put_lines reps ls) = None ->
  list_find is_header ls = None.
Proof.
  intros H. revert ls. induction H as [|[s line] reps Hr _ IH]; intros ls Hf; [done|].
  unfold put_lines in Hf. cbn [fold_left] in Hf. apply IH in Hf.
  rewrite list_find_None in Hf |- *. rewrite Forall_fmap in Hf. eapply Forall_impl; [exact Hf|].
  intros l Hl Hh. apply Hl. unfold put_line. case_decide as Hk; [|done].
  by destruct (is_header_key s l (proj1 Hr) Hk).
Qed.

Lemma splice_fails conf st e :
  Forall rendered (replaces st) -> splice conf st = Err e ->
  e = NoSection /\ Forall (fun l => ~ is_header l) (lines conf).
Proof.
  intros Hr. unfold splice. rewrite <- (unlines_lines conf) at 1.
  rewrite replace_lines by (done || apply lines_nonempty || apply lines_no_nl).
  rewrite by_section_eq. destruct (inserts st) as [|x ins] eqn:Ei; [done|]. rewrite <- Ei.
  rewrite insert_lines.
  - destruct (list_find is_header _) as [[i l]|] eqn:Hf; [done|]. intros [= <-]. split; [done|].
    apply (list_find_None is_header). by eapply put_lines_header.
  - intros E. apply (f_equal length) in E. rewrite put_lines_length in E.
    by destruct (lines conf) eqn:El; [destruct (lines_nonempty conf)|].
  - by rewrite Ei.
  - apply put_lines_no_nl; [done | apply lines_no_nl].
Qed.

(** Every rejection names a field of the table. *)
Lemma validate_names s v e : validate b64_decode s v = Err e -> exists why, e = Rejected (field s) why.
Proof.
  unfold validate. destruct (kind s), v; try (intros [= <-]; by eexists); try done;
    unfold validate_s_value, validate_h_value, validate_range_string, validate_i_tag, decode_hpk,
      validate_junk_value, validate_conf_string, rbind; intros H; repeat step_in H;
    repeat match goal with E : _ = Err _ |- _ => progress step_in E end; simplify_eq; by eexists.
Qed.

Lemma check_preconditions_names eff e : check_preconditions b64_decode eff = Err e ->
  exists f why, e = Rejected f why /\ f ∈ ["s2"; "header_protection_key"] ++ H_FIELDS.
Proof.
  assert (forall fs f, h_overlap eff fs = Some f -> f ∈ fs) as Hin.
  { induction fs as [|a fs IH]; intros f; [done|]. cbn. destruct (list_find _ fs) as [[i b]|] eqn:Hf.
    - intros [= <-]. apply list_find_Some in Hf as (Hi & _). right. by eapply list_elem_of_lookup_2.
    - intros Hf'. right. by apply IH. }
  unfold check_preconditions. intros H. destruct (_ =? _); [injection H as <-; eexists _, _; split; [done|]; left|].
  destruct (h_overlap eff H_FIELDS) as [f|] eqn:Hh.
  - injection H as <-. eexists f, _. split; [done|]. apply elem_of_app. right. by apply Hin.
  - destruct (eff !! _) as [[]|]; try done. destruct (_ && _); [|done]. injection H as <-.
    eexists _, _. split; [done|]. right. left.
Qed.

Lemma merge_rejected_field conf params defaults f why :
  merge_obfuscation_params_reporting b64_decode conf params defaults = Err (Rejected f why) ->
  f ∈ field <$> FIELD_SPECS.
Proof.
  unfold merge_obfuscation_params_reporting.
  destruct (resolve b64_decode conf params defaults FIELD_SPECS _) as [st|e'] eqn:Hres; cbn [rbind].
  2: { intros [= ->]. apply resolve_fails in Hres as (s & Hs & Ho).
       apply outcome_fail in Ho as (_ & v & _ & E). apply validate_names in E as [? [= -> _]].
       by apply list_elem_of_fmap_2. }
  pose proof (resolve_all_assembled b64_decode _ _ _ _ Hres) as Hasm.
  destruct (check_preconditions b64_decode (effective st)) as [[]|e'] eqn:Hpre; cbn [rbind].
  2: { intros [= ->]. apply check_preconditions_names in Hpre as (g & y & [= -> _] & Hg).
       destruct (field_in g) as (s & Hs & <-); [by each_key Hg | by apply list_elem_of_fmap_2]. }
  destruct (settle_junk conf params st) as [st'|e'] eqn:Hj; cbn [rbind].
  2: { intros [= ->]. eapply settle_junk_fails in Hj as [[= -> _] _]; [|done].
       destruct (field_in "jmax" eq_refl) as (s & Hs & <-). by apply list_elem_of_fmap_2. }
  destruct (splice conf st') as [text|e'] eqn:Hsp; cbn [rbind]; [done|]. intros [= ->].
  destruct (settle_junk_assembled b64_decode _ _ _ _ _ Hasm Hj) as [Hasm' _].
  eapply splice_fails in Hsp as [[=] _]. eapply replaces_rendered; [exact Hasm'|].
  intros s _. apply settled_coherent, outcome_coherent.
Qed.

(** The reasons of a failed merge. *)
Inductive MergeFailure (conf : str) (params : option AwgParams) (defaults : ClientDefaults)
    : Error -> Prop :=
| BadMustMatch s v e :
    s ∈ FIELD_SPECS -> class s = MustMatch -> epoch_value params s = Some v ->
    validate b64_decode s v = Err e -> MergeFailure conf params defaults e
| BrokenPrecondition eff e :
    (forall s, s ∈ FIELD_SPECS ->
       eff !! field s = value_of (outcome b64_decode conf params defaults s)) ->
    check_preconditions b64_decode eff = Err e -> MergeFailure conf params defaults e
| JunkStaysInverted smin smax lo hi :
    smin ∈ FIELD_SPECS -> field smin = "jmin" -> smax ∈ FIELD_SPECS -> field smax = "jmax" ->
    without_epoch conf params (outcome b64_decode conf params defaults) smin = Some (VInt lo) ->
    without_epoch conf params (outcome b64_decode conf params defaults) smax = Some (VInt hi) ->
    hi < lo -> MergeFailure conf params defaults (Rejected "jmax" JunkInverted)
| NoInterface :
    Forall (fun l => ~ is_header l) (lines conf) -> MergeFailure conf params defaults NoSection.

(** The merge fails for four reasons only: the epoch's value of a must-match
    field is invalid (and the error is that field's), the resolved values break
    a precondition, the junk pair stays inverted with every epoch value of it
    left out, or the file has no Interface section to insert into.  In
    particular an invalid client-side value of an epoch never fails the merge. *)
Theorem merge_fails_only conf params defaults e :
  merge_obfuscation_params_reporting b64_decode conf params defaults = Err e ->
  MergeFailure conf params defaults e.
Proof.
  unfold merge_obfuscation_params_reporting.
  destruct (resolve b64_decode conf params defaults FIELD_SPECS _) as [st|e'] eqn:Hres; cbn [rbind].
  2: { intros [= ->]. apply resolve_fails in Hres as (s & Hs & Ho).
       apply outcome_fail in Ho as (Hc & v & Hv & E). by eapply BadMustMatch. }
  pose proof (resolve_all_assembled b64_decode _ _ _ _ Hres) as Hasm.
  destruct (check_preconditions b64_decode (effective st)) as [[]|e'] eqn:Hpre; cbn [rbind].
  2: { intros [= ->]. eapply BrokenPrecondition; [|done]. apply Hasm. }
  destruct (settle_junk conf params st) as [st'|e'] eqn:Hj; cbn [rbind].
  2: { intros [= ->]. eapply settle_junk_fails in Hj; [|done].
       destruct Hj as (-> & smin & smax & lo & hi & ? & ? & ? & ? & ? & ? & ?).
       by apply (JunkStaysInverted _ _ _ smin smax lo hi). }
  destruct (splice conf st') as [text|e'] eqn:Hsp; cbn [rbind]; [done|].
  intros [= ->]. eapply splice_fails in Hsp; [destruct Hsp as [-> Hno]; by apply NoInterface|].
  destruct (settle_junk_assembled b64_decode _ _ _ _ _ Hasm Hj) as [Hasm' _].
  eapply replaces_rendered; [exact Hasm'|]. intros s _. apply settled_coherent, outcome_coherent.
Qed.

End Props.

(** ** Witnesses: a file with a stale S1, an unpaired Jmax and a peer *)

#[local] Transparent FIELD_SPECS.

(** No text decodes. *)
Definition no_b64 (s : str) : option (list Z) := None.

Definition sample_conf : str :=
  lit "[Interface]" ++ NL :: lit "PrivateKey = AAA" ++ NL :: lit "S1  = 17" ++ NL ::
  lit "Jmax = 70" ++ NL :: lit "[Peer]" ++ NL :: lit "S2 = 4" ++ [NL].

Definition sample_params : AwgParams :=
  mkAwgParams (Some 4) (Some 90) None 17 18 None 18 (Single 5) (Range 6 6) (Range 7 9) (Single 100)
    (Some (lit "<r 5><b 0x01>")) (Some (lit "bad")) None None None None None
    (Some (lit "5-9")) None None None None (Some true) None.

Definition sample_defaults : ClientDefaults :=
  mkClientDefaults (lit "<r 128>") (lit "10-30") 4 55 120.

Definition sample_merge : result (str * list string) Error :=
  @merge_obfuscation_params_reporting line_regex no_b64 sample_conf (Some sample_params)
    sample_defaults.

Definition sample_out : str := match sample_merge with Ok (s, _) => s | Err _ => [] end.

Lemma sample_merge_ok :
  @merge_obfuscation_params_reporting line_regex no_b64 sample_conf (Some sample_params)
    sample_defaults = Ok (sample_out, ["i2"; "jmin"]).
Proof. vm_compute. reflexivity. Qed.

Definition S1_spec : FieldSpec := List.nth 3 FIELD_SPECS (mkFieldSpec "" "" Interface MustMatch SInt
  (fun _ => None) no_default).

Lemma merge_preserves_foreign_witness :
  filter foreign (lines sample_out) = filter foreign (lines sample_conf) /\
  length (filter foreign (lines sample_out)) = 4%nat.
Proof.
  split; [|vm_compute; reflexivity].
  apply (@merge_preserves_foreign line_regex _ no_b64 sample_conf (Some sample_params)
           sample_defaults sample_out ["i2"; "jmin"]). exact sample_merge_ok.
Defined.

Lemma merge_applies_epoch_witness :
  ("s1" ∉ ["i2"; "jmin"]) /\ validate no_b64 S1_spec (VInt 17) = Ok tt /\
    @conf_value line_regex sample_out S1_spec = Some (VInt 17) \/
  "s1" ∈ ["i2"; "jmin"] /\ class S1_spec = ClientSide /\
    @captures line_regex "S1" sample_out = @captures line_regex "S1" sample_conf.
Proof.
  apply (@merge_applies_epoch line_regex _ no_b64 sample_conf (Some sample_params)
           sample_defaults sample_out ["i2"; "jmin"] S1_spec).
  - exact sample_merge_ok.
  - apply (list_elem_of_lookup_2 _ 3). reflexivity.
Defined.

(** A decoder that knows one key, thirty-two bytes of ones, and an epoch that
    carries it. *)
Definition ones_key : str := lit "AQEBAQEBAQEBAQEBAQEBAQEBAQEBAQEBAQEBAQEBAQE=".
Definition ones_b64 (s : str) : option (list Z) :=
  if decide (s = ones_key) then Some (repeat 1 32) else None.
Definition keyed_params : AwgParams :=
  mkAwgParams None None None 17 18 (Some 12) 18 (Single 5) (Single 6) (Range 7 9) (Single 100)
    None None None None None (Some ones_key) None None None None None None None None.
Definition keyed_out : str :=
  match @merge_obfuscation_params_reporting line_regex ones_b64 sample_conf (Some keyed_params)
          sample_defaults with
  | Ok (s, _) => s
  | Err _ => []
  end.

Lemma merge_output_sound_witness :
  @conf_effective line_regex keyed_out !! "header_protection_key" = Some (VStr ones_key) /\
  hpk_is_active ones_b64 ones_key = true /\
  sound_set ones_b64 (@conf_effective line_regex keyed_out) /\
  (forall lo hi, @conf_effective line_regex keyed_out !! "jmin" = Some (VInt lo) ->
     @conf_effective line_regex keyed_out !! "jmax" = Some (VInt hi) -> lo <= hi).
Proof.
  split; [vm_compute; reflexivity|]. split; [vm_compute; reflexivity|].
  apply (@merge_output_sound line_regex _ ones_b64 sample_conf (Some keyed_params)
           sample_defaults keyed_out []).
  - intros s bytes. unfold ones_b64. case_decide as Hs; [|done]. intros _ _. subst s.
    split; [discriminate|]. by repeat constructor.
  - vm_compute. reflexivity.
Defined.

Lemma merge_idempotent_witness :
  @merge_obfuscation_params_reporting line_regex no_b64 sample_out (Some sample_params)
    sample_defaults = Ok (sample_out, ["i2"; "jmin"]) /\ sample_out <> sample_conf.
Proof.
  split; [|vm_compute; discriminate].
  apply (@merge_idempotent line_regex _ no_b64 sample_conf (Some sample_params)
           sample_defaults sample_out ["i2"; "jmin"]). exact sample_merge_ok.
Defined.

(** A file without sections. *)
Lemma merge_fails_only_witness :
  MergeFailure (Hre := line_regex) no_b64 (lit "S1 = 3") (Some sample_params) sample_defaults NoSection /\
  MergeFailure (Hre := line_regex) no_b64 sample_conf
    (Some (mkAwgParams None None None 17 73 None 18 (Single 5) (Single 6) (Single 7) (Single 8)
       None None None None None None None None None None None None None None))
    sample_defaults (Rejected "s2" ReservedPair).
Proof.
  split; apply (@merge_fails_only line_regex _ no_b64); vm_compute; reflexivity.
Defined.
