(* ===== verification/ConfMergeDefaults.v ===== *)
(** * Generated client defaults and the merge

    What [ClientDefaults::generate] produces, that a top-up merge (no epoch)
    with such defaults succeeds on a sound file, and where it cannot. *)

From Stdlib Require Import ZArith Lia.
From stdpp Require Import base option numbers gmap strings list.
From S2P Require Import Prelude RustStr AwgParams ConfMerge ConfMergeFacts ConfMergeProps.

(** ** The ranges of the draws *)

(** The bands as numbers. *)
Ltac bands :=
  unfold JC_LO, JC_HI, JMIN_LO, JMIN_HI, JMAX_DELTA_LO, JMAX_DELTA_HI, CPA_LO_LO, CPA_LO_HI,
    CPA_DELTA_LO, CPA_DELTA_HI, I1_RAND_LO, I1_RAND_HI, u64_max in *.

Lemma rand_inclusive_range draw lo hi n :
  lo <= hi -> rand_inclusive draw lo hi = Some n -> lo <= n <= hi.
Proof.
  unfold rand_inclusive. intros Hle. destruct draw as [d|]; [|done]. cbn. intros [= <-].
  pose proof (Z.mod_pos_bound d (hi - lo + 1) ltac:(lia)). lia.
Qed.

(** Every I1 that can be drawn is a valid tag, by evaluation. *)
Lemma drawn_i1_valid n : I1_RAND_LO <= n <= I1_RAND_HI ->
  validate_i_tag "i1" (lit "<r " ++ to_string n ++ lit ">") = Ok tt.
Proof.
  intros Hn. assert (forallb (fun k =>
    is_ok (validate_i_tag "i1" (lit "<r " ++ to_string (I1_RAND_LO + Z.of_nat k) ++ lit ">")))
    (seq 0 225) = true) as H by (vm_compute; reflexivity).
  rewrite forallb_forall in H. specialize (H (Z.to_nat (n - I1_RAND_LO))).
  rewrite in_seq in H. bands.
  specialize (H ltac:(lia)).
  replace (32 + Z.of_nat (Z.to_nat (n - 32))) with n in H by lia. by destruct (validate_i_tag _ _) as [[]|].
Qed.

Lemma printed_range_valid f a b : 0 <= a <= b -> b <= u64_max ->
  validate_range_string f (to_string a ++ MINUS :: to_string b) = Ok tt.
Proof.
  intros Hab Hb. apply validate_range_string_grammar. exists (to_string a), (to_string b).
  destruct (to_string_nonneg a) as [-> ->]; [lia|]. destruct (to_string_nonneg b) as [-> ->]; [lia|].
  split_and!; try done; try lia. by right.
Qed.

Record in_bands (d : ClientDefaults) : Prop := {
  band_jc : JC_LO <= d_jc d <= JC_HI;
  band_jmin : JMIN_LO <= d_jmin d <= JMIN_HI;
  band_jmax : d_jmin d + JMAX_DELTA_LO <= d_jmax d <= d_jmin d + JMAX_DELTA_HI;
  band_cpa : exists lo hi, CPA_LO_LO <= lo <= CPA_LO_HI /\ lo + CPA_DELTA_LO <= hi <= lo + CPA_DELTA_HI /\
    d_content_padding_addition d = to_string lo ++ MINUS :: to_string hi;
  band_i1 : exists n, I1_RAND_LO <= n <= I1_RAND_HI /\ d_i1 d = lit "<r " ++ to_string n ++ lit ">";
}.

Lemma generate_in_bands draw d : generate draw = Some d -> in_bands d.
Proof.
  unfold generate. intros H. repeat (apply bind_Some in H as (? & ?%rand_inclusive_range & H); [|done]).
  injection H as <-. bands. split; bands; cbn [d_jc d_jmin d_jmax d_i1 d_content_padding_addition];
    try lia; [|by eexists]. eexists _, _. split_and!; [..|reflexivity]; lia.
Qed.

Lemma in_bands_valid b64_decode d s v :
  in_bands d -> s ∈ FIELD_SPECS -> dflt s d = Some v -> validate b64_decode s v = Ok tt.
Proof.
  intros [Hjc Hjmin Hjmax (lo & hi & Hlo & Hhi & Hcpa) (n & Hn & Hi1)]. revert s v.
  assert (forall f n, 0 <= n <= 1000 -> validate_junk_value f n = Ok tt) as Hjunk.
  { intros f m Hm. unfold validate_junk_value, u32_max.
    by destruct (Z.leb_spec 0 m), (Z.leb_spec m 4294967295); try lia. }
  intros s v Hs. revert s Hs v.
  refine (table_all (fun s => forall v, dflt s d = Some v -> validate b64_decode s v = Ok tt) _).
  repeat (apply Forall_cons_2; [cbn; try done; intros v [= <-]; cbn|]); try apply Forall_nil_2.
  all: first [apply Hjunk; bands; lia | rewrite Hi1; by apply drawn_i1_valid |
              rewrite Hcpa; apply printed_range_valid; bands; lia].
Qed.

(** Generated defaults are usable: whatever the entropy, the junk counts
    lie in their documented bands, the largest junk size exceeds the smallest by
    50 to 250, and every default passes the validator of its field, so that none
    is silently left out of a merge. *)
Theorem generate_defaults_valid b64_decode draw d :
  generate draw = Some d ->
  JC_LO <= d_jc d <= JC_HI /\ JMIN_LO <= d_jmin d <= JMIN_HI /\
  d_jmin d + JMAX_DELTA_LO <= d_jmax d <= d_jmin d + JMAX_DELTA_HI /\
  forall s v, s ∈ FIELD_SPECS -> dflt s d = Some v -> validate b64_decode s v = Ok tt.
Proof.
  intros Hg%generate_in_bands. split_and!; try apply Hg. intros s v. by apply in_bands_valid.
Qed.

(** ** The top-up merge *)

#[local] Opaque FIELD_SPECS.

Section TopUp.
Context `{Hre : ConfRegex} {Hlaws : ConfRegexLaws} (b64_decode : str -> option (list Z)).

(** A field without a default keeps what the file says. *)
Lemma outcome_no_epoch conf d s :
  epoch_value None s = None /\
  (dflt s d = None -> value_of (outcome b64_decode conf None d s) = conf_value conf s).
Proof.
  split; [done|]. intros Hd. unfold outcome. cbn [epoch_value mbind option_bind]. rewrite Hd.
  destruct (captures (key s) conf) eqn:Hc; cbn; [done|]. unfold conf_value. by rewrite Hc.
Qed.

Lemma no_epoch_no_fail conf d s e : outcome b64_decode conf None d s <> OFail e.
Proof. intros H. apply outcome_fail in H as (_ & v & Hv & _). done. Qed.

(** The preconditions on the resolved values are those on the file's. *)
Lemma top_up_preconditions conf d st :
  assembled (outcome b64_decode conf None d) FIELD_SPECS st ->
  check_preconditions b64_decode (effective st) = check_preconditions b64_decode (conf_effective conf).
Proof.
  intros Hasm.
  assert (forall s, s ∈ FIELD_SPECS -> (forall d, dflt s d = None) ->
            effective st !! field s = conf_effective conf !! field s) as He.
  { intros s Hs Hd. rewrite (asm_effective _ _ _ Hasm s Hs), conf_effective_lookup by done.
    by apply outcome_no_epoch. }
  apply check_preconditions_ext.
  - intros f Hf. destruct (field_in f) as (s & Hs & <-); [by each_key Hf|]. unfold s_val.
    rewrite He; [done | done | by apply table_s].
  - intros f Hf. destruct (field_in f) as (s & Hs & <-); [by each_key Hf|]. unfold h_range.
    rewrite He; [done | done | by apply table_h].
  - destruct (field_in "header_protection_key" eq_refl) as (s & Hs & Ef). rewrite <- Ef.
    apply He; [done | by apply table_hpk].
Qed.

Lemma splice_total conf st :
  replaces st = [] -> Exists is_header (lines conf) -> exists out, splice conf st = Ok out.
Proof.
  intros Hr Hh. unfold splice. rewrite Hr. cbn [fold_left]. rewrite <- (unlines_lines conf).
  rewrite by_section_eq. destruct (inserts st) as [|x ins] eqn:Ei; [by eexists|]. rewrite <- Ei.
  rewrite insert_lines by (apply lines_nonempty || apply lines_no_nl || by rewrite Ei).
  destruct (list_find is_header (lines conf)) as [[i l]|] eqn:Hf; [by eexists|].
  apply (list_find_None is_header) in Hf. by apply Forall_not_Exists in Hf.
Qed.

Lemma table_junk_defaults s d :
  s ∈ FIELD_SPECS ->
  (field s = "jmin" -> key s = "Jmin" /\ dflt s d = Some (VInt (d_jmin d))) /\
  (field s = "jmax" -> key s = "Jmax" /\ dflt s d = Some (VInt (d_jmax d))).
Proof.
  revert s. refine (table_all (fun s => _) _). Transparent FIELD_SPECS.
  repeat (apply Forall_cons_2; [cbn; split; (done || discriminate)|]). apply Forall_nil_2.
  Opaque FIELD_SPECS.
Qed.

(** The junk field's resolved value without an epoch. *)
Lemma junk_value_top_up conf d s :
  s ∈ FIELD_SPECS -> field s ∈ ["jmin"; "jmax"] -> in_bands d ->
  value_of (outcome b64_decode conf None d s) =
  match captures (key s) conf with Some _ => conf_value conf s | None => dflt s d end.
Proof.
  intros Hs Hf Hd. unfold outcome. cbn [epoch_value mbind option_bind].
  destruct (captures (key s) conf) eqn:Hc; [done|].
  destruct (dflt s d) as [v|] eqn:Hv; [|done]. by rewrite (in_bands_valid b64_decode d s v Hd Hs Hv).
Qed.

Lemma junk_top_up conf d st :
  assembled (outcome b64_decode conf None d) FIELD_SPECS st -> in_bands d ->
  (captures "Jmin" conf = None /\ captures "Jmax" conf = None \/
   is_Some (captures "Jmin" conf) /\ is_Some (captures "Jmax" conf) /\
   junk_inverted (conf_effective conf) = false) ->
  junk_inverted (effective st) = false.
Proof.
  intros Hasm Hd Hjunk.
  assert (forall s, s ∈ FIELD_SPECS -> field s ∈ ["jmin"; "jmax"] -> effective st !! field s =
    match captures (key s) conf with Some _ => conf_effective conf !! field s | None => dflt s d end) as He.
  { intros s Hs Hf. rewrite (asm_effective _ _ _ Hasm s Hs), conf_effective_lookup by done.
    by apply junk_value_top_up. }
  destruct (field_in "jmin" eq_refl) as (s & Hs & Ef). destruct (field_in "jmax" eq_refl) as (s' & Hs' & Ef').
  destruct (proj1 (table_junk_defaults s d Hs) Ef) as [Ek Ed].
  destruct (proj2 (table_junk_defaults s' d Hs') Ef') as [Ek' Ed'].
  pose proof (He s Hs ltac:(rewrite Ef; left)) as H1.
  pose proof (He s' Hs' ltac:(rewrite Ef'; right; left)) as H2.
  rewrite Ef, Ek, Ed in H1. rewrite Ef', Ek', Ed' in H2.
  destruct Hjunk as [[Hn Hx]|([x Hn] & [y Hx] & Hj)]; rewrite Hn in H1; rewrite Hx in H2.
  - unfold junk_inverted, junk_pair. rewrite H1, H2. apply Z.ltb_ge.
    pose proof (band_jmax d Hd). bands. lia.
  - by rewrite (junk_inverted_ext _ (conf_effective conf)).
Qed.

(** A top-up succeeds on a sound file: a file with an Interface section,
    whose own values pass the preconditions, and which has no junk sizes (or both,
    in order), takes the generated defaults, and nothing is reported as dropped. *)
Theorem top_up_succeeds conf draw d :
  generate draw = Some d -> Exists is_header (lines conf) -> sound_set b64_decode (conf_effective conf) ->
  (captures "Jmin" conf = None /\ captures "Jmax" conf = None \/
   is_Some (captures "Jmin" conf) /\ is_Some (captures "Jmax" conf) /\
   junk_inverted (conf_effective conf) = false) ->
  exists out, merge_obfuscation_params_reporting b64_decode conf None d = Ok (out, []).
Proof.
  intros Hd%generate_in_bands Hh Hsound Hjunk. unfold merge_obfuscation_params_reporting.
  destruct (resolve_total b64_decode conf None d FIELD_SPECS (mkResolved ∅ [] [] [])) as [st Hres].
  { intros s _ e. apply no_epoch_no_fail. }
  rewrite Hres. pose proof (resolve_all_assembled b64_decode _ _ _ _ Hres) as Hasm. cbn [rbind].
  rewrite (top_up_preconditions _ _ _ Hasm), (proj2 (check_preconditions_sound b64_decode _) Hsound).
  cbn [rbind]. unfold settle_junk. rewrite (junk_top_up conf d st) by done. cbn [rbind].
  destruct (splice_total conf st) as [out Hout]; [|done|].
  { rewrite (asm_replaces _ _ _ Hasm). apply omap_none. intros s _. unfold replaced, outcome.
    cbn [epoch_value mbind option_bind]. destruct (captures (key s) conf); [done|].
    destruct (dflt s d); [|done]. by destruct (is_ok _). }
  exists out. rewrite Hout. cbn [rbind]. rewrite (resolve_dropped b64_decode _ _ _ _ Hres).
  rewrite omap_none; [done|]. intros s _. unfold refused.
  destruct (outcome b64_decode conf None d s) as [| | |ov| |] eqn:Ho; try done.
  apply outcome_drop in Ho as (_ & _ & [v Hv]). done.
Qed.

Lemma table_junk_epoch s : s ∈ FIELD_SPECS ->
  (field s = "jmin" -> forall p, epoch s p = VInt <$> p_jmin p) /\
  (field s = "jmax" -> forall p, epoch s p = VInt <$> p_jmax p).
Proof.
  revert s. refine (table_all (fun s => _) _). Transparent FIELD_SPECS.
  repeat (apply Forall_cons_2; [cbn; split; (done || discriminate)|]). apply Forall_nil_2.
  Opaque FIELD_SPECS.
Qed.

(** Without epoch values of the pair, nothing of it can be dropped. *)
Lemma settled_no_epoch conf params inv O s :
  epoch_value params s = None -> settled conf params inv O s = O s.
Proof.
  intros He. rewrite (settled_eq b64_decode). case_decide as H; [|done].
  destruct H as (_ & _ & [v Hv]). congruence.
Qed.

(** A lone Jmax below the band of the generated Jmin blocks the agent: the
    file itself is not inverted, yet every merge into it fails, whatever the
    epoch, as long as the epoch sets neither junk size; the generated Jmin is
    inserted beside the file's Jmax instead of being left out. *)
Theorem lone_jmax_blocks_merge conf params draw d hi :
  generate draw = Some d -> captures "Jmin" conf = None ->
  conf_effective conf !! "jmax" = Some (VInt hi) -> hi < JMIN_LO ->
  (forall p, params = Some p -> p_jmin p = None /\ p_jmax p = None) ->
  junk_inverted (conf_effective conf) = false /\
  forall r, merge_obfuscation_params_reporting b64_decode conf params d <> Ok r.
Proof.
  intros Hd%generate_in_bands Hn Hx Hlt Hp.
  destruct (field_in "jmin" eq_refl) as (s & Hs & Ef). destruct (field_in "jmax" eq_refl) as (s' & Hs' & Ef').
  destruct (proj1 (table_junk_defaults s d Hs) Ef) as [Ek Ed].
  assert (epoch_value params s = None /\ epoch_value params s' = None) as [He He'].
  { destruct params as [p|]; [|done]. destruct (Hp p eq_refl) as [E E']. cbn.
    by rewrite (proj1 (table_junk_epoch s Hs) Ef), (proj2 (table_junk_epoch s' Hs') Ef'), E, E'. }
  rewrite <- Ef', conf_effective_lookup in Hx by done. split.
  - unfold junk_inverted, junk_pair. rewrite <- Ef, conf_effective_lookup by done.
    unfold conf_value. by rewrite Ek, Hn.
  - intros [out dr] (st & st' & _ & _ & Hasm & Hj & _)%merge_stages.
    pose proof (asm_effective _ _ _ Hasm s Hs) as H1. pose proof (asm_effective _ _ _ Hasm s' Hs') as H2.
    rewrite settled_no_epoch in H1, H2 by done. unfold outcome in H1, H2. rewrite He in H1. rewrite He' in H2.
    rewrite Ek, Hn, Ed, (in_bands_valid b64_decode d s _ Hd Hs Ed), Ef in H1.
    unfold conf_value in Hx. destruct (captures (key s') conf) as [raw|] eqn:Hc; [|done].
    cbn in Hx. unfold conf_value in H2. rewrite Hc in H2. cbn in H2. rewrite Hx, Ef' in H2. cbn in H1.
    unfold junk_inverted, junk_pair in Hj. rewrite H1, H2 in Hj. apply Z.ltb_ge in Hj.
    pose proof (band_jmin d Hd). bands. lia.
Qed.

End TopUp.

(** ** Witnesses *)

#[local] Transparent FIELD_SPECS.

(** Entropy that is all zeros. *)
Definition zeros (i : nat) : option Z := Some 0.
Definition zero_defaults : ClientDefaults := mkClientDefaults (lit "<r 32>") (lit "8-16") 3 40 90.

Lemma generate_defaults_valid_witness :
  generate zeros = Some zero_defaults /\
  validate no_b64 (List.nth 1 FIELD_SPECS S1_spec) (VInt 40) = Ok tt.
Proof.
  assert (generate zeros = Some zero_defaults) as H by (vm_compute; reflexivity). split; [exact H|].
  apply (generate_defaults_valid no_b64 zeros zero_defaults H).
  - apply (list_elem_of_lookup_2 _ 1). reflexivity.
  - reflexivity.
Defined.

Definition plain_conf : str :=
  lit "[Interface]" ++ NL :: lit "S1 = 15" ++ NL :: lit "H1 = 7-9" ++ NL :: lit "[Peer]".

Lemma top_up_succeeds_witness :
  exists out, @merge_obfuscation_params_reporting line_regex no_b64 plain_conf None zero_defaults =
    Ok (out, []).
Proof.
  apply (@top_up_succeeds line_regex _ no_b64 plain_conf zeros zero_defaults).
  - vm_compute. reflexivity.
  - apply Exists_cons_hd. by eexists.
  - apply check_preconditions_sound. vm_compute. reflexivity.
  - left. split; vm_compute; reflexivity.
Defined.

Definition lone_jmax_conf : str := lit "[Interface]" ++ NL :: lit "Jmax = 30".

Lemma lone_jmax_blocks_merge_witness :
  @merge_obfuscation_params_reporting line_regex no_b64 lone_jmax_conf None zero_defaults <>
    Ok (lone_jmax_conf, []).
Proof.
  apply (@lone_jmax_blocks_merge line_regex no_b64 lone_jmax_conf None zeros zero_defaults 30).
  - vm_compute. reflexivity.
  - vm_compute. reflexivity.
  - vm_compute. reflexivity.
  - reflexivity.
  - intros p [=].
Defined.
