(* ===== verification/AwgMetrics.v ===== *)
(** * Metrics of the parameter agent
      (crates/awg-params-agent/src/metrics.rs)

    The counters and gauges kept for the life of the process, the textfile the
    agent rewrites after every event, and the reload of that file at start.
    The file is text: [flush_body] is what is written, [load] what is read. *)

From Stdlib Require Import ZArith Lia.
From stdpp Require Import base option numbers strings sorting list.
From S2P Require Import Prelude RustStr AwgParams.

(** ** Text helpers of the standard library *)

Definition QUOTE : Z := 34.
Definition HASH : Z := 35.
Definition UNDERSCORE : Z := 95.
Definition EMDASH : Z := 8212.

(** [str::rsplit_once]: at the last occurrence. *)
Definition rsplit_once (c : Z) (s : str) : option (str * str) :=
  match split_once c (rev s) with
  | Some (b, a) => Some (rev a, rev b)
  | None => None
  end.

Definition strip_suffix (p s : str) : option str := @rev Z <$> strip_prefix (rev p) (rev s).

(** The text after the first occurrence of [p]. *)
Fixpoint find_after (p s : str) : option str :=
  match strip_prefix p s with
  | Some t => Some t
  | None => match s with [] => None | _ :: t => find_after p t end
  end.

Fixpoint take_while (p : Z -> bool) (s : str) : str :=
  match s with
  | [] => []
  | x :: t => if p x then x :: take_while p t else []
  end.

(** [char::is_ascii_alphanumeric]. *)
Definition is_ascii_alphanumeric (c : Z) : bool :=
  is_ascii_digit c || ((65 <=? c) && (c <=? 90)) || ((97 <=? c) && (c <=? 122)).

(** ** Ordered maps

    A [BTreeMap<String, u64>]: its entries in the order of their keys. *)

Fixpoint str_compare (a b : str) : comparison :=
  match a with
  | [] => if is_empty b then Eq else Lt
  | x :: a' =>
      match b with
      | [] => Gt
      | y :: b' => match x ?= y with Eq => str_compare a' b' | c => c end
      end
  end.

Definition BTreeMap := list (str * Z).

Fixpoint bt_get (k : str) (m : BTreeMap) : option Z :=
  match m with
  | [] => None
  | (k', v) :: m' => match str_compare k k' with Eq => Some v | _ => bt_get k m' end
  end.

Fixpoint bt_insert (k : str) (v : Z) (m : BTreeMap) : BTreeMap :=
  match m with
  | [] => [(k, v)]
  | (k', v') :: m' =>
      match str_compare k k' with
      | Lt => (k, v) :: m
      | Eq => (k, v) :: m'
      | Gt => (k', v') :: bt_insert k v m'
      end
  end.

(** ** The series *)

Definition POLL_FAILURES_METRIC : str := lit "awg_params_agent_poll_failures_total".
Definition LAST_SUCCESS_METRIC : str := lit "awg_params_agent_last_success_timestamp_seconds".
Definition CONF_CONFLICT_METRIC : str := lit "awg_params_agent_conf_write_conflicts_total".
Definition PARAM_REJECTED_METRIC : str := lit "awg_params_agent_param_rejected_total".
Definition APPLY_FAILURES_METRIC : str := lit "awg_params_agent_apply_failures_total".
Definition LAST_APPLY_SUCCESS_METRIC : str :=
  lit "awg_params_agent_last_apply_success_timestamp_seconds".

Definition MAX_PARAM_REJECTED_FIELDS : nat := 32.

Inductive ConflictReason := LockTimeout | ApplySuperseded.
#[export] Instance ConflictReason_eq_dec : EqDecision ConflictReason.
Proof. solve_decision. Defined.

Definition label (r : ConflictReason) : str :=
  match r with
  | LockTimeout => lit "lock_timeout"
  | ApplySuperseded => lit "apply_superseded"
  end.

(** A label pair in braces: name, equals sign, quoted value. *)
Definition labelled (metric : str) (name : string) (v : str) : str :=
  metric ++ lit "{" ++ lit name ++ lit "=" ++ QUOTE :: v ++ QUOTE :: lit "}".

Definition series_prefix (r : ConflictReason) : str := labelled CONF_CONFLICT_METRIC "reason" (label r).

Record Metrics := mkMetrics {
  poll_failures : Z;
  last_success_epoch_secs : Z;
  conf_write_conflicts_lock_timeout : Z;
  conf_write_conflicts_apply_superseded : Z;
  param_rejected : BTreeMap;
  apply_failures : Z;
  last_apply_success_epoch_secs : Z;
}.

Definition metrics_zero : Metrics := mkMetrics 0 0 0 0 [] 0 0.

(** [ConflictCounts::set]. *)
Definition conflict_set (r : ConflictReason) (n : Z) (m : Metrics) : Metrics :=
  match r with
  | LockTimeout =>
      mkMetrics (poll_failures m) (last_success_epoch_secs m) n
        (conf_write_conflicts_apply_superseded m) (param_rejected m) (apply_failures m)
        (last_apply_success_epoch_secs m)
  | ApplySuperseded =>
      mkMetrics (poll_failures m) (last_success_epoch_secs m) (conf_write_conflicts_lock_timeout m)
        n (param_rejected m) (apply_failures m) (last_apply_success_epoch_secs m)
  end.

(** ** The rejected field of an error *)

Definition label_char (c : Z) : bool := is_ascii_alphanumeric c || (c =? UNDERSCORE).

(** Over the texts of the error's chain, outermost first. *)
Fixpoint extract_rejected_field (chain : list str) : option str :=
  match chain with
  | [] => None
  | text :: chain' =>
      match find_after (lit "field=") text with
      | Some rest =>
          let field := take_while label_char rest in
          if is_empty field then extract_rejected_field chain' else Some field
      | None => extract_rejected_field chain'
      end
  end.

(** ** Events *)

Definition record_poll_failure (m : Metrics) : Metrics :=
  mkMetrics (wrap_u64 (poll_failures m + 1)) (last_success_epoch_secs m)
    (conf_write_conflicts_lock_timeout m) (conf_write_conflicts_apply_superseded m)
    (param_rejected m) (apply_failures m) (last_apply_success_epoch_secs m).

(** [now] is the clock's Unix timestamp. *)
Definition record_poll_success (now : Z) (m : Metrics) : Metrics :=
  mkMetrics (poll_failures m) now (conf_write_conflicts_lock_timeout m)
    (conf_write_conflicts_apply_superseded m) (param_rejected m) (apply_failures m)
    (last_apply_success_epoch_secs m).

Definition record_conf_write_conflict (r : ConflictReason) (m : Metrics) : Metrics :=
  match r with
  | LockTimeout => conflict_set r (wrap_u64 (conf_write_conflicts_lock_timeout m + 1)) m
  | ApplySuperseded => conflict_set r (wrap_u64 (conf_write_conflicts_apply_superseded m + 1)) m
  end.

(** The new state, and whether the file is rewritten. *)
Definition record_param_rejected (field : str) (m : Metrics) : Metrics * bool :=
  let map := param_rejected m in
  match bt_get field map with
  | None =>
      if (MAX_PARAM_REJECTED_FIELDS <=? length map)%nat then (m, false)
      else (mkMetrics (poll_failures m) (last_success_epoch_secs m)
              (conf_write_conflicts_lock_timeout m) (conf_write_conflicts_apply_superseded m)
              (bt_insert field 1 map) (apply_failures m) (last_apply_success_epoch_secs m), true)
  | Some n =>
      (mkMetrics (poll_failures m) (last_success_epoch_secs m)
         (conf_write_conflicts_lock_timeout m) (conf_write_conflicts_apply_superseded m)
         (bt_insert field (wrap_u64 (n + 1)) map) (apply_failures m)
         (last_apply_success_epoch_secs m), true)
  end.

Definition record_apply_failure (m : Metrics) : Metrics :=
  mkMetrics (poll_failures m) (last_success_epoch_secs m) (conf_write_conflicts_lock_timeout m)
    (conf_write_conflicts_apply_superseded m) (param_rejected m)
    (wrap_u64 (apply_failures m + 1)) (last_apply_success_epoch_secs m).

Definition record_apply_success (now : Z) (m : Metrics) : Metrics :=
  mkMetrics (poll_failures m) (last_success_epoch_secs m) (conf_write_conflicts_lock_timeout m)
    (conf_write_conflicts_apply_superseded m) (param_rejected m) (apply_failures m) now.

(** ** The textfile *)

Definition help_line (m text : str) : str := lit "# HELP " ++ m ++ SPACE :: text.
Definition type_line (m : str) (ty : string) : str := lit "# TYPE " ++ m ++ SPACE :: lit ty.
Definition sample_line (series value : str) : str := series ++ SPACE :: value.

Definition quoted (s : string) : str := QUOTE :: lit s ++ [QUOTE].

Definition POLL_FAILURES_HELP : str :=
  lit ("Non-2xx or network-error responses from GET .../awg-params/latest " +:+
       "(central-unreachable signal), cumulative since agent start (reseeded from this " +:+
       "file on restart).").

Definition LAST_SUCCESS_HELP : str :=
  lit ("Unix timestamp of the last successful (2xx) poll of central. " +:+
       "0 = never succeeded since install (fresh node, no prior file to reseed from) ") ++
  EMDASH :: lit " alert on `time() - " ++ LAST_SUCCESS_METRIC ++ lit " > N` for staleness.".

Definition CONF_CONFLICT_HELP : str :=
  lit ("awg0.conf writes/applies the agent skipped due to a concurrent " +:+
       "writer, by reason. reason=") ++ quoted "lock_timeout" ++
  lit (": could not acquire the shared lock " +:+
       "within the timeout, so the agent never wrote awg0.conf (retries next poll). reason=") ++
  quoted "apply_superseded" ++
  lit (": wrote under the lock, but the installer superseded " +:+
       "the file before the unlocked kernel apply, so only the apply was deferred to the " +:+
       "next poll (self-healing).").

Definition PARAM_REJECTED_HELP : str :=
  lit ("Central-sourced obfuscation params rejected by FIELD_SPECS " +:+
       "validators before splice into awg0.conf, by field (params.rs charset/grammar " +:+
       "guards + post-merge preconditions). Non-zero is a hostile-central / MITM signal ") ++
  EMDASH :: lit " critical alert, not routine.".

Definition APPLY_FAILURES_HELP : str :=
  lit "awg-quick strip / awg syncconf non-zero exits, cumulative. Nonzero while " ++
  LAST_SUCCESS_METRIC ++
  lit (" advances = polls succeed but the epoch " +:+
       "never reaches the kernel (the fail-soft-invisible stall).").

Definition LAST_APPLY_SUCCESS_HELP : str :=
  lit ("Unix timestamp of the last successful kernel apply (awg syncconf " +:+
       "exit 0). 0 = never applied. Alert on `time() - ") ++ LAST_APPLY_SUCCESS_METRIC ++
  lit " > N` alongside the poll gauge " ++ EMDASH ::
  lit " poll-green + apply-stale is the silent-drop signature.".

Definition rejected_line (e : str * Z) : str :=
  sample_line (labelled PARAM_REJECTED_METRIC "field" e.1) (to_string e.2).

Definition flush_lines (m : Metrics) : list str :=
  [ help_line POLL_FAILURES_METRIC POLL_FAILURES_HELP;
    type_line POLL_FAILURES_METRIC "counter";
    sample_line POLL_FAILURES_METRIC (to_string (poll_failures m));
    help_line LAST_SUCCESS_METRIC LAST_SUCCESS_HELP;
    type_line LAST_SUCCESS_METRIC "gauge";
    sample_line LAST_SUCCESS_METRIC (to_string (last_success_epoch_secs m));
    help_line CONF_CONFLICT_METRIC CONF_CONFLICT_HELP;
    type_line CONF_CONFLICT_METRIC "counter";
    sample_line (series_prefix LockTimeout) (to_string (conf_write_conflicts_lock_timeout m));
    sample_line (series_prefix ApplySuperseded) (to_string (conf_write_conflicts_apply_superseded m));
    help_line PARAM_REJECTED_METRIC PARAM_REJECTED_HELP;
    type_line PARAM_REJECTED_METRIC "counter" ] ++
  (rejected_line <$> param_rejected m) ++
  [ help_line APPLY_FAILURES_METRIC APPLY_FAILURES_HELP;
    type_line APPLY_FAILURES_METRIC "counter";
    sample_line APPLY_FAILURES_METRIC (to_string (apply_failures m));
    help_line LAST_APPLY_SUCCESS_METRIC LAST_APPLY_SUCCESS_HELP;
    type_line LAST_APPLY_SUCCESS_METRIC "gauge";
    sample_line LAST_APPLY_SUCCESS_METRIC (to_string (last_apply_success_epoch_secs m)) ].

(** Every line of the body ends with a line feed. *)
Definition flush_body (m : Metrics) : str :=
  concat ((fun l => l ++ [NL]) <$> flush_lines m).

(** ** Reading it back *)

(** What a sample line sets. *)
Definition load_series (m : Metrics) (series value : str) : Metrics :=
  if decide (series = POLL_FAILURES_METRIC) then
    match parse_u64 value with
    | Some n => mkMetrics n (last_success_epoch_secs m)
        (conf_write_conflicts_lock_timeout m) (conf_write_conflicts_apply_superseded m)
        (param_rejected m) (apply_failures m) (last_apply_success_epoch_secs m)
    | None => m
    end
  else if decide (series = LAST_SUCCESS_METRIC) then
    match parse_i64 value with Some n => record_poll_success n m | None => m end
  else if decide (series = APPLY_FAILURES_METRIC) then
    match parse_u64 value with
    | Some n => mkMetrics (poll_failures m) (last_success_epoch_secs m)
        (conf_write_conflicts_lock_timeout m) (conf_write_conflicts_apply_superseded m)
        (param_rejected m) n (last_apply_success_epoch_secs m)
    | None => m
    end
  else if decide (series = LAST_APPLY_SUCCESS_METRIC) then
    match parse_i64 value with Some n => record_apply_success n m | None => m end
  else match list_find (fun r => series = series_prefix r) [LockTimeout; ApplySuperseded] with
       | Some (_, r) =>
           match parse_u64 value with Some n => conflict_set r n m | None => m end
       | None =>
           match (t ← strip_prefix (PARAM_REJECTED_METRIC ++ lit "{field=" ++ [QUOTE]) series;
                  strip_suffix (QUOTE :: lit "}") t) with
           | Some field =>
               match parse_u64 value with
               | Some n => mkMetrics (poll_failures m) (last_success_epoch_secs m)
                   (conf_write_conflicts_lock_timeout m) (conf_write_conflicts_apply_superseded m)
                   (bt_insert field n (param_rejected m)) (apply_failures m)
                   (last_apply_success_epoch_secs m)
               | None => m
               end
           | None => m
           end
       end.

(** One turn of the loop over the lines.  ([str::lines] drops a carriage
    return and the empty piece after the last line feed; [trim] and the empty
    test below do the same.) *)
Definition load_line (m : Metrics) (line : str) : Metrics :=
  match trim line with
  | [] => m
  | c :: rest =>
      if c =? HASH then m
      else match rsplit_once SPACE (c :: rest) with
           | None => m
           | Some (series, value) => load_series m series value
           end
  end.

(** [file]: the text of the file, or none if it cannot be read. *)
Definition load (file : option str) : Metrics :=
  match file with
  | Some text => fold_left load_line (lines text) metrics_zero
  | None => metrics_zero
  end.
