(* ===== verification/AwgMetricsFacts.v ===== *)
(** * Metrics survive a restart

    The reload of the textfile gives back the state that was flushed, after any
    sequence of events; the rejected-field map stays sorted and bounded. *)

From Stdlib Require Import ZArith Lia.
From stdpp Require Import base option numbers gmap strings sorting list.
From S2P Require Import Prelude RustStr AwgParams AwgMetrics.

(** ** Ordered maps *)

Lemma str_compare_eq a b : str_compare a b = Eq <-> a = b.
Proof.
  revert b. induction a as [|x a IH]; intros [|y b]; cbn; try done.
  destruct (Z.compare_spec x y) as [->|Hlt|Hgt].
  - rewrite IH. naive_solver.
  - split; [done|]. intros [= -> _]. lia.
  - split; [done|]. intros [= -> _]. lia.
Qed.

Lemma str_compare_refl a : str_compare a a = Eq.
Proof. by apply str_compare_eq. Qed.

Lemma str_compare_flip a b : str_compare b a = CompOpp (str_compare a b).
Proof.
  revert b. induction a as [|x a IH]; intros [|y b]; cbn; try done.
  rewrite (Z.compare_antisym x y). destruct (x ?= y); cbn; [apply IH | done | done].
Qed.

Lemma str_compare_trans a b c :
  str_compare a b = Lt -> str_compare b c = Lt -> str_compare a c = Lt.
Proof.
  revert b c. induction a as [|x a IH]; intros [|y b] [|z c]; cbn; try done.
  destruct (Z.compare_spec x y), (Z.compare_spec y z), (Z.compare_spec x z);
    try done; try lia. apply IH.
Qed.

Definition key_lt (a b : str * Z) : Prop := str_compare a.1 b.1 = Lt.

Definition bt_sorted (m : BTreeMap) : Prop := StronglySorted key_lt m.

(** The entries of the result: the new one and old ones. *)
Lemma bt_insert_elem k v m e : e ∈ bt_insert k v m -> e = (k, v) \/ e ∈ m.
Proof.
  induction m as [|[k' v'] m IH]; cbn; [set_solver|].
  destruct (str_compare k k'); rewrite ?elem_of_cons; naive_solver.
Qed.

Lemma bt_insert_sorted k v m : bt_sorted m -> bt_sorted (bt_insert k v m).
Proof.
  unfold bt_sorted. induction 1 as [|[k' v'] m Hs IH Hall]; [by repeat constructor|]. cbn.
  destruct (str_compare k k') eqn:E.
  - apply str_compare_eq in E as ->. by constructor.
  - constructor; [by constructor|]. constructor; [done|].
    eapply Forall_impl; [exact Hall|]. intros e He. by eapply str_compare_trans.
  - constructor; [done|]. apply Forall_forall. intros e [->|He]%bt_insert_elem.
    + unfold key_lt. cbn. by rewrite (str_compare_flip k k'), E.
    + rewrite Forall_forall in Hall. by apply Hall.
Qed.

Lemma bt_insert_last k v m : Forall (fun e => str_compare e.1 k = Lt) m ->
  bt_insert k v m = m ++ [(k, v)].
Proof.
  induction 1 as [|[k' v'] m Hlt _ IH]; [done|]. cbn in Hlt |- *.
  by rewrite (str_compare_flip k' k), Hlt, IH.
Qed.

Lemma bt_get_elem k m n : bt_get k m = Some n -> (k, n) ∈ m.
Proof.
  induction m as [|[k' v'] m IH]; cbn; [done|]. destruct (str_compare k k') eqn:E.
  - apply str_compare_eq in E as ->. intros [= ->]. left.
  - intros H. right. by apply IH.
  - intros H. right. by apply IH.
Qed.

(** Replacing a count keeps the size; a new key adds one. *)
Lemma bt_insert_length k v m :
  bt_sorted m ->
  length (bt_insert k v m) = match bt_get k m with Some _ => length m | None => S (length m) end.
Proof.
  induction 1 as [|[k' v'] m Hs IH Hall]; [done|]. cbn.
  destruct (str_compare k k') eqn:E; [done| |].
  - assert (bt_get k m = None) as ->; [|done].
    destruct (bt_get k m) as [n|] eqn:Hg; [|done]. apply bt_get_elem in Hg.
    rewrite Forall_forall in Hall. specialize (Hall _ Hg). unfold key_lt in Hall. cbn in Hall.
    assert (str_compare k k = Lt) as Hk by by eapply str_compare_trans.
    by rewrite str_compare_refl in Hk.
  - cbn. rewrite IH. by destruct (bt_get k m).
Qed.

(** Inserting the entries of a sorted map in order rebuilds it. *)
Lemma bt_rebuild m acc :
  bt_sorted (acc ++ m) -> fold_left (fun acc e => bt_insert e.1 e.2 acc) m acc = acc ++ m.
Proof.
  revert acc. induction m as [|[k v] m IH]; intros acc Hs; [by rewrite app_nil_r|].
  cbn [fold_left fst snd]. rewrite bt_insert_last.
  - rewrite IH; rewrite <- app_assoc; done.
  - apply Forall_forall. intros e He. apply list_elem_of_split in He as (l1 & l2 & ->).
    rewrite <- app_assoc in Hs. clear IH. induction l1 as [|x l1 IHl].
    + cbn in Hs. apply StronglySorted_inv in Hs as [_ Hall]. rewrite Forall_forall in Hall.
      apply (Hall (k, v)). set_solver.
    + cbn in Hs. apply StronglySorted_inv in Hs as [Hs _]. by apply IHl.
Qed.

(** ** Text *)

Lemma drop_while_nochange p c s : p c = false -> drop_while p (c :: s) = c :: s.
Proof. cbn. by intros ->. Qed.

(** Trimming keeps a text that neither starts nor ends with white space. *)
Lemma trim_ends c s d :
  is_whitespace c = false -> is_whitespace d = false -> trim (c :: s ++ [d]) = c :: s ++ [d].
Proof.
  intros Hc Hd. unfold trim. rewrite drop_while_nochange by done.
  change (c :: s ++ [d]) with ((c :: s) ++ [d]). rewrite rev_app_distr. cbn [rev app].
  rewrite drop_while_nochange by done.
  change (d :: rev s ++ [c]) with ([d] ++ rev (c :: s)). rewrite rev_app_distr, rev_involutive. done.
Qed.

(** ... and keeps the first character of one that does not start with it. *)
Lemma trim_head c s : is_whitespace c = false -> exists t, trim (c :: s) = c :: t.
Proof.
  intros Hc. unfold trim. rewrite drop_while_nochange by done. cbn [rev].
  assert (forall l, exists t, drop_while is_whitespace (l ++ [c]) = t ++ [c]) as H.
  { induction l as [|x l [t IH]]; cbn; [rewrite Hc; by exists []|].
    destruct (is_whitespace x); [by exists t | by exists (x :: l)]. }
  destruct (H (rev s)) as [t ->]. exists (rev t). by rewrite rev_app_distr.
Qed.

Lemma rsplit_once_Some c a b : c ∉ b -> rsplit_once c (a ++ c :: b) = Some (a, b).
Proof.
  intros Hb. unfold rsplit_once. rewrite rev_app_distr. cbn [rev]. rewrite <- app_assoc. cbn [app].
  rewrite (proj2 (split_once_Some c _ (rev b) (rev a))); [by rewrite !rev_involutive|].
  split; [done|]. by rewrite list_elem_of_In, <- in_rev, <- list_elem_of_In.
Qed.

Lemma strip_suffix_Some p s : strip_suffix p (s ++ p) = Some s.
Proof.
  unfold strip_suffix. rewrite rev_app_distr.
  rewrite (proj2 (strip_prefix_Some (rev p) _ (rev s)) eq_refl). cbn. by rewrite rev_involutive.
Qed.

Lemma lines_concat ls : Forall (fun l => NL ∉ l) ls ->
  lines (concat ((fun l => l ++ [NL]) <$> ls)) = ls ++ [[]].
Proof.
  induction 1 as [|l ls Hl _ IH]; [done|]. cbn. rewrite <- app_assoc. cbn [app].
  by rewrite lines_app_nl, IH by done.
Qed.

(** A printed number: not empty, no white space. *)
Definition plain (s : str) : Prop := s <> [] /\ Forall (fun c => is_whitespace c = false) s.

Lemma to_string_plain z : plain (to_string z).
Proof.
  assert (forall n, 0 <= n -> plain (to_string n)) as Hpos.
  { intros n Hn. destruct (to_string_nonneg n Hn) as [[Hne Hf]%digits_spec _]. split; [done|].
    eapply Forall_impl; [exact Hf|]. intros c. apply digit_not_space. }
  destruct (Z_lt_le_dec z 0) as [Hneg|]; [|by apply Hpos].
  assert (to_string z = MINUS :: to_string (- z)) as ->.
  { unfold to_string. by destruct z as [|p|p]; [lia | lia |]. }
  destruct (Hpos (- z) ltac:(lia)) as [_ Hf]. split; [done|]. by constructor.
Qed.

Lemma plain_no s c : plain s -> is_whitespace c = true -> c ∉ s.
Proof. intros [_ Hf] Hc Hin. rewrite Forall_forall in Hf. specialize (Hf _ Hin). congruence. Qed.

Lemma plain_last s : plain s -> exists t d, s = t ++ [d] /\ is_whitespace d = false.
Proof.
  intros [Hne Hf]. destruct (exists_last Hne) as (t & d & ->). exists t, d.
  split; [done|]. apply Forall_app in Hf as [_ Hd]. by inversion_clear Hd.
Qed.

Lemma parse_u64_to_string z : 0 <= z <= u64_max -> parse_u64 (to_string z) = Some z.
Proof.
  intros Hz. destruct (to_string_nonneg z ltac:(lia)) as [Hd Hv]. rewrite parse_u64_digits by done.
  rewrite Hv. destruct (Z.leb_spec z u64_max); [done | lia].
Qed.

(** A sample line sets its series. *)
Lemma load_sample m c series value :
  is_whitespace c = false -> c <> HASH -> plain value ->
  load_line m (sample_line (c :: series) value) = load_series m (c :: series) value.
Proof.
  intros Hc Hh Hv. unfold load_line, sample_line. destruct (plain_last value Hv) as (t & d & E & Hd).
  assert ((c :: series) ++ SPACE :: value = c :: (series ++ SPACE :: t) ++ [d]) as El
    by (rewrite E; cbn; by rewrite <- app_assoc).
  rewrite El, trim_ends by done. rewrite <- El. cbn [app].
  destruct (Z.eqb_spec c HASH) as [|_]; [done|].
  change (c :: series ++ SPACE :: value) with ((c :: series) ++ SPACE :: value).
  by rewrite rsplit_once_Some by (by apply plain_no).
Qed.

(** A comment line sets nothing. *)
Lemma load_comment m s : load_line m (HASH :: s) = m.
Proof. unfold load_line. by destruct (trim_head HASH s eq_refl) as [t ->]. Qed.

(** ** What is kept across a restart *)

Definition label_ok (f : str) : Prop := f <> [] /\ Forall (fun c => label_char c = true) f.

Definition u64 (n : Z) : Prop := 0 <= n <= u64_max.
Definition i64 (n : Z) : Prop := i64_min <= n <= i64_max.

Record metrics_wf (m : Metrics) : Prop := {
  wf_poll_failures : u64 (poll_failures m);
  wf_last_success : i64 (last_success_epoch_secs m);
  wf_lock_timeout : u64 (conf_write_conflicts_lock_timeout m);
  wf_superseded : u64 (conf_write_conflicts_apply_superseded m);
  wf_apply_failures : u64 (apply_failures m);
  wf_last_apply : i64 (last_apply_success_epoch_secs m);
  wf_sorted : bt_sorted (param_rejected m);
  wf_entries : Forall (fun e => label_ok e.1 /\ u64 e.2) (param_rejected m);
  wf_bound : (length (param_rejected m) <= MAX_PARAM_REJECTED_FIELDS)%nat;
}.

Lemma label_char_range c : label_char c = true -> 48 <= c <= 122.
Proof.
  unfold label_char, is_ascii_alphanumeric, is_ascii_digit, UNDERSCORE.
  rewrite !orb_true_iff, !andb_true_iff, !Z.leb_le, Z.eqb_eq. lia.
Qed.

Lemma label_no f c : label_ok f -> c < 48 -> c ∉ f.
Proof.
  intros [_ Hf] Hc Hin. rewrite Forall_forall in Hf. specialize (Hf _ Hin).
  apply label_char_range in Hf. lia.
Qed.

Lemma load_rejected m f n : u64 n ->
  load_series m (labelled PARAM_REJECTED_METRIC "field" f) (to_string n) =
  mkMetrics (poll_failures m) (last_success_epoch_secs m)
    (conf_write_conflicts_lock_timeout m) (conf_write_conflicts_apply_superseded m)
    (bt_insert f n (param_rejected m)) (apply_failures m) (last_apply_success_epoch_secs m).
Proof.
  intros Hn. unfold load_series, labelled.
  rewrite !decide_False by (cbn; discriminate).
  cbn [list_find]. rewrite !decide_False by (cbn; discriminate). cbn [fmap option_fmap option_map].
  match goal with |- context [strip_prefix ?p ?s] =>
    rewrite (proj2 (strip_prefix_Some p s (f ++ QUOTE :: lit "}")) eq_refl) end.
  cbn [mbind option_bind]. rewrite strip_suffix_Some. by rewrite parse_u64_to_string.
Qed.

Lemma load_rejected_lines m (es : BTreeMap) :
  Forall (fun e => label_ok e.1 /\ u64 e.2) es ->
  fold_left load_line (rejected_line <$> es) m =
  mkMetrics (poll_failures m) (last_success_epoch_secs m)
    (conf_write_conflicts_lock_timeout m) (conf_write_conflicts_apply_superseded m)
    (fold_left (fun acc e => bt_insert e.1 e.2 acc) es (param_rejected m)) (apply_failures m)
    (last_apply_success_epoch_secs m).
Proof.
  intros H. revert m. induction H as [|[f n] es [_ Hn] _ IH]; intros m; [by destruct m|].
  cbn [fmap list_fmap fold_left]. unfold rejected_line at 2. cbn [fst snd].
  change (labelled PARAM_REJECTED_METRIC "field" f) with (97 :: tail (labelled PARAM_REJECTED_METRIC "field" f)).
  rewrite load_sample by (done || apply to_string_plain).
  change (97 :: tail (labelled PARAM_REJECTED_METRIC "field" f)) with (labelled PARAM_REJECTED_METRIC "field" f).
  by rewrite load_rejected, IH by done.
Qed.

(** The lines of the file hold no line feed. *)
Lemma flush_lines_no_nl m : metrics_wf m -> Forall (fun l => NL ∉ l) (flush_lines m).
Proof.
  intros Hwf. assert (forall s n, NL ∉ s -> NL ∉ sample_line s (to_string n)) as Hs.
  { intros s n Hs. unfold sample_line. rewrite elem_of_app, elem_of_cons.
    intros [?|[?|Hn]]; [done | done | by apply (plain_no _ NL (to_string_plain n))]. }
  assert (forall s : str, bool_decide (NL ∈ s) = false -> NL ∉ s) as Hb
    by (intros s; apply bool_decide_eq_false_1).
  unfold flush_lines. rewrite !Forall_app. split_and!.
  - repeat (apply Forall_cons_2; [first [by apply Hb | apply Hs; by apply Hb]|]). apply Forall_nil_2.
  - apply Forall_fmap. eapply Forall_impl; [apply Hwf|]. intros [f n] [Hf _].
    unfold compose, rejected_line. cbn [fst snd] in *. apply Hs. unfold labelled.
    rewrite !elem_of_app, elem_of_cons, elem_of_app, elem_of_cons.
    intros H. destruct_or! H; try done; try exact (label_no f NL Hf ltac:(done) H).
    all: match type of H with NL ∈ ?s => by destruct (Hb s eq_refl H) end.
  - repeat (apply Forall_cons_2; [first [by apply Hb | apply Hs; by apply Hb]|]). apply Forall_nil_2.
Qed.

Lemma load_series_known m n :
  (u64 n -> load_series m POLL_FAILURES_METRIC (to_string n) =
     mkMetrics n (last_success_epoch_secs m) (conf_write_conflicts_lock_timeout m)
       (conf_write_conflicts_apply_superseded m) (param_rejected m) (apply_failures m)
       (last_apply_success_epoch_secs m)) /\
  (i64 n -> load_series m LAST_SUCCESS_METRIC (to_string n) = record_poll_success n m) /\
  (forall r, u64 n -> load_series m (series_prefix r) (to_string n) = conflict_set r n m) /\
  (u64 n -> load_series m APPLY_FAILURES_METRIC (to_string n) =
     mkMetrics (poll_failures m) (last_success_epoch_secs m) (conf_write_conflicts_lock_timeout m)
       (conf_write_conflicts_apply_superseded m) (param_rejected m) n
       (last_apply_success_epoch_secs m)) /\
  (i64 n -> load_series m LAST_APPLY_SUCCESS_METRIC (to_string n) = record_apply_success n m).
Proof.
  assert (u64 n -> parse_u64 (to_string n) = Some n) as Hu by apply parse_u64_to_string.
  assert (i64 n -> parse_i64 (to_string n) = Some n) as Hi by apply parse_i64_to_string.
  split_and!; [intros Hn|intros Hn|intros r Hn|intros Hn|intros Hn]; unfold load_series;
    rewrite ?Hu, ?Hi by done; try destruct r; reflexivity.
Qed.

Lemma load_help m metric text : load_line m (help_line metric text) = m.
Proof. apply load_comment. Qed.

Lemma load_type m metric ty : load_line m (type_line metric ty) = m.
Proof. apply load_comment. Qed.

(** All series of the agent start with a letter. *)
Lemma load_sample_a m series n :
  head series = Some 97 -> load_line m (sample_line series (to_string n)) = load_series m series (to_string n).
Proof.
  destruct series as [|c series]; [done|]. intros [= ->].
  apply load_sample; [done | done | apply to_string_plain].
Qed.

(** The state of a well-formed set of metrics survives the file. *)
Lemma load_flush m : metrics_wf m -> load (Some (flush_body m)) = m.
Proof.
  intros Hwf. unfold load, flush_body. rewrite lines_concat by by apply flush_lines_no_nl.
  rewrite fold_left_app. unfold flush_lines. rewrite !fold_left_app. cbn [fold_left].
  rewrite load_rejected_lines by apply Hwf.
  rewrite !load_help, !load_type, !load_sample_a by (try destruct LockTimeout; reflexivity).
  pose proof load_series_known as H.
  rewrite (proj1 (H _ _) (wf_poll_failures m Hwf)).
  rewrite (proj1 (proj2 (H _ _)) (wf_last_success m Hwf)).
  rewrite !(proj1 (proj2 (proj2 (H _ _)))) by apply Hwf.
  rewrite (proj1 (proj2 (proj2 (proj2 (H _ _)))) (wf_apply_failures m Hwf)).
  rewrite (proj2 (proj2 (proj2 (proj2 (H _ _)))) (wf_last_apply m Hwf)).
  cbn. rewrite bt_rebuild by apply Hwf. by destruct m.
Qed.

(** ** Events keep the state well formed *)

Inductive MetricEvent :=
| PollFailed
| PollSucceeded (now : Z)
| Conflict (r : ConflictReason)
| FieldRejected (f : str)
| ApplyFailed
| ApplySucceeded (now : Z).

Definition metric_event (m : Metrics) (e : MetricEvent) : Metrics :=
  match e with
  | PollFailed => record_poll_failure m
  | PollSucceeded now => record_poll_success now m
  | Conflict r => record_conf_write_conflict r m
  | FieldRejected f => (record_param_rejected f m).1
  | ApplyFailed => record_apply_failure m
  | ApplySucceeded now => record_apply_success now m
  end.

(** The clock is in range; a rejected field is a metric label. *)
Definition event_ok (e : MetricEvent) : Prop :=
  match e with
  | PollSucceeded now | ApplySucceeded now => i64 now
  | FieldRejected f => label_ok f
  | _ => True
  end.

Lemma u64_wrap n : u64 (wrap_u64 n).
Proof.
  unfold u64, wrap_u64, u64_max. pose proof (Z.mod_pos_bound n 18446744073709551616). lia.
Qed.

#[local] Hint Resolve u64_wrap : core.
#[local] Opaque wrap_u64.

Lemma bt_insert_entries (P : str * Z -> Prop) f n m :
  Forall P m -> P (f, n) -> Forall P (bt_insert f n m).
Proof.
  rewrite !Forall_forall. intros Hm Hn e [->|He]%bt_insert_elem; auto.
Qed.

Lemma metric_event_wf m e : metrics_wf m -> event_ok e -> metrics_wf (metric_event m e).
Proof.
  intros [] He. destruct e as [|now|r|f| |now]; cbn in *; try (by split; cbn; auto).
  - destruct r; split; cbn; auto.
  - unfold record_param_rejected. destruct (bt_get f (param_rejected m)) as [n|] eqn:Hg.
    + split; cbn; auto; [by apply bt_insert_sorted | apply bt_insert_entries; cbn; auto|].
      by rewrite bt_insert_length, Hg.
    + destruct (Nat.leb_spec MAX_PARAM_REJECTED_FIELDS (length (param_rejected m))); [by split|].
      split; cbn; auto; [by apply bt_insert_sorted | apply bt_insert_entries; auto|].
      * split; [done|]. unfold u64, u64_max. cbn. lia.
      * rewrite bt_insert_length, Hg by done. lia.
Qed.

Lemma metrics_zero_wf : metrics_wf metrics_zero.
Proof.
  split; cbn; try (unfold u64, i64, u64_max, i64_min, i64_max; lia).
  - apply SSorted_nil.
  - apply Forall_nil_2.
Qed.

Lemma metric_events_wf es m :
  metrics_wf m -> Forall event_ok es -> metrics_wf (fold_left metric_event es m).
Proof.
  intros Hm Hes. revert m Hm. induction Hes as [|e es He _ IH]; intros m Hm; [done|].
  cbn. apply IH. by apply metric_event_wf.
Qed.
