(* ===== verification/AwgAgent.v ===== *)
(** * The poll loop of the parameter agent
      (crates/awg-params-agent/src/agent.rs, client.rs, state.rs)

    One tick polls the central server, merges a newer epoch into awg0.conf under
    the lock shared with the installer, pushes the file to the kernel, and only
    then records the epoch.  The world the agent acts on is a record; what the
    environment answers during a tick (the HTTP answer, the lock, file errors,
    the child processes, and what the installer writes while the lock is free)
    is an argument of the tick. *)

From Stdlib Require Import ZArith Lia.
From stdpp Require Import base option numbers gmap strings list.
From S2P Require Import Prelude RustStr AwgParams ConfMerge AwgMetrics.

(** ** The world *)

Record ConfIdentity := mkConfIdentity {
  ino : Z;
  size : Z;
  mtime_sec : Z;
  mtime_nsec : Z;
}.
#[export] Instance ConfIdentity_eq_dec : EqDecision ConfIdentity.
Proof. solve_decision. Defined.

Record ConfFile := mkConfFile {
  cf_text : str;
  cf_identity : ConfIdentity;
}.

Record AwgState := mkAwgState {
  last_applied_epoch : Z;
  applied_at : Z;
}.

(** The state file: missing, there but not readable as a state, or a state. *)
Inductive StateFile :=
| StateMissing
| StateUnreadable
| StateStored (s : AwgState).

Record World := mkWorld {
  w_conf : option ConfFile;      (** awg0.conf *)
  w_state : StateFile;
  w_kernel : option str;         (** the file the kernel's parameters come from *)
  w_marker : option str;         (** the param-dropped marker *)
  w_metrics : Metrics;
  w_prom : option str;           (** the metrics textfile *)
  w_flushes : nat;               (** textfile writes so far *)
  w_restarts : list str;         (** units restarted *)
  w_reports : list Z;            (** epochs reported as applied *)
  w_defaults : ClientDefaults;   (** drawn when the process started *)
}.

Definition set_conf (c : option ConfFile) (w : World) : World :=
  mkWorld c (w_state w) (w_kernel w) (w_marker w) (w_metrics w) (w_prom w) (w_flushes w)
    (w_restarts w) (w_reports w) (w_defaults w).
Definition set_state (s : StateFile) (w : World) : World :=
  mkWorld (w_conf w) s (w_kernel w) (w_marker w) (w_metrics w) (w_prom w) (w_flushes w)
    (w_restarts w) (w_reports w) (w_defaults w).
Definition set_kernel (k : option str) (w : World) : World :=
  mkWorld (w_conf w) (w_state w) k (w_marker w) (w_metrics w) (w_prom w) (w_flushes w)
    (w_restarts w) (w_reports w) (w_defaults w).
Definition set_marker (m : option str) (w : World) : World :=
  mkWorld (w_conf w) (w_state w) (w_kernel w) m (w_metrics w) (w_prom w) (w_flushes w)
    (w_restarts w) (w_reports w) (w_defaults w).
Definition add_restart (u : str) (w : World) : World :=
  mkWorld (w_conf w) (w_state w) (w_kernel w) (w_marker w) (w_metrics w) (w_prom w) (w_flushes w)
    (w_restarts w ++ [u]) (w_reports w) (w_defaults w).
Definition add_report (e : Z) (w : World) : World :=
  mkWorld (w_conf w) (w_state w) (w_kernel w) (w_marker w) (w_metrics w) (w_prom w) (w_flushes w)
    (w_restarts w) (w_reports w ++ [e]) (w_defaults w).

(** ** What the environment answers *)

Inductive PollAnswer :=
| SendFailed
| BodyUndecodable
| StatusNotOk
| Latest (epoch : Z) (params : AwgParams).

Inductive LockAnswer := LockTaken | LockBusy | LockBroken.

(** The pipeline strip and syncconf: it succeeded; or it failed or timed out,
    and the kernel may have taken the file all the same. *)
Inductive ApplyAnswer := Synced | NotSynced (taken : bool).

Record TickEnv := mkTickEnv {
  e_token : option str;                  (** the service token file *)
  e_poll : PollAnswer;
  e_clock : Z;
  e_lock : LockAnswer;
  e_readable : bool;                     (** awg0.conf can be read as text *)
  e_marker_io : bool;                    (** marker reads and writes succeed *)
  e_stamp : str;                         (** the formatted time of the marker *)
  e_written : option ConfIdentity;       (** the identity of the renamed file *)
  e_stat_write : bool;                   (** the stat under the lock succeeds *)
  e_between : list ConfFile;             (** installer writes before the re-stat *)
  e_stat_apply : bool;                   (** the re-stat succeeds *)
  e_window : list ConfFile;              (** installer writes before strip reads *)
  e_apply : ApplyAnswer;
  e_save : bool;                         (** the state file can be written *)
  e_report_token : option str;           (** the token file, when reporting *)
  e_report : bool;                       (** the report request is sent *)
}.

Inductive AgentError :=
| ETokenRead | ESend | EDecode
| ELoadState
| ELock | EReadConf | EMerge (e : Error) | EStat | EWriteConf
| EApply | ESaveState.

(** ** The lock *)

Inductive FlockAnswer := Flocked | WouldBlock | FlockFailed.

Definition LOCK_POLL_INTERVAL : Z := 50.

(** The retry loop: [answer i] is what the [i]-th attempt gets and [clock i] the
    time after it (milliseconds); [fuel] bounds the attempts. *)
Fixpoint acquire_loop (fuel i : nat) (answer : nat -> FlockAnswer) (clock : nat -> Z) (deadline : Z)
    : option LockAnswer :=
  match fuel with
  | O => None
  | S fuel =>
      match answer i with
      | Flocked => Some LockTaken
      | FlockFailed => Some LockBroken
      | WouldBlock =>
          if deadline <=? clock i then Some LockBusy
          else acquire_loop fuel (S i) answer clock deadline
      end
  end.

(** [open_ok]: the lock file can be opened; [start] is the time then. *)
Definition acquire_conf_lock_blocking (fuel : nat) (open_ok : bool) (start timeout : Z)
    (answer : nat -> FlockAnswer) (clock : nat -> Z) : option LockAnswer :=
  if open_ok then acquire_loop fuel 0 answer clock (start + timeout) else Some LockBroken.

(** ** Operations that change the world and may fail *)

Definition AgentM (A : Type) : Type := World -> World * result A AgentError.

Definition ret {A} (a : A) : AgentM A := fun w => (w, Ok a).
Definition fail {A} (e : AgentError) : AgentM A := fun w => (w, Err e).
Definition bind {A B} (m : AgentM A) (f : A -> AgentM B) : AgentM B :=
  fun w => let '(w, r) := m w in match r with Ok a => f a w | Err e => (w, Err e) end.
Definition modify (f : World -> World) : AgentM unit := fun w => (f w, Ok tt).

Declare Scope agent_scope.
Delimit Scope agent_scope with agent.
Notation "'let!' x ':=' m 'in' k" := (bind m (fun x => k))
  (at level 10, x pattern, m at level 100, k at level 200) : agent_scope.
Open Scope agent_scope.

Section Agent.
Context `{ConfRegex} (b64_decode : str -> option (list Z)).

(** The values an error text quotes; the [n]-th textfile write succeeds. *)
Context (quoted : Error -> str) (disk_ok : nat -> bool).

(** The configured post-apply unit. *)
Context (restart_unit_after_apply : option str).

(** ** Metrics *)

(** Install the new metrics and rewrite the textfile; a failed write is only
    logged. *)
Definition flush (m : Metrics) (w : World) : World :=
  mkWorld (w_conf w) (w_state w) (w_kernel w) (w_marker w) m
    (if disk_ok (w_flushes w) then Some (flush_body m) else w_prom w) (S (w_flushes w))
    (w_restarts w) (w_reports w) (w_defaults w).

Definition record (f : Metrics -> Metrics) (w : World) : World := flush (f (w_metrics w)) w.

Definition record_param_rejected_field (field : str) (w : World) : World :=
  let '(m, should_flush) := record_param_rejected field (w_metrics w) in
  if should_flush then flush m w else w.

Definition record_param_rejection (e : Error) (w : World) : World :=
  match extract_rejected_field [rejection_text quoted e] with
  | Some field => record_param_rejected_field field w
  | None => w
  end.

(** ** The client *)

(** [file]: the text of the token file, if it can be read. *)
Definition read_token (file : option str) : result str AgentError :=
  match file with
  | Some s => let token := trim s in if is_empty token then Err ETokenRead else Ok token
  | None => Err ETokenRead
  end.

Definition poll_latest (env : TickEnv) : AgentM (option (Z * AwgParams)) :=
  match read_token (e_token env) with
  | Err e => fail e
  | Ok _ =>
      match e_poll env with
      | SendFailed => let! _ := modify (record record_poll_failure) in fail ESend
      | BodyUndecodable => let! _ := modify (record record_poll_failure) in fail EDecode
      | Latest epoch params =>
          let! _ := modify (record (record_poll_success (e_clock env))) in
          ret (Some (epoch, params))
      | StatusNotOk => let! _ := modify (record record_poll_failure) in ret None
      end
  end.

(** ** The state file *)

Definition load_state (w : World) : World * result (option AwgState) AgentError :=
  match w_state w with
  | StateStored s => (w, Ok (Some s))
  | StateMissing => (w, Ok None)
  | StateUnreadable => (w, Err ELoadState)
  end.

Definition save_state (env : TickEnv) (s : AwgState) : AgentM unit :=
  if e_save env then modify (set_state (StateStored s)) else fail ESaveState.

(** ** Merge and write, under the lock *)

Record ConfWrite := mkConfWrite {
  identity : ConfIdentity;
  changed : bool;
}.

Definition join (sep : str) (l : list str) : str :=
  match l with [] => [] | x :: l' => x ++ concat ((fun y => sep ++ y) <$> l') end.

Definition marker_body (stamp : str) (dropped : list string) : str :=
  lit "awg0.conf param-drop " ++ stamp ++ lit ":" ++ NL :: lit "  client-side omitted: " ++
  join (lit " ") (lit <$> dropped) ++ EMDASH ::
  lit " feature degraded, link unaffected (params agent may re-add via a later epoch)" ++ [NL].

Definition sync_param_dropped_marker (env : TickEnv) (dropped : list string) (w : World) : World :=
  match dropped with
  | [] => if e_marker_io env then set_marker None w else w
  | _ =>
      let body := marker_body (e_stamp env) dropped in
      if e_marker_io env then
        if decide (w_marker w = Some body) then w else set_marker (Some body) w
      else w
  end.

(** Write a temporary file in the same directory and rename it. *)
Definition write_conf_atomic (env : TickEnv) (content : str) : AgentM unit :=
  match e_written env with
  | Some id => modify (set_conf (Some (mkConfFile content id)))
  | None => fail EWriteConf
  end.

Definition conf_identity (stat_ok : bool) : AgentM ConfIdentity :=
  fun w => match w_conf w with
           | Some f => if stat_ok then (w, Ok (cf_identity f)) else (w, Err EStat)
           | None => (w, Err EStat)
           end.

Definition read_conf (env : TickEnv) : AgentM str :=
  fun w => match w_conf w with
           | Some f => if e_readable env then (w, Ok (cf_text f)) else (w, Err EReadConf)
           | None => (w, Err EReadConf)
           end.

Definition client_defaults : AgentM ClientDefaults := fun w => (w, Ok (w_defaults w)).

Definition record_dropped (dropped : list string) (w : World) : World :=
  fold_left (fun w f => record_param_rejected_field (lit f) w) dropped w.

Definition merge_and_write_conf_locked (env : TickEnv) (params : option AwgParams)
    : AgentM (option ConfWrite) :=
  match e_lock env with
  | LockBroken => fail ELock
  | LockBusy => ret None
  | LockTaken =>
      let! conf_text := read_conf env in
      let! defaults := client_defaults in
      match merge_obfuscation_params_reporting b64_decode conf_text params defaults with
      | Err e => let! _ := modify (record_param_rejection e) in fail (EMerge e)
      | Ok (new_conf, dropped) =>
          let! _ := modify (record_dropped dropped) in
          let! _ := modify (sync_param_dropped_marker env dropped) in
          if decide (new_conf = conf_text) then
            let! id := conf_identity (e_stat_write env) in
            ret (Some (mkConfWrite id false))
          else
            let! _ := write_conf_atomic env new_conf in
            let! id := conf_identity (e_stat_write env) in
            ret (Some (mkConfWrite id true))
      end
  end.

(** ** The kernel *)

(** The installer replaces the file while the lock is free. *)
Definition installer_writes (fs : list ConfFile) (w : World) : World :=
  fold_left (fun w f => set_conf (Some f) w) fs w.

Definition conf_changed_since (env : TickEnv) (written : ConfIdentity) : AgentM bool :=
  let! id := conf_identity (e_stat_apply env) in ret (bool_decide (id <> written)).

(** What strip reads is the file as it is then. *)
Definition apply_to_kernel (env : TickEnv) : AgentM unit :=
  let! _ := modify (installer_writes (e_window env)) in
  match e_apply env with
  | Synced =>
      let! _ := modify (fun w => set_kernel (cf_text <$> w_conf w) w) in
      modify (record (record_apply_success (e_clock env)))
  | NotSynced taken =>
      let! _ := modify (fun w => if taken then set_kernel (cf_text <$> w_conf w) w else w) in
      let! _ := modify (record record_apply_failure) in
      fail EApply
  end.

Definition should_restart (unit : option str) (epoch_advanced : bool) : option str :=
  if epoch_advanced then unit else None.

Definition restart_unit (u : str) : AgentM unit := modify (add_restart u).

(** The report is sent if the token can be read and the request goes out; its
    answer is only logged. *)
Definition report_applied (env : TickEnv) (epoch : Z) (w : World) : World :=
  match read_token (e_report_token env) with
  | Ok _ => if e_report env then add_report epoch w else w
  | Err _ => w
  end.

(** ** One tick *)

(** Steps 5 to 8: push the file, restart the unit, record the epoch, report. *)
Definition push_and_record (env : TickEnv) (epoch : Z) : AgentM unit :=
  let! _ := apply_to_kernel env in
  let! _ := match should_restart restart_unit_after_apply true with
            | Some u => restart_unit u
            | None => ret tt
            end in
  let! _ := save_state env (mkAwgState epoch (e_clock env)) in
  modify (report_applied env epoch).

(** Steps 3 to 8: merge and write under the lock, check that the file is still
    the one written, push. *)
Definition apply_epoch (env : TickEnv) (epoch : Z) (params : AwgParams) : AgentM unit :=
  let! written := merge_and_write_conf_locked env (Some params) in
  match written with
  | None => modify (record (record_conf_write_conflict LockTimeout))
  | Some written =>
      let! _ := modify (installer_writes (e_between env)) in
      fun w =>
        match conf_changed_since env (identity written) w with
        | (w, Ok true) => modify (record (record_conf_write_conflict ApplySuperseded)) w
        | (w, Err _) => ret tt w
        | (w, Ok false) => push_and_record env epoch w
        end
  end.

Definition tick (env : TickEnv) : AgentM unit :=
  let! response := poll_latest env in
  match response with
  | None => ret tt
  | Some (epoch, params) =>
      let! state := load_state in
      let last_epoch := match state with Some s => last_applied_epoch s | None => 0 end in
      if epoch <=? last_epoch then ret tt else apply_epoch env epoch params
  end.

(** ** The top-up at start *)

Definition startup_defaults_top_up (env : TickEnv) (w : World) : World :=
  match merge_and_write_conf_locked env None w with
  | (w, Err _) => w
  | (w, Ok None) => w
  | (w, Ok (Some written)) =>
      if changed written then
        match conf_changed_since env (identity written) (installer_writes (e_between env) w) with
        | (w, Ok true) => record (record_conf_write_conflict ApplySuperseded) w
        | (w, Err _) => w
        | (w, Ok false) =>
            match apply_to_kernel env w with
            | (w, Ok _) => record (record_apply_success (e_clock env)) w
            | (w, Err _) => record record_apply_failure w
            end
        end
      else w
  end.

(** ** Histories *)

(** [AgentLoop::new]: reload the metrics and draw the defaults; without entropy
    the process exits. *)
Definition agent_new (draw : nat -> option Z) (w : World) : option World :=
  d ← generate draw;
  Some (mkWorld (w_conf w) (w_state w) (w_kernel w) (w_marker w) (load (w_prom w)) (w_prom w)
          (w_flushes w) (w_restarts w) (w_reports w) d).

(** What can happen to the world: the installer writes, a tick of the loop (an
    error is logged and the loop goes on), or the agent starts and tops up the
    file. *)
Inductive AgentEvent :=
| InstallerWrote (f : ConfFile)
| Ticked (env : TickEnv)
| Started (draw : nat -> option Z) (env : TickEnv).

Definition agent_step (w : World) (e : AgentEvent) : World :=
  match e with
  | InstallerWrote f => set_conf (Some f) w
  | Ticked env => (tick env w).1
  | Started draw env =>
      match agent_new draw w with
      | Some w => startup_defaults_top_up env w
      | None => w
      end
  end.

Definition agent_run (es : list AgentEvent) (w : World) : World := fold_left agent_step es w.

End Agent.
