(* ===== verification/AwgAgentFacts.v ===== *)
(** * What the agent's loop guarantees

    An epoch is recorded only after the kernel took a file that carries it;
    recorded and reported epochs only move forward, over ticks, restarts and
    installer writes; a rejected epoch leaves everything as it was and is counted;
    the metrics survive restarts of the process. *)

From Stdlib Require Import ZArith Lia.
From stdpp Require Import base option numbers gmap strings sorting list.
From S2P Require Import Prelude RustStr AwgParams ConfMerge ConfMergeFacts ConfMergeProps AwgMetrics.
From S2P Require Import AwgMetricsFacts AwgAgent.

#[local] Opaque FIELD_SPECS.

(** ** What is left alone *)

(** [w'] differs from [w] in metrics and marker only. *)
Record same_core (w w' : World) : Prop := {
  sc_conf : w_conf w' = w_conf w;
  sc_state : w_state w' = w_state w;
  sc_kernel : w_kernel w' = w_kernel w;
  sc_restarts : w_restarts w' = w_restarts w;
  sc_reports : w_reports w' = w_reports w;
  sc_defaults : w_defaults w' = w_defaults w;
}.

#[export] Instance same_core_preorder : PreOrder same_core.
Proof. split; [done|]. intros w1 w2 w3 [] []. split; congruence. Qed.

(** ** The lock *)

(** The retry loop ends: sleeping the poll interval between attempts, it is done
    after as many attempts as fit in the timeout, and two. *)
Lemma acquire_conf_lock_terminates open_ok start timeout answer clock :
  0 <= timeout -> start <= clock 0%nat ->
  (forall i, clock i + LOCK_POLL_INTERVAL <= clock (S i)) ->
  exists a, acquire_conf_lock_blocking (Z.to_nat (timeout / LOCK_POLL_INTERVAL) + 2) open_ok start timeout
              answer clock = Some a.
Proof.
  intros Ht H0 Hc. unfold acquire_conf_lock_blocking. destruct open_ok; [|by eexists].
  assert (forall i, start + Z.of_nat i * LOCK_POLL_INTERVAL <= clock i) as Hlow.
  { induction i as [|i IH]; [lia|]. specialize (Hc i). lia. }
  assert (forall fuel i, Z.to_nat (timeout / LOCK_POLL_INTERVAL) + 1 < fuel + i ->
            (0 < fuel)%nat -> exists a, acquire_loop fuel i answer clock (start + timeout) = Some a)%nat as H.
  2: { apply H; lia. }
  induction fuel as [|fuel IH]; intros i Hi Hf; [lia|]. cbn [acquire_loop].
  destruct (answer i); [by eexists| |by eexists].
  destruct (Z.leb_spec (start + timeout) (clock i)) as [|Hlt]; [by eexists|].
  apply IH; [lia|]. destruct fuel; [exfalso|lia]. specialize (Hlow i). unfold LOCK_POLL_INTERVAL in *.
  pose proof (Z.mod_pos_bound timeout 50 ltac:(lia)). pose proof (Z_div_mod_eq_full timeout 50). lia.
Qed.

Section Agent.
Context `{Hre : ConfRegex} {Hlaws : ConfRegexLaws} (b64_decode : str -> option (list Z)).
Context (quoted : Error -> str) (disk_ok : nat -> bool) (unit_after : option str).

#[local] Abbreviation tick := (tick b64_decode quoted disk_ok unit_after).
#[local] Abbreviation agent_run := (agent_run b64_decode quoted disk_ok unit_after).
#[local] Abbreviation agent_step := (agent_step b64_decode quoted disk_ok unit_after).
#[local] Abbreviation merge_and_write := (merge_and_write_conf_locked b64_decode quoted disk_ok).

Lemma record_core f w : same_core w (record disk_ok f w).
Proof. done. Qed.

Lemma rejected_field_core f w : same_core w (record_param_rejected_field disk_ok f w).
Proof.
  unfold record_param_rejected_field. destruct (record_param_rejected f (w_metrics w)) as [m []]; done.
Qed.

Lemma rejection_core e w : same_core w (record_param_rejection quoted disk_ok e w).
Proof.
  unfold record_param_rejection. destruct (extract_rejected_field _); [apply rejected_field_core | done].
Qed.

Lemma dropped_core l w : same_core w (record_dropped disk_ok l w).
Proof.
  unfold record_dropped. revert w. induction l as [|f l IH]; intros w; [done|]. cbn.
  etrans; [apply rejected_field_core | apply IH].
Qed.

Lemma marker_core env l w : same_core w (sync_param_dropped_marker env l w).
Proof.
  unfold sync_param_dropped_marker. destruct l; destruct (e_marker_io env); try done. by case_decide.
Qed.

(** ** The locked section *)

(** What a locked section that ends well leaves: the merged file, with the
    identity it returns. *)
Record merged (env : TickEnv) (params : option AwgParams) (w w' : World) (cw : ConfWrite)
    (out : str) : Prop := {
  mg_merge : exists f dr, w_conf w = Some f /\
    merge_obfuscation_params_reporting b64_decode (cf_text f) params (w_defaults w) = Ok (out, dr) /\
    (changed cw = false -> out = cf_text f);
  mg_conf : w_conf w' = Some (mkConfFile out (identity cw));
  mg_identity : e_written env = Some (identity cw) \/ cf_identity <$> w_conf w = Some (identity cw);
  mg_state : w_state w' = w_state w;
  mg_kernel : w_kernel w' = w_kernel w;
  mg_reports : w_reports w' = w_reports w;
  mg_restarts : w_restarts w' = w_restarts w;
}.

Lemma merge_and_write_ok env params w w' cw :
  merge_and_write env params w = (w', Ok (Some cw)) -> exists out, merged env params w w' cw out.
Proof.
  unfold merge_and_write_conf_locked, bind, read_conf, client_defaults, modify, ret, fail.
  destruct (e_lock env); [|done|done].
  destruct (w_conf w) as [f|] eqn:Hf; [|done]. destruct (e_readable env); [|done].
  destruct (merge_obfuscation_params_reporting _ _ _ _) as [[out dr]|e] eqn:Hm; [|done].
  cbv beta iota. set (w1 := sync_param_dropped_marker env dr _).
  assert (same_core w w1) as [] by (etrans; [apply dropped_core | apply marker_core]).
  unfold conf_identity, write_conf_atomic, modify, fail. cbv beta. case_decide as Heq.
  - rewrite sc_conf0, Hf. destruct (e_stat_write env); [|done]. intros [= <- <-]. exists out.
    destruct f as [text id]. cbn in *. subst out. split; cbn; try done; [|congruence|right; by rewrite Hf].
    exists (mkConfFile text id), dr. by rewrite Hf.
  - destruct (e_written env) as [id|] eqn:Hw; [|done]. cbn. destruct (e_stat_write env); [|done].
    intros [= <- <-]. exists out. split; cbn; try done; [|by left]. exists f, dr. by rewrite Hf.
Qed.

(** However it ends, it touches neither the kernel nor the state file. *)
Lemma merge_and_write_frame env params w :
  let w' := (merge_and_write env params w).1 in
  w_state w' = w_state w /\ w_kernel w' = w_kernel w /\ w_reports w' = w_reports w /\
  w_restarts w' = w_restarts w.
Proof.
  unfold merge_and_write_conf_locked, bind, read_conf, client_defaults, modify, ret, fail.
  destruct (e_lock env); [|done|done].
  destruct (w_conf w) as [f|] eqn:Hf; [|done]. destruct (e_readable env); [|done].
  destruct (merge_obfuscation_params_reporting _ _ _ _) as [[out dr]|e] eqn:Hm.
  2: { destruct (rejection_core e w). done. }
  cbv beta iota. set (w1 := sync_param_dropped_marker env dr _).
  assert (same_core w w1) as [] by (etrans; [apply dropped_core | apply marker_core]).
  unfold conf_identity, write_conf_atomic, modify, fail. cbv beta.
  case_decide; [rewrite sc_conf0, Hf; by destruct (e_stat_write env)|].
  destruct (e_written env); [|done]. cbn. by destruct (e_stat_write env).
Qed.

(** ** The tail of a tick *)

Lemma installer_frame fs w :
  let w' := installer_writes fs w in
  w_state w' = w_state w /\ w_kernel w' = w_kernel w /\ w_reports w' = w_reports w /\
  w_conf w' = match last fs with Some f => Some f | None => w_conf w end.
Proof.
  unfold installer_writes. cbn zeta. revert w. induction fs as [|f fs IH]; intros w; [done|].
  cbn [fold_left]. destruct (IH (set_conf (Some f) w)) as (-> & -> & -> & ->).
  split_and!; try done. rewrite last_cons. by destruct (last fs).
Qed.

Lemma conf_changed_frame env id w : (conf_changed_since env id w).1 = w.
Proof.
  unfold conf_changed_since, bind, conf_identity. destruct (w_conf w); [|done].
  by destruct (e_stat_apply env).
Qed.

Lemma conf_changed_false env id w w' :
  conf_changed_since env id w = (w', Ok false) ->
  w' = w /\ exists f, w_conf w = Some f /\ cf_identity f = id.
Proof.
  unfold conf_changed_since, bind, conf_identity, ret. destruct (w_conf w) as [f|]; [|done].
  destruct (e_stat_apply env); [|done]. intros [= <- Hb]. split; [done|]. exists f. split; [done|].
  apply bool_decide_eq_false_1 in Hb. by apply dec_stable.
Qed.

(** What a tick that records an epoch reports. *)
Definition reported (env : TickEnv) (epoch : Z) : list Z :=
  if is_ok (read_token (e_report_token env)) && e_report env then [epoch] else [].

(** The last epoch on file; none on file counts as 0. *)
Definition saved_epoch (w : World) : Z :=
  match w_state w with StateStored s => last_applied_epoch s | _ => 0 end.

Lemma apply_frame env w :
  let '(w', r) := apply_to_kernel disk_ok env w in
  w_state w' = w_state w /\ w_reports w' = w_reports w /\
  match r with
  | Ok _ => w_kernel w' = cf_text <$> w_conf (installer_writes (e_window env) w)
  | Err _ => True
  end.
Proof.
  destruct (installer_frame (e_window env) w) as (Hs & _ & Hr & _).
  unfold apply_to_kernel, bind, modify, fail. destruct (e_apply env) as [|[]]; by cbn.
Qed.

Lemma push_cases env epoch w w' r :
  push_and_record disk_ok unit_after env epoch w = (w', r) ->
  w_state w' = w_state w /\ w_reports w' = w_reports w \/
  w_state w' = StateStored (mkAwgState epoch (e_clock env)) /\
  w_reports w' = w_reports w ++ reported env epoch /\
  w_kernel w' = cf_text <$> w_conf (installer_writes (e_window env) w).
Proof.
  unfold push_and_record, bind at 1. pose proof (apply_frame env w) as Hap.
  destruct (apply_to_kernel disk_ok env w) as [w1 [[]|e]]; destruct Hap as (Hs & Hr & Hk).
  2: { intros [= <- _]. by left. }
  unfold bind, modify, save_state, should_restart, restart_unit, report_applied, ret, fail.
  unfold reported. destruct unit_after; destruct (e_save env); destruct (read_token (e_report_token env));
    destruct (e_report env); cbn; intros [= <- _]; cbn; rewrite ?Hs, ?Hr, ?app_nil_r; first [by left | by right].
Qed.

(** Applying an epoch either leaves the recorded and reported epochs alone, or
    merged it, found its file in place, pushed it and recorded it. *)
Lemma apply_epoch_cases env epoch params w w' r :
  apply_epoch b64_decode quoted disk_ok unit_after env epoch params w = (w', r) ->
  w_state w' = w_state w /\ w_reports w' = w_reports w \/
  exists w1 cw out, merged env (Some params) w w1 cw out /\
    (exists f, w_conf (installer_writes (e_between env) w1) = Some f /\ cf_identity f = identity cw) /\
    w_state w' = StateStored (mkAwgState epoch (e_clock env)) /\
    w_reports w' = w_reports w ++ reported env epoch /\
    w_kernel w' = cf_text <$> w_conf (installer_writes (e_window env) (installer_writes (e_between env) w1)).
Proof.
  unfold apply_epoch, bind at 1.
  destruct (merge_and_write env (Some params) w) as [w1 [[cw|]|e]] eqn:Hm;
    pose proof (merge_and_write_frame env (Some params) w) as Hfr; rewrite Hm in Hfr;
    destruct Hfr as (Hs & _ & Hr & _); [|intros [= <- _]; by left..].
  unfold bind at 1, modify at 1. cbv beta iota.
  destruct (installer_frame (e_between env) w1) as (Hs1 & _ & Hr1 & _). cbn [fst] in Hs, Hr.
  set (w2 := installer_writes (e_between env) w1) in *.
  pose proof (conf_changed_frame env (identity cw) w2) as Hcf.
  destruct (conf_changed_since env (identity cw) w2) as [w3 [[]|e]] eqn:Hch; cbn [fst] in Hcf; subst w3.
  - intros [= <- _]. left. cbn. split; congruence.
  - apply conf_changed_false in Hch as (_ & Hf). intros [[H1 H2]|(H1 & H2 & H3)]%push_cases.
    + left. split; congruence.
    + right. apply merge_and_write_ok in Hm as [out Hm]. exists w1, cw, out.
      split_and!; try done. congruence.
  - intros [= <- _]. left. split; congruence.
Qed.

Lemma tick_cases env w w' r :
  tick env w = (w', r) ->
  w_state w' = w_state w /\ w_reports w' = w_reports w \/
  exists epoch params w1 cw out,
    e_poll env = Latest epoch params /\ saved_epoch w < epoch /\
    merged env (Some params) w w1 cw out /\
    (exists f, w_conf (installer_writes (e_between env) w1) = Some f /\ cf_identity f = identity cw) /\
    w_state w' = StateStored (mkAwgState epoch (e_clock env)) /\
    w_reports w' = w_reports w ++ reported env epoch /\
    w_kernel w' = cf_text <$> w_conf (installer_writes (e_window env) (installer_writes (e_between env) w1)).
Proof.
  unfold AwgAgent.tick, bind at 1, poll_latest.
  destruct (read_token (e_token env)) as [tok|e]; [|intros [= <- _]; by left].
  destruct (e_poll env) as [| | |epoch params]; try (intros [= <- _]; by left).
  unfold bind at 1, modify at 1, ret at 1. cbv beta iota. set (w0 := record disk_ok _ w).
  match goal with |- _ -> ?G => assert (forall l, l = saved_epoch w ->
    (if epoch <=? l then ret tt else apply_epoch b64_decode quoted disk_ok unit_after env epoch params)
      w0 = (w', r) -> G) as Hk end.
  2: { unfold bind at 1, load_state at 1. change (w_state w0) with (w_state w).
       destruct (w_state w) as [| |s] eqn:Hst; cbv beta iota zeta; intros E;
         [|injection E as <- _; by left|]; (eapply Hk; [|exact E]); unfold saved_epoch; by rewrite Hst. }
  intros l ->. destruct (Z.leb_spec epoch (saved_epoch w)) as [Hle|Hgt]; [intros [= <- _]; by left|].
  intros [H|(w1 & cw & out & Hm & H)]%apply_epoch_cases; [by left|].
  right. exists epoch, params, w1, cw, out. split_and!; try (done || apply H). by destruct Hm.
Qed.

(** ** Epochs *)

(** A write of the installer that lands before the re-stat is visible in the
    identity of the file. *)
Definition supersede_visible (env : TickEnv) (w : World) : Prop :=
  forall f id, f ∈ e_between env ->
    e_written env = Some id \/ cf_identity <$> w_conf w = Some id -> cf_identity f <> id.

(** C25. An epoch is recorded only when the kernel runs it, as long as a file the
    installer puts in place differs in inode, size or modification time: if a tick
    records an epoch, it is the one the server answered, newer than the recorded
    one; the installer did not replace the file before the re-stat; and, unless it does so
    in the instant before the tools open it, the kernel was given the merge of
    that epoch into the file the agent read, in which every must-match parameter
    of the epoch reads back as the epoch's value and every line of no parameter
    (keys, addresses, peers) is as the installer wrote it. *)
Theorem recorded_epoch_is_live env w :
  supersede_visible env w -> w_state (tick env w).1 <> w_state w -> e_window env = [] ->
  exists epoch params f out,
    e_poll env = Latest epoch params /\ saved_epoch w < epoch /\
    w_state (tick env w).1 = StateStored (mkAwgState epoch (e_clock env)) /\
    e_between env = [] /\ w_conf w = Some f /\
    w_kernel (tick env w).1 = Some out /\
    (forall s v, s ∈ FIELD_SPECS -> class s = MustMatch -> ConfMerge.epoch s params = Some v ->
       validate b64_decode s v = Ok tt /\ conf_value out s = reread v) /\
    filter foreign (lines out) = filter foreign (lines (cf_text f)).
Proof.
  intros Hvis Hne Hwin. destruct (tick env w) as [w' r] eqn:Ht. cbn [fst] in *.
  apply tick_cases in Ht as [[? _]|(epoch & params & w1 & cw & out & Hp & Hlt & [Hm Hc Hid _ _ _ _] &
    (f' & Hf' & Hid') & Hs & _ & Hk)]; [done|]. destruct Hm as (f & dr & Hf & Hm & _).
  assert (e_between env = []) as Hb.
  { destruct (installer_frame (e_between env) w1) as (_ & _ & _ & Hlast).
    destruct (last (e_between env)) as [g|] eqn:Hg; [|by apply last_None].
    exfalso. rewrite Hlast in Hf'. injection Hf' as ->.
    apply (Hvis f' (identity cw)); [by apply last_Some_elem_of | exact Hid | exact Hid']. }
  rewrite Hb, Hwin in Hk. cbn in Hk. rewrite Hc in Hk.
  exists epoch, params, f, out. split_and!; try done.
  - intros s v Hin Hcl He. eapply merge_must_match; [exact Hm | done | done | exact He].
  - by eapply merge_keeps_foreign.
Qed.

(** ** Histories *)

Lemma top_up_frame env w :
  let w' := startup_defaults_top_up b64_decode quoted disk_ok env w in
  w_state w' = w_state w /\ w_reports w' = w_reports w.
Proof.
  cbn zeta. unfold startup_defaults_top_up.
  pose proof (merge_and_write_frame env None w) as Hfr.
  destruct (merge_and_write env None w) as [w1 [[cw|]|e]]; destruct Hfr as (Hs & _ & Hr & _); try done.
  destruct (changed cw); [|done]. cbn [fst] in Hs, Hr.
  destruct (installer_frame (e_between env) w1) as (Hs1 & _ & Hr1 & _).
  set (w2 := installer_writes (e_between env) w1) in *.
  pose proof (conf_changed_frame env (identity cw) w2) as Hcf.
  destruct (conf_changed_since env (identity cw) w2) as [w3 [[]|e]]; cbn [fst] in Hcf; subst w3;
    [cbn; split; congruence| |split; congruence].
  pose proof (apply_frame env w2) as Hap.
  destruct (apply_to_kernel disk_ok env w2) as [w3 [[]|e]]; destruct Hap as (Hs3 & Hr3 & _);
    cbn; split; congruence.
Qed.

(** What one event may do to the recorded epoch and the reports. *)
Definition advances (w w' : World) : Prop :=
  exists new, w_reports w' = w_reports w ++ new /\ StronglySorted Z.lt new /\
    Forall (fun e => saved_epoch w < e <= saved_epoch w') new /\ saved_epoch w <= saved_epoch w'.

Lemma advances_same w w' : w_state w' = w_state w -> w_reports w' = w_reports w -> advances w w'.
Proof.
  intros Hs Hr. exists []. rewrite app_nil_r. split_and!; [done | apply SSorted_nil | apply Forall_nil_2|].
  unfold saved_epoch. rewrite Hs. lia.
Qed.

Lemma advances_trans w1 w2 w3 : advances w1 w2 -> advances w2 w3 -> advances w1 w3.
Proof.
  intros (n1 & R1 & S1 & F1 & L1) (n2 & R2 & S2 & F2 & L2). exists (n1 ++ n2).
  rewrite R2, R1, app_assoc. split_and!; [done | | | lia].
  - apply StronglySorted_app; split_and!; [|done|done]. intros x y Hx Hy.
    rewrite Forall_forall in F1, F2. specialize (F1 x Hx). specialize (F2 y Hy). lia.
  - apply Forall_app. split; eapply Forall_impl; [exact F1 | | exact F2 |]; cbn; intros; lia.
Qed.

Lemma tick_advances env w : advances w (tick env w).1.
Proof.
  destruct (tick env w) as [w' r] eqn:Ht. cbn [fst].
  apply tick_cases in Ht as [[Hs Hr]|(epoch & params & w1 & cw & out & _ & Hlt & _ & _ & Hs & Hr & _)];
    [by apply advances_same|].
  assert (saved_epoch w' = epoch) as He by (unfold saved_epoch; by rewrite Hs).
  eexists. split; [exact Hr|]. rewrite He. unfold reported. destruct (_ && _).
  - split_and!; [by repeat constructor | repeat constructor; lia | lia].
  - split_and!; [constructor | constructor | lia].
Qed.

Lemma step_advances e w : advances w (agent_step w e).
Proof.
  destruct e as [f|env|draw env]; cbn; [by apply advances_same | apply tick_advances|].
  unfold agent_new. destruct (generate draw) as [d|]; cbn; [|by apply advances_same].
  destruct (top_up_frame env (mkWorld (w_conf w) (w_state w) (w_kernel w) (w_marker w)
    (load (w_prom w)) (w_prom w) (w_flushes w) (w_restarts w) (w_reports w) d)) as [Hs Hr].
  by apply advances_same; [rewrite Hs | rewrite Hr].
Qed.

(** Epochs only move forward: over any history of ticks, failures, installer
    writes and restarts, the recorded epoch never decreases, and the epochs
    reported to the server are strictly increasing, each newer than what was
    recorded at the start and never ahead of what is recorded. *)
Theorem epochs_move_forward es w :
  exists new, w_reports (AwgAgent.agent_run b64_decode quoted disk_ok unit_after es w) =
      w_reports w ++ new /\ StronglySorted Z.lt new /\
    Forall (fun e => saved_epoch w < e <=
      saved_epoch (AwgAgent.agent_run b64_decode quoted disk_ok unit_after es w)) new /\
    saved_epoch w <= saved_epoch (AwgAgent.agent_run b64_decode quoted disk_ok unit_after es w).
Proof.
  change (advances w (agent_run es w)). unfold AwgAgent.agent_run. revert w.
  induction es as [|e es IH]; intros w; [by apply advances_same|]. cbn [fold_left].
  eapply advances_trans; [apply step_advances | apply IH].
Qed.

(** ** Rejections *)

Lemma take_while_label f rest :
  Forall (fun c => label_char c = true) f -> take_while label_char (f ++ SPACE :: rest) = f.
Proof. induction 1 as [|c f Hc _ IH]; [done|]. cbn. by rewrite Hc, IH. Qed.

(** An error text that rejects a field names it, whatever it quotes. *)
Lemma extract_named f why : label_ok (lit f) ->
  extract_rejected_field [rejection_text quoted (Rejected f why)] = Some (lit f).
Proof.
  intros [Hne Hf]. cbn [extract_rejected_field rejection_text].
  assert (exists rest, reason_words why ++ quoted (Rejected f why) = SPACE :: rest) as [rest ->]
    by (destruct why; by eexists).
  assert (find_after (lit "field=") (lit "awg param rejected: field=" ++ lit f ++ SPACE :: rest) =
            Some (lit f ++ SPACE :: rest)) as -> by reflexivity.
  rewrite take_while_label by done. by destruct (lit f).
Qed.

Lemma table_labels s : s ∈ FIELD_SPECS -> label_ok (lit (field s)).
Proof.
  revert s. refine (table_all (fun s => label_ok (lit (field s))) _). Transparent FIELD_SPECS.
  repeat (apply Forall_cons_2; [split; [done | by repeat constructor]|]). apply Forall_nil_2.
  Opaque FIELD_SPECS.
Qed.

Lemma bt_get_insert k v m : bt_get k (bt_insert k v m) = Some v.
Proof.
  induction m as [|[k' v'] m IH]; cbn; [by rewrite str_compare_refl|].
  destruct (str_compare k k') eqn:E; cbn; rewrite ?str_compare_refl, ?E; done.
Qed.

Lemma bt_get_insert_ne k k' v m : k' <> k -> bt_get k' (bt_insert k v m) = bt_get k' m.
Proof.
  intros Hne. assert (str_compare k' k <> Eq) as Hk by (by rewrite str_compare_eq).
  induction m as [|[k1 v1] m IH]; cbn.
  - by destruct (str_compare k' k).
  - destruct (str_compare k k1) eqn:E; cbn.
    + apply str_compare_eq in E as <-. by destruct (str_compare k' k).
    + by destruct (str_compare k' k).
    + by rewrite IH.
Qed.

(** The counter of a field, if it has one. *)
Definition rejections (f : string) (w : World) : option Z := bt_get (lit f) (param_rejected (w_metrics w)).

(** A rejection of [f] as the counters show it: one more under [f]; or nothing,
    when [f] is new and thirty-two fields are counted already. *)
Definition counted (f : string) (w w' : World) : Prop :=
  (forall g : string, lit g <> lit f -> rejections g w' = rejections g w) /\
  rejections f w' =
    match rejections f w with
    | Some n => Some ((n + 1) mod 2 ^ 64)
    | None => if (length (param_rejected (w_metrics w)) <? 32)%nat then Some 1 else None
    end.

Lemma rejection_counted f why w :
  label_ok (lit f) -> counted f w (record_param_rejection quoted disk_ok (Rejected f why) w).
Proof.
  intros Hl. unfold record_param_rejection. rewrite extract_named by done.
  unfold counted, record_param_rejected_field, record_param_rejected, rejections.
  destruct (bt_get (lit f) (param_rejected (w_metrics w))) as [n|] eqn:Hg.
  - cbn [fst snd flush w_metrics param_rejected].
    split; [intros g Hgf; by apply bt_get_insert_ne | by rewrite bt_get_insert].
  - destruct (Nat.leb_spec MAX_PARAM_REJECTED_FIELDS (length (param_rejected (w_metrics w)))) as [Hle|Hlt].
    + split; [done|]. rewrite Hg. destruct (Nat.ltb_spec (length (param_rejected (w_metrics w))) 32); [|done].
      unfold MAX_PARAM_REJECTED_FIELDS in Hle. lia.
    + cbn [fst snd flush w_metrics param_rejected].
      split; [intros g Hgf; by apply bt_get_insert_ne|]. rewrite bt_get_insert.
      unfold MAX_PARAM_REJECTED_FIELDS in Hlt. by rewrite (proj2 (Nat.ltb_lt _ _) Hlt).
Qed.

(** C26. A rejected epoch fails closed and is seen: when, with the lock taken
    and awg0.conf readable, the merge of a newer epoch is rejected for a field,
    the tick ends with that error; awg0.conf, the kernel, the recorded epoch and
    the reports are untouched, so the next poll tries again; and the rejection is
    counted under that field alone, read from the error's own text: its 64-bit
    counter goes up by one, or starts at one, and the counters of all other
    fields stay.  The one exception is the cap: a field without a counter gets
    none when thirty-two fields are counted already. *)
Theorem rejected_epoch_fails_closed env w token epoch params f fld why :
  read_token (e_token env) = Ok token ->
  e_poll env = Latest epoch params -> w_state w <> StateUnreadable -> saved_epoch w < epoch ->
  e_lock env = LockTaken -> e_readable env = true -> w_conf w = Some f ->
  merge_obfuscation_params_reporting b64_decode (cf_text f) (Some params) (w_defaults w) =
    Err (Rejected fld why) ->
  let w' := (AwgAgent.tick b64_decode quoted disk_ok unit_after env w).1 in
  (AwgAgent.tick b64_decode quoted disk_ok unit_after env w).2 = Err (EMerge (Rejected fld why)) /\
  same_core w w' /\ counted fld w w'.
Proof.
  intros Htok Hp Hst Hlt Hlock Hread Hf Hm.
  set (w0 := record disk_ok (record_poll_success (e_clock env)) w).
  assert (tick env w = (record_param_rejection quoted disk_ok (Rejected fld why) w0,
                        Err (EMerge (Rejected fld why)))) as ->.
  { unfold AwgAgent.tick, bind at 1, poll_latest. rewrite Htok, Hp. unfold bind at 1, modify at 1, ret at 1.
    fold w0. unfold bind at 1, load_state. change (w_state w0) with (w_state w).
    unfold saved_epoch in Hlt.
    assert (forall l, l < epoch -> (epoch <=? l) = false) as Hle by (intros; by apply Z.leb_gt).
    destruct (w_state w) as [| |s]; [|done|]; rewrite Hle by done;
      unfold apply_epoch, merge_and_write_conf_locked, bind, read_conf, client_defaults, modify, fail, ret;
      rewrite Hlock, Hread; change (w_conf w0) with (w_conf w); rewrite Hf;
      change (w_defaults w0) with (w_defaults w); by rewrite Hm. }
  cbn [fst snd]. split_and!; [done | |].
  - etrans; [apply (record_core (record_poll_success (e_clock env)) w) | apply rejection_core].
  - apply merge_rejected_field in Hm as Hin. apply list_elem_of_fmap in Hin as (s & -> & Hs).
    apply (rejection_counted (field s) why w0). by apply table_labels.
Qed.

(** ** The top-up counts twice *)

(** A failed kernel apply of the top-up is counted twice: the apply itself
    records the failure, and the top-up records it again. *)
Theorem top_up_counts_failure_twice env w w1 cw taken :
  merge_and_write_conf_locked b64_decode quoted disk_ok env None w = (w1, Ok (Some cw)) ->
  changed cw = true -> e_between env = [] -> e_stat_apply env = true -> e_apply env = NotSynced taken ->
  apply_failures (w_metrics (startup_defaults_top_up b64_decode quoted disk_ok env w)) =
    wrap_u64 (wrap_u64 (apply_failures (w_metrics w1) + 1) + 1).
Proof.
  intros Hm Hch Hb Hst Ha. unfold startup_defaults_top_up. rewrite Hm, Hch, Hb.
  apply merge_and_write_ok in Hm as [out [_ Hc _ _ _ _ _]]. cbn [installer_writes fold_left].
  unfold conf_changed_since, bind at 1, conf_identity. rewrite Hc, Hst. unfold ret at 1.
  rewrite bool_decide_eq_false_2 by (by cbn; intros Hne; apply Hne).
  unfold apply_to_kernel, bind, modify, fail. rewrite Ha.
  assert (forall fs w, w_metrics (installer_writes fs w) = w_metrics w) as Hi.
  { unfold installer_writes. induction fs as [|f fs IH]; intros w2; [done|]. cbn. by rewrite IH. }
  destruct taken; cbn; by rewrite Hi.
Qed.

End Agent.

(** ** Witnesses: an epoch on a fresh node *)

#[local] Transparent FIELD_SPECS.

Definition sample_id (n : Z) : ConfIdentity := mkConfIdentity n 100 1700000000 n.

Definition sample_world : World :=
  mkWorld (Some (mkConfFile sample_conf (sample_id 1))) StateMissing None None metrics_zero None 0 [] []
    sample_defaults.

Definition sample_env (p : AwgParams) (a : ApplyAnswer) : TickEnv :=
  mkTickEnv (Some (lit "token")) (Latest 7 p) 1700000100 LockTaken true true (lit "2026-01-01T00:00:00Z")
    (Some (sample_id 2)) true [] true [] a true (Some (lit "token")) true.

Definition sample_quoted (e : Error) : str := lit "73".

Definition disk_always (n : nat) : bool := true.

(** An epoch whose S2 is the reserved size. *)
Definition reserved_params : AwgParams :=
  mkAwgParams None None None 17 73 None 18 (Single 5) (Single 6) (Single 7) (Single 8)
    None None None None None None None None None None None None None None.

Lemma recorded_epoch_is_live_witness :
  exists epoch params f out,
    e_poll (sample_env sample_params Synced) = Latest epoch params /\ saved_epoch sample_world < epoch /\
    w_state (@tick line_regex no_b64 sample_quoted disk_always None
      (sample_env sample_params Synced) sample_world).1 = StateStored (mkAwgState epoch 1700000100) /\
    e_between (sample_env sample_params Synced) = [] /\ w_conf sample_world = Some f /\
    w_kernel (@tick line_regex no_b64 sample_quoted disk_always None
      (sample_env sample_params Synced) sample_world).1 = Some out /\
    (forall s v, s ∈ FIELD_SPECS -> class s = MustMatch -> ConfMerge.epoch s params = Some v ->
       validate no_b64 s v = Ok tt /\ @conf_value line_regex out s = reread v) /\
    filter foreign (lines out) = filter foreign (lines (cf_text f)).
Proof.
  apply (@recorded_epoch_is_live line_regex _ no_b64 sample_quoted disk_always None
           (sample_env sample_params Synced) sample_world).
  - intros f id Hf. by apply elem_of_nil in Hf.
  - vm_compute. discriminate.
  - reflexivity.
Defined.

Lemma rejected_epoch_fails_closed_witness :
  (@tick line_regex no_b64 sample_quoted disk_always None (sample_env reserved_params Synced)
     sample_world).2 = Err (EMerge (Rejected "s2" ReservedPair)) /\
  same_core sample_world (@tick line_regex no_b64 sample_quoted disk_always None
    (sample_env reserved_params Synced) sample_world).1 /\
  counted "s2" sample_world (@tick line_regex no_b64 sample_quoted disk_always None
    (sample_env reserved_params Synced) sample_world).1.
Proof.
  apply (@rejected_epoch_fails_closed line_regex _ no_b64 sample_quoted disk_always None
           (sample_env reserved_params Synced) sample_world (lit "token") 7 reserved_params
           (mkConfFile sample_conf (sample_id 1)) "s2" ReservedPair).
  - reflexivity.
  - reflexivity.
  - discriminate.
  - reflexivity.
  - reflexivity.
  - reflexivity.
  - reflexivity.
  - vm_compute. reflexivity.
Defined.

Definition top_up_world : World :=
  mkWorld (Some (mkConfFile (lit "[Interface]") (sample_id 1))) StateMissing None None metrics_zero None
    0 [] [] sample_defaults.

Definition top_up_written : World * result (option ConfWrite) AgentError :=
  @merge_and_write_conf_locked line_regex no_b64 sample_quoted disk_always
    (sample_env sample_params (NotSynced false)) None top_up_world.

Lemma top_up_counts_failure_twice_witness :
  apply_failures (w_metrics (@startup_defaults_top_up line_regex no_b64 sample_quoted disk_always
    (sample_env sample_params (NotSynced false)) top_up_world)) = wrap_u64 (wrap_u64 (0 + 1) + 1).
Proof.
  apply (@top_up_counts_failure_twice line_regex no_b64 sample_quoted disk_always
           (sample_env sample_params (NotSynced false)) top_up_world top_up_written.1
           (mkConfWrite (sample_id 2) true) false).
  - vm_compute. reflexivity.
  - reflexivity.
  - reflexivity.
  - reflexivity.
  - reflexivity.
Defined.
