(* ===== verification/AwgAgentMetrics.v ===== *)
(** * The agent's metrics across its histories

    Whatever the agent does and however often it restarts, the textfile reads
    back as the metrics in memory. *)

From Stdlib Require Import ZArith Lia.
From stdpp Require Import base option numbers gmap strings sorting list.
From S2P Require Import Prelude RustStr AwgParams ConfMerge ConfMergeFacts ConfMergeProps AwgMetrics.
From S2P Require Import AwgMetricsFacts AwgAgent AwgAgentFacts.

#[local] Opaque FIELD_SPECS.

(** The metrics are well formed and the file holds them. *)
Definition synced (w : World) : Prop := metrics_wf (w_metrics w) /\ load (w_prom w) = w_metrics w.

(** [w'] has the metrics and the textfile of [w]. *)
Definition same_metrics (w w' : World) : Prop :=
  w_metrics w' = w_metrics w /\ w_prom w' = w_prom w.

Lemma synced_same w w' : synced w -> same_metrics w w' -> synced w'.
Proof. unfold synced. intros H [-> ->]. done. Qed.

(** The clock of a tick is a timestamp. *)
Definition clock_ok (env : TickEnv) : Prop := i64 (e_clock env).

Definition event_clock_ok (e : AgentEvent) : Prop :=
  match e with InstallerWrote _ => True | Ticked env | Started _ env => clock_ok env end.

Section Agent.
Context `{Hre : ConfRegex} {Hlaws : ConfRegexLaws} (b64_decode : str -> option (list Z)).
Context (quoted : Error -> str) (disk_ok : nat -> bool) (unit_after : option str).
Hypothesis (Hdisk : forall n, disk_ok n = true).

#[local] Abbreviation merge_and_write := (merge_and_write_conf_locked b64_decode quoted disk_ok).

Lemma flush_synced m w : metrics_wf m -> synced (flush disk_ok m w).
Proof. intros Hm. split; [done|]. cbn. rewrite Hdisk. by apply load_flush. Qed.

Lemma record_synced e w : event_ok e -> synced w -> synced (flush disk_ok (metric_event (w_metrics w) e) w).
Proof. intros He [Hw _]. by apply flush_synced, metric_event_wf. Qed.

Lemma rejected_field_synced f w :
  label_ok f -> synced w -> synced (record_param_rejected_field disk_ok f w).
Proof.
  intros Hf Hw. unfold record_param_rejected_field.
  pose proof (record_synced (FieldRejected f) w Hf Hw) as H. cbn [metric_event] in H.
  destruct (record_param_rejected f (w_metrics w)) as [m []]; [exact H | exact Hw].
Qed.

Lemma extract_label_ok chain f : extract_rejected_field chain = Some f -> label_ok f.
Proof.
  assert (forall s, Forall (fun c => label_char c = true) (take_while label_char s)) as Ht.
  { induction s as [|c s IH]; cbn; [constructor|]. destruct (label_char c) eqn:E; by constructor. }
  induction chain as [|text chain IH]; [done|]. cbn. destruct (find_after _ text) as [rest|]; [|done].
  destruct (is_empty (take_while label_char rest)) eqn:He; [done|]. intros [= <-].
  split; [by destruct (take_while _ _) | apply Ht].
Qed.

Lemma rejection_synced e w : synced w -> synced (record_param_rejection quoted disk_ok e w).
Proof.
  intros Hw. unfold record_param_rejection. destruct (extract_rejected_field _) as [f|] eqn:E; [|done].
  apply rejected_field_synced; [|done]. by eapply extract_label_ok.
Qed.

Lemma dropped_synced (l : list string) w :
  (forall f, f ∈ l -> label_ok (lit f)) -> synced w -> synced (record_dropped disk_ok l w).
Proof.
  unfold record_dropped. revert w. induction l as [|f l IH]; intros w Hl Hw; [done|]. cbn.
  apply IH; [intros g Hg; apply Hl; by right|]. apply rejected_field_synced; [apply Hl; left | done].
Qed.

Lemma marker_same env l w : same_metrics w (sync_param_dropped_marker env l w).
Proof.
  unfold sync_param_dropped_marker. destruct l; destruct (e_marker_io env); try done. by case_decide.
Qed.

Lemma installer_same fs w : same_metrics w (installer_writes fs w).
Proof.
  unfold installer_writes. revert w. induction fs as [|f fs IH]; intros w; [done|]. cbn [fold_left].
  destruct (IH (set_conf (Some f) w)) as [E1 E2]. by split; [rewrite E1 | rewrite E2].
Qed.

Lemma merge_and_write_synced env params w :
  synced w -> synced (merge_and_write env params w).1.
Proof.
  intros Hw. unfold merge_and_write_conf_locked. destruct (e_lock env); [|done|done].
  unfold bind at 1, read_conf. destruct (w_conf w) as [f|]; [|done]. destruct (e_readable env); [|done].
  unfold bind at 1, client_defaults.
  destruct (merge_obfuscation_params_reporting _ _ _ _) as [[out dr]|e] eqn:Hm.
  2: { by apply rejection_synced. }
  unfold bind, modify. cbv beta iota. set (w1 := sync_param_dropped_marker env dr _).
  assert (synced w1) as H1.
  { eapply synced_same; [|apply marker_same]. apply dropped_synced; [|done]. intros g Hg.
    eapply merge_dropped_fields in Hm as (s & Hs & <-); [by apply table_labels | exact Hg]. }
  unfold conf_identity, write_conf_atomic, modify, ret, fail. cbv beta.
  case_decide; [by destruct (w_conf w1); [destruct (e_stat_write env)|]|].
  destruct (e_written env); [|done]. cbn. by destruct (e_stat_write env).
Qed.

Lemma apply_synced env w : clock_ok env -> synced w -> synced (apply_to_kernel disk_ok env w).1.
Proof.
  intros Hc Hw. unfold apply_to_kernel, bind, modify, fail.
  assert (synced (installer_writes (e_window env) w)) as H1 by (eapply synced_same; [done | apply installer_same]).
  set (w1 := installer_writes (e_window env) w) in *. clearbody w1.
  destruct (e_apply env) as [|[]]; cbn.
  - by apply (record_synced (ApplySucceeded (e_clock env)) (set_kernel (cf_text <$> w_conf w1) w1)).
  - by apply (record_synced ApplyFailed (set_kernel (cf_text <$> w_conf w1) w1)).
  - by apply (record_synced ApplyFailed w1).
Qed.

(** A bind keeps what both of its parts keep. *)
Lemma bind_synced {A B} (m : AgentM A) (f : A -> AgentM B) w :
  synced (m w).1 -> (forall a w', synced w' -> synced (f a w').1) -> synced (bind m f w).1.
Proof. unfold bind. destruct (m w) as [w1 [a|e]]; cbn; auto. Qed.

Lemma modify_synced f w : synced (f w) -> synced (modify f w).1.
Proof. done. Qed.

Lemma push_synced env epoch w :
  clock_ok env -> synced w -> synced (push_and_record disk_ok unit_after env epoch w).1.
Proof.
  intros Hc Hw. unfold push_and_record. apply bind_synced; [by apply apply_synced|].
  intros _ w1 H1. apply bind_synced; [by destruct (should_restart _ _)|].
  intros _ w2 H2. apply bind_synced; [unfold save_state; by destruct (e_save env)|].
  intros _ w3 H3. unfold report_applied. apply modify_synced.
  destruct (read_token _); [by destruct (e_report env) | done].
Qed.

Lemma apply_epoch_synced env epoch params w :
  clock_ok env -> synced w ->
  synced (apply_epoch b64_decode quoted disk_ok unit_after env epoch params w).1.
Proof.
  intros Hc Hw. unfold apply_epoch. apply bind_synced; [by apply merge_and_write_synced|].
  intros [cw|] w1 H1; [|by apply (record_synced (Conflict LockTimeout))].
  apply bind_synced; [eapply synced_same; [exact H1 | apply installer_same]|]. intros _ w2 H2.
  pose proof (conf_changed_frame env (identity cw) w2) as Hcf.
  destruct (conf_changed_since env (identity cw) w2) as [w3 [[]|e]]; cbn [fst] in Hcf; subst w3.
  - by apply (record_synced (Conflict ApplySuperseded)).
  - by apply push_synced.
  - done.
Qed.

Lemma tick_synced env w :
  clock_ok env -> synced w -> synced (tick b64_decode quoted disk_ok unit_after env w).1.
Proof.
  intros Hc Hw. unfold tick. apply bind_synced.
  - unfold poll_latest. destruct (read_token (e_token env)); [|done].
    destruct (e_poll env); unfold bind, modify; cbn [fst ret fail].
    + by apply (record_synced PollFailed).
    + by apply (record_synced PollFailed).
    + by apply (record_synced PollFailed).
    + by apply (record_synced (PollSucceeded (e_clock env))).
  - intros [[epoch params]|] w1 H1; [|done]. apply bind_synced; [unfold load_state; by destruct (w_state w1)|].
    intros st w2 H2. cbv zeta. destruct (_ <=? _); [done | by apply apply_epoch_synced].
Qed.

Lemma top_up_synced env w :
  clock_ok env -> synced w -> synced (startup_defaults_top_up b64_decode quoted disk_ok env w).
Proof.
  intros Hc Hw. unfold startup_defaults_top_up.
  pose proof (merge_and_write_synced env None w Hw) as H1.
  destruct (merge_and_write env None w) as [w1 [[cw|]|e]]; [|done|done]. cbn [fst] in H1.
  destruct (changed cw); [|done].
  assert (synced (installer_writes (e_between env) w1)) as H2
    by (eapply synced_same; [exact H1 | apply installer_same]).
  set (w2 := installer_writes (e_between env) w1) in *.
  pose proof (conf_changed_frame env (identity cw) w2) as Hcf.
  destruct (conf_changed_since env (identity cw) w2) as [w3 [[]|e]]; cbn [fst] in Hcf; subst w3.
  - by apply (record_synced (Conflict ApplySuperseded)).
  - pose proof (apply_synced env w2 Hc H2) as H3.
    destruct (apply_to_kernel disk_ok env w2) as [w3 [[]|e]]; cbn [fst] in H3.
    + by apply (record_synced (ApplySucceeded (e_clock env))).
    + by apply (record_synced ApplyFailed).
  - done.
Qed.

(** C28. Metrics survive restarts: from a fresh node, over any history of polls,
    rejections, conflicts, applies, installer writes and restarts in which the
    textfile can be written, the file reads back as exactly the counters, gauges
    and rejected fields in memory, so a restart never moves a counter backwards;
    and at most 32 rejected fields are ever kept. *)
Theorem metrics_survive_restart es w :
  w_metrics w = metrics_zero -> w_prom w = None -> Forall event_clock_ok es ->
  let w' := agent_run b64_decode quoted disk_ok unit_after es w in
  load (w_prom w') = w_metrics w' /\
  (length (param_rejected (w_metrics w')) <= MAX_PARAM_REJECTED_FIELDS)%nat.
Proof.
  intros Hm Hp Hes w'. enough (synced w') as [Hwf Hl] by (split; [exact Hl | apply Hwf]).
  assert (synced w) as Hw by (unfold synced; rewrite Hm, Hp; split; [apply metrics_zero_wf | done]).
  clear Hm Hp. unfold w', agent_run. clear w'. revert w Hw.
  induction Hes as [|e es He _ IH]; intros w Hw; [done|]. cbn [fold_left]. apply IH.
  destruct e as [f|env|draw env]; cbn in *.
  - by eapply synced_same.
  - by apply tick_synced.
  - unfold agent_new. destruct (generate draw) as [d|]; [|done]. cbn. apply top_up_synced; [done|].
    destruct Hw as [Hwf Hl]. split; cbn; rewrite Hl; done.
Qed.

End Agent.

(** A history with a rejected epoch, an applied one and a restart. *)
Definition sample_history : list AgentEvent :=
  [Ticked (sample_env reserved_params Synced); Ticked (sample_env sample_params Synced);
   Started (fun _ => Some 0) (sample_env sample_params (NotSynced true))].

Lemma metrics_survive_restart_witness :
  let w' := @agent_run line_regex no_b64 sample_quoted disk_always None sample_history sample_world in
  load (w_prom w') = w_metrics w' /\
  (length (param_rejected (w_metrics w')) <= MAX_PARAM_REJECTED_FIELDS)%nat.
Proof.
  apply (@metrics_survive_restart line_regex no_b64 sample_quoted disk_always None).
  - reflexivity.
  - reflexivity.
  - reflexivity.
  - repeat constructor; unfold i64_min, i64_max; cbn; lia.
Defined.
