(* ===== verification/AwgConfig.v ===== *)
(** * Start-up of the parameter agent (crates/awg-params-agent/src/main.rs)

    What the agent reads from its environment, in the order it reads it, and the
    errors that stop it.  The environment, the token file and the duration
    grammar of the humantime crate are arguments. *)

From Stdlib Require Import ZArith Lia.
From stdpp Require Import base option numbers gmap strings list.
From S2P Require Import Prelude RustStr AwgParams ConfMerge AwgMetrics AwgAgent.

(** Durations are in nanoseconds. *)
Record AgentConfig := mkAgentConfig {
  central_url : str;
  service_token_path : str;
  awg_conf_path : str;
  awg_iface : str;
  state_path : str;
  poll_interval : Z;
  node_id : str;
  restart_unit_after_apply : option str;
  awg_conf_lock_path : str;
  lock_acquire_timeout : Z;
  textfile_dir : str;
  test_read_write_delay : Z;
}.

Inductive ConfigError :=
| EnvMissing (key : string)
| TokenUnreadable (path : str)
| TokenEmpty (path : str)
| InvalidPollInterval (value : str).

Definition DEFAULT_TOKEN_PATH : str := lit "/etc/oxpulse-partner-edge/token".
Definition DEFAULT_CONF_PATH : str := lit "/etc/amnezia/amneziawg/awg0.conf".
Definition DEFAULT_STATE_PATH : str := lit "/var/lib/oxpulse-partner-edge/awg-params-state.json".
Definition DEFAULT_TEXTFILE_DIR : str := lit "/var/lib/prometheus-node-exporter/textfile".

Definition default_lock_path (conf_path : str) : str := conf_path ++ lit ".lock".

(** A value the operating system holds: text, or bytes that are not Unicode. *)
Inductive OsString := Text (s : str) | NotUnicode (bytes : list Z).

(** [std::env::var] over the variables of a process. *)
Definition env_var (vars : string -> option OsString) (key : string) : option str :=
  match vars key with Some (Text s) => Some s | _ => None end.

Section config.
(** [std::env::var]: a value that is set and is Unicode. *)
Variable env : string -> option str.
(** [read_to_string] *)
Variable read_file : str -> option str.
(** [humantime::parse_duration] *)
Variable humantime : str -> option Z.

Definition require_env (key : string) : result str ConfigError :=
  match env key with Some v => Ok v | None => Err (EnvMissing key) end.

Definition env_or (key : string) (default_ : str) : str := default default_ (env key).

(** The error names the poll interval, whichever setting was parsed. *)
Definition parse_duration (s : str) : result Z ConfigError :=
  match humantime s with Some d => Ok d | None => Err (InvalidPollInterval s) end.

(** The token is only checked; every request reads it again. *)
Definition check_token (path : str) : result unit ConfigError :=
  match read_file path with
  | None => Err (TokenUnreadable path)
  | Some s => if is_empty (trim s) then Err (TokenEmpty path) else Ok tt
  end.

Definition lock_path (conf : str) : str :=
  match env "OXPULSE_AWG_CONF_LOCK_PATH" with
  | Some v => if negb (is_empty (trim v)) then v else default_lock_path conf
  | None => default_lock_path conf
  end.

Definition restart_unit_env : option str :=
  let val := env_or "OXPULSE_RESTART_UNIT_AFTER_APPLY" [] in
  if is_empty val then None else Some val.

Definition load_config : result AgentConfig ConfigError :=
  let? central := require_env "OXPULSE_CENTRAL_URL" in
  let? node := require_env "OXPULSE_NODE_ID" in
  let token_path := env_or "OXPULSE_SERVICE_TOKEN_PATH" DEFAULT_TOKEN_PATH in
  let? _ := check_token token_path in
  let conf := env_or "OXPULSE_AWG_CONF_PATH" DEFAULT_CONF_PATH in
  let iface := env_or "OXPULSE_AWG_IFACE" (lit "awg0") in
  let state := env_or "OXPULSE_STATE_PATH" DEFAULT_STATE_PATH in
  let? interval := parse_duration (env_or "OXPULSE_POLL_INTERVAL" (lit "30s")) in
  let lock := lock_path conf in
  let? timeout := parse_duration (env_or "OXPULSE_AWG_LOCK_TIMEOUT" (lit "10s")) in
  let textfile := env_or "OXPULSE_TEXTFILE_DIR" DEFAULT_TEXTFILE_DIR in
  Ok (mkAgentConfig central token_path conf iface state interval node restart_unit_env lock timeout textfile 0).

(** ** Theorems *)

Lemma drop_while_nil p s : drop_while p s = [] -> Forall (fun c => p c = true) s.
Proof. induction s as [|c s IH]; [constructor|]. cbn. destruct (p c) eqn:Hc; [|done]. constructor; auto. Qed.

Lemma trim_blank s : trim s = [] -> Forall (fun c => is_whitespace c = true) s.
Proof.
  unfold trim. intros Hr. apply (f_equal (@rev Z)) in Hr. rewrite rev_involutive in Hr. cbn in Hr.
  apply drop_while_nil in Hr. apply Forall_rev in Hr. rewrite rev_involutive in Hr.
  destruct (drop_while is_whitespace s) as [|c t] eqn:E; [by apply drop_while_nil|].
  exfalso. assert (is_whitespace c = false) as Hc.
  { clear Hr. revert E. induction s as [|x s IH]; [done|]. cbn. destruct (is_whitespace x) eqn:Hx; [auto|].
    by intros [= -> _]. }
  apply Forall_cons in Hr as [Hr _]. congruence.
Qed.

Lemma default_lock_not_blank conf : trim (default_lock_path conf) <> [].
Proof.
  intros Hb%trim_blank. unfold default_lock_path in Hb. apply Forall_app in Hb as [_ Hb].
  apply Forall_cons in Hb as [Hb _]. discriminate Hb.
Qed.

Lemma check_token_exact path : check_token path = Ok tt <-> is_ok (read_token (read_file path)) = true.
Proof.
  unfold check_token, read_token. destruct (read_file path) as [s|]; [|done]. by destruct (is_empty (trim s)).
Qed.

(** A configuration that loads can be worked with: the token file it names passes
    the check of every poll, the lock file has a name, the post-apply unit is one
    or none, and the test hook is off. *)
Theorem config_usable c :
  load_config = Ok c ->
  is_ok (read_token (read_file (service_token_path c))) = true /\
  trim (awg_conf_lock_path c) <> [] /\
  (forall u, restart_unit_after_apply c = Some u -> u <> []) /\
  test_read_write_delay c = 0.
Proof.
  unfold load_config. destruct (require_env _) as [central|]; [cbn [rbind]|done].
  destruct (require_env _) as [node|]; [cbn [rbind]|done].
  destruct (check_token _) as [[]|] eqn:Ht; [cbn [rbind]|done].
  destruct (parse_duration _) as [interval|]; [cbn [rbind]|done].
  destruct (parse_duration _) as [timeout|]; [cbn [rbind]|done]. intros [= <-].
  cbn [service_token_path awg_conf_lock_path restart_unit_after_apply test_read_write_delay].
  split_and!; [by apply check_token_exact | | |done].
  - unfold lock_path. destruct (env "OXPULSE_AWG_CONF_LOCK_PATH") as [v|]; [|apply default_lock_not_blank].
    destruct (trim v) eqn:Hv; cbn [is_empty negb]; [apply default_lock_not_blank | congruence].
  - unfold restart_unit_env. intros u. destruct (env_or _ []) as [|x v]; cbn; intros E; [discriminate E|]. injection E as <-. discriminate.
Qed.
End config.

(** ** The installer (lib/install-awg.sh) *)

(** A suffix of plain ASCII. *)
Definition os_push (o : OsString) (suffix : str) : OsString :=
  match o with Text s => Text (s ++ suffix) | NotUnicode b => NotUnicode (b ++ suffix) end.

Definition os_empty (o : OsString) : bool :=
  match o with Text s => is_empty s | NotUnicode b => is_empty b end.

Section installer.
(** The variables of the installer's shell. *)
Variable vars : string -> option OsString.

(** [${key:-fallback}]: set and not empty. *)
Definition shell_var (key : string) (fallback : OsString) : OsString :=
  match vars key with Some v => if os_empty v then fallback else v | None => fallback end.

Definition installer_conf_path : OsString :=
  os_push (shell_var "AWG_CONF_DIR" (Text (lit "/etc/amnezia/amneziawg"))) (lit "/awg0.conf").

Definition installer_lock_path : OsString :=
  shell_var "OXPULSE_AWG_CONF_LOCK_PATH"
    (shell_var "AWG_CONF_LOCK_PATH" (os_push installer_conf_path (lit ".lock"))).
End installer.

(** ** One lock for two writers *)

Section writers.
(** The variables of the agent's process and of the installer's shell. *)
Variables agent_vars shell_vars : string -> option OsString.
Variables (read_file : str -> option str) (humantime : str -> option Z).

(** The agent is sent to a lock file: its variable holds text that is not blank. *)
Definition agent_sent (v : str) : Prop :=
  agent_vars "OXPULSE_AWG_CONF_LOCK_PATH" = Some (Text v) /\ exists c, c ∈ v /\ is_whitespace c = false.

(** The installer is: by its first variable that is not empty. *)
Definition unset_or_empty (key : string) : Prop :=
  shell_vars key = None \/ shell_vars key = Some (Text []) \/ shell_vars key = Some (NotUnicode []).
Definition installer_sent (u : OsString) : Prop :=
  u <> Text [] /\ u <> NotUnicode [] /\
  (shell_vars "OXPULSE_AWG_CONF_LOCK_PATH" = Some u \/
   unset_or_empty "OXPULSE_AWG_CONF_LOCK_PATH" /\ shell_vars "AWG_CONF_LOCK_PATH" = Some u).

Lemma config_lock c :
  load_config (env_var agent_vars) read_file humantime = Ok c ->
  awg_conf_path c = env_or (env_var agent_vars) "OXPULSE_AWG_CONF_PATH" DEFAULT_CONF_PATH /\
  awg_conf_lock_path c = lock_path (env_var agent_vars) (awg_conf_path c).
Proof.
  unfold load_config. destruct (require_env _ _) as [central|]; [cbn [rbind]|done].
  destruct (require_env _ _) as [node|]; [cbn [rbind]|done].
  destruct (check_token _ _) as [[]|]; [cbn [rbind]|done].
  destruct (parse_duration _ _) as [interval|]; [cbn [rbind]|done].
  destruct (parse_duration _ _) as [timeout|]; [cbn [rbind]|done]. by intros [= <-].
Qed.

Lemma trim_visible v c : c ∈ v -> is_whitespace c = false -> trim v <> [].
Proof.
  intros Hc Hw Ht%trim_blank. rewrite Forall_forall in Ht. specialize (Ht c Hc). simpl in Ht. congruence.
Qed.

Lemma blank_trim v : ~ (exists c, c ∈ v /\ is_whitespace c = false) -> trim v = [].
Proof.
  intros Hn. assert (Forall (fun c => is_whitespace c = true) v) as Hv.
  { apply Forall_forall. intros c Hc. destruct (is_whitespace c) eqn:Hw; [done|]. destruct Hn. by exists c. }
  assert (drop_while is_whitespace v = []) as Hd.
  { clear Hn. induction Hv as [|c v Hc _ IH]; [done|]. cbn. by rewrite Hc. }
  unfold trim. by rewrite Hd.
Qed.

Lemma agent_lock_sent v conf : agent_sent v -> lock_path (env_var agent_vars) conf = v.
Proof.
  intros [Hv (c & Hc & Hw)]. unfold lock_path, env_var. rewrite Hv.
  pose proof (trim_visible v c Hc Hw). by destruct (trim v).
Qed.

Lemma agent_lock_default conf :
  (forall v, ~ agent_sent v) -> lock_path (env_var agent_vars) conf = conf ++ lit ".lock".
Proof.
  intros Hn. unfold lock_path, env_var.
  destruct (agent_vars "OXPULSE_AWG_CONF_LOCK_PATH") as [[v|b]|] eqn:Hv; [|done|done].
  rewrite blank_trim; [done|]. intros He. by apply (Hn v).
Qed.

Lemma shell_var_skip key d : unset_or_empty key -> shell_var shell_vars key d = d.
Proof. unfold shell_var. by intros [->|[->| ->]]. Qed.

Lemma shell_var_take key d u :
  u <> Text [] -> u <> NotUnicode [] -> shell_vars key = Some u -> shell_var shell_vars key d = u.
Proof. unfold shell_var. intros H1 H2 ->. by destruct u as [[]|[]]. Qed.

Lemma installer_lock_sent u : installer_sent u -> installer_lock_path shell_vars = u.
Proof.
  intros (H1 & H2 & [H3|[H3 H4]]); unfold installer_lock_path.
  - by apply shell_var_take.
  - rewrite shell_var_skip by done. by apply shell_var_take.
Qed.

Lemma installer_lock_default :
  (forall u, ~ installer_sent u) ->
  installer_lock_path shell_vars = os_push (installer_conf_path shell_vars) (lit ".lock").
Proof.
  intros Hn.
  assert (forall key, (forall u, u <> Text [] -> u <> NotUnicode [] -> shell_vars key <> Some u) ->
            unset_or_empty key) as Hu.
  { intros key Hk. unfold unset_or_empty. destruct (shell_vars key) as [[[|x s]|[|x b]]|]; auto;
      edestruct Hk; try done; done. }
  assert (unset_or_empty "OXPULSE_AWG_CONF_LOCK_PATH") as H1.
  { apply Hu. intros u Hu1 Hu2 Hu3. apply (Hn u). split_and!; [done|done|by left]. }
  assert (unset_or_empty "AWG_CONF_LOCK_PATH") as H2.
  { apply Hu. intros u Hu1 Hu2 Hu3. apply (Hn u). split_and!; [done|done|by right]. }
  unfold installer_lock_path. by rewrite !shell_var_skip.
Qed.

Lemma os_push_inj o s suffix : os_push o suffix = Text (s ++ suffix) <-> o = Text s.
Proof.
  destruct o as [t|b]; cbn; [|done]. split; [intros [= H]|by intros [= ->]].
  f_equal. by apply app_inv_tail in H.
Qed.

(** C27. When the two writers of awg0.conf, the agent and the installer, lock the
    same file.  Each has an environment of its own.  The agent is sent to a lock
    file by its variable holding Unicode text that is not blank; the installer by
    the same variable of its own shell, or else the legacy alias, holding any
    bytes that are not empty.  If both are sent, they share the lock exactly when they are sent to
    the same path, and whatever their awg0.conf; if neither is, exactly when they
    write the same awg0.conf; if one is, exactly when it is sent to the other's
    default, which is its awg0.conf followed by [.lock].  Without any of these
    variables set, both lock /etc/amnezia/amneziawg/awg0.conf.lock. *)
Theorem shared_lock c :
  load_config (env_var agent_vars) read_file humantime = Ok c ->
  let same := installer_lock_path shell_vars = Text (awg_conf_lock_path c) in
  let installer_conf := installer_conf_path shell_vars in
  (forall v u, agent_sent v -> installer_sent u -> (same <-> u = Text v)) /\
  ((forall v, ~ agent_sent v) -> (forall u, ~ installer_sent u) ->
     (same <-> installer_conf = Text (awg_conf_path c))) /\
  (forall v, agent_sent v -> (forall u, ~ installer_sent u) ->
     (same <-> os_push installer_conf (lit ".lock") = Text v)) /\
  (forall u, (forall v, ~ agent_sent v) -> installer_sent u ->
     (same <-> u = Text (awg_conf_path c ++ lit ".lock"))) /\
  (agent_vars "OXPULSE_AWG_CONF_LOCK_PATH" = None -> agent_vars "OXPULSE_AWG_CONF_PATH" = None ->
   shell_vars "OXPULSE_AWG_CONF_LOCK_PATH" = None -> shell_vars "AWG_CONF_LOCK_PATH" = None ->
   shell_vars "AWG_CONF_DIR" = None ->
     same /\ awg_conf_lock_path c = lit "/etc/amnezia/amneziawg/awg0.conf.lock").
Proof.
  intros [Hconf Hlock]%config_lock. cbv zeta. rewrite Hlock. split_and!.
  - intros v u Ha Hi. rewrite (agent_lock_sent v), (installer_lock_sent u) by done. done.
  - intros Ha Hi. rewrite agent_lock_default, installer_lock_default by done. apply os_push_inj.
  - intros v Ha Hi. rewrite (agent_lock_sent v), installer_lock_default by done. done.
  - intros u Ha Hi. rewrite agent_lock_default, (installer_lock_sent u) by done. done.
  - intros H1 H2 H3 H4 H5. rewrite Hconf. unfold installer_lock_path, installer_conf_path, shell_var, lock_path, env_or, env_var.
    rewrite H1, H2, H3, H4, H5. split; reflexivity.
Qed.
End writers.

(** A bad lock timeout is reported as a bad poll interval. *)
Definition demo_env (key : string) : option str :=
  if bool_decide (key = "OXPULSE_AWG_LOCK_TIMEOUT") then Some (lit "soon")
  else if bool_decide (key = "OXPULSE_CENTRAL_URL") then Some (lit "https://c")
  else if bool_decide (key = "OXPULSE_NODE_ID") then Some (lit "n1") else None.
Definition demo_humantime (s : str) : option Z :=
  if bool_decide (s = lit "30s") then Some 30000000000
  else if bool_decide (s = lit "10s") then Some 10000000000 else None.

Example lock_timeout_misreported :
  load_config demo_env (fun _ => Some (lit "tok")) demo_humantime = Err (InvalidPollInterval (lit "soon")) /\
  demo_env "OXPULSE_POLL_INTERVAL" = None.
Proof. split; reflexivity. Qed.

(** The variable is set for the agent alone. *)
Definition lock_vars (key : string) : option OsString :=
  if bool_decide (key = "OXPULSE_AWG_CONF_LOCK_PATH") then Some (Text (lit "/run/awg.lock"))
  else if bool_decide (key = "OXPULSE_CENTRAL_URL") then Some (Text (lit "https://c"))
  else if bool_decide (key = "OXPULSE_NODE_ID") then Some (Text (lit "n1")) else None.

Lemma shared_lock_witness :
  exists c, load_config (env_var lock_vars) (fun _ => Some (lit "tok")) demo_humantime = Ok c /\
    installer_lock_path lock_vars = Text (awg_conf_lock_path c) /\
    installer_lock_path (fun _ => None) <> Text (awg_conf_lock_path c).
Proof.
  eexists. split; [reflexivity|]. split.
  - apply (shared_lock lock_vars lock_vars (fun _ => Some (lit "tok")) demo_humantime _ eq_refl)
      with (v := lit "/run/awg.lock") (u := Text (lit "/run/awg.lock")); [| |reflexivity].
    + split; [reflexivity|]. exists 47. split; [left|reflexivity].
    + split_and!; [discriminate|discriminate|by left].
  - intros H. apply (shared_lock lock_vars (fun _ => None) (fun _ => Some (lit "tok")) demo_humantime _ eq_refl)
      with (v := lit "/run/awg.lock") in H; [discriminate H| |].
    + split; [reflexivity|]. exists 47. split; [left|reflexivity].
    + intros u (_ & _ & [Hu|[_ Hu]]); discriminate Hu.
Defined.
