(* ===== verification/PartnerKeys.v ===== *)
(** * Keys and tokens of a partner edge
      (crates/partner-cli/src/commands.rs, crates/opec/src/secrets/x25519.rs)

    The URL-safe base64 codec both crates carry, the check of a registered
    public key, the formats of bootstrap and service tokens, and the window of
    a token's validity.  Random bytes are arguments. *)

From Stdlib Require Import ZArith Lia.
From stdpp Require Import base option numbers strings list.
From S2P Require Import Prelude RustStr.

(** ** The codec *)

Definition CHARS : str := lit "ABCDEFGHIJKLMNOPQRSTUVWXYZabcdefghijklmnopqrstuvwxyz0123456789-_".

(** [CHARS[i] as char]; an index of the alphabet is always in range. *)
Definition char_at (i : Z) : Z := nth (Z.to_nat i) CHARS 0.

(** One chunk of one to three bytes. *)
Definition encode_chunk (chunk : list Z) : str :=
  let b0 := nth 0 chunk 0 in
  let b1 := if (1 <? length chunk)%nat then nth 1 chunk 0 else 0 in
  let b2 := if (2 <? length chunk)%nat then nth 2 chunk 0 else 0 in
  [char_at (Z.shiftr b0 2); char_at (Z.lor (Z.shiftl (Z.land b0 3) 4) (Z.shiftr b1 4))] ++
  (if (1 <? length chunk)%nat
   then [char_at (Z.lor (Z.shiftl (Z.land b1 15) 2) (Z.shiftr b2 6))] else []) ++
  (if (2 <? length chunk)%nat then [char_at (Z.land b2 63)] else []).

(** [bytes.chunks(3)]. *)
Fixpoint chunks3 (bytes : list Z) : list (list Z) :=
  match bytes with
  | [] => []
  | b0 :: b1 :: b2 :: rest => [b0; b1; b2] :: chunks3 rest
  | short => [short]
  end.

Definition base64_url_encode (bytes : list Z) : str := chunks3 bytes ≫= encode_chunk.

(** [CHARS.iter().position(|&b| b == c)]. *)
Fixpoint position (c : Z) (l : list Z) : option Z :=
  match l with
  | [] => None
  | x :: l' => if x =? c then Some 0 else Z.succ <$> position c l'
  end.

(** The loop of [base64_url_decode]: the accumulator keeps its width. *)
Fixpoint decode_loop (s : list Z) (bits bit_count : Z) (out : list Z) : result (list Z) Z :=
  match s with
  | [] => Ok out
  | c :: s' =>
      match position c CHARS with
      | None => Err c
      | Some val =>
          let bits := Z.lor (wrap_u32 (Z.shiftl bits 6)) val in
          let bit_count := bit_count + 6 in
          if 8 <=? bit_count
          then decode_loop s' bits (bit_count - 8)
                 (out ++ [wrap_u8 (Z.shiftr bits (bit_count - 8))])
          else decode_loop s' bits bit_count out
      end
  end.

Definition base64_url_decode (s : str) : result (list Z) Z := decode_loop (as_bytes s) 0 0 [].

(** ** Public keys *)

Inductive PubkeyError := BadLength (got : Z) | BadCharacter | BadBase64 (c : Z) | BadDecodedLength.

Definition is_b64url_char (c : Z) : bool :=
  is_ascii_digit c || ((65 <=? c) && (c <=? 90)) || ((97 <=? c) && (c <=? 122)) ||
  (c =? 45) || (c =? 95).

Definition validate_pubkey (pubkey : str) : result (list Z) PubkeyError :=
  if negb (len (as_bytes pubkey) =? 43) then Err (BadLength (len (as_bytes pubkey)))
  else if negb (forallb is_b64url_char pubkey) then Err BadCharacter
  else match base64_url_decode pubkey with
       | Err c => Err (BadBase64 c)
       | Ok bytes => if len bytes =? 32 then Ok bytes else Err BadDecodedLength
       end.

(** ** Tokens *)

Definition HEX : str := lit "0123456789abcdef".
Definition hex_byte (b : Z) : str := [nth (Z.to_nat (b / 16)) HEX 0; nth (Z.to_nat (b mod 16)) HEX 0].

Definition generate_raw_token (buf : list Z) : str := lit "ptkn_" ++ (buf ≫= hex_byte).
Definition generate_service_token (buf : list Z) : str := lit "stkn_" ++ base64_url_encode buf.

(** [keygen_x25519]: the two halves of the pair, encoded. *)
Definition keygen_x25519 (secret public : list Z) : str * str :=
  (base64_url_encode secret, base64_url_encode public).

(** ** The alphabet *)

Definition byte_ok (b : Z) : Prop := 0 <= b < 256.
Definition sextet (v : Z) : Prop := 0 <= v < 64.

Lemma position_char_at v : sextet v -> position (char_at v) CHARS = Some v.
Proof.
  intros Hv. assert (forallb (fun k => bool_decide (position (char_at (Z.of_nat k)) CHARS =
    Some (Z.of_nat k))) (seq 0 64) = true) as Hall by (vm_compute; reflexivity).
  rewrite forallb_forall in Hall. specialize (Hall (Z.to_nat v)). rewrite in_seq in Hall.
  unfold sextet in Hv. rewrite Z2Nat.id in Hall by lia.
  by apply bool_decide_eq_true in Hall; [|lia].
Qed.

Lemma position_Some c l v : position c l = Some v -> 0 <= v < Z.of_nat (length l) /\ c ∈ l.
Proof.
  revert v. induction l as [|x l IH]; intros v; cbn [position length]; [done|].
  destruct (Z.eqb_spec x c) as [->|_]; [intros [= <-]; split; [lia | left]|].
  destruct (position c l) as [w|]; [|done]. intros [= <-]. destruct (IH w eq_refl).
  split; [lia | by right].
Qed.

Lemma position_elem c l : c ∈ l -> is_Some (position c l).
Proof.
  induction l as [|x l IH]; [by intros ?%elem_of_nil|]. intros [->|H]%elem_of_cons; cbn [position].
  - rewrite Z.eqb_refl. by eexists.
  - destruct (x =? c); [by eexists|]. destruct (IH H) as [v ->]. by eexists.
Qed.

(** The characters the key check admits are the codec's alphabet. *)
Lemma b64url_char_alphabet c : is_b64url_char c = true <-> c ∈ CHARS.
Proof.
  split.
  - intros H. assert (forallb (fun k => implb (is_b64url_char (Z.of_nat k))
      (bool_decide (Z.of_nat k ∈ CHARS))) (seq 0 128) = true) as Hall by (vm_compute; reflexivity).
    rewrite forallb_forall in Hall. assert (0 <= c < 128) as Hc.
    { unfold is_b64url_char, is_ascii_digit in H.
      repeat first [apply orb_true_iff in H as [H|H] | apply andb_true_iff in H as [? ?]]; lia. }
    specialize (Hall (Z.to_nat c)). rewrite in_seq, Z2Nat.id in Hall by lia.
    specialize (Hall ltac:(lia)). rewrite H in Hall. by apply bool_decide_eq_true in Hall.
  - intros H. assert (forallb is_b64url_char CHARS = true) as Hall by (vm_compute; reflexivity).
    rewrite forallb_forall in Hall. by apply Hall, list_elem_of_In.
Qed.

Lemma alphabet_ascii c : c ∈ CHARS -> c < 128.
Proof.
  intros H. assert (forallb (fun c => c <? 128) CHARS = true) as Hall by (vm_compute; reflexivity).
  rewrite forallb_forall in Hall. apply list_elem_of_In, Hall in H. lia.
Qed.

Lemma char_at_alphabet v : sextet v -> char_at v ∈ CHARS.
Proof. intros Hv. by apply position_char_at, position_Some in Hv as [_ ?]. Qed.

Lemma as_bytes_ascii s : Forall (fun c => c < 128) s -> as_bytes s = s.
Proof.
  induction 1 as [|c s Hc Hs IH]; [done|].
  change (as_bytes (c :: s)) with (utf8_char c ++ as_bytes s). rewrite IH. unfold utf8_char.
  by destruct (Z.ltb_spec c 128); [|lia].
Qed.

Lemma as_bytes_alphabet s : Forall (fun c => c ∈ CHARS) s -> as_bytes s = s.
Proof. intros H. apply as_bytes_ascii. eapply Forall_impl; [exact H | apply alphabet_ascii]. Qed.

(** ** Sextets *)

(** The sextets of a chunk, as numbers. *)
Definition sextets (chunk : list Z) : list Z :=
  match chunk with
  | [b0] => [b0 / 4; b0 mod 4 * 16]
  | [b0; b1] => [b0 / 4; b0 mod 4 * 16 + b1 / 16; b1 mod 16 * 4]
  | [b0; b1; b2] => [b0 / 4; b0 mod 4 * 16 + b1 / 16; b1 mod 16 * 4 + b2 / 64; b2 mod 64]
  | _ => []
  end.

Lemma land_low x n : 0 <= n -> Z.land x (2 ^ n - 1) = x mod 2 ^ n.
Proof. intros Hn. rewrite <- Z.land_ones by done. by rewrite Z.ones_equiv, Z.sub_1_r. Qed.

Lemma encode_chunk_sextets chunk :
  Forall byte_ok chunk -> (1 <= length chunk <= 3)%nat ->
  encode_chunk chunk = char_at <$> sextets chunk.
Proof.
  intros Hb Hl. unfold encode_chunk.
  assert (forall b k, 0 <= k -> Z.shiftr b k = b / 2 ^ k) as Hsr by (intros; by apply Z.shiftr_div_pow2).
  rewrite !Hsr by lia. change 3 with (2 ^ 2 - 1). change 15 with (2 ^ 4 - 1). change 63 with (2 ^ 6 - 1).
  rewrite !land_low by lia.
  destruct chunk as [|b0 [|b1 [|b2 [|]]]]; cbn [length] in Hl; try lia;
    rewrite !Forall_cons in Hb; unfold byte_ok in Hb; cbn [nth length Nat.ltb Nat.leb];
    cbn [sextets fmap list_fmap app]; repeat f_equal;
    rewrite lor_shiftl_add by (lia || Z.div_mod_to_equations; lia); Z.div_mod_to_equations; lia.
Qed.

Lemma sextets_ok chunk : Forall byte_ok chunk -> Forall sextet (sextets chunk).
Proof.
  intros Hb. unfold sextet. destruct chunk as [|b0 [|b1 [|b2 [|]]]]; cbn [sextets];
    rewrite ?Forall_cons in Hb; unfold byte_ok in Hb; repeat constructor;
    Z.div_mod_to_equations; lia.
Qed.

(** One character in state [(bits, bit_count)], in arithmetic. *)
Lemma decode_step v s bits bc out :
  sextet v -> 0 <= bits < 2 ^ 32 -> 0 <= bc ->
  decode_loop (char_at v :: s) bits bc out =
  let bits' := bits * 64 mod 2 ^ 32 + v in
  if 2 <=? bc then decode_loop s bits' (bc - 2) (out ++ [bits' / 2 ^ (bc - 2) mod 256])
  else decode_loop s bits' (bc + 6) out.
Proof.
  intros Hv Hb Hc. cbn [decode_loop]. rewrite position_char_at by done. cbv zeta.
  assert (Z.lor (wrap_u32 (Z.shiftl bits 6)) v = bits * 64 mod 2 ^ 32 + v) as ->.
  { unfold wrap_u32. rewrite Z.shiftl_mul_pow2 by lia. change (2 ^ 6) with 64.
    replace (bits * 64 mod 4294967296) with (Z.shiftl (bits mod 67108864) 6).
    - rewrite lor_shiftl_add by (unfold sextet in Hv; lia).
      change (2 ^ 6) with 64. change (2 ^ 32) with 4294967296. Z.div_mod_to_equations; lia.
    - rewrite Z.shiftl_mul_pow2 by lia. change (2 ^ 6) with 64. Z.div_mod_to_equations; lia. }
  destruct (Z.leb_spec 8 (bc + 6)), (Z.leb_spec 2 bc); try lia; [|done].
  replace (bc + 6 - 8) with (bc - 2) by lia. unfold wrap_u8. by rewrite Z.shiftr_div_pow2 by lia.
Qed.

(** An accumulator whose last sextet is [v]. *)
Definition holds_last (v bits : Z) : Prop := 0 <= bits < 2 ^ 32 /\ bits mod 64 = v.

Lemma holds_last_next v bits : sextet v -> 0 <= bits < 2 ^ 32 -> holds_last v (bits * 64 mod 2 ^ 32 + v).
Proof.
  unfold sextet, holds_last. change (2 ^ 32) with 4294967296. intros Hv Hb.
  replace (bits * 64 mod 4294967296) with (bits mod 67108864 * 64) by (Z.div_mod_to_equations; lia).
  split; [Z.div_mod_to_equations; lia|]. by rewrite Z.add_comm, Z.mod_add, Z.mod_small.
Qed.

(** At a byte boundary a character is only kept. *)
Lemma decode_first v s bits out :
  sextet v -> 0 <= bits < 2 ^ 32 ->
  exists bits', holds_last v bits' /\
    decode_loop (char_at v :: s) bits 0 out = decode_loop s bits' 6 out.
Proof.
  intros Hv Hb. eexists. split; [by apply holds_last_next|]. by rewrite decode_step.
Qed.

(** Elsewhere it completes a byte, of itself and the character before. *)
Lemma decode_next u v s bits bc k out :
  sextet v -> holds_last u bits -> bc = k + 2 -> k = 0 \/ k = 2 \/ k = 4 ->
  exists bits', holds_last v bits' /\
    decode_loop (char_at v :: s) bits bc out =
    decode_loop s bits' k (out ++ [(u * 64 + v) / 2 ^ k mod 256]).
Proof.
  intros Hv [Hb Hu] -> Hk. eexists. split; [by apply holds_last_next|].
  rewrite decode_step by (done || lia). cbv zeta. replace (k + 2 - 2) with k by lia.
  destruct (Z.leb_spec 2 (k + 2)); [|lia]. do 3 f_equal.
  assert (bits * 64 mod 2 ^ 32 + v = u * 64 + v + 4096 * (bits / 64 mod 1048576)) as ->.
  { change (2 ^ 32) with 4294967296. Z.div_mod_to_equations; lia. }
  generalize (bits / 64 mod 1048576). intros r. destruct Hk as [->|[->| ->]].
  - change (2 ^ 0) with 1. rewrite !Z.div_1_r. replace (4096 * r) with (16 * r * 256) by lia.
    by rewrite Z.mod_add.
  - change (2 ^ 2) with 4. replace (4096 * r) with (4 * r * 256 * 4) by lia.
    by rewrite Z.div_add, Z.mod_add.
  - change (2 ^ 4) with 16. replace (4096 * r) with (r * 256 * 16) by lia.
    by rewrite Z.div_add, Z.mod_add.
Qed.

(** Run the decoder over the next character of the goal, whose sextet is
    known to be one by [H]; [L] tells what the accumulator holds. *)
Ltac first_char H Hb L :=
  let x := fresh "x" in let E := fresh in
  match goal with |- context [decode_loop (char_at ?v :: ?s) ?bits 0 ?out] =>
    destruct (decode_first v s bits out H Hb) as (x & L & E); rewrite E; clear E end.
Ltac next_char H k L L' :=
  let x := fresh "x" in let E := fresh in
  match goal with |- context [decode_loop (char_at ?v :: ?s) ?bits ?bc ?out] =>
    destruct (decode_next _ v s bits bc k out H L eq_refl ltac:(auto)) as (x & L' & E);
    rewrite E; clear E end.

(** A chunk at a byte boundary, whatever the accumulator still holds. *)
Lemma decode_chunk chunk s bits out :
  Forall byte_ok chunk -> (1 <= length chunk <= 3)%nat -> length chunk = 3%nat \/ s = [] ->
  0 <= bits < 2 ^ 32 ->
  exists bits', 0 <= bits' < 2 ^ 32 /\
    decode_loop ((char_at <$> sextets chunk) ++ s) bits 0 out = decode_loop s bits' 0 (out ++ chunk).
Proof.
  intros Hb Hl Hs Hbits. pose proof (sextets_ok _ Hb) as Hx.
  destruct chunk as [|b0 [|b1 [|b2 [|]]]]; cbn [length] in *; try lia; rewrite !Forall_cons in Hb;
    unfold byte_ok in Hb; cbn [sextets fmap list_fmap app] in *; rewrite !Forall_cons in Hx.
  - destruct Hs as [| ->]; [done|]. destruct Hx as (H0 & H1 & _).
    first_char H0 Hbits L0. next_char H1 4 L0 L1.
    exists bits. split; [done|]. cbn [decode_loop]. change (2 ^ 4) with 16. do 3 f_equal.
    Z.div_mod_to_equations; lia.
  - destruct Hs as [| ->]; [done|]. destruct Hx as (H0 & H1 & H2 & _).
    first_char H0 Hbits L0. next_char H1 4 L0 L1. next_char H2 2 L1 L2.
    exists bits. split; [done|]. cbn [decode_loop]. change (2 ^ 4) with 16. change (2 ^ 2) with 4.
    rewrite <- (assoc_L (++)). cbn [app]. do 2 f_equal. f_equal; [|f_equal]; Z.div_mod_to_equations; lia.
  - destruct Hx as (H0 & H1 & H2 & H3 & _).
    first_char H0 Hbits L0. next_char H1 4 L0 L1. next_char H2 2 L1 L2. next_char H3 0 L2 L3.
    eexists. split; [apply L3|]. change (2 ^ 4) with 16. change (2 ^ 2) with 4. change (2 ^ 0) with 1.
    rewrite <- !(assoc_L (++)). cbn [app]. do 2 f_equal. f_equal; [|f_equal; [|f_equal]];
      Z.div_mod_to_equations; lia.
Qed.

(** ** Round trips *)

Lemma chunks3_spec bytes :
  Forall byte_ok bytes ->
  Forall (fun c => Forall byte_ok c /\ (1 <= length c <= 3)%nat) (chunks3 bytes) /\
  concat (chunks3 bytes) = bytes.
Proof.
  remember (length bytes) as n eqn:Hn. revert bytes Hn.
  induction (lt_wf n) as [n _ IH]. intros bytes -> Hb.
  destruct bytes as [|b0 [|b1 [|b2 rest]]]; cbn [chunks3 concat app length].
  - by split.
  - split; [|done]. constructor; [split; [done | cbn; lia] | constructor].
  - split; [|done]. constructor; [split; [done | cbn; lia] | constructor].
  - assert (Forall byte_ok [b0; b1; b2] /\ Forall byte_ok rest) as [H3 Hr]
      by (rewrite <- Forall_app; exact Hb).
    destruct (IH (length rest) ltac:(cbn [length]; lia) rest eq_refl Hr) as [IH1 ->].
    split; [|done]. constructor; [|done]. cbn [length]. split; [done | lia].
Qed.

(** Decoding at a byte boundary undoes encoding, whatever was there before. *)
Lemma decode_encode bytes bits out :
  Forall byte_ok bytes -> 0 <= bits < 2 ^ 32 ->
  decode_loop (base64_url_encode bytes) bits 0 out = Ok (out ++ bytes).
Proof.
  remember (length bytes) as n eqn:Hn. revert bytes bits out Hn.
  induction (lt_wf n) as [n _ IH]. intros bytes bits out -> Hb Hbits. unfold base64_url_encode.
  assert (forall c, Forall byte_ok c -> (1 <= length c <= 3)%nat -> chunks3 c = [c] ->
    decode_loop (chunks3 c ≫= encode_chunk) bits 0 out = Ok (out ++ c)) as Hlast.
  { intros c Hc Hl ->. rewrite bind_cons, encode_chunk_sextets by done.
    destruct (decode_chunk c [] bits out Hc Hl ltac:(by right) Hbits) as (x & _ & E).
    etrans; [exact E | done]. }
  destruct bytes as [|b0 [|b1 [|b2 rest]]]; [by rewrite app_nil_r | by apply Hlast; [|cbn; lia|] ..|].
  assert (Forall byte_ok [b0; b1; b2] /\ Forall byte_ok rest) as [H3 Hr]
    by (rewrite <- Forall_app; exact Hb).
  change (chunks3 (b0 :: b1 :: b2 :: rest)) with ([b0; b1; b2] :: chunks3 rest).
  rewrite bind_cons, encode_chunk_sextets by (done || cbn; lia).
  destruct (decode_chunk _ (base64_url_encode rest) bits out H3 ltac:(cbn; lia) ltac:(by left) Hbits)
    as (x & Hx & E). unfold base64_url_encode in E. rewrite E.
  fold (base64_url_encode rest). rewrite (IH (length rest) ltac:(cbn [length]; lia) rest x _ eq_refl Hr Hx).
  by rewrite <- (assoc_L (++)).
Qed.

Lemma encode_alphabet bytes : Forall byte_ok bytes -> Forall (fun c => c ∈ CHARS) (base64_url_encode bytes).
Proof.
  intros Hb. apply chunks3_spec in Hb as [Hc _]. unfold base64_url_encode.
  apply Forall_bind. eapply Forall_impl; [exact Hc|]. intros c [Hb Hl].
  unfold compose. rewrite encode_chunk_sextets by done. apply Forall_fmap.
  eapply Forall_impl; [by apply sextets_ok | intros v Hv; by apply char_at_alphabet].
Qed.

Lemma encode_length bytes : Z.of_nat (length (base64_url_encode bytes)) = (4 * len bytes + 2) / 3.
Proof.
  unfold len. remember (length bytes) as n eqn:Hn. revert bytes Hn.
  induction (lt_wf n) as [n _ IH]. intros bytes ->.
  destruct bytes as [|b0 [|b1 [|b2 rest]]]; [done..|].
  unfold base64_url_encode. change (chunks3 (b0 :: b1 :: b2 :: rest)) with ([b0; b1; b2] :: chunks3 rest).
  rewrite bind_cons, length_app. fold (base64_url_encode rest).
  specialize (IH (length rest) ltac:(cbn [length]; lia) rest eq_refl).
  change (length (encode_chunk [b0; b1; b2])) with 4%nat. cbn [length]. rewrite Nat2Z.inj_add, IH.
  Z.div_mod_to_equations; lia.
Qed.

(** Characters of the alphabet always decode, six bits each. *)
Lemma decode_total s bits bc out :
  Forall (fun c => c ∈ CHARS) s -> 0 <= bc < 8 -> Forall byte_ok out ->
  exists out', decode_loop s bits bc out = Ok out' /\ Forall byte_ok out' /\
    len out' = len out + (bc + 6 * len s) / 8.
Proof.
  intros Hs. revert bits bc out. unfold len.
  induction Hs as [|c s Hc Hs IH]; intros bits bc out Hbc Ho; cbn [decode_loop].
  { exists out. split_and!; [done | done|]. cbn [length]. Z.div_mod_to_equations; lia. }
  apply position_elem in Hc as [v ->]. cbv zeta. destruct (Z.leb_spec 8 (bc + 6)).
  - match goal with |- context [decode_loop s ?x ?y ?o] =>
      destruct (IH x y o ltac:(lia)) as (out' & -> & Ho' & Hl) end.
    + apply Forall_app. split; [done|]. constructor; [|done]. pose proof (wrap_u8_range).
      unfold byte_ok, u8_max in *. match goal with |- context [wrap_u8 ?z] => specialize (H0 z) end. lia.
    + exists out'. split_and!; [done | done|]. rewrite Hl, length_app. cbn [length].
      Z.div_mod_to_equations; lia.
  - match goal with |- context [decode_loop s ?x ?y ?o] =>
      destruct (IH x y o ltac:(lia) Ho) as (out' & -> & Ho' & Hl) end.
    exists out'. split_and!; [done | done|]. rewrite Hl. cbn [length]. Z.div_mod_to_equations; lia.
Qed.

Lemma all_alphabet s : forallb is_b64url_char s = true <-> Forall (fun c => c ∈ CHARS) s.
Proof.
  rewrite forallb_forall, Forall_forall. split; intros H c Hc.
  - by apply b64url_char_alphabet, H, list_elem_of_In.
  - by apply b64url_char_alphabet, H, list_elem_of_In.
Qed.

(** What the check comes down to on text of the right length and alphabet. *)
Lemma validate_decodes s :
  length s = 43%nat -> Forall (fun c => c ∈ CHARS) s ->
  exists key, decode_loop s 0 0 [] = Ok key /\ validate_pubkey s = Ok key /\
    length key = 32%nat /\ Forall byte_ok key.
Proof.
  intros Hl Ha. destruct (decode_total s 0 0 [] Ha ltac:(lia) ltac:(done)) as (key & E & Hk & Hlen).
  unfold len in Hlen. rewrite Hl in Hlen. change (Z.of_nat (length []) + (0 + 6 * Z.of_nat 43) / 8) with 32 in Hlen.
  exists key. split_and!; [done | | lia | done].
  unfold validate_pubkey, base64_url_decode, len. rewrite as_bytes_alphabet, Hl, E by done.
  rewrite (proj2 (all_alphabet s) Ha). cbn [negb]. change (Z.of_nat 43 =? 43) with true. cbn [negb].
  by rewrite Hlen.
Qed.

Lemma validate_Ok s key :
  validate_pubkey s = Ok key -> length s = 43%nat /\ Forall (fun c => c ∈ CHARS) s.
Proof.
  unfold validate_pubkey, len. destruct (Z.eqb_spec (Z.of_nat (length (as_bytes s))) 43) as [Hl|]; [|done].
  cbn [negb]. destruct (forallb is_b64url_char s) eqn:Ha; [|done]. intros _.
  apply all_alphabet in Ha. rewrite as_bytes_alphabet in Hl by done. split; [lia | done].
Qed.

(** The key codec: every 32-byte key that is encoded is 43 characters of
    the URL-safe alphabet and is read back, by the check that guards
    registration, as exactly that key; the check accepts nothing but 43
    characters of the alphabet and never fails later, so a length or a
    character is the only reason for a refusal. *)
Theorem pubkey_codec :
  (forall key, Forall byte_ok key -> length key = 32%nat ->
     length (base64_url_encode key) = 43%nat /\ validate_pubkey (base64_url_encode key) = Ok key) /\
  (forall s, is_ok (validate_pubkey s) = true <->
     length s = 43%nat /\ forallb is_b64url_char s = true) /\
  (forall s key, validate_pubkey s = Ok key -> length key = 32%nat /\ Forall byte_ok key) /\
  (forall s e, validate_pubkey s = Err e ->
     e = BadLength (len (as_bytes s)) /\ len (as_bytes s) <> 43 \/ e = BadCharacter).
Proof.
  split_and!.
  - intros key Hk Hl. pose proof (encode_length key) as He. unfold len in He. rewrite Hl in He.
    change ((4 * Z.of_nat 32 + 2) / 3) with 43 in He. split; [lia|].
    destruct (validate_decodes (base64_url_encode key) ltac:(lia) ltac:(by apply encode_alphabet))
      as (key' & E & -> & _). rewrite decode_encode in E by (done || lia). by injection E as <-.
  - intros s. split.
    + destruct (validate_pubkey s) as [key|] eqn:E; [|done]. intros _.
      by apply validate_Ok in E as [? ?%all_alphabet].
    + intros [Hl Ha%all_alphabet].
      by destruct (validate_decodes s Hl Ha) as (key & _ & -> & _).
  - intros s key E. pose proof (validate_Ok _ _ E) as [Hl Ha].
    destruct (validate_decodes s Hl Ha) as (key' & _ & E' & H1 & H2). rewrite E in E'.
    by injection E' as <-.
  - intros s e E. destruct (decide (len (as_bytes s) = 43)) as [Hl|Hne].
    + right. unfold validate_pubkey in E. rewrite Hl in E. change (43 =? 43) with true in E. cbn [negb] in E.
      destruct (forallb is_b64url_char s) eqn:Ha; [|by injection E as <-].
      apply all_alphabet in Ha. unfold len in Hl. rewrite as_bytes_alphabet in Hl by done.
      destruct (validate_decodes s ltac:(lia) Ha) as (key & Ed & _ & Hk & _).
      cbn [negb] in E. unfold base64_url_decode in E. rewrite as_bytes_alphabet, Ed in E by done.
      unfold len in E. by rewrite Hk in E.
    + left. unfold validate_pubkey in E. destruct (Z.eqb_spec (len (as_bytes s)) 43); [done|].
      cbn [negb] in E. by injection E as <-.
Qed.

(** Two texts of one key: the last character's two spare bits are not checked. *)
Example key_alias :
  let zero := base64_url_encode (replicate 32 0) in
  let alias := removelast zero ++ lit "B" in
  alias <> zero /\ validate_pubkey alias = validate_pubkey zero.
Proof. split; [discriminate | vm_compute; reflexivity]. Qed.

(** ** Tokens *)

Lemma hex_byte_length b : length (hex_byte b) = 2%nat.
Proof. done. Qed.

(** The two kinds of token differ in their prefix, and have one length each. *)
Lemma token_formats buf :
  length buf = 32%nat ->
  length (generate_raw_token buf) = 69%nat /\ length (generate_service_token buf) = 48%nat /\
  strip_prefix (lit "stkn_") (generate_service_token buf) = Some (base64_url_encode buf) /\
  strip_prefix (lit "stkn_") (generate_raw_token buf) = None.
Proof.
  intros Hl. unfold generate_raw_token, generate_service_token. split_and!.
  - rewrite length_app. assert (length (buf ≫= hex_byte) = (2 * length buf)%nat) as ->; [|by rewrite Hl].
    clear Hl. induction buf as [|b buf IH]; [done|]. rewrite bind_cons, length_app, IH. cbn [length hex_byte]. lia.
  - rewrite length_app. pose proof (encode_length buf) as He. unfold len in He. rewrite Hl in He.
    change ((4 * Z.of_nat 32 + 2) / 3) with 43 in He. cbn [length lit]. cbn. lia.
  - done.
  - done.
Qed.
