(* ===== verification/Regex.v ===== *)
(** * Anchored regular expressions

    The patterns the repository compiles with the crate [regex] are anchored at
    both ends, so what [is_match] answers depends only on the language of the
    pattern.  [Matcher] is that interface: an operation and the documented law
    that it decides the language.  [deriv_matcher] is an instance, by
    derivatives, on which the theorems that assume the interface are
    evaluated. *)

From Stdlib Require Import ZArith Lia.
From stdpp Require Import base option numbers strings list.
From S2P Require Import Prelude RustStr.

(** ** Syntax *)

(** A character class is a list of inclusive ranges. *)
Definition cls := list (Z * Z).

Inductive regex :=
| Void
| Empty
| Class (k : cls)
| Seq (a b : regex)
| Alt (a b : regex)
| Star (a : regex).

Definition in_cls (k : cls) (c : Z) : bool := existsb (fun '(lo, hi) => (lo <=? c) && (c <=? hi)) k.

Definition Opt (a : regex) : regex := Alt Empty a.
Definition Plus (a : regex) : regex := Seq a (Star a).

(** [a{n}], [a{n,}] and [a{n,m}]. *)
Fixpoint Times (n : nat) (a : regex) : regex :=
  match n with O => Empty | S n' => Seq a (Times n' a) end.
Fixpoint UpTo (n : nat) (a : regex) : regex :=
  match n with O => Empty | S n' => Opt (Seq a (UpTo n' a)) end.
Definition AtLeast (n : nat) (a : regex) : regex := Seq (Times n a) (Star a).
Definition Between (n m : nat) (a : regex) : regex := Seq (Times n a) (UpTo (m - n) a).

(** ** Language *)

Inductive lang : regex -> str -> Prop :=
| lang_empty : lang Empty []
| lang_class k c : in_cls k c = true -> lang (Class k) [c]
| lang_seq a b s t : lang a s -> lang b t -> lang (Seq a b) (s ++ t)
| lang_left a b s : lang a s -> lang (Alt a b) s
| lang_right a b s : lang b s -> lang (Alt a b) s
| lang_stop a : lang (Star a) []
| lang_more a s t : lang a s -> lang (Star a) t -> lang (Star a) (s ++ t).

(** The interface: [is_match] of a pattern anchored with [^] and [$]. *)
Class Matcher := {
  is_match : regex -> str -> bool;
  is_match_spec r s : is_match r s = true <-> lang r s;
}.

(** ** Derivatives *)

Fixpoint nullable (r : regex) : bool :=
  match r with
  | Void | Class _ => false
  | Empty | Star _ => true
  | Seq a b => nullable a && nullable b
  | Alt a b => nullable a || nullable b
  end.

Fixpoint deriv (c : Z) (r : regex) : regex :=
  match r with
  | Void | Empty => Void
  | Class k => if in_cls k c then Empty else Void
  | Seq a b => if nullable a then Alt (Seq (deriv c a) b) (deriv c b) else Seq (deriv c a) b
  | Alt a b => Alt (deriv c a) (deriv c b)
  | Star a => Seq (deriv c a) (Star a)
  end.

Fixpoint deriv_match (r : regex) (s : str) : bool :=
  match s with
  | [] => nullable r
  | c :: s' => deriv_match (deriv c r) s'
  end.

Lemma lang_seq_inv a b s : lang (Seq a b) s -> exists u v, s = u ++ v /\ lang a u /\ lang b v.
Proof. inversion 1; subst; eauto. Qed.

Lemma nullable_spec r : nullable r = true <-> lang r [].
Proof.
  induction r as [| |k|a IHa b IHb|a IHa b IHb|a IH]; cbn [nullable].
  - split; [done | inversion 1].
  - split; [constructor | done].
  - split; [done | inversion 1].
  - rewrite andb_true_iff, IHa, IHb. split.
    + intros [Ha Hb]. exact (lang_seq a b [] [] Ha Hb).
    + intros (s & t & Hst & Ha & Hb)%lang_seq_inv. symmetry in Hst. by apply app_eq_nil in Hst as [-> ->].
  - rewrite orb_true_iff, IHa, IHb. split; [intros [?|?]; by constructor | inversion 1; auto].
  - split; [constructor | done].
Qed.

Lemma deriv_spec c r s : lang (deriv c r) s <-> lang r (c :: s).
Proof.
  revert s. induction r as [| |k|a IHa b IHb|a IHa b IHb|a IH]; intros s; cbn [deriv].
  - split; inversion 1.
  - split; inversion 1.
  - destruct (in_cls k c) eqn:E; split; inversion 1; subst; try congruence; by constructor.
  - assert (lang (Seq (deriv c a) b) s <-> exists u t, s = u ++ t /\ lang a (c :: u) /\ lang b t) as Hd.
    { split.
      - intros (u & t & -> & Hu & Ht)%lang_seq_inv. exists u, t. split_and!; [done | by apply IHa | done].
      - intros (u & t & -> & Hu & Ht). constructor; [by apply IHa | done]. }
    assert (lang (Seq a b) (c :: s) <->
      (exists u t, s = u ++ t /\ lang a (c :: u) /\ lang b t) \/ (lang a [] /\ lang b (c :: s))) as Hs.
    { split.
      - intros H. apply lang_seq_inv in H as (u & t & Hut & Hu & Ht). destruct u as [|x u]; cbn in Hut.
        + right. by subst.
        + injection Hut as -> ->. left. by exists u, t.
      - intros [(u & t & -> & Hu & Ht)|[Ha Hb]].
        + exact (lang_seq a b (c :: u) t Hu Ht).
        + exact (lang_seq a b [] (c :: s) Ha Hb). }
    rewrite Hs. destruct (nullable a) eqn:E.
    + split.
      * inversion 1; subst; [left; by apply Hd | right; split; [by apply nullable_spec | by apply IHb]].
      * intros [?|[_ ?]]; [apply lang_left; by apply Hd | apply lang_right; by apply IHb].
    + rewrite Hd. split; [by left|]. intros [?|[H _]]; [done|]. apply nullable_spec in H. congruence.
  - split; inversion 1; subst; [apply lang_left | apply lang_right | apply lang_left | apply lang_right];
      first [by apply IHa | by apply IHb].
  - split.
    + intros (u & t & -> & Hu & Ht)%lang_seq_inv.
      exact (lang_more a (c :: u) t (proj1 (IH u) Hu) Ht).
    + intros H. remember (Star a) as r eqn:Er. remember (c :: s) as w eqn:Ew.
      induction H as [| | | | | |a' u t Hu _ Ht IHt]; try discriminate Er; [discriminate Ew|].
      injection Er as ->. destruct u as [|x u]; [by apply IHt|]. cbn in Ew. injection Ew as -> <-.
      constructor; [by apply IH | done].
Qed.

Lemma deriv_match_spec r s : deriv_match r s = true <-> lang r s.
Proof.
  revert r. induction s as [|c s IH]; intros r; cbn [deriv_match]; [apply nullable_spec|].
  by rewrite IH, deriv_spec.
Qed.

#[export] Instance deriv_matcher : Matcher := {|
  is_match := deriv_match;
  is_match_spec := deriv_match_spec;
|}.

(** ** Languages of the derived forms *)

Lemma lang_Class k s : lang (Class k) s <-> exists c, s = [c] /\ in_cls k c = true.
Proof. split; [inversion 1; eauto | intros (c & -> & ?); by constructor]. Qed.

Lemma lang_Seq a b s : lang (Seq a b) s <-> exists u v, s = u ++ v /\ lang a u /\ lang b v.
Proof. split; [apply lang_seq_inv | intros (u & v & -> & ? & ?); by constructor]. Qed.

Lemma lang_Alt a b s : lang (Alt a b) s <-> lang a s \/ lang b s.
Proof. split; [inversion 1; auto | intros [?|?]; [by apply lang_left | by apply lang_right]]. Qed.

Lemma lang_Empty s : lang Empty s <-> s = [].
Proof. split; [by inversion 1 | intros ->; constructor]. Qed.

Lemma lang_Opt a s : lang (Opt a) s <-> s = [] \/ lang a s.
Proof. unfold Opt. by rewrite lang_Alt, lang_Empty. Qed.

(** Repetitions of a character class. *)
Lemma lang_Star_class k s : lang (Star (Class k)) s <-> Forall (fun c => in_cls k c = true) s.
Proof.
  split.
  - intros H. remember (Star (Class k)) as r eqn:Er.
    induction H as [| | | | | |a u t Hu _ Ht IHt]; try discriminate Er; [constructor|].
    injection Er as ->. apply lang_Class in Hu as (c & -> & Hc). constructor; [done | by apply IHt].
  - induction 1 as [|c s Hc _ IH]; [constructor|].
    apply (lang_more (Class k) [c] s); [by constructor | done].
Qed.

Lemma lang_Times_class n k s :
  lang (Times n (Class k)) s <-> length s = n /\ Forall (fun c => in_cls k c = true) s.
Proof.
  revert s. induction n as [|n IH]; intros s; cbn [Times].
  - rewrite lang_Empty. split; [intros ->; by split | by intros [?%length_zero_iff_nil _]].
  - rewrite lang_Seq. split.
    + intros (u & v & -> & (c & -> & Hc)%lang_Class & [Hl Hv]%IH). cbn. split; [lia | by constructor].
    + intros [Hl Hs]. destruct s as [|c s]; [done|]. apply Forall_cons in Hs as [Hc Hs].
      exists [c], s. split; [done|]. split; [by constructor|]. apply IH. cbn in Hl. split; [lia | done].
Qed.

Lemma lang_UpTo_class n k s :
  lang (UpTo n (Class k)) s <-> (length s <= n)%nat /\ Forall (fun c => in_cls k c = true) s.
Proof.
  revert s. induction n as [|n IH]; intros s; cbn [UpTo].
  - rewrite lang_Empty. split; [intros ->; by split | intros [H _]; destruct s; [done | cbn in H; lia]].
  - rewrite lang_Opt, lang_Seq. split.
    + intros [->|(u & v & -> & (c & -> & Hc)%lang_Class & [Hl Hv]%IH)]; cbn; [split; [lia | done]|].
      split; [lia | by constructor].
    + intros [Hl Hs]. destruct s as [|c s]; [by left|]. right. apply Forall_cons in Hs as [Hc Hs].
      exists [c], s. split; [done|]. split; [by constructor|]. apply IH. cbn in Hl. split; [lia | done].
Qed.

Lemma lang_Between_class n m k s : (n <= m)%nat ->
  lang (Between n m (Class k)) s <->
  (n <= length s <= m)%nat /\ Forall (fun c => in_cls k c = true) s.
Proof.
  intros Hnm. unfold Between. rewrite lang_Seq. split.
  - intros (u & v & -> & [Hu Fu]%lang_Times_class & [Hv Fv]%lang_UpTo_class).
    rewrite length_app, Forall_app. split; [lia | done].
  - intros [Hl Hs]. exists (take n s), (drop n s). rewrite take_drop. split; [done|].
    rewrite lang_Times_class, lang_UpTo_class, length_take, length_drop.
    split_and!; try lia; [by apply Forall_take | by apply Forall_drop].
Qed.

Lemma lang_AtLeast_class n k s :
  lang (AtLeast n (Class k)) s <-> (n <= length s)%nat /\ Forall (fun c => in_cls k c = true) s.
Proof.
  unfold AtLeast. rewrite lang_Seq. split.
  - intros (u & v & -> & [Hu Fu]%lang_Times_class & Fv%lang_Star_class).
    rewrite length_app, Forall_app. split; [lia | done].
  - intros [Hl Hs]. exists (take n s), (drop n s). rewrite take_drop. split; [done|].
    rewrite lang_Times_class, lang_Star_class, length_take.
    split_and!; [lia | by apply Forall_take | by apply Forall_drop].
Qed.
