(* ===== verification/AwgScrub.v ===== *)
(** * Redaction of key material
      (crates/awg-params-agent/src/agent.rs, [scrub_key_material])

    What the agent does to the output of [awg-quick] and [awg] before it becomes
    part of an error.  The replacement belongs to the crate [regex]: [KeyScan] is
    its interface, with the documented meaning of [replace_all] for this pattern;
    [key_scanner] is an instance that can be run. *)

From Stdlib Require Import ZArith Lia.
From stdpp Require Import base option numbers gmap strings list.
From S2P Require Import Prelude RustStr Regex.

(** ** The pattern *)

(** A letter under [(?i)]: both cases, and the two letters beyond ASCII that fold
    to one ([K], the Kelvin sign, and the long s). *)
Definition folded (c : Z) : regex :=
  Class ([(c, c); (c - 32, c - 32)] ++
         (if c =? 107 then [(8490, 8490)] else []) ++ (if c =? 115 then [(383, 383)] else [])).

Fixpoint word (w : str) : regex :=
  match w with [] => Empty | c :: w' => Seq (folded c) (word w') end.

Definition underscore : regex := Opt (Class [(95, 95)]).

(** [private_?key|preshared_?key|header_?protection_?key] *)
Definition KEY_RE : regex :=
  let key := Seq underscore (word (lit "key")) in
  Alt (Seq (word (lit "private")) key)
    (Alt (Seq (word (lit "preshared")) key)
         (Seq (word (lit "header")) (Seq underscore (Seq (word (lit "protection")) key)))).

(** [[ \t]] *)
Definition is_blank (c : Z) : bool := (c =? SPACE) || (c =? TAB).
Definition blanks (s : str) : Prop := Forall (fun c => is_blank c = true) s.

Definition REDACTED : str := lit " = [redacted]".

(** [s] begins with a match; the blanks after the sign and the value are the rest
    of the line. *)
Definition begins_key (s : str) : Prop :=
  exists k ws rest, lang KEY_RE k /\ blanks ws /\ s = k ++ ws ++ EQUALS :: rest.

(** The text is at its end or at a line end. *)
Definition at_line_end (s : str) : Prop := s = [] \/ exists t, s = NL :: t.

(** [replace_all] from left to right. *)
Inductive scrubbed : str -> str -> Prop :=
| scr_end : scrubbed [] []
| scr_char c s out : ~ begins_key (c :: s) -> scrubbed s out -> scrubbed (c :: s) (c :: out)
| scr_match k ws v s out : lang KEY_RE k -> blanks ws -> NL ∉ v -> at_line_end s -> scrubbed s out ->
    scrubbed (k ++ ws ++ EQUALS :: v ++ s) (k ++ REDACTED ++ out).

Class KeyScan := {
  replace_keys : str -> str;
  replace_keys_spec s : scrubbed s (replace_keys s);
}.

Definition scrub_key_material `{KeyScan} (text : str) : str := replace_keys text.

(** ** A scanner *)

Fixpoint strip_blanks_end (s : str) : str :=
  match s with
  | [] => []
  | c :: s' => match strip_blanks_end s' with
               | [] => if is_blank c then [] else [c]
               | t => c :: t
               end
  end.

Definition key_here (s : str) : option str :=
  match split_once EQUALS s with
  | Some (a, _) => let k := strip_blanks_end a in if deriv_match KEY_RE k then Some k else None
  | None => None
  end.

(** [skipping] is set while the rest of a matched line is passed over. *)
Fixpoint scan_keys (skipping : bool) (s : str) : str :=
  match s with
  | [] => []
  | c :: s' =>
      if skipping then if c =? NL then c :: scan_keys false s' else scan_keys true s'
      else match key_here s with
           | Some k => k ++ REDACTED ++ scan_keys true s'
           | None => c :: scan_keys false s'
           end
  end.

(** ** Characters of a key *)

(** Every character the expression can match satisfies [p]; ranges are single
    characters here. *)
Fixpoint within (p : Z -> bool) (r : regex) : bool :=
  match r with
  | Void | Empty => true
  | Class k => forallb (fun '(lo, hi) => (lo =? hi) && p lo) k
  | Seq a b | Alt a b => within p a && within p b
  | Star a => within p a
  end.

Lemma lang_within p r s : within p r = true -> lang r s -> Forall (fun c => p c = true) s.
Proof.
  intros Hw Hl. induction Hl as [|k c Hc| | | | |]; cbn in Hw; bool_props;
    try (apply Forall_app; split); auto.
  constructor; [|constructor]. unfold in_cls in Hc. apply existsb_exists in Hc as ([lo hi] & Hin & Hr).
  rewrite forallb_forall in Hw. apply Hw in Hin. bool_props. subst. by replace c with hi by lia.
Qed.

Definition key_char (c : Z) : bool := negb (is_blank c) && negb (c =? EQUALS) && negb (c =? NL).

Lemma key_chars k : lang KEY_RE k -> Forall (fun c => key_char c = true) k.
Proof. apply lang_within. vm_compute. reflexivity. Qed.

Lemma key_cons k : lang KEY_RE k -> exists c k', k = c :: k'.
Proof.
  destruct k; [|eauto]. intros Hk%nullable_spec. by vm_compute in Hk.
Qed.

Lemma key_blanks_free k ws c :
  lang KEY_RE k -> blanks ws -> c = EQUALS \/ c = NL -> c ∉ k ++ ws.
Proof.
  intros Hk Hw Hc [Hin|Hin]%elem_of_app.
  - apply key_chars in Hk. rewrite Forall_forall in Hk. apply Hk in Hin.
    unfold key_char in Hin. bool_props. naive_solver.
  - unfold blanks in Hw. rewrite Forall_forall in Hw. apply Hw in Hin. by destruct Hc as [->| ->].
Qed.

Lemma strip_blanks_end_key k ws :
  lang KEY_RE k -> blanks ws -> strip_blanks_end (k ++ ws) = k.
Proof.
  intros Hk Hw. assert (strip_blanks_end ws = []) as Hs.
  { induction Hw as [|c ws Hc Hw IH]; [done|]. cbn. by rewrite IH, Hc. }
  apply key_chars in Hk. induction Hk as [|c k Hc Hk IH]; [done|]. cbn. rewrite IH.
  destruct k; [|done]. unfold key_char in Hc. bool_props. by destruct (is_blank c).
Qed.

Lemma strip_blanks_end_split a : exists ws, blanks ws /\ a = strip_blanks_end a ++ ws.
Proof.
  induction a as [|c a (ws & Hw & IH)]; [exists []; by split; [constructor|]|].
  cbn. destruct (strip_blanks_end a) as [|d t] eqn:E.
  - cbn in IH. subst a. destruct (is_blank c) eqn:Hc.
    + exists (c :: ws). by split; [constructor|].
    + by exists ws.
  - exists ws. split; [done|]. cbn. by f_equal.
Qed.

Lemma key_here_Some s k :
  key_here s = Some k <-> lang KEY_RE k /\ exists ws rest, blanks ws /\ s = k ++ ws ++ EQUALS :: rest.
Proof.
  unfold key_here. split.
  - destruct (split_once EQUALS s) as [[a b]|] eqn:Hs; [|done]. cbv zeta.
    destruct (deriv_match KEY_RE _) eqn:Hm; [|done]. intros [= <-].
    apply deriv_match_spec in Hm. split; [done|].
    destruct (strip_blanks_end_split a) as (ws & Hw & Ha). exists ws, b. split; [done|].
    apply split_once_Some in Hs as [-> _]. rewrite Ha at 1. by rewrite <- app_assoc.
  - intros (Hk & ws & rest & Hw & ->).
    replace (split_once EQUALS (k ++ ws ++ EQUALS :: rest)) with (Some (k ++ ws, rest)).
    + cbv zeta. rewrite strip_blanks_end_key by done. by rewrite (proj2 (deriv_match_spec _ _) Hk).
    + symmetry. apply split_once_Some. split; [by rewrite app_assoc|]. apply key_blanks_free; auto.
Qed.

Lemma key_here_None s : key_here s = None <-> ~ begins_key s.
Proof.
  split.
  - intros Hn (k & ws & rest & Hk & Hw & E). enough (key_here s = Some k) by congruence.
    apply key_here_Some. eauto.
  - intros Hb. destruct (key_here s) as [k|] eqn:E; [|done]. destruct Hb.
    apply key_here_Some in E as (Hk & ws & rest & Hw & ->). by exists k, ws, rest.
Qed.

(** Only what stands before the first sign decides. *)
Lemma key_here_prefix a x y : key_here (a ++ EQUALS :: x) = key_here (a ++ EQUALS :: y).
Proof.
  unfold key_here.
  assert (forall z, exists b, split_once EQUALS (a ++ EQUALS :: z) =
    Some (match split_once EQUALS a with Some (p, _) => p | None => a end, b)) as Hs.
  { intros z. destruct (split_once EQUALS a) as [[p q]|] eqn:E.
    - apply split_once_Some in E as [-> Hp]. eexists. apply split_once_Some.
      split; [by rewrite <- app_assoc|done].
    - apply split_once_None in E. eexists. by apply split_once_Some. }
  destruct (Hs x) as [bx ->], (Hs y) as [by_ ->]. done.
Qed.

(** ** The scanner meets the interface, and nothing else does *)

Lemma scan_keys_skip v s : NL ∉ v -> scan_keys true (v ++ s) = scan_keys true s.
Proof.
  induction v as [|c v IH]; [done|]. intros [Hc Hv]%not_elem_of_cons. cbn.
  rewrite (proj2 (Z.eqb_neq c NL)) by congruence. auto.
Qed.

Lemma newline_begins_no_key s : ~ begins_key (NL :: s).
Proof.
  intros (k & ws & rest & Hk & Hw & E). destruct (key_cons k Hk) as (c & k' & ->). injection E as <- _.
  apply (key_blanks_free _ ws NL Hk Hw); [by right | by left].
Qed.

Lemma scan_keys_line_end s : at_line_end s -> scan_keys true s = scan_keys false s.
Proof.
  intros [->|[t ->]]; [done|]. cbn [scan_keys].
  by rewrite (proj2 (key_here_None (NL :: t)) (newline_begins_no_key t)).
Qed.

Lemma scan_keys_match k ws v s :
  lang KEY_RE k -> blanks ws -> NL ∉ v ->
  scan_keys false (k ++ ws ++ EQUALS :: v ++ s) = k ++ REDACTED ++ scan_keys true s.
Proof.
  intros Hk Hw Hv. assert (key_here (k ++ ws ++ EQUALS :: v ++ s) = Some k) as Hh by (apply key_here_Some; eauto).
  pose proof (key_blanks_free k ws NL Hk Hw (or_intror eq_refl)) as Hn.
  destruct (key_cons k Hk) as (c & k' & ->). cbn [app scan_keys] in *. rewrite Hh. cbn [app].
  do 3 f_equal. change (c :: k' ++ ws) with ((c :: k') ++ ws) in Hn.
  replace (k' ++ ws ++ EQUALS :: v ++ s) with ((k' ++ ws ++ EQUALS :: v) ++ s)
    by (by rewrite <- !app_assoc).
  apply scan_keys_skip. set_solver.
Qed.

Lemma scrubbed_scan s out : scrubbed s out -> out = scan_keys false s.
Proof.
  induction 1 as [|c s out Hb _ IH|k ws v s out Hk Hw Hv He _ IH]; [done| |].
  - cbn [scan_keys]. rewrite (proj2 (key_here_None _) Hb). by f_equal.
  - rewrite scan_keys_match, scan_keys_line_end by done. by rewrite <- IH.
Qed.

Lemma line_split s : exists v t, s = v ++ t /\ NL ∉ v /\ at_line_end t.
Proof.
  destruct (split_once NL s) as [[v t]|] eqn:E.
  - apply split_once_Some in E as [-> Hv]. exists v, (NL :: t). split_and!; [done..|]. right. eauto.
  - apply split_once_None in E. exists s, []. rewrite app_nil_r. split_and!; [done..|]. by left.
Qed.

Lemma scan_scrubs s : scrubbed s (scan_keys false s).
Proof.
  remember (length s) as n eqn:Hn. revert s Hn. induction (lt_wf n) as [n _ IH]. intros s ->.
  destruct s as [|c s]; [constructor|]. destruct (key_here (c :: s)) as [k|] eqn:E.
  - apply key_here_Some in E as (Hk & ws & rest & Hw & E). rewrite E.
    destruct (line_split rest) as (v & t & -> & Hv & Ht).
    rewrite scan_keys_match, scan_keys_line_end by done. constructor; [done..|].
    apply (IH (length t)); [|done]. rewrite E, !length_app. cbn. rewrite length_app. lia.
  - cbn [scan_keys]. rewrite E. constructor; [by apply key_here_None|].
    apply (IH (length s)); [cbn; lia | done].
Qed.

#[export] Instance key_scanner : KeyScan := {|
  replace_keys := scan_keys false;
  replace_keys_spec := scan_scrubs;
|}.

(** ** Nothing of a value survives *)

Lemma scan_hides pre k ws v v' post sk :
  lang KEY_RE k -> blanks ws -> NL ∉ v -> NL ∉ v' ->
  scan_keys sk (pre ++ k ++ ws ++ EQUALS :: v ++ post) =
  scan_keys sk (pre ++ k ++ ws ++ EQUALS :: v' ++ post).
Proof.
  intros Hk Hw Hv Hv'. revert sk. induction pre as [|c pre IH]; intros sk.
  - cbn [app]. destruct sk; [|by rewrite !scan_keys_match].
    pose proof (key_blanks_free k ws NL Hk Hw (or_intror eq_refl)) as Hn.
    assert (forall x, NL ∉ x -> scan_keys true (k ++ ws ++ EQUALS :: x ++ post) = scan_keys true post) as Hs.
    { intros x Hx. replace (k ++ ws ++ EQUALS :: x ++ post) with ((k ++ ws ++ EQUALS :: x) ++ post)
        by (by rewrite <- !app_assoc). apply scan_keys_skip. set_solver. }
    by rewrite !Hs.
  - cbn [app scan_keys]. rewrite !IH.
    pose proof (key_here_prefix ((c :: pre) ++ k ++ ws) (v ++ post) (v' ++ post)) as Hp.
    rewrite <- !app_assoc in Hp. cbn [app] in Hp. by rewrite Hp.
Qed.

(** ** The names of the secrets *)

(** The secret keys of a configuration file and of the kernel interface, in lower
    case: with and without the underscores. *)
Definition secret_names : list str :=
  lit <$> ["privatekey"; "private_key"; "presharedkey"; "preshared_key";
           "headerprotectionkey"; "headerprotection_key";
           "header_protectionkey"; "header_protection_key"]%string.

(** In any capitalisation. *)
Definition secret_name (k : str) : Prop := to_ascii_lowercase k ∈ secret_names.

Lemma folded_lang c d : 97 <= c <= 122 -> ascii_lower d = c -> lang (folded c) [d].
Proof.
  intros Hc Hd. constructor. unfold in_cls, ascii_lower in *. rewrite existsb_app. cbn.
  destruct ((65 <=? d) && (d <=? 90)) eqn:E; lia.
Qed.

Lemma word_lang w k : Forall (fun c => 97 <= c <= 122) w -> to_ascii_lowercase k = w -> lang (word w) k.
Proof.
  unfold to_ascii_lowercase. intros Hw. revert k. induction Hw as [|c w Hc Hw IH]; intros [|d k] E; try done.
  - constructor.
  - injection E as Hd E. apply (lang_seq _ _ [d]); [by apply folded_lang | auto].
Qed.

Lemma underscore_lang k : to_ascii_lowercase k = [] \/ to_ascii_lowercase k = lit "_" -> lang underscore k.
Proof.
  unfold to_ascii_lowercase. intros [E|E].
  - apply fmap_nil_inv in E as ->. apply lang_left. constructor.
  - destruct k as [|c [|? ?]]; try done. injection E as E. apply lang_right. constructor.
    unfold ascii_lower in E. cbn in *. destruct ((65 <=? c) && (c <=? 90)) eqn:?; lia.
Qed.

Ltac letters := refine (bool_decide_eq_true_1 _ _); vm_compute; reflexivity.

(** Each piece of a name is matched by its piece of the pattern. *)
Lemma secret_name_lang k : secret_name k -> lang KEY_RE k.
Proof.
  assert (forall w t, Forall (fun c => 97 <= c <= 122) w -> to_ascii_lowercase t = w -> lang (word w) t) as Hw
    by apply word_lang.
  assert (forall a b t, to_ascii_lowercase t = a ++ b ->
    exists x y, t = x ++ y /\ to_ascii_lowercase x = a /\ to_ascii_lowercase y = b) as Hs.
  { intros a b t (x & y & -> & -> & ->)%fmap_app_inv. eauto. }
  assert (forall u t, u = [] \/ u = lit "_" -> to_ascii_lowercase t = u ++ lit "key" ->
    lang (Seq underscore (word (lit "key"))) t) as Hkey.
  { intros u t Hu (x & y & -> & Hx & Hy)%Hs. constructor.
    - apply underscore_lang. rewrite Hx. naive_solver.
    - apply Hw; [letters | done]. }
  assert (forall u t, u = [] \/ u = lit "_" ->
    to_ascii_lowercase t = lit "private" ++ u ++ lit "key" -> lang KEY_RE t) as Hpriv.
  { intros u t Hu (x & y & -> & Hx & Hy)%Hs. apply lang_left. constructor; [|eauto].
    apply Hw; [letters | done]. }
  assert (forall u t, u = [] \/ u = lit "_" ->
    to_ascii_lowercase t = lit "preshared" ++ u ++ lit "key" -> lang KEY_RE t) as Hpre.
  { intros u t Hu (x & y & -> & Hx & Hy)%Hs. apply lang_right, lang_left. constructor; [|eauto].
    apply Hw; [letters | done]. }
  assert (forall u u' t, u = [] \/ u = lit "_" -> u' = [] \/ u' = lit "_" ->
    to_ascii_lowercase t = lit "header" ++ u ++ lit "protection" ++ u' ++ lit "key" -> lang KEY_RE t) as Hhdr.
  { intros u u' t Hu Hu' (x & y & -> & Hx & (z & y' & -> & Hz & (p & q & -> & Hp & Hq)%Hs)%Hs)%Hs.
    apply lang_right, lang_right. constructor; [apply Hw; [letters | done]|].
    constructor; [apply underscore_lang; rewrite Hz; naive_solver|].
    constructor; [apply Hw; [letters | done] | eauto]. }
  intros Hk. unfold secret_name, secret_names in Hk. cbn [fmap list_fmap] in Hk.
  repeat (apply elem_of_cons in Hk as [Hk|Hk]); [..|by apply elem_of_nil in Hk].
  - by apply (Hpriv []); [left|].
  - by apply (Hpriv (lit "_")); [right|].
  - by apply (Hpre []); [left|].
  - by apply (Hpre (lit "_")); [right|].
  - by apply (Hhdr [] []); [left|left|].
  - by apply (Hhdr [] (lit "_")); [left|right|].
  - by apply (Hhdr (lit "_") []); [right|left|].
  - by apply (Hhdr (lit "_") (lit "_")); [right|right|].
Qed.

(** C33. Redaction hides values: take the name of a private, preshared or header
    protection key, in any ASCII capitalisation, with or without underscores
    between its words, at any place of a text, followed by any number of spaces
    and tabs and an equals sign.  Replace what follows up to the end of the line
    by anything else: the redacted text is the same, so it does not depend on the
    value of the key.  The names are listed apart from the pattern of the code. *)
Theorem scrub_hides_values `{KeyScan} pre k ws v v' post :
  secret_name k -> Forall (fun c => c = SPACE \/ c = TAB) ws -> NL ∉ v -> NL ∉ v' ->
  scrub_key_material (pre ++ k ++ ws ++ EQUALS :: v ++ post) =
  scrub_key_material (pre ++ k ++ ws ++ EQUALS :: v' ++ post).
Proof.
  intros Hk%secret_name_lang Hws Hv Hv'. unfold scrub_key_material.
  assert (blanks ws) as Hw by (eapply Forall_impl; [exact Hws|]; intros c [->| ->]; done).
  rewrite (scrubbed_scan _ _ (replace_keys_spec (pre ++ k ++ ws ++ EQUALS :: v ++ post))).
  rewrite (scrubbed_scan _ _ (replace_keys_spec (pre ++ k ++ ws ++ EQUALS :: v' ++ post))).
  by apply scan_hides.
Qed.

Example scrub_keeps_context :
  scrub_key_material (lit "Line unrecognized: `PRIVATE_key =  s3cr=et'" ++ [NL] ++ lit "Jc = 4")
  = lit "Line unrecognized: `PRIVATE_key = [redacted]" ++ [NL] ++ lit "Jc = 4".
Proof. vm_compute. reflexivity. Qed.

Lemma scrub_hides_values_witness :
  scrub_key_material (H := key_scanner)
    (lit "peer: " ++ lit "HeaderProtectionKey" ++ [TAB] ++ EQUALS :: lit "abc" ++ [NL]) =
  scrub_key_material (H := key_scanner)
    (lit "peer: " ++ lit "HeaderProtectionKey" ++ [TAB] ++ EQUALS :: lit "PrivateKey=0" ++ [NL]).
Proof.
  apply (scrub_hides_values (H := key_scanner) (lit "peer: ") (lit "HeaderProtectionKey") [TAB] (lit "abc")
    (lit "PrivateKey=0") [NL]).
  - refine (bool_decide_eq_true_1 _ _). vm_compute. reflexivity.
  - constructor; [by right | constructor].
  - refine (bool_decide_eq_true_1 _ _). vm_compute. reflexivity.
  - refine (bool_decide_eq_true_1 _ _). vm_compute. reflexivity.
Defined.
