(* ===== verification/StrOrder.v ===== *)
(** * The order of strings, and sorting by a string key

    [str] compares by Unicode scalar values, which is the order of the UTF-8
    bytes.  [sort_by_key] is the stable sort of the standard library; on keys
    that differ its result depends only on the elements, so it hides the order
    in which a hash map was walked. *)

From Stdlib Require Import ZArith Lia.
From stdpp Require Import base option numbers strings list sorting.
From S2P Require Import Prelude RustStr.

Fixpoint str_leb (a b : str) : bool :=
  match a, b with
  | [], _ => true
  | _ :: _, [] => false
  | x :: a', y :: b' => if x <? y then true else if x =? y then str_leb a' b' else false
  end.

Definition str_le (a b : str) : Prop := str_leb a b = true.
#[export] Instance str_le_dec a b : Decision (str_le a b).
Proof. unfold str_le. apply _. Defined.

Lemma str_le_cons x y a b : str_le (x :: a) (y :: b) <-> x < y \/ x = y /\ str_le a b.
Proof.
  unfold str_le. cbn [str_leb]. destruct (Z.ltb_spec x y); [split; auto; lia|].
  destruct (Z.eqb_spec x y); [subst; split; [auto | intros [?|[_ ?]]; [lia | done]]|].
  split; [done | lia].
Qed.

#[export] Instance str_le_refl : Reflexive str_le.
Proof. intros a. induction a as [|x a IH]; [done|]. apply str_le_cons. auto. Qed.

#[export] Instance str_le_trans : Transitive str_le.
Proof.
  intros a. induction a as [|x a IH]; intros [|y b] [|z c]; try done.
  rewrite !str_le_cons. intros [?|[-> H1]] [?|[-> H2]]; [left; lia | by left | by left|].
  right. split; [done|]. by eapply IH.
Qed.

#[export] Instance str_le_antisymm : AntiSymm (=) str_le.
Proof.
  intros a. induction a as [|x a IH]; intros [|y b]; try done.
  rewrite !str_le_cons. intros [?|[-> H1]] [?|[E H2]]; try lia. f_equal. by apply IH.
Qed.

#[export] Instance str_le_total : Total str_le.
Proof.
  intros a. induction a as [|x a IH]; intros [|y b]; [by left | by left | by right|].
  rewrite !str_le_cons. destruct (Z.lt_trichotomy x y) as [?|[->|?]]; [auto | | auto].
  destruct (IH b); auto.
Qed.

(** ** Sorting by a key *)

Section sorting.
Context {A : Type} (key : A -> str).

Definition key_le (x y : A) : Prop := str_le (key x) (key y).
#[local] Instance key_le_dec x y : Decision (key_le x y) := str_le_dec (key x) (key y).
#[local] Instance key_le_trans : Transitive key_le.
Proof. intros x y z. apply str_le_trans. Qed.
#[local] Instance key_le_total : Total key_le.
Proof. intros x y. apply str_le_total. Qed.

Definition sort_by_key (l : list A) : list A := merge_sort key_le l.

Lemma sort_by_key_perm l : sort_by_key l ≡ₚ l.
Proof. apply merge_sort_Permutation. Qed.

Lemma sort_by_key_sorted l : StronglySorted key_le (sort_by_key l).
Proof. apply StronglySorted_merge_sort; apply _. Qed.

(** Elements that differ in their keys are sorted in one way only. *)
Lemma sort_by_key_unique l1 l2 :
  NoDup (key <$> l1) -> l1 ≡ₚ l2 -> sort_by_key l1 = sort_by_key l2.
Proof.
  intros Hn Hp. apply (StronglySorted_unique_strong key_le);
    [|apply sort_by_key_sorted..|by rewrite !sort_by_key_perm].
  intros x y Hx Hy Hxy Hyx. rewrite sort_by_key_perm in Hx, Hy. rewrite <- Hp in Hy.
  assert (key x = key y) as E by (by apply str_le_antisymm).
  apply list_elem_of_lookup in Hx as [i Hi]. apply list_elem_of_lookup in Hy as [j Hj].
  assert (i = j) as ->.
  { eapply (NoDup_lookup (key <$> l1)); [done | by rewrite list_lookup_fmap, Hi|].
    rewrite list_lookup_fmap, Hj. cbn. by rewrite E. }
  congruence.
Qed.
End sorting.

Definition sort_strs (l : list str) : list str := sort_by_key (fun s => s) l.
