(* ===== verification/OpecTenant.v ===== *)
(** * Tenants and Caddy routes
      (crates/opec/src/tenant/schema.rs, tenant/validate.rs, caddy/render.rs)

    The tenant file as data, its validator, and the renderer of Caddy's JSON
    with the check of its shape.  Reading YAML and printing are left out; the
    regular expression engine is the class [Matcher]. *)

From Stdlib Require Import ZArith Lia.
From stdpp Require Import base option numbers gmap strings list.
From S2P Require Import Prelude RustStr Regex StrOrder.

(** ** Schema *)

Record Redirect := mkRedirect { from_host : str; to : str; permanent : bool }.

Inductive RouteAction :=
| Proxy (upstream : str) (host_header : option str) (sse : option bool)
| FileServer (root : str) (cache_control : option str) (try_files : option (list str))
    (strip_path_prefix : option str).

Record Route := mkRoute { path : str; action : RouteAction }.

Record Tenant := mkTenant {
  id : str;
  domains : list str;
  enabled : bool;
  routes : list Route;
  security_headers : option str;
  redirects : list Redirect;
}.

Record TenantsFile := mkFile { schema_version : Z; tenants : list Tenant }.

#[export] Instance RouteAction_eq_dec : EqDecision RouteAction.
Proof. solve_decision. Defined.
#[export] Instance Route_eq_dec : EqDecision Route.
Proof. solve_decision. Defined.

(** ** Validation *)

Inductive ValidationError :=
| UnsupportedSchemaVersion (version : Z)
| InvalidTenantId (id : str)
| InvalidDomain (id domain : str)
| DuplicateTenantId (id : str)
| DomainCollision (domain a b : str)
| InvalidRoutePath (id : str) (index : nat)
| ProxyMissingUpstream (id : str) (index : nat)
| FileServerInvalidRoot (id : str) (index : nat).

Definition lower : Z * Z := (97, 122).
Definition upper : Z * Z := (65, 90).
Definition digit : Z * Z := (48, 57).
Definition hyphen : Z * Z := (45, 45).

(** [^[a-z0-9][a-z0-9-]{1,30}[a-z0-9]$] *)
Definition tenant_id_re : regex :=
  Seq (Class [lower; digit])
    (Seq (Between 1 30 (Class [lower; digit; hyphen])) (Class [lower; digit])).

(** [^([a-zA-Z0-9]([a-zA-Z0-9-]*[a-zA-Z0-9])?\.)+[a-zA-Z]{2,}$] *)
Definition alnum : regex := Class [lower; upper; digit].
Definition dot : regex := Class [(46, 46)].
Definition label : regex := Seq alnum (Opt (Seq (Star (Class [lower; upper; digit; hyphen])) alnum)).
Definition domain_re : regex :=
  Seq (Plus (Seq label dot)) (AtLeast 2 (Class [lower; upper])).

Definition SLASH : Z := 47.
Definition starts_with_slash (s : str) : bool :=
  match s with c :: _ => c =? SLASH | [] => false end.

(** The errors so far, the ids seen, and the first tenant to claim a domain. *)
Record Scan := mkScan {
  errors : list ValidationError;
  seen_ids : gset str;
  seen_domains : gmap str str;
}.

Section validate.
Context `{Matcher}.

Definition check_domain (tid : str) (st : list ValidationError * gmap str str) (domain : str)
    : list ValidationError * gmap str str :=
  let '(errs, seen) := st in
  let errs := if negb (is_match domain_re domain) then errs ++ [InvalidDomain tid domain] else errs in
  match seen !! domain with
  | Some prior =>
      (if bool_decide (prior <> tid) then errs ++ [DomainCollision domain prior tid] else errs, seen)
  | None => (errs, <[domain := tid]> seen)
  end.

Definition check_route (tid : str) (idx : nat) (r : Route) : list ValidationError :=
  (if is_empty (path r) || negb (starts_with_slash (path r)) then [InvalidRoutePath tid idx] else []) ++
  match action r with
  | Proxy upstream _ _ => if is_empty upstream then [ProxyMissingUpstream tid idx] else []
  | FileServer root _ _ _ =>
      if is_empty root || negb (starts_with_slash root) then [FileServerInvalidRoot tid idx] else []
  end.

Definition check_tenant (st : Scan) (t : Tenant) : Scan :=
  let tid := id t in
  let '(errs, ids) := if bool_decide (tid ∈ seen_ids st)
                      then (errors st ++ [DuplicateTenantId tid], seen_ids st)
                      else (errors st, {[tid]} ∪ seen_ids st) in
  let errs := if negb (is_match tenant_id_re tid) then errs ++ [InvalidTenantId tid] else errs in
  let '(errs, seen) := fold_left (check_domain tid) (domains t) (errs, seen_domains st) in
  mkScan (errs ++ concat (imap (check_route tid) (routes t))) ids seen.

Definition validate (file : TenantsFile) : result unit (list ValidationError) :=
  let start := if negb (schema_version file =? 1)
               then [UnsupportedSchemaVersion (schema_version file)] else [] in
  let st := fold_left check_tenant (tenants file) (mkScan start ∅ ∅) in
  match errors st with [] => Ok tt | errs => Err errs end.
End validate.

(** ** JSON values *)

(** [serde_json::Value]; an object is its members in key order. *)
Inductive Value :=
| VNull
| VBool (b : bool)
| VNumber (n : Z)
| VString (s : str)
| VArray (vs : list Value)
| VObject (members : list (str * Value)).

Fixpoint value_eqb (v w : Value) : bool :=
  match v, w with
  | VNull, VNull => true
  | VBool a, VBool b => Bool.eqb a b
  | VNumber a, VNumber b => a =? b
  | VString a, VString b => bool_decide (a = b)
  | VArray vs, VArray ws =>
      (fix go vs ws := match vs, ws with
                       | [], [] => true
                       | v :: vs, w :: ws => value_eqb v w && go vs ws
                       | _, _ => false
                       end) vs ws
  | VObject ms, VObject ns =>
      (fix go ms ns := match ms, ns with
                       | [], [] => true
                       | (k, v) :: ms, (l, w) :: ns => bool_decide (k = l) && value_eqb v w && go ms ns
                       | _, _ => false
                       end) ms ns
  | _, _ => false
  end.

(** [Map::insert] on a sorted map. *)
Fixpoint map_insert (k : str) (v : Value) (ms : list (str * Value)) : list (str * Value) :=
  match ms with
  | [] => [(k, v)]
  | (l, w) :: ms' =>
      if bool_decide (k = l) then (k, v) :: ms'
      else if str_leb k l then (k, v) :: ms
      else (l, w) :: map_insert k v ms'
  end.

Fixpoint map_get (k : str) (ms : list (str * Value)) : option Value :=
  match ms with
  | [] => None
  | (l, v) :: ms' => if bool_decide (k = l) then Some v else map_get k ms'
  end.

(** [json!({ .. })]. *)
Definition obj (members : list (string * Value)) : Value :=
  VObject (fold_left (fun ms '(k, v) => map_insert (lit k) v ms) members []).
Definition set_member (k : string) (v : Value) (o : Value) : Value :=
  match o with VObject ms => VObject (map_insert (lit k) v ms) | _ => o end.
Definition text (s : string) : Value := VString (lit s).
Definition strings (l : list str) : Value := VArray (VString <$> l).

(** [Value::get] with a key, [as_str]. *)
Definition get (k : string) (v : Value) : option Value :=
  match v with VObject ms => map_get (lit k) ms | _ => None end.
Definition as_str (v : Value) : option str := match v with VString s => Some s | _ => None end.

(** ** Rendering *)

(** The scheme and the rest of an upstream URL. *)
Definition parse_upstream (url : str) : string * str :=
  match strip_prefix (lit "https://") url with
  | Some rest => ("https", rest)
  | None => match strip_prefix (lit "http://") url with
            | Some rest => ("http", rest)
            | None => ("http", url)
            end
  end.

(** [rest.split('/').next()]. *)
Definition before_slash (rest : str) : str := hd rest (split_on SLASH rest).

Definition make_dial (url : str) (default_port : Z) : str :=
  let host_port := before_slash (parse_upstream url).2 in
  if existsb (Z.eqb 58) host_port then host_port
  else host_port ++ lit ":" ++ to_string default_port.

Definition host_from_url (url : str) : str := before_slash (parse_upstream url).2.

Definition render_proxy_handlers (upstream : str) (host_header : option str) (sse : option bool)
    : list Value :=
  let use_tls := bool_decide ((parse_upstream upstream).1 = "https") in
  let proxy := obj [("handler", text "reverse_proxy");
                    ("upstreams", VArray [obj [("dial", VString (make_dial upstream (if use_tls then 443 else 80)))]])] in
  let proxy := if use_tls
               then set_member "transport" (obj [("protocol", text "http"); ("tls", obj [])]) proxy
               else proxy in
  let header_host := default (host_from_url upstream) host_header in
  let proxy := set_member "headers"
                 (obj [("request", obj [("set", obj [("Host", strings [header_host])])])]) proxy in
  let proxy := if bool_decide (sse = Some true)
               then set_member "flush_interval" (VNumber (-1)) proxy else proxy in
  [proxy].

Definition render_file_server_handlers (root : str) (cache_control : option str)
    (try_files : option (list str)) (strip_path_prefix : option str) : list Value :=
  match strip_path_prefix with
  | Some prefix => [obj [("handler", text "rewrite"); ("strip_path_prefix", VString prefix)]]
  | None => []
  end ++
  match try_files with
  | Some tf =>
      [obj [("handler", text "subroute");
            ("routes", VArray [obj [
               ("match", VArray [obj [("file", obj [("try_files", strings tf); ("root", VString root)])]]);
               ("handle", VArray [obj [("handler", text "rewrite");
                                       ("uri", text "{http.matchers.file.relative}")]])]])]]
  | None => []
  end ++
  [obj [("handler", text "file_server"); ("root", VString root)]] ++
  match cache_control with
  | Some cc =>
      [obj [("handler", text "headers");
            ("response", obj [("set", obj [("Cache-Control", strings [cc])])])]]
  | None => []
  end.

Definition render_yaml_route (route : Route) : Value :=
  let handlers := match action route with
                  | Proxy upstream host_header sse => render_proxy_handlers upstream host_header sse
                  | FileServer root cache_control try_files strip_path_prefix =>
                      render_file_server_handlers root cache_control try_files strip_path_prefix
                  end in
  obj [("match", VArray [obj [("path", strings [path route])]]); ("handle", VArray handlers)].

Definition main_route_id (tid : str) : str := lit "tenant:" ++ tid.
Definition redirect_route_id (tid host : str) : str := lit "tenant:" ++ tid ++ lit ":redirect:" ++ host.

Definition render_main_route (t : Tenant) : Value :=
  obj [("@id", VString (main_route_id (id t)));
       ("match", VArray [obj [("host", strings (domains t))]]);
       ("handle", VArray [obj [("handler", text "subroute");
                               ("routes", VArray (render_yaml_route <$> routes t))]]);
       ("terminal", VBool true)].

Definition render_redirect_route (tenant_id : str) (r : Redirect) : Value :=
  obj [("@id", VString (redirect_route_id tenant_id (from_host r)));
       ("match", VArray [obj [("host", strings [from_host r])]]);
       ("handle", VArray [obj [("handler", text "static_response");
                               ("headers", obj [("Location", strings [to r])]);
                               ("status_code", VNumber (if permanent r then 308 else 307))]]);
       ("terminal", VBool true)].

Definition render_tenant (t : Tenant) : list Value :=
  if negb (enabled t) then []
  else render_main_route t :: (render_redirect_route (id t) <$> redirects t).

Definition render_tenant_routes (ts : list Tenant) : list Value := ts ≫= render_tenant.

(** ** The shape of a route *)

Inductive ShapeError := NotAnObject | UnknownKey (key : str) | NoMatchNorHandle
| HandleNotArray | NoHandler (index : nat).

Definition ALLOWED : list str := lit <$> ["@id"; "match"; "handle"; "terminal"; "group"].

Fixpoint check_handlers (i : nat) (hs : list Value) : result unit ShapeError :=
  match hs with
  | [] => Ok tt
  | h :: hs' => match get "handler" h ≫= as_str with
                | Some _ => check_handlers (S i) hs'
                | None => Err (NoHandler i)
                end
  end.

Fixpoint check_keys (ms : list (str * Value)) : result unit ShapeError :=
  match ms with
  | [] => Ok tt
  | (k, _) :: ms' => if bool_decide (k ∈ ALLOWED) then check_keys ms' else Err (UnknownKey k)
  end.

Definition validate_caddy_route_shape (v : Value) : result unit ShapeError :=
  match v with
  | VObject ms =>
      let? _ := check_keys ms in
      if negb (bool_decide (is_Some (map_get (lit "match") ms))) &&
         negb (bool_decide (is_Some (map_get (lit "handle") ms)))
      then Err NoMatchNorHandle
      else match map_get (lit "handle") ms with
           | Some (VArray hs) => check_handlers 0 hs
           | Some _ => Err HandleNotArray
           | None => Ok tt
           end
  | _ => Err NotAnObject
  end.
