(* ===== verification/OpecDiff.v ===== *)
(** * Comparing configurations
      (crates/opec/src/caddy/diff.rs, main.rs)

    The diff of two arrays of Caddy routes, the diff of two tenant files that
    the command line prints, and the dry run of [reconcile].  Hash maps and
    sets are walked in an order the class [HashWalk] leaves open. *)

From Stdlib Require Import ZArith Lia.
From stdpp Require Import base option numbers gmap strings list.
From S2P Require Import Prelude RustStr Regex StrOrder OpecTenant.

(** The order in which a [HashMap] and a [HashSet] are walked. *)
Class HashWalk := {
  walk : forall {A}, gmap str A -> list (str * A);
  walk_perm {A} (m : gmap str A) : walk m ≡ₚ map_to_list m;
  walk_set : gset str -> list str;
  walk_set_perm (s : gset str) : walk_set s ≡ₚ elements s;
}.

(** One such order. *)
#[export] Instance key_order : HashWalk := {|
  walk A m := map_to_list m;
  walk_perm A m := reflexivity _;
  walk_set s := elements s;
  walk_set_perm s := reflexivity _;
|}.

(** [collect] into a hash map: the last entry of a key stays. *)
Definition collect {A} (l : list (str * A)) : gmap str A := list_to_map (rev l).

(** ** Routes *)

Record RouteDiff := mkDiff {
  added : list Value;
  removed : list str;
  changed : list (str * Value * Value);
  unchanged : nat;
}.

Definition route_id (v : Value) : option str := get "@id" v ≫= as_str.

Definition id_map (rs : list Value) : gmap str Value :=
  collect (omap (fun v => (fun i => (i, v)) <$> route_id v) rs).

Section diff.
Context `{HashWalk}.

Definition diff_routes (live proposed : list Value) : RouteDiff :=
  let live_map := id_map live in
  let proposed_map := id_map proposed in
  let added := omap (fun '(i, v) => match live_map !! i with None => Some v | Some _ => None end)
                 (walk proposed_map) in
  let removed := omap (fun '(i, _) => match proposed_map !! i with None => Some i | Some _ => None end)
                   (walk live_map) in
  let both := omap (fun '(i, p) => (fun l => (i, l, p)) <$> live_map !! i) (walk proposed_map) in
  let same := filter (fun '(_, l, p) => value_eqb l p = true) both in
  let differ := filter (fun '(_, l, p) => value_eqb l p = false) both in
  {| added := sort_by_key (fun v => default [] (route_id v)) added;
     removed := sort_strs removed;
     changed := sort_by_key (fun c => c.1.1) differ;
     unchanged := length same |}.

(** ** Tenant files *)

Record ChangedTenant := mkChanged {
  ct_id : str;
  route_paths_changed : list str;
  domains_changed : bool;
  enabled_changed : bool;
}.

Record DiffOutput := mkOutput {
  do_added : list str;
  do_removed : list str;
  do_changed : list ChangedTenant;
}.

(** [Vec::dedup]. *)
Fixpoint dedup (l : list str) : list str :=
  match l with
  | [] => []
  | x :: l' => match dedup l' with
               | (y :: _) as r => if bool_decide (x = y) then r else x :: r
               | [] => [x]
               end
  end.

Definition find_route (p : str) (rs : list Route) : option Route := head (filter (fun r => path r = p) rs).
Definition paths (t : Tenant) : gset str := list_to_set (path <$> routes t).
Definition symmetric_difference (a b : gset str) : gset str := (a ∖ b) ∪ (b ∖ a).

Definition changed_paths (lt rt : Tenant) : list str :=
  dedup (sort_strs (
    walk_set (symmetric_difference (paths lt) (paths rt)) ++
    filter (fun p => find_route p (routes lt) <> find_route p (routes rt))
      (walk_set (paths lt ∩ paths rt)))).

Definition compare_tenants (i : str) (lt rt : Tenant) : option ChangedTenant :=
  let cp := changed_paths lt rt in
  let dc := negb (bool_decide (domains lt = domains rt)) in
  let ec := negb (Bool.eqb (enabled lt) (enabled rt)) in
  if negb (bool_decide (cp = [])) || dc || ec then Some (mkChanged i cp dc ec) else None.

Definition tenant_map (file : TenantsFile) : gmap str Tenant :=
  collect ((fun t => (id t, t)) <$> tenants file).

Definition cmd_diff (left right : TenantsFile) : DiffOutput :=
  let left_map := tenant_map left in
  let right_map := tenant_map right in
  let left_ids := dom left_map in
  let right_ids := dom right_map in
  let common_ids := sort_strs (walk_set (left_ids ∩ right_ids)) in
  {| do_added := sort_strs (walk_set (right_ids ∖ left_ids));
     do_removed := sort_strs (walk_set (left_ids ∖ right_ids));
     do_changed := omap (fun i => match left_map !! i, right_map !! i with
                                  | Some lt, Some rt => compare_tenants i lt rt
                                  | _, _ => None
                                  end) common_ids |}.
End diff.

(** ** The dry run *)

Inductive ReconcileError :=
| NotImplemented
| Invalid (errs : list ValidationError)
| BadShape (index : nat) (e : ShapeError).

Fixpoint check_shapes (i : nat) (rs : list Value) : result unit ReconcileError :=
  match rs with
  | [] => Ok tt
  | r :: rs' => match validate_caddy_route_shape r with
                | Ok _ => check_shapes (S i) rs'
                | Err e => Err (BadShape i e)
                end
  end.

(** The proposed routes and the number of enabled tenants. *)
Definition cmd_reconcile `{Matcher} (dry_run : bool) (file : TenantsFile)
    : result (list Value * nat) ReconcileError :=
  if negb dry_run then Err NotImplemented
  else match validate file with
       | Err errs => Err (Invalid errs)
       | Ok _ =>
           let proposed := render_tenant_routes (tenants file) in
           let? _ := check_shapes 0 proposed in
           Ok (proposed, length (filter (fun t => enabled t = true) (tenants file)))
       end.
