(* ===== verification/OpecTenantFacts.v ===== *)
(** * Theorems on tenants and their routes

    The validator against a specification of a sound file, the shape of what is
    rendered, and which tenant answers for a host. *)

From Stdlib Require Import ZArith Lia.
From stdpp Require Import base option numbers gmap strings list.
From S2P Require Import Prelude RustStr Regex StrOrder OpecTenant OpecDiff.

(** ** What a sound file is *)

(** Written from the runbook's field reference, apart from the patterns and the
    checks of the code. *)

Definition lower_case (c : Z) : bool := (97 <=? c) && (c <=? 122).
Definition letter (c : Z) : bool := lower_case c || ((65 <=? c) && (c <=? 90)).
Definition HYPHEN : Z := 45.
Definition DOT : Z := 46.

(** An id: three to thirty-two lower-case letters, digits and hyphens, with no
    hyphen at either end. *)
Definition id_ok (i : str) : bool :=
  (3 <=? length i)%nat && (length i <=? 32)%nat &&
  forallb (fun c => lower_case c || is_ascii_digit c || (c =? HYPHEN)) i &&
  bool_decide (head i <> Some HYPHEN) && bool_decide (last i <> Some HYPHEN).

(** A label: letters, digits and hyphens, with no hyphen at either end. *)
Definition label_ok (l : str) : bool :=
  negb (is_empty l) && forallb (fun c => letter c || is_ascii_digit c || (c =? HYPHEN)) l &&
  bool_decide (head l <> Some HYPHEN) && bool_decide (last l <> Some HYPHEN).

(** A domain: at least two labels between dots, the last of two or more letters. *)
Definition domain_ok (d : str) : bool :=
  match rev (split_on DOT d) with
  | tld :: rest =>
      negb (bool_decide (rest = [])) && forallb label_ok rest && (2 <=? length tld)%nat && forallb letter tld
  | [] => false
  end.

Definition rooted (s : str) : Prop := head s = Some 47.

Definition route_sound (r : Route) : Prop :=
  rooted (path r) /\
  match action r with
  | Proxy upstream _ _ => upstream <> []
  | FileServer root _ _ _ => rooted root
  end.

Record tenant_sound (t : Tenant) : Prop := {
  ts_id : id_ok (id t) = true;
  ts_domains : Forall (fun d => domain_ok d = true) (domains t);
  ts_routes : Forall route_sound (routes t);
}.

Record file_sound (file : TenantsFile) : Prop := {
  fs_version : schema_version file = 1;
  fs_ids : NoDup (id <$> tenants file);
  fs_tenants : Forall tenant_sound (tenants file);
  fs_domains : forall t1 t2 d, t1 ∈ tenants file -> t2 ∈ tenants file ->
    d ∈ domains t1 -> d ∈ domains t2 -> t1 = t2;
}.

(** ** The patterns say the same *)

(** A text is its pieces with a separator after each but the last. *)
Definition pieces (c : Z) (ls : list str) (z : str) : str := concat ((fun l => l ++ [c]) <$> ls) ++ z.

Lemma split_on_pieces c ls z : Forall (fun l => c ∉ l) ls -> c ∉ z -> split_on c (pieces c ls z) = ls ++ [z].
Proof.
  intros Hl Hz. unfold pieces. induction Hl as [|l ls Hl _ IH]; [by apply split_on_clean|].
  cbn. rewrite <- !(assoc_L (++)). cbn. rewrite split_on_join, IH, split_on_clean by done. done.
Qed.

Lemma pieces_of c s : exists ls z, s = pieces c ls z /\ Forall (fun l => c ∉ l) ls /\ c ∉ z.
Proof.
  induction s as [|x s (ls & z & -> & Hl & Hz)]; [exists [], []; split_and!; [done | constructor | apply not_elem_of_nil]|].
  destruct (decide (x = c)) as [->|Hne].
  - exists ([] :: ls), z. split_and!; [done | constructor; [apply not_elem_of_nil | done] | done].
  - destruct Hl as [|l ls Hl Hls].
    + exists [], (x :: z). split_and!; [done | constructor | by apply not_elem_of_cons].
    + exists ((x :: l) :: ls), z. split_and!; [done | constructor; [by apply not_elem_of_cons | done] | done].
Qed.

Lemma lang_Star a s : lang (Star a) s <-> exists ss, Forall (lang a) ss /\ s = concat ss.
Proof.
  split.
  - remember (Star a) as r eqn:E. intros Hl. revert E.
    induction Hl as [| | | | |b|b s1 s2 H1 _ _ IH2]; intros E; try discriminate; injection E as ->.
    + by exists [].
    + destruct (IH2 eq_refl) as (ss & Hs & ->). exists (s1 :: ss). split; [by constructor | done].
  - intros (ss & Hs & ->). induction Hs as [|x ss Hx _ IH]; [constructor | by constructor].
Qed.

Lemma forallb_Forall {A} (p : A -> bool) l : forallb p l = true <-> Forall (fun x => p x = true) l.
Proof. induction l as [|x l IH]; cbn; [by split|]. by rewrite andb_true_iff, Forall_cons, IH. Qed.

Lemma Forall_rev_iff {A} (P : A -> Prop) l : Forall P (rev l) <-> Forall P l.
Proof. by rewrite <- Permutation_rev. Qed.

Definition name_char (c : Z) : bool := in_cls [lower; upper; digit; hyphen] c.

Lemma name_char_spec c : name_char c = letter c || is_ascii_digit c || (c =? HYPHEN).
Proof.
  unfold name_char, letter, lower_case, is_ascii_digit, HYPHEN. cbn. apply eq_true_iff_eq.
  rewrite !orb_true_iff, !andb_true_iff, !Z.leb_le, !Z.eqb_eq. split; intuition (try lia; try discriminate).
Qed.

Lemma name_chars l :
  forallb (fun c => letter c || is_ascii_digit c || (c =? HYPHEN)) l = true <-> Forall (fun c => name_char c = true) l.
Proof. rewrite forallb_Forall. apply Forall_iff. intros c. by rewrite name_char_spec. Qed.

Lemma alnum_char c : in_cls [lower; upper; digit] c = true <-> name_char c = true /\ c <> HYPHEN.
Proof.
  unfold name_char, HYPHEN. cbn. rewrite !orb_true_iff, !andb_true_iff, !Z.leb_le. intuition (try lia; try discriminate).
Qed.

Lemma label_lang s : lang label s <-> label_ok s = true.
Proof.
  unfold label, alnum, label_ok. rewrite !andb_true_iff, !bool_decide_eq_true, negb_true_iff.
  rewrite name_chars, lang_Seq. split.
  - intros (u & v & -> & (a & -> & [Ha1 Ha2]%alnum_char)%lang_Class & Hv). apply lang_Opt in Hv as [->|Hv].
    { split_and!; [done | by repeat constructor | by intros [= ?] ..]. }
    apply lang_Seq in Hv as (m & w & -> & Hm%lang_Star_class & (z & -> & [Hz1 Hz2]%alnum_char)%lang_Class).
    split_and!; [done | | by intros [= ?] |].
    + constructor; [done|]. apply Forall_app. split; [done | by repeat constructor].
    + change ([a] ++ m ++ [z]) with ((a :: m) ++ [z]). rewrite last_snoc. by intros [= ?].
  - intros [[[Hne Hc] Hh] Hl]. destruct s as [|a s]; [done|]. apply Forall_cons in Hc as [Ha Hs].
    exists [a], s. split; [done|]. split; [apply lang_Class; exists a; split; [done|]; apply alnum_char; split; [done | by intros ->]|].
    apply lang_Opt. destruct s as [|z m _] using rev_ind; [by left | right]. apply Forall_app in Hs as [Hm Hz].
    apply lang_Seq. exists m, [z]. split; [done|]. split; [by apply lang_Star_class|]. apply lang_Class. exists z. split; [done|].
    apply alnum_char. split; [by inversion Hz|]. intros ->. apply Hl. by rewrite app_comm_cons, last_snoc.
Qed.

Lemma label_no_dot s : label_ok s = true -> DOT ∉ s.
Proof.
  unfold label_ok. rewrite !andb_true_iff, forallb_Forall, Forall_forall. intros [[[_ Hc] _] _] Hd.
  by specialize (Hc DOT Hd).
Qed.

Lemma letters_no_dot s : forallb letter s = true -> DOT ∉ s.
Proof. rewrite forallb_Forall, Forall_forall. intros Hc Hd. by specialize (Hc DOT Hd). Qed.

Lemma letter_spec c : letter c = in_cls [lower; upper] c.
Proof. unfold letter, lower_case. cbn. by rewrite orb_false_r. Qed.

(** [pattern] of a label and its dot, repeated. *)
Lemma labels_lang ss :
  Forall (lang (Seq label dot)) ss <-> exists ls, Forall (fun l => label_ok l = true) ls /\ ss = (fun l => l ++ [DOT]) <$> ls.
Proof.
  split.
  - induction 1 as [|s ss Hs _ (ls & Hl & ->)]; [by exists []|].
    apply lang_Seq in Hs as (l & w & -> & Hs%label_lang & (c & -> & Hc)%lang_Class).
    exists (l :: ls). split; [by constructor|]. cbn. do 2 f_equal.
    cbn in Hc. rewrite orb_false_r, andb_true_iff, !Z.leb_le in Hc. unfold DOT. f_equal. lia.
  - intros (ls & Hl & ->). apply Forall_fmap. eapply Forall_impl; [exact Hl|]. intros l Hs. cbn.
    apply lang_Seq. exists l, [DOT]. split; [done|]. split; [by apply label_lang | by constructor].
Qed.

Lemma domain_lang s : lang domain_re s <-> domain_ok s = true.
Proof.
  transitivity (exists ls z, ls <> [] /\ Forall (fun l => label_ok l = true) ls /\ (2 <= length z)%nat /\
    forallb letter z = true /\ s = pieces DOT ls z).
  - unfold domain_re, Plus. rewrite lang_Seq. split.
    + intros (u & z & -> & (u1 & u2 & -> & H1 & (ss & H2 & ->)%lang_Star)%lang_Seq & [Hn Hz]%lang_AtLeast_class).
      destruct (proj1 (labels_lang (u1 :: ss))) as (ls & Hl & E); [by constructor|].
      exists ls, z. split_and!; [by destruct ls | done | done | |].
      * apply forallb_Forall. eapply Forall_impl; [exact Hz|]. intros c. cbn beta. by rewrite letter_spec.
      * unfold pieces. by rewrite <- E.
    + intros (ls & z & Hne & Hl & Hn & Hz & ->).
      pose proof (proj2 (labels_lang _) (ex_intro _ ls (conj Hl eq_refl))) as Hs.
      destruct ls as [|l ls]; [done|]. apply Forall_cons in Hs as [H1 H2].
      eexists _, z. split; [reflexivity|]. split.
      * apply lang_Seq. eexists _, _. split; [reflexivity|]. split; [exact H1|]. apply lang_Star. by eexists.
      * apply lang_AtLeast_class. split; [done|]. apply forallb_Forall in Hz.
        eapply Forall_impl; [exact Hz|]. intros c. cbn beta. by rewrite letter_spec.
  - unfold domain_ok. split.
    + intros (ls & z & Hne & Hl & Hn & Hz & ->). rewrite split_on_pieces;
        [|eapply Forall_impl; [exact Hl | apply label_no_dot] | by apply letters_no_dot].
      rewrite rev_unit, !andb_true_iff, negb_true_iff, bool_decide_eq_false, forallb_Forall, Nat.leb_le, Forall_rev_iff.
      split_and!; try done. intros E. apply (f_equal length) in E. rewrite length_rev in E. by destruct ls.
    + destruct (pieces_of DOT s) as (ls & z & -> & Hl & Hz). rewrite split_on_pieces, rev_unit by done.
      rewrite !andb_true_iff, negb_true_iff, bool_decide_eq_false, forallb_Forall, Nat.leb_le, Forall_rev_iff.
      intros [[[Hne Ho] Hn] Hc]. exists ls, z. split_and!; try done. by intros ->.
Qed.
(** The ids the pattern admits. *)
Lemma tenant_id_lang s : lang tenant_id_re s <-> id_ok s = true.
Proof.
  assert (forall l, forallb (fun c => lower_case c || is_ascii_digit c || (c =? HYPHEN)) l = true <->
    Forall (fun c => in_cls [lower; digit; hyphen] c = true) l) as Hchars.
  { intros l. rewrite forallb_Forall. apply Forall_iff. intros c. unfold lower_case, is_ascii_digit, HYPHEN. cbn.
    rewrite !orb_true_iff, !andb_true_iff, !Z.leb_le, Z.eqb_eq. intuition (try lia; try discriminate). }
  assert (forall c, in_cls [lower; digit] c = true <-> in_cls [lower; digit; hyphen] c = true /\ c <> HYPHEN) as Hend.
  { intros c. unfold HYPHEN. cbn. rewrite !orb_true_iff, !andb_true_iff, !Z.leb_le. intuition (try lia; try discriminate). }
  unfold tenant_id_re, id_ok. rewrite !andb_true_iff, !Nat.leb_le, !bool_decide_eq_true, Hchars, lang_Seq. split.
  - intros (u & v & -> & (a & -> & [Ha1 Ha2]%Hend)%lang_Class
      & (m & w & -> & Hm & (z & -> & [Hz1 Hz2]%Hend)%lang_Class)%lang_Seq).
    apply lang_Between_class in Hm as [Hl Hm]; [|lia]. rewrite !length_app. cbn [length].
    split_and!; [lia | lia | | by intros [= ?] |].
    + constructor; [done|]. apply Forall_app. split; [done | by repeat constructor].
    + change ([a] ++ m ++ [z]) with ((a :: m) ++ [z]). rewrite last_snoc. by intros [= ?].
  - intros [[[[H3 H32] Hc] Hh] Hl]. destruct s as [|a s]; [cbn in H3; lia|].
    destruct s as [|z m _] using rev_ind; [cbn in H3; lia|].
    apply Forall_cons in Hc as [Ha [Hm Hz]%Forall_app]. rewrite app_comm_cons, last_snoc in Hl.
    cbn in H3, H32. rewrite length_app in H3, H32. cbn in H3, H32.
    exists [a], (m ++ [z]). split; [done|]. split; [apply lang_Class; exists a; split; [done|]; apply Hend; split; [done | by intros ->]|].
    apply lang_Seq. exists m, [z]. split; [done|]. split; [apply lang_Between_class; [lia|]; split; [lia | done]|].
    apply lang_Class. exists z. split; [done|]. apply Hend. split; [by inversion Hz | by intros ->].
Qed.

(** The characters of ids and domains. *)
Lemma id_chars i : id_ok i = true -> Forall (fun c => name_char c = true) i.
Proof.
  unfold id_ok. rewrite !andb_true_iff, forallb_Forall. intros [[[_ Hc] _] _]. eapply Forall_impl; [exact Hc|].
  intros c. cbn beta. rewrite name_char_spec. unfold letter. destruct (lower_case c); [done|].
  rewrite !orb_true_iff. naive_solver.
Qed.

Lemma domain_chars d : domain_ok d = true -> Forall (fun c => c = DOT \/ name_char c = true) d.
Proof.
  unfold domain_ok. destruct (pieces_of DOT d) as (ls & z & -> & Hl & Hz). rewrite split_on_pieces, rev_unit by done.
  rewrite !andb_true_iff, !forallb_Forall, Forall_rev_iff. intros [[[_ Ho] _] Hc]. unfold pieces. apply Forall_app. split.
  - apply Forall_concat, Forall_fmap. eapply Forall_impl; [exact Ho|]. intros l Hok. cbn.
    apply Forall_app. split; [|repeat constructor]. unfold label_ok in Hok.
    rewrite !andb_true_iff, name_chars in Hok. destruct Hok as [[[_ Hok] _] _].
    eapply Forall_impl; [exact Hok|]. by right.
  - eapply Forall_impl; [exact Hc|]. intros c Hc'. cbn beta in Hc'. right. by rewrite name_char_spec, Hc'.
Qed.

Lemma id_match `{Matcher} i : is_match tenant_id_re i = id_ok i.
Proof. apply eq_true_iff_eq. by rewrite is_match_spec, tenant_id_lang. Qed.

Lemma domain_match `{Matcher} d : is_match domain_re d = domain_ok d.
Proof. apply eq_true_iff_eq. by rewrite is_match_spec, domain_lang. Qed.

(** ** The errors of a file, tenant by tenant *)

(** Who claims which domain, in file order. *)
Definition claims (ts : list Tenant) : list (str * str) :=
  ts ≫= fun t => (fun d => (d, id t)) <$> domains t.

Definition first_claim (d : str) (cs : list (str * str)) : option str :=
  snd <$> head (filter (fun c => c.1 = d) cs).

(** The errors of a domain of tenant [tid], given the claims before it. *)
Definition domain_errors (before : list (str * str)) (tid d : str) : list ValidationError :=
  (if domain_ok d then [] else [InvalidDomain tid d]) ++
  match first_claim d before with
  | Some prior => if bool_decide (prior <> tid) then [DomainCollision d prior tid] else []
  | None => []
  end.

Fixpoint domains_errors (before : list (str * str)) (tid : str) (ds : list str) : list ValidationError :=
  match ds with
  | [] => []
  | d :: ds' => domain_errors before tid d ++ domains_errors (before ++ [(d, tid)]) tid ds'
  end.

(** The errors of route number [idx]: the path first, then the action. *)
Definition route_errors (tid : str) (idx : nat) (r : Route) : list ValidationError :=
  (if decide (rooted (path r)) then [] else [InvalidRoutePath tid idx]) ++
  match action r with
  | Proxy upstream _ _ => if decide (upstream = []) then [ProxyMissingUpstream tid idx] else []
  | FileServer root _ _ _ => if decide (rooted root) then [] else [FileServerInvalidRoot tid idx]
  end.

Definition tenant_errors (before : list Tenant) (t : Tenant) : list ValidationError :=
  (if bool_decide (id t ∈ id <$> before) then [DuplicateTenantId (id t)] else []) ++
  (if id_ok (id t) then [] else [InvalidTenantId (id t)]) ++
  domains_errors (claims before) (id t) (domains t) ++
  concat (imap (route_errors (id t)) (routes t)).

Fixpoint tenants_errors (before ts : list Tenant) : list ValidationError :=
  match ts with
  | [] => []
  | t :: ts' => tenant_errors before t ++ tenants_errors (before ++ [t]) ts'
  end.

Definition file_errors (file : TenantsFile) : list ValidationError :=
  (if schema_version file =? 1 then [] else [UnsupportedSchemaVersion (schema_version file)]) ++
  tenants_errors [] (tenants file).

(** ** The scan collects them *)

Section errors.
Context `{Matcher}.

Lemma first_claim_app d cs cs' :
  first_claim d (cs ++ cs') =
  match first_claim d cs with Some a => Some a | None => first_claim d cs' end.
Proof.
  unfold first_claim. rewrite filter_app. by destruct (filter _ cs).
Qed.

Lemma first_claim_one d d' tid :
  first_claim d [(d', tid)] = if decide (d' = d) then Some tid else None.
Proof. unfold first_claim. rewrite filter_cons. cbn [fst]. by case_decide. Qed.

(** The table of the scan holds the first claims. *)
Definition tracks (seen : gmap str str) (cs : list (str * str)) : Prop :=
  forall d, seen !! d = first_claim d cs.

Lemma check_domain_exact tid errs seen d before :
  tracks seen before ->
  exists seen', check_domain tid (errs, seen) d = (errs ++ domain_errors before tid d, seen') /\
    tracks seen' (before ++ [(d, tid)]).
Proof.
  intros Hs. unfold check_domain, domain_errors. rewrite (Hs d), domain_match.
  destruct (first_claim d before) as [prior|] eqn:Hc; eexists; (split; [f_equal|]).
  - destruct (domain_ok d); cbn [negb]; destruct (bool_decide (prior <> tid));
      by rewrite ?app_nil_r, <- ?(assoc_L (++)).
  - intros d'. rewrite first_claim_app, first_claim_one, Hs.
    destruct (first_claim d' before) eqn:E; [done|]. by rewrite decide_False by congruence.
  - destruct (domain_ok d); cbn [negb]; by rewrite ?app_nil_r.
  - intros d'. rewrite first_claim_app, first_claim_one. destruct (decide (d = d')) as [<-|Hne].
    + by rewrite lookup_insert_eq, Hc.
    + rewrite lookup_insert_ne, Hs by done. by destruct (first_claim d' before).
Qed.

Lemma check_domains_exact tid ds errs seen before :
  tracks seen before ->
  exists seen', fold_left (check_domain tid) ds (errs, seen) = (errs ++ domains_errors before tid ds, seen') /\
    tracks seen' (before ++ ((fun d => (d, tid)) <$> ds)).
Proof.
  revert errs seen before. induction ds as [|d ds IH]; intros errs seen before Hs; cbn [fold_left domains_errors].
  { exists seen. rewrite !app_nil_r. done. }
  destruct (check_domain_exact tid errs seen d before Hs) as (seen1 & -> & H1).
  destruct (IH (errs ++ domain_errors before tid d) seen1 _ H1) as (seen2 & -> & H2).
  exists seen2. rewrite <- (assoc_L (++)). split; [done|]. rewrite fmap_cons.
  by rewrite <- (assoc_L (++)) in H2.
Qed.

(** One tenant: the scan adds exactly its errors. *)
Definition scanned (before : list Tenant) (st : Scan) : Prop :=
  (forall i, i ∈ seen_ids st <-> i ∈ id <$> before) /\ tracks (seen_domains st) (claims before).

Lemma rooted_check s : is_empty s || negb (starts_with_slash s) = negb (bool_decide (rooted s)).
Proof.
  unfold rooted. destruct s as [|c s]; [done|]. cbn. destruct (Z.eqb_spec c SLASH) as [->|Hne]; [done|].
  rewrite bool_decide_false; [done|]. intros [= ?]. done.
Qed.

Lemma check_route_exact tid idx r : check_route tid idx r = route_errors tid idx r.
Proof.
  unfold check_route, route_errors. rewrite rooted_check. f_equal.
  - by destruct (decide (rooted (path r))) as [Hr|Hr]; [rewrite bool_decide_true | rewrite bool_decide_false].
  - destruct (action r) as [u hh sse|root cc tf sp]; [by destruct u|]. rewrite rooted_check.
    by destruct (decide (rooted root)) as [Hr|Hr]; [rewrite bool_decide_true | rewrite bool_decide_false].
Qed.

Lemma check_tenant_exact before t st :
  scanned before st ->
  errors (check_tenant st t) = errors st ++ tenant_errors before t /\
  scanned (before ++ [t]) (check_tenant st t).
Proof.
  intros [Hi Hs]. unfold check_tenant, tenant_errors.
  assert (claims (before ++ [t]) = claims before ++ ((fun d => (d, id t)) <$> domains t)) as Hc.
  { unfold claims. rewrite bind_app. cbn. by rewrite app_nil_r. }
  set (e0 := if bool_decide (id t ∈ seen_ids st) then _ else _).
  assert (e0 = (errors st ++ (if bool_decide (id t ∈ id <$> before) then [DuplicateTenantId (id t)] else []),
    {[id t]} ∪ seen_ids st)) as ->.
  { unfold e0. rewrite (bool_decide_ext _ _ (Hi (id t))). case_bool_decide as Hd; f_equal.
    - apply Hi in Hd. set_solver.
    - by rewrite app_nil_r. }
  match goal with |- context [fold_left _ _ (?e, _)] =>
    destruct (check_domains_exact (id t) (domains t) e (seen_domains st) _ Hs) as (seen & -> & Hs') end.
  cbn [errors seen_ids seen_domains]. split.
  - rewrite id_match, (imap_ext (check_route (id t)) (route_errors (id t))) by (intros; apply check_route_exact).
    destruct (id_ok (id t)); cbn [negb]; rewrite <- ?(assoc_L (++)); done.
  - split; [|by rewrite Hc]. intros i. cbn. rewrite fmap_app, elem_of_app, elem_of_union, elem_of_singleton, Hi.
    cbn. rewrite list_elem_of_singleton. tauto.
Qed.

Lemma check_tenants_exact ts before st :
  scanned before st ->
  errors (fold_left check_tenant ts st) = errors st ++ tenants_errors before ts.
Proof.
  revert before st. induction ts as [|t ts IH]; intros before st Hs; cbn [fold_left tenants_errors].
  { by rewrite app_nil_r. }
  destruct (check_tenant_exact before t st Hs) as [He Hs']. by rewrite (IH _ _ Hs'), He, (assoc_L (++)).
Qed.

Lemma validate_errors file :
  validate file = match file_errors file with [] => Ok tt | errs => Err errs end.
Proof.
  unfold validate, file_errors. rewrite (check_tenants_exact (tenants file) []).
  - by destruct (schema_version file =? 1).
  - split; [|done]. intros i. cbn. set_solver.
Qed.
End errors.

(** ** No errors, no faults *)

Lemma route_errors_sound tid idx r : route_errors tid idx r = [] <-> route_sound r.
Proof.
  unfold route_errors, route_sound. rewrite app_nil. destruct (decide (rooted (path r))); [|naive_solver].
  destruct (action r) as [u hh sse|root cc tf sp]; case_decide; naive_solver.
Qed.

Lemma routes_errors_sound tid rs : concat (imap (route_errors tid) rs) = [] <-> Forall route_sound rs.
Proof.
  rewrite Forall_lookup. split.
  - intros Hc i r Hr. apply (route_errors_sound tid i).
    assert (imap (route_errors tid) rs !! i = Some (route_errors tid i r)) as Hi
      by (by rewrite list_lookup_imap, Hr).
    apply list_elem_of_lookup_2 in Hi. apply list_elem_of_split in Hi as (l1 & l2 & E).
    rewrite E, concat_app in Hc. cbn in Hc. by apply app_nil in Hc as [_ [? _]%app_nil].
  - intros Hr. assert (Forall (fun l => l = []) (imap (route_errors tid) rs)) as Hf.
    { apply Forall_lookup. intros i l. rewrite list_lookup_imap, fmap_Some. intros (r & Hi & ->).
      by apply route_errors_sound, (Hr i). }
    induction Hf as [|l ls -> _ IH]; [done|]. exact IH.
Qed.

(** Every claim of [ds] by [tid] is the first of its domain or repeats one of
    the same tenant. *)
Lemma domains_errors_nil before tid ds :
  domains_errors before tid ds = [] <->
  Forall (fun d => domain_ok d = true) ds /\ forall d a, d ∈ ds -> first_claim d before = Some a -> a = tid.
Proof.
  revert before. induction ds as [|d ds IH]; intros before; cbn [domains_errors].
  { split; [|done]. intros _. split; [constructor|]. by intros d a ?%elem_of_nil. }
  rewrite app_nil, IH, Forall_cons. unfold domain_errors. rewrite app_nil.
  assert (forall d' a, first_claim d' (before ++ [(d, tid)]) = Some a ->
    first_claim d' before = Some a \/ a = tid) as Happ.
  { intros d' a. rewrite first_claim_app, first_claim_one. destruct (first_claim d' before); [by left|].
    case_decide; [|done]. intros [= <-]. by right. }
  split.
  - intros [[Hm Hc] [Hf Ha]]. split; [split; [by destruct (domain_ok d)|done]|].
    intros d' a [->|Hin]%elem_of_cons Hd.
    + rewrite Hd in Hc. destruct (decide (a = tid)) as [|Hne]; [done|]. by rewrite bool_decide_true in Hc.
    + apply (Ha d'); [done|]. by rewrite first_claim_app, Hd.
  - intros [[Hm Hf] Ha]. split; [split|split; [done|]].
    + by rewrite Hm.
    + destruct (first_claim d before) as [a|] eqn:E; [|done].
      rewrite (Ha d a ltac:(left) E). by rewrite bool_decide_false by (intros []; done).
    + intros d' a Hin [Hd| ->]%Happ; [|done]. apply (Ha d'); [by right | done].
Qed.

Lemma elem_of_claims ts d i : (d, i) ∈ claims ts <-> exists t, t ∈ ts /\ id t = i /\ d ∈ domains t.
Proof.
  unfold claims. rewrite list_elem_of_bind. split.
  - intros (t & Hin & Ht). apply list_elem_of_fmap in Hin as (d' & [= -> ->] & Hd). eauto.
  - intros (t & Ht & <- & Hd). exists t. split; [|done]. apply list_elem_of_fmap. eauto.
Qed.

Lemma first_claim_Some d cs a : first_claim d cs = Some a -> (d, a) ∈ cs.
Proof.
  unfold first_claim. destruct (filter _ cs) as [|[d' a'] l] eqn:E; [done|]. cbn. intros [= <-].
  assert ((d', a') ∈ filter (fun c => c.1 = d) cs) as Hin by (rewrite E; left).
  apply list_elem_of_filter in Hin as [<- ?]. done.
Qed.

Lemma first_claim_None d cs : first_claim d cs = None -> forall a, (d, a) ∉ cs.
Proof.
  unfold first_claim. destruct (filter _ cs) eqn:E; [|done]. intros _ a Hin.
  assert ((d, a) ∈ filter (fun c => c.1 = d) cs) as Hf by (by apply list_elem_of_filter).
  rewrite E in Hf. by apply elem_of_nil in Hf.
Qed.

Lemma tenants_errors_nil before ts :
  tenants_errors before ts = [] <->
  forall l1 t l2, ts = l1 ++ t :: l2 -> tenant_errors (before ++ l1) t = [].
Proof.
  revert before. induction ts as [|t ts IH]; intros before; cbn [tenants_errors].
  { split; [|done]. intros _ l1 t l2 E. by destruct l1. }
  rewrite app_nil, IH. split.
  - intros [Ht Hr] [|t' l1] u l2 E; injection E as -> ->; [by rewrite app_nil_r|].
    specialize (Hr l1 u l2 eq_refl). by rewrite <- (assoc_L (++)) in Hr.
  - intros Hall. split; [rewrite <- (app_nil_r before); by apply (Hall [] t ts)|].
    intros l1 u l2 ->. rewrite <- (assoc_L (++)). by apply (Hall (t :: l1) u l2).
Qed.

(** A tenant without errors, given the tenants before it. *)
Lemma tenant_errors_nil before t :
  tenant_errors before t = [] <->
  id t ∉ id <$> before /\ tenant_sound t /\
  forall u d, u ∈ before -> d ∈ domains u -> d ∉ domains t.
Proof.
  unfold tenant_errors. rewrite !app_nil, routes_errors_sound, domains_errors_nil.
  assert ((if id_ok (id t) then [] else [InvalidTenantId (id t)]) = [] <->
    id_ok (id t) = true) as -> by (by destruct (id_ok (id t))).
  case_bool_decide as Hd; [naive_solver|]. split.
  - intros (_ & Hi & [Hf Hc] & Hr). split; [done|]. split; [by split|]. intros u d Hu Hdu Hdt.
    destruct (first_claim d (claims before)) as [a|] eqn:E.
    + pose proof (Hc d a Hdt E) as ->. apply first_claim_Some, elem_of_claims in E as (w & Hw & Ew & _).
      apply Hd. rewrite <- Ew. by apply list_elem_of_fmap_2.
    + apply (first_claim_None _ _ E (id u)). apply elem_of_claims. eauto.
  - intros (_ & [Hi Hf Hr] & Hc). split_and!; try done.
    intros d a Hdt (u & Hu & _ & Hdu)%first_claim_Some%elem_of_claims. by destruct (Hc u d).
Qed.

Lemma file_errors_nil file : file_errors file = [] <-> file_sound file.
Proof.
  unfold file_errors. rewrite app_nil, tenants_errors_nil.
  assert ((if schema_version file =? 1 then [] else [UnsupportedSchemaVersion (schema_version file)]) = [] <->
    schema_version file = 1) as -> by (by destruct (Z.eqb_spec (schema_version file) 1)).
  split.
  - intros [Hv Hall].
    assert (forall l1 t l2, tenants file = l1 ++ t :: l2 -> id t ∉ id <$> l1 /\ tenant_sound t /\
      forall u d, u ∈ l1 -> d ∈ domains u -> d ∉ domains t) as Ht.
    { intros l1 t l2 E. apply tenant_errors_nil, (Hall l1 t l2 E). }
    split; [done | | |].
    + clear Hall. induction (tenants file) as [|t ts IH] using rev_ind; [constructor|].
      rewrite fmap_app. apply NoDup_app. split_and!.
      * apply IH. intros l1 u l2 ->. apply (Ht l1 u (l2 ++ [t])). by rewrite <- (assoc_L (++)).
      * intros i Hi [->|Hn]%elem_of_cons; [|by apply elem_of_nil in Hn].
        by destruct (Ht ts t [] eq_refl).
      * apply NoDup_singleton.
    + apply Forall_forall. intros t (l1 & l2 & E)%list_elem_of_split. by destruct (Ht l1 t l2 E) as (_ & ? & _).
    + intros t1 t2 d H1 H2 Hd1 Hd2. apply list_elem_of_split in H2 as (l1 & l2 & E). rewrite E in H1.
      apply elem_of_app in H1 as [H1|[->|H1]%elem_of_cons]; [|done|].
      * by destruct (proj2 (proj2 (Ht l1 t2 l2 E)) t1 d H1 Hd1).
      * apply list_elem_of_split in H1 as (l3 & l4 & ->).
        destruct (proj2 (proj2 (Ht (l1 ++ t2 :: l3) t1 l4 ltac:(by rewrite E, <- (assoc_L (++)))))
          t2 d ltac:(set_solver) Hd2 Hd1).
  - intros [Hv Hn Ht Hd]. split; [done|]. intros l1 t l2 E. apply tenant_errors_nil. cbn.
    rewrite E in Hn. rewrite fmap_app, NoDup_app in Hn. destruct Hn as (_ & Hn & _). split_and!.
    + intros Hi. by apply (Hn _ Hi); left.
    + rewrite Forall_forall in Ht. apply Ht. rewrite E. set_solver.
    + intros u d Hu Hdu Hdt. assert (u = t) as -> by (apply (Hd u t d); rewrite ?E; set_solver).
      apply (Hn (id t)); [by apply list_elem_of_fmap_2 | left].
Qed.

Lemma validate_sound `{Matcher} file : validate file = Ok tt <-> file_sound file.
Proof. rewrite validate_errors, <- file_errors_nil. by destruct (file_errors file). Qed.

(** C34. The validator is exact and reports everything: it returns precisely the
    errors of the file, tenant by tenant in file order - the duplicate id, the
    malformed id, each malformed domain, each domain that an earlier tenant
    claimed first, each route without a rooted path, an upstream or a rooted
    directory - and it accepts a file exactly when the file is sound: version
    one, distinct well-formed ids, well-formed domains, no domain in two
    tenants, complete routes. *)
Theorem validate_exact `{Matcher} file :
  validate file = match file_errors file with [] => Ok tt | errs => Err errs end /\
  (validate file = Ok tt <-> file_sound file).
Proof. split; [apply validate_errors | apply validate_sound]. Qed.

(** A file with two faults, and what is reported. *)
Definition demo_tenant (i : string) (ds : list string) : Tenant :=
  mkTenant (lit i) (lit <$> ds) true
    [mkRoute (lit "/api/*") (Proxy (lit "https://backend.example.com") None (Some true));
     mkRoute (lit "/*") (FileServer (lit "/srv/www") None (Some [lit "{path}"; lit "/index.html"]) None)]
    None [mkRedirect (lit "www.example.com") (lit "https://example.com{uri}") true].

Definition demo_file : TenantsFile :=
  mkFile 1 [demo_tenant "edge-a" ["a.example.com"]; demo_tenant "edge-b" ["b.example.com"]].

Definition demo_faulty : TenantsFile :=
  mkFile 1 [demo_tenant "edge-a" ["a.example.com"; "localhost"]; demo_tenant "edge-b" ["a.example.com"]].

Lemma validate_exact_witness :
  file_sound demo_file /\
  validate demo_faulty = Err [InvalidDomain (lit "edge-a") (lit "localhost");
    DomainCollision (lit "a.example.com") (lit "edge-a") (lit "edge-b")].
Proof.
  split.
  - apply (validate_exact demo_file). vm_compute. reflexivity.
  - rewrite (proj1 (validate_exact demo_faulty)). vm_compute. reflexivity.
Defined.

(** ** The shape of what is rendered *)

Lemma rendered_shape ts v : v ∈ render_tenant_routes ts -> validate_caddy_route_shape v = Ok tt.
Proof.
  unfold render_tenant_routes. intros (t & Hv & _)%list_elem_of_bind. unfold render_tenant in Hv.
  destruct (enabled t); cbn [negb] in Hv; [|by apply elem_of_nil in Hv].
  apply elem_of_cons in Hv as [->|(r & -> & _)%list_elem_of_fmap]; reflexivity.
Qed.

Lemma shapes_pass i rs :
  Forall (fun v => validate_caddy_route_shape v = Ok tt) rs -> check_shapes i rs = Ok tt.
Proof. intros H. revert i. induction H as [|v rs Hv _ IH]; intros i; [done|]. cbn. by rewrite Hv. Qed.

(** ** Which route answers for a host *)

Definition ascii_text (s : str) : Prop := Forall (fun c => 0 <= c < 128) s.

(** Equal up to the case of ASCII letters. *)
Definition same_name (a b : str) : Prop := to_ascii_lowercase a = to_ascii_lowercase b.
#[export] Instance same_name_dec a b : Decision (same_name a b).
Proof. unfold same_name. apply _. Defined.

(** Caddy's [host] matcher: a pattern with neither a wildcard nor a placeholder
    is compared without regard to case; what it makes of the others is left
    open. *)
Class HostMatcher := {
  host_matches : str -> str -> bool;
  host_matches_name p h : 42 ∉ p -> 123 ∉ p -> ascii_text p -> ascii_text h ->
    host_matches p h = true <-> same_name p h;
}.

(** The host patterns of a rendered route. *)
Definition route_hosts (v : Value) : list str :=
  match get "match" v with
  | Some (VArray [m]) => match get "host" m with
                         | Some (VArray hs) => omap as_str hs
                         | _ => []
                         end
  | _ => []
  end.

Lemma omap_as_str (l : list str) : omap as_str (VString <$> l) = l.
Proof. induction l as [|s l IH]; [done|]. cbn. by f_equal. Qed.

Lemma main_route_hosts t : route_hosts (render_main_route t) = domains t.
Proof. transitivity (omap as_str (VString <$> domains t)); [reflexivity | apply omap_as_str]. Qed.

Lemma redirect_route_hosts i r : route_hosts (render_redirect_route i r) = [from_host r].
Proof. reflexivity. Qed.

Lemma elem_of_rendered v ts :
  v ∈ render_tenant_routes ts <->
  exists t, t ∈ ts /\ enabled t = true /\
    (v = render_main_route t \/ exists r, r ∈ redirects t /\ v = render_redirect_route (id t) r).
Proof.
  unfold render_tenant_routes. rewrite list_elem_of_bind. split.
  - intros (t & Hv & Ht). exists t. unfold render_tenant in Hv.
    destruct (enabled t); cbn [negb] in Hv; [|by apply elem_of_nil in Hv]. split_and!; [done | done|].
    apply elem_of_cons in Hv as [->|(r & -> & Hr)%list_elem_of_fmap]; [by left | right; by exists r].
  - intros (t & Ht & He & Hv). exists t. split; [|done]. unfold render_tenant. rewrite He. cbn [negb].
    destruct Hv as [->|(r & Hr & ->)]; [left|right]. by apply list_elem_of_fmap_2.
Qed.

(** A domain the validator accepts has neither a wildcard nor a placeholder. *)
Lemma domain_name d : domain_ok d = true -> 42 ∉ d /\ 123 ∉ d /\ ascii_text d.
Proof.
  intros Hall%domain_chars. split_and!.
  - rewrite Forall_forall in Hall. intros Hin. by destruct (Hall 42 Hin).
  - rewrite Forall_forall in Hall. intros Hin. by destruct (Hall 123 Hin).
  - eapply Forall_impl; [exact Hall|]. intros c [->|Hc']; [by unfold DOT|]. unfold name_char in Hc'. cbn in Hc'.
    rewrite !orb_true_iff, !andb_true_iff, !Z.leb_le in Hc'. intuition lia.
Qed.

Section hosts.
Context `{Matcher} `{HostMatcher}.

(** The routes are tried in order and are terminal: the first one with a pattern
    that matches answers. *)
Definition answers (h : str) (v : Value) : bool := existsb (fun p => host_matches p h) (route_hosts v).
Definition first_route (h : str) (rs : list Value) : option Value := head (filter (fun v => answers h v = true) rs).

(** Tenant [u] has a pattern for [h]. *)
Definition takes (h : str) (u : Tenant) : Prop :=
  enabled u = true /\
  ((exists d, d ∈ domains u /\ same_name d h) \/ exists r, r ∈ redirects u /\ host_matches (from_host r) h = true).

Lemma first_route_app h a b :
  first_route h (a ++ b) = match first_route h a with Some v => Some v | None => first_route h b end.
Proof. unfold first_route. rewrite filter_app. by destruct (filter _ a). Qed.

Lemma answers_spec h v : answers h v = true <-> exists p, p ∈ route_hosts v /\ host_matches p h = true.
Proof. unfold answers. rewrite existsb_exists. by setoid_rewrite <- list_elem_of_In. Qed.

Lemma domain_matches d h : domain_ok d = true -> ascii_text h -> host_matches d h = true <-> same_name d h.
Proof. intros (? & ? & ?)%domain_name Hh. by apply host_matches_name. Qed.

(** Some rendered route answers exactly when some tenant has a pattern. *)
Lemma rendered_answers ts h :
  Forall tenant_sound ts -> ascii_text h ->
  (exists v, v ∈ render_tenant_routes ts /\ answers h v = true) <-> exists u, u ∈ ts /\ takes h u.
Proof.
  intros Hs Hh. rewrite Forall_forall in Hs. split.
  - intros (v & (u & Hu & He & Hv)%elem_of_rendered & (p & Hp & Hm)%answers_spec). exists u. split; [done|]. split; [done|].
    destruct Hv as [->|(r & Hr & ->)].
    + rewrite main_route_hosts in Hp. left. exists p. split; [done|]. apply domain_matches; [|done..].
      pose proof (ts_domains _ (Hs u Hu)) as Hd. rewrite Forall_forall in Hd. by apply Hd.
    + rewrite redirect_route_hosts in Hp. apply list_elem_of_singleton in Hp as ->. right. by exists r.
  - intros (u & Hu & He & [(d & Hd & Hn)|(r & Hr & Hm)]).
    + exists (render_main_route u). split; [apply elem_of_rendered; exists u; split_and!; [done | done | by left]|]. apply answers_spec. exists d.
      rewrite main_route_hosts. split; [done|]. apply domain_matches; [|done..].
      pose proof (ts_domains _ (Hs u Hu)) as Hds. rewrite Forall_forall in Hds. by apply Hds.
    + exists (render_redirect_route (id u) r). split; [apply elem_of_rendered; exists u; split_and!; [done | done | right; by exists r]|].
      apply answers_spec. exists (from_host r). rewrite redirect_route_hosts. split; [left | done].
Qed.

Lemma first_route_None h rs : first_route h rs = None <-> ~ exists v, v ∈ rs /\ answers h v = true.
Proof.
  unfold first_route. split.
  - destruct (filter _ rs) eqn:E; [|done]. intros _ (v & Hv & Ha).
    assert (v ∈ filter (fun v => answers h v = true) rs) as Hin by (by apply list_elem_of_filter).
    rewrite E in Hin. by apply elem_of_nil in Hin.
  - intros Hn. rewrite filter_none; [done|]. apply Forall_forall. intros v Hv Ha. apply Hn. by exists v.
Qed.

Lemma first_route_Some h rs v : first_route h rs = Some v -> v ∈ rs.
Proof.
  unfold first_route. destruct (filter _ rs) as [|x l] eqn:E; [done|]. intros [= ->].
  assert (v ∈ filter (fun v => answers h v = true) rs) as Hin by (rewrite E; left).
  by apply list_elem_of_filter in Hin as [_ ?].
Qed.

(** In a sound file two tenants share no domain, so with all domains in lower
    case no other tenant's domain is the same name. *)
Lemma lower_case_apart file l1 t l2 d h u :
  file_sound file -> tenants file = l1 ++ t :: l2 -> d ∈ domains t -> same_name d h ->
  Forall (fun u => Forall (fun d => to_ascii_lowercase d = d) (domains u)) (tenants file) ->
  u ∈ l1 -> takes h u -> exists r, r ∈ redirects u /\ host_matches (from_host r) h = true.
Proof.
  intros [_ Hn _ Hd] E Hdt Hdh Hlow Hu [_ [(d' & Hd' & Hn')|Hr]]; [|done]. exfalso.
  rewrite Forall_forall in Hlow.
  assert (forall x e, x ∈ tenants file -> e ∈ domains x -> to_ascii_lowercase e = e) as Hl.
  { intros x e Hx He. specialize (Hlow x Hx). rewrite Forall_forall in Hlow. by apply Hlow. }
  assert (d' = d) as ->.
  { rewrite <- (Hl u d'), <- (Hl t d) by (rewrite ?E; set_solver). unfold same_name in *. congruence. }
  assert (u = t) as -> by (apply (Hd u t d); rewrite ?E; set_solver).
  rewrite E, fmap_app in Hn. apply NoDup_app in Hn as (_ & Hn & _).
  apply (Hn (id t)); [by apply list_elem_of_fmap_2 | left].
Qed.

(** C35. Who answers for a host: in what is rendered from a file the validator
    accepts, with Caddy trying the routes in order and comparing plain host names
    without regard to case, a request for a domain of an enabled tenant is
    answered by that tenant's own virtual host, as long as no enabled tenant
    before it in the file has a redirect whose pattern matches the host or a
    domain that is the same name; if one has, a route of an earlier tenant
    answers instead.  When all domains are written in lower case the validator
    has excluded the second, and only a redirect, which it does not check, can
    take the host. *)
Theorem host_belongs_to_tenant file l1 t l2 d h :
  validate file = Ok tt -> tenants file = l1 ++ t :: l2 -> enabled t = true ->
  d ∈ domains t -> same_name d h -> ascii_text h ->
  let answer := first_route h (render_tenant_routes (tenants file)) in
  ((forall u, u ∈ l1 -> ~ takes h u) -> answer = Some (render_main_route t)) /\
  ((exists u, u ∈ l1 /\ takes h u) -> exists v, answer = Some v /\ v ∈ render_tenant_routes l1) /\
  (Forall (fun u => Forall (fun d => to_ascii_lowercase d = d) (domains u)) (tenants file) ->
   (forall u r, u ∈ l1 -> enabled u = true -> r ∈ redirects u -> host_matches (from_host r) h = false) ->
   answer = Some (render_main_route t)).
Proof.
  intros Hv%validate_sound E He Hd Hn Hh answer.
  pose proof (fs_tenants _ Hv) as Hs. rewrite E in Hs. apply Forall_app in Hs as [Hs1 [Hst _]%Forall_cons].
  assert (first_route h (render_tenant t ++ (l2 ≫= render_tenant)) = Some (render_main_route t)) as Hown.
  { unfold render_tenant at 1. rewrite He. cbn [negb app]. unfold first_route. rewrite filter_cons_True; [done|].
    apply answers_spec. exists d. rewrite main_route_hosts. split; [done|]. apply domain_matches; [|done..].
    pose proof (ts_domains _ Hst) as Hds. rewrite Forall_forall in Hds. by apply Hds. }
  assert (answer = match first_route h (render_tenant_routes l1) with Some v => Some v
                   | None => Some (render_main_route t) end) as Ha.
  { unfold answer. rewrite E. unfold render_tenant_routes. rewrite bind_app, bind_cons, first_route_app.
    by rewrite Hown. }
  assert ((forall u, u ∈ l1 -> ~ takes h u) -> answer = Some (render_main_route t)) as H1.
  { intros Hno. rewrite Ha. destruct (first_route h (render_tenant_routes l1)) as [v|] eqn:Hf; [|done]. exfalso.
    enough (first_route h (render_tenant_routes l1) = None) by congruence.
    apply first_route_None. rewrite rendered_answers by done. intros (u & Hu & Ht). by apply (Hno u). }
  split_and!; [exact H1 | |].
  - intros Hex%(proj2 (rendered_answers l1 h Hs1 Hh)). rewrite Ha.
    destruct (first_route h (render_tenant_routes l1)) as [v|] eqn:Hf.
    + exists v. split; [done | by apply first_route_Some in Hf].
    + by apply first_route_None in Hf.
  - intros Hlow Hno. apply H1. intros u Hu Ht.
    destruct (lower_case_apart file l1 t l2 d h u) as (r & Hr & Hm); [done..|].
    rewrite (Hno u r) in Hm; [done.. | apply Ht | done].
Qed.
End hosts.

(** A matcher that knows names only. *)
#[export] Program Instance names_only : HostMatcher :=
  {| host_matches p h := bool_decide (same_name p h) |}.
Next Obligation. intros. apply bool_decide_eq_true. Qed.

(** Tenant [edge-a] redirects a host that tenant [edge-b] owns; the file is
    accepted, and the redirect answers for it. *)
Definition demo_hijack : TenantsFile :=
  mkFile 1 [mkTenant (lit "edge-a") [lit "a.example.com"] true [] None
              [mkRedirect (lit "b.example.com") (lit "https://a.example.com") true];
            demo_tenant "edge-b" ["b.example.com"]].

Lemma host_belongs_to_tenant_witness :
  first_route (lit "B.example.com") (render_tenant_routes (tenants demo_file)) =
    Some (render_main_route (demo_tenant "edge-b" ["b.example.com"])) /\
  exists v, first_route (lit "b.example.com") (render_tenant_routes (tenants demo_hijack)) = Some v /\
    v <> render_main_route (demo_tenant "edge-b" ["b.example.com"]).
Proof.
  split.
  - apply (host_belongs_to_tenant (H := deriv_matcher) demo_file [demo_tenant "edge-a" ["a.example.com"]] _ []
      (lit "b.example.com"));
      [vm_compute; reflexivity | reflexivity | reflexivity | left | vm_compute; reflexivity | | |].
    + repeat constructor; discriminate.
    + repeat constructor.
    + intros u r ->%list_elem_of_singleton _ ->%list_elem_of_singleton. vm_compute. reflexivity.
  - destruct (host_belongs_to_tenant (H := deriv_matcher) demo_hijack
      [mkTenant (lit "edge-a") [lit "a.example.com"] true [] None
         [mkRedirect (lit "b.example.com") (lit "https://a.example.com") true]]
      (demo_tenant "edge-b" ["b.example.com"]) [] (lit "b.example.com") (lit "b.example.com")
      ltac:(vm_compute; reflexivity) ltac:(reflexivity) ltac:(reflexivity) ltac:(left) ltac:(reflexivity)
      ltac:(repeat constructor; discriminate)) as (_ & Hr & _).
    destruct Hr as (v & Hv & Hin).
    { eexists. split; [left|]. split; [reflexivity|]. right. eexists. split; [left | vm_compute; reflexivity]. }
    exists v. split; [exact Hv|]. intros ->. apply elem_of_rendered in Hin as (u & ->%list_elem_of_singleton & _ & [E|(r & _ & E)]);
      discriminate E.
Defined.
