(* ===== verification/OpecDiffFacts.v ===== *)
(** * Theorems on the diffs

    Applying a route diff to the live routes gives the proposed ones, whatever
    order the hash maps were walked in; the dry run; what the tenant diff sees
    and what it does not. *)

From Stdlib Require Import ZArith Lia.
From stdpp Require Import base option numbers gmap strings list sorting.
From S2P Require Import Prelude RustStr Regex StrOrder OpecTenant OpecDiff OpecTenantFacts.

(** ** Equality of values *)

Section value_induction.
Variable P : Value -> Prop.
Hypothesis P_null : P VNull.
Hypothesis P_bool : forall b, P (VBool b).
Hypothesis P_number : forall n, P (VNumber n).
Hypothesis P_string : forall s, P (VString s).
Hypothesis P_array : forall vs, Forall P vs -> P (VArray vs).
Hypothesis P_object : forall ms, Forall (fun m => P m.2) ms -> P (VObject ms).

Fixpoint value_nested_ind (v : Value) : P v :=
  match v with
  | VNull => P_null
  | VBool b => P_bool b
  | VNumber n => P_number n
  | VString s => P_string s
  | VArray vs =>
      P_array vs ((fix go vs : Forall P vs :=
        match vs with
        | [] => @List.Forall_nil _ P
        | v :: vs => @List.Forall_cons _ P v vs (value_nested_ind v) (go vs)
        end) vs)
  | VObject ms =>
      P_object ms ((fix go ms : Forall (fun m => P m.2) ms :=
        match ms with
        | [] => @List.Forall_nil _ (fun m => P m.2)
        | m :: ms => @List.Forall_cons _ (fun m => P m.2) m ms (value_nested_ind m.2) (go ms)
        end) ms)
  end.
End value_induction.

Lemma value_eqb_spec v w : value_eqb v w = true <-> v = w.
Proof.
  revert w. induction v as [|b|n|s|vs IH|ms IH] using value_nested_ind; intros w;
    destruct w as [|b'|n'|s'|ws|ns]; cbn [value_eqb]; try (split; congruence).
  - rewrite Bool.eqb_true_iff. split; congruence.
  - rewrite Z.eqb_eq. split; congruence.
  - rewrite bool_decide_eq_true. split; congruence.
  - enough (value_eqb (VArray vs) (VArray ws) = true <-> vs = ws) as E.
    { cbn [value_eqb] in E. rewrite E. split; congruence. }
    revert ws. induction IH as [|v vs Hv _ IHvs]; intros [|w ws]; try done.
    cbn [value_eqb] in *. rewrite andb_true_iff, Hv, IHvs. split; [intros [-> ->]; done | by intros [= -> ->]].
  - enough (value_eqb (VObject ms) (VObject ns) = true <-> ms = ns) as E.
    { cbn [value_eqb] in E. rewrite E. split; congruence. }
    revert ns. induction IH as [|[k v] ms Hv _ IHms]; intros [|[l w] ns]; try done.
    cbn [value_eqb fst snd] in *. rewrite !andb_true_iff, bool_decide_eq_true, Hv, IHms.
    split; [intros [[-> ->] ->]; done | by intros [= -> -> ->]].
Qed.

#[export] Instance Value_eq_dec : EqDecision Value.
Proof.
  intros v w. destruct (value_eqb v w) eqn:E; [left; by apply value_eqb_spec|].
  right. intros H. apply value_eqb_spec in H. congruence.
Defined.

(** ** The route diff *)

Lemma elem_of_walk `{HashWalk} {A} (m : gmap str A) i v : (i, v) ∈ walk m <-> m !! i = Some v.
Proof. rewrite walk_perm. apply elem_of_map_to_list. Qed.

Lemma walk_keys `{HashWalk} {A} (m : gmap str A) : NoDup (walk m).*1.
Proof. rewrite walk_perm. apply NoDup_fst_map_to_list. Qed.

Lemma collect_Some {A} (l : list (str * A)) i v : collect l !! i = Some v -> (i, v) ∈ l.
Proof. unfold collect. intros H%elem_of_list_to_map_2. by apply list_elem_of_In, in_rev, list_elem_of_In in H. Qed.

Lemma id_map_Some rs i v : id_map rs !! i = Some v -> route_id v = Some i /\ v ∈ rs.
Proof.
  unfold id_map. intros H%collect_Some. apply list_elem_of_omap in H as (w & Hw & E).
  apply fmap_Some in E as (j & Hj & [= -> ->]). done.
Qed.

(** The routes by their ids, after the diff is applied to [m]. *)
Definition apply_diff (d : RouteDiff) (m : gmap str Value) : gmap str Value :=
  list_to_map ((fun c => (c.1.1, c.2)) <$> changed d) ∪
  (list_to_map (omap (fun v => (fun i => (i, v)) <$> route_id v) (added d)) ∪
   filter (fun '(i, _) => i ∉ removed d) m).

(** A selection from the walk of a map keeps the keys distinct. *)
Lemma omap_keys {A B} (f : str * A -> option B) (key : B -> str) (l : list (str * A)) :
  NoDup l.*1 -> (forall i v y, f (i, v) = Some y -> key y = i \/ (i, v) ∉ l) ->
  NoDup (key <$> omap f l).
Proof.
  induction l as [|[i v] l IH]; intros Hn Hk; [constructor|].
  apply NoDup_cons in Hn as [Hi Hn]. cbn [omap list_omap].
  assert (NoDup (key <$> omap f l)) as Hrec.
  { apply IH; [done|]. intros j w y Hf. destruct (Hk j w y Hf) as [?|Hni]; [by left|]. right.
    by apply not_elem_of_cons in Hni as [_ ?]. }
  destruct (f (i, v)) as [y|] eqn:Hf; [|done]. cbn [fmap list_fmap]. apply NoDup_cons. split; [|done].
  destruct (Hk i v y Hf) as [->|Hni]; [|by destruct Hni; left].
  intros (y' & E & (jw & Hin & Hf')%list_elem_of_omap)%list_elem_of_fmap. destruct jw as [j w].
  destruct (Hk j w y' Hf') as [Hj|Hni]; [|by destruct Hni; right].
  apply Hi. cbn. rewrite E, Hj. by apply (list_elem_of_fmap_2 fst) in Hin.
Qed.

Lemma differ_keys `{HashWalk} (m1 m2 : gmap str Value) :
  NoDup ((fun c => c.1.1) <$> filter (fun '(_, l, p) => value_eqb l p = false)
    (omap (fun '(i, p) => (fun l => (i, l, p)) <$> m1 !! i) (walk m2))).
Proof.
  eapply sublist_NoDup; [apply (omap_keys
    (fun '(i, p) => (fun l => (i, l, p)) <$> m1 !! i) (fun c => c.1.1) (walk m2))
    |apply fmap_sublist, sublist_filter].
  - apply walk_keys.
  - intros i v y E. apply fmap_Some in E as (l & _ & ->). by left.
Qed.

Section exact.
Context `{HashWalk}.
Variables live proposed : list Value.
#[local] Abbreviation d := (diff_routes live proposed).

Lemma elem_of_added v :
  v ∈ added d <-> exists i, id_map proposed !! i = Some v /\ id_map live !! i = None.
Proof.
  cbn [diff_routes added]. rewrite sort_by_key_perm, list_elem_of_omap. split.
  - intros ([i w] & Hin & Hw). apply elem_of_walk in Hin. exists i.
    destruct (id_map live !! i); [done|]. by injection Hw as ->.
  - intros (i & Hp & Hl). exists (i, v). rewrite elem_of_walk, Hl. done.
Qed.

Lemma elem_of_removed i :
  i ∈ removed d <-> is_Some (id_map live !! i) /\ id_map proposed !! i = None.
Proof.
  cbn [diff_routes removed]. unfold sort_strs. rewrite sort_by_key_perm, list_elem_of_omap. split.
  - intros ([j w] & Hin & Hw). apply elem_of_walk in Hin.
    destruct (id_map proposed !! j) eqn:E; [done|]. injection Hw as ->. split; [by eexists | done].
  - intros [[v Hl] Hp]. exists (i, v). rewrite elem_of_walk, Hp. done.
Qed.

Lemma elem_of_changed i l p :
  (i, l, p) ∈ changed d <-> id_map live !! i = Some l /\ id_map proposed !! i = Some p /\ l <> p.
Proof.
  cbn [diff_routes changed]. rewrite sort_by_key_perm, list_elem_of_filter, list_elem_of_omap. split.
  - intros [Hd ([j w] & Hin & Hw)]. apply elem_of_walk in Hin.
    destruct (id_map live !! j) as [l'|] eqn:E; [|done]. injection Hw as -> -> ->.
    split_and!; [done | done|]. intros ->. by rewrite (proj2 (value_eqb_spec p p) eq_refl) in Hd.
  - intros (Hl & Hp & Hne). split.
    + destruct (value_eqb l p) eqn:E; [|done]. by apply value_eqb_spec in E.
    + exists (i, p). rewrite elem_of_walk, Hl. done.
Qed.

Lemma lookup_added i :
  list_to_map (M := gmap str Value) (omap (fun v => (fun i => (i, v)) <$> route_id v) (added d)) !! i =
  match id_map live !! i with None => id_map proposed !! i | Some _ => None end.
Proof.
  assert (forall v, (i, v) ∈ omap (fun v => (fun i => (i, v)) <$> route_id v) (added d) <->
    id_map proposed !! i = Some v /\ id_map live !! i = None) as Hin.
  { intros v. rewrite list_elem_of_omap. split.
    - intros (w & (j & Hp & Hl)%elem_of_added & (k & Hk & [= -> ->])%fmap_Some).
      destruct (id_map_Some _ _ _ Hp) as [Hj _]. rewrite Hk in Hj. by injection Hj as <-.
    - intros [Hp Hl]. exists v. split; [apply elem_of_added; by exists i|].
      by destruct (id_map_Some _ _ _ Hp) as [-> _]. }
  match goal with |- ?m !! i = _ => destruct (m !! i) as [v|] eqn:E end.
  - apply elem_of_list_to_map_2, Hin in E as [-> ->]. done.
  - apply not_elem_of_list_to_map_2 in E. destruct (id_map live !! i) eqn:El; [done|].
    destruct (id_map proposed !! i) as [v|] eqn:Ep; [|done]. destruct E.
    apply (list_elem_of_fmap_2' fst _ (i, v)); [by apply Hin | done].
Qed.

Lemma lookup_changed i :
  list_to_map (M := gmap str Value) ((fun c => (c.1.1, c.2)) <$> changed d) !! i =
  match id_map live !! i, id_map proposed !! i with
  | Some l, Some p => if decide (l = p) then None else Some p
  | _, _ => None
  end.
Proof.
  match goal with |- ?m !! i = _ => destruct (m !! i) as [v|] eqn:E end.
  - apply elem_of_list_to_map_2 in E. apply list_elem_of_fmap in E as ([[j l] p] & [= -> ->] & Hc).
    apply elem_of_changed in Hc as (-> & -> & Hne). by rewrite decide_False.
  - apply not_elem_of_list_to_map_2 in E. destruct (id_map live !! i) as [l|] eqn:El; [|done].
    destruct (id_map proposed !! i) as [p|] eqn:Ep; [|done]. case_decide as Hd; [done|]. destruct E.
    rewrite <- list_fmap_compose. apply (list_elem_of_fmap_2' _ _ (i, l, p)); [by apply elem_of_changed | done].
Qed.

(** The three parts in one lookup. *)
Lemma union_Some (x : Value) (my : option Value) : Some x ∪ my = Some x.
Proof. by destruct my. Qed.

Lemma apply_diff_exact : apply_diff d (id_map live) = id_map proposed.
Proof.
  apply map_eq. intros i. unfold apply_diff. rewrite !lookup_union, lookup_changed, lookup_added.
  rewrite map_lookup_filter. destruct (id_map live !! i) as [l|] eqn:El;
    destruct (id_map proposed !! i) as [p|] eqn:Ep.
  - case_decide as Hd; [|apply union_Some]. subst. rewrite !(left_id_L None (∪)). cbn.
    rewrite option_guard_True; [done|]. rewrite elem_of_removed, Ep. by intros [_ ?].
  - rewrite !(left_id_L None (∪)). cbn. rewrite option_guard_False; [done|].
    intros Hn. apply Hn, elem_of_removed. rewrite El. split; [by eexists | done].
  - rewrite (left_id_L None (∪)). apply union_Some.
  - done.
Qed.

(** Nothing to do exactly when the two sides agree. *)
Lemma diff_empty :
  (added d = [] /\ removed d = [] /\ changed d = []) <-> id_map live = id_map proposed.
Proof.
  split.
  - intros (Ha & Hr & Hc). rewrite <- apply_diff_exact. unfold apply_diff. rewrite Ha, Hr, Hc. cbn.
    rewrite !(left_id_L ∅ (∪)). apply map_eq. intros i. rewrite map_lookup_filter.
    destruct (id_map live !! i); [|done]. cbn. rewrite option_guard_True; [done | apply not_elem_of_nil].
  - intros E. split_and!; apply elem_of_nil_inv.
    + intros v (i & Hp & Hl)%elem_of_added. congruence.
    + intros i [[v Hl] Hp]%elem_of_removed. congruence.
    + intros [[i l] p] (Hl & Hp & Hne)%elem_of_changed. congruence.
Qed.
End exact.

(** Every proposed route is counted once. *)
Lemma diff_counts `{HashWalk} live proposed :
  let d := diff_routes live proposed in
  (length (added d) + length (changed d) + unchanged d = size (id_map proposed))%nat.
Proof.
  cbn [diff_routes added changed unchanged]. rewrite !sort_by_key_perm, <- length_map_to_list, <- walk_perm.
  induction (walk (id_map proposed)) as [|[i p] l IH]; [done|]. cbn [omap list_omap].
  destruct (id_map live !! i) as [lv|]; cbn [fmap option_fmap option_map].
  - rewrite !filter_cons. repeat case_decide; cbn [length]; try lia; destruct (value_eqb lv p); congruence.
  - cbn [length]. lia.
Qed.

(** The walk does not show. *)
Lemma diff_deterministic (w1 w2 : HashWalk) live proposed :
  diff_routes (H := w1) live proposed = diff_routes (H := w2) live proposed.
Proof.
  assert (forall A (m : gmap str A), walk (HashWalk := w1) m ≡ₚ walk (HashWalk := w2) m) as Hw
    by (intros; by rewrite !walk_perm).
  unfold diff_routes. f_equal.
  - apply sort_by_key_unique; [|by rewrite Hw].
    apply omap_keys; [apply (walk_keys (H := w1))|]. intros i v y E.
    destruct (id_map live !! i); [done|]. injection E as <-.
    destruct (id_map proposed !! i) as [v'|] eqn:Ep.
    + destruct (decide (v' = v)) as [->|Hne].
      * left. by destruct (id_map_Some _ _ _ Ep) as [-> _].
      * right. rewrite (elem_of_walk (H := w1)), Ep. congruence.
    + right. rewrite (elem_of_walk (H := w1)), Ep. done.
  - apply sort_by_key_unique; [|by rewrite Hw]. apply omap_keys; [apply (walk_keys (H := w1))|].
    intros i v y E. destruct (id_map proposed !! i); [done|]. injection E as <-. by left.
  - apply sort_by_key_unique; [apply (differ_keys (H := w1)) | by rewrite Hw].
  - by rewrite Hw.
Qed.

(** The route diff is a correct patch: applied to the live routes it gives
    exactly the proposed ones, by id; it is empty exactly when the two agree;
    every proposed route is counted once as added, changed or unchanged; and
    the order in which the hash maps are walked does not show. *)
Theorem route_diff_exact (w : HashWalk) live proposed :
  let d := diff_routes live proposed in
  apply_diff d (id_map live) = id_map proposed /\
  ((added d = [] /\ removed d = [] /\ changed d = []) <-> id_map live = id_map proposed) /\
  (length (added d) + length (changed d) + unchanged d = size (id_map proposed))%nat /\
  forall w' : HashWalk, diff_routes (H := w') live proposed = d.
Proof.
  cbv zeta. split_and!.
  - apply apply_diff_exact.
  - apply diff_empty.
  - apply diff_counts.
  - intros w'. apply diff_deterministic.
Qed.

(** ** The ids of rendered routes *)

Lemma colon_split (i j x y : str) :
  58 ∉ i -> 58 ∉ j -> i ++ 58 :: x = j ++ 58 :: y -> i = j /\ x = y.
Proof.
  intros Hi Hj E. assert (split_once 58 (i ++ 58 :: x) = Some (i, x)) as H1 by (by apply split_once_Some).
  assert (split_once 58 (j ++ 58 :: y) = Some (j, y)) as H2 by (by apply split_once_Some).
  rewrite E, H2 in H1. by injection H1 as -> ->.
Qed.

Lemma tenant_id_no_colon i : id_ok i = true -> 58 ∉ i.
Proof. intros Hl%id_chars Hin. rewrite Forall_forall in Hl. by apply Hl in Hin. Qed.

Lemma main_route_named t : route_id (render_main_route t) = Some (main_route_id (id t)).
Proof. reflexivity. Qed.

Lemma redirect_route_named i r : route_id (render_redirect_route i r) = Some (redirect_route_id i (from_host r)).
Proof. reflexivity. Qed.

(** Where a route with a given id comes from. *)
Lemma rendered_id_inj ts t u v w :
  Forall tenant_sound ts -> t ∈ ts -> u ∈ ts ->
  (v = render_main_route t \/ exists r, r ∈ redirects t /\ v = render_redirect_route (id t) r) ->
  (w = render_main_route u \/ exists r, r ∈ redirects u /\ w = render_redirect_route (id u) r) ->
  route_id v = route_id w ->
  id t = id u /\
  (v = render_main_route t /\ w = render_main_route u \/
   exists r r', r ∈ redirects t /\ r' ∈ redirects u /\ from_host r = from_host r' /\
     v = render_redirect_route (id t) r /\ w = render_redirect_route (id u) r').
Proof.
  intros Hs Ht Hu Hv Hw E. rewrite Forall_forall in Hs.
  pose proof (tenant_id_no_colon _ (ts_id _ (Hs t Ht))) as Ct.
  pose proof (tenant_id_no_colon _ (ts_id _ (Hs u Hu))) as Cu.
  destruct Hv as [->|(r & Hr & ->)], Hw as [->|(r' & Hr' & ->)];
    rewrite ?main_route_named, ?redirect_route_named in E; apply (inj Some) in E;
    unfold main_route_id, redirect_route_id in E; apply app_inv_head in E.
  - auto.
  - exfalso. apply Ct. rewrite E. apply elem_of_app. right. left.
  - exfalso. apply Cu. rewrite <- E. apply elem_of_app. right. left.
  - apply colon_split in E as [Hi Hh]; [|done|done]. apply (app_inv_head (lit "redirect:")) in Hh.
    split; [done|]. right. by exists r, r'.
Qed.

Lemma collect_unique {A} (l : list (str * A)) i v :
  (i, v) ∈ l -> (forall w, (i, w) ∈ l -> w = v) -> collect l !! i = Some v.
Proof.
  intros Hin Hu. unfold collect. apply elem_of_list_to_map_1'.
  - intros w Hw%list_elem_of_In%in_rev%list_elem_of_In. by rewrite (Hu w).
  - by apply list_elem_of_In, in_rev; rewrite rev_involutive; apply list_elem_of_In.
Qed.

Lemma NoDup_fmap_inj {A B} (f : A -> B) (l : list A) x y :
  NoDup (f <$> l) -> x ∈ l -> y ∈ l -> f x = f y -> x = y.
Proof.
  intros Hn Hx Hy E. apply list_elem_of_lookup in Hx as [i Hi]. apply list_elem_of_lookup in Hy as [j Hj].
  assert (i = j) as ->; [|congruence].
  eapply NoDup_lookup; [exact Hn | by rewrite list_lookup_fmap, Hi|]. rewrite list_lookup_fmap, Hj. cbn. by rewrite E.
Qed.

(** Rendered routes with one id are one route. *)
Lemma rendered_unique ts v w :
  Forall tenant_sound ts -> NoDup (id <$> ts) -> Forall (fun t => NoDup (from_host <$> redirects t)) ts ->
  v ∈ render_tenant_routes ts -> w ∈ render_tenant_routes ts -> route_id v = route_id w -> w = v.
Proof.
  intros Hs Hn Hr (t & Ht & _ & Hv)%elem_of_rendered (u & Hu & _ & Hw)%elem_of_rendered E.
  destruct (rendered_id_inj ts t u v w Hs Ht Hu Hv Hw E) as [Hi Hcase].
  pose proof (NoDup_fmap_inj id ts t u Hn Ht Hu Hi) as <-.
  destruct Hcase as [[-> ->]|(r & r' & Hr1 & Hr2 & Hh & -> & ->)]; [done|].
  rewrite Forall_forall in Hr. by rewrite (NoDup_fmap_inj from_host (redirects t) r r' (Hr t Ht) Hr1 Hr2 Hh).
Qed.

Lemma rendered_named ts v : v ∈ render_tenant_routes ts -> is_Some (route_id v).
Proof.
  intros (t & _ & _ & [->|(r & _ & ->)])%elem_of_rendered;
    rewrite ?main_route_named, ?redirect_route_named; by eexists.
Qed.

(** The dry run: it either reports exactly the errors of the file or
    proposes exactly the rendered routes with the number of enabled tenants,
    and the check of their shape never fails; when no tenant redirects one host
    twice, every proposed route has an id of its own, so none is lost in the
    diff against the live routes. *)
Theorem reconcile_exact `{Matcher} file :
  cmd_reconcile true file =
    match file_errors file with
    | [] => Ok (render_tenant_routes (tenants file),
                length (filter (fun t => enabled t = true) (tenants file)))
    | errs => Err (Invalid errs)
    end /\
  (validate file = Ok tt -> Forall (fun t => NoDup (from_host <$> redirects t)) (tenants file) ->
   forall v, v ∈ render_tenant_routes (tenants file) ->
     exists i, route_id v = Some i /\ id_map (render_tenant_routes (tenants file)) !! i = Some v).
Proof.
  split.
  - unfold cmd_reconcile. cbn [negb]. rewrite validate_errors. destruct (file_errors file); [|done].
    rewrite shapes_pass; [done|]. apply Forall_forall. apply rendered_shape.
  - intros [_ Hn Hs _]%validate_sound Hr v Hv. destruct (rendered_named _ _ Hv) as [i Hi].
    exists i. split; [done|]. unfold id_map. apply collect_unique.
    + apply list_elem_of_omap. exists v. by rewrite Hi.
    + intros w (w' & Hw & (j & Hj & [= -> ->])%fmap_Some)%list_elem_of_omap.
      eapply rendered_unique; [done.. | congruence].
Qed.

Lemma reconcile_exact_witness :
  (exists rs, cmd_reconcile true demo_file = Ok (rs, 2%nat) /\ length rs = 4%nat) /\
  forall v, v ∈ render_tenant_routes (tenants demo_file) ->
    exists i, route_id v = Some i /\ id_map (render_tenant_routes (tenants demo_file)) !! i = Some v.
Proof.
  split.
  - eexists. rewrite (proj1 (reconcile_exact demo_file)). split; [vm_compute; reflexivity | reflexivity].
  - apply (proj2 (reconcile_exact (H := deriv_matcher) demo_file)); [vm_compute; reflexivity|].
    repeat constructor; apply not_elem_of_nil.
Defined.

(** One host redirected twice: the file is accepted, two routes are proposed
    under one id, and the first is lost. *)
Example redirect_lost :
  let t := mkTenant (lit "edge-a") [lit "a.example.com"] true [] None
             [mkRedirect (lit "b.example.com") (lit "https://x.example.com") true;
              mkRedirect (lit "b.example.com") (lit "https://y.example.com") true] in
  validate (mkFile 1 [t]) = Ok tt /\ length (render_tenant_routes [t]) = 3%nat /\
  size (id_map (render_tenant_routes [t])) = 2%nat.
Proof. split_and!; vm_compute; reflexivity. Qed.

(** ** The tenant diff *)

(** Tenants that differ in redirects and security headers only. *)
Definition same_routing (t u : Tenant) : Prop :=
  id t = id u /\ domains t = domains u /\ enabled t = enabled u /\ routes t = routes u.

Lemma compare_same `{HashWalk} i t u : same_routing t u -> compare_tenants i t u = None.
Proof.
  intros (_ & Hd & He & Hr). unfold compare_tenants, changed_paths, paths. rewrite Hd, He, Hr.
  assert (symmetric_difference (list_to_set (path <$> routes u)) (list_to_set (path <$> routes u)) = ∅) as ->
    by (unfold symmetric_difference; set_solver).
  assert (walk_set ∅ = []) as ->.
  { apply Permutation_nil_r. by rewrite walk_set_perm, elements_empty. }
  rewrite filter_none; [|apply Forall_forall; by intros p _ []].
  rewrite bool_decide_true by done. by rewrite (bool_decide_true (domains u = domains u)), Bool.eqb_reflx.
Qed.

Lemma list_to_map_pairwise {A} (R : A -> A -> Prop) (l r : list (str * A)) i :
  Forall2 (fun x y => x.1 = y.1 /\ R x.2 y.2) l r ->
  option_Forall2 R (list_to_map (M := gmap str A) l !! i) (list_to_map (M := gmap str A) r !! i).
Proof.
  induction 1 as [|[j x] [k y] l r [Hk HR] _ IH]; [constructor|]. cbn in Hk, HR. subst k.
  destruct (decide (j = i)) as [->|Hne].
  - rewrite !list_to_map_cons, !lookup_insert_eq. by constructor.
  - by rewrite !list_to_map_cons, !lookup_insert_ne.
Qed.

Lemma tenant_map_pairwise left right i :
  Forall2 same_routing (tenants left) (tenants right) ->
  option_Forall2 same_routing (tenant_map left !! i) (tenant_map right !! i).
Proof.
  intros Hf. unfold tenant_map, collect. apply list_to_map_pairwise.
  assert (forall l r, Forall2 same_routing l r ->
    Forall2 (fun x y => x.1 = y.1 /\ same_routing x.2 y.2)
      (rev ((fun t => (id t, t)) <$> l)) (rev ((fun t => (id t, t)) <$> r))) as Hrev; [|by apply Hrev].
  induction 1 as [|t u l r Htu _ IH]; [constructor|]. cbn. apply Forall2_app; [done|].
  constructor; [split; [apply Htu | done] | constructor].
Qed.

(** What the tenant diff does not see: two files whose tenants agree in id,
    domains, switch and routes are reported as having no differences, however
    their redirects and security headers differ.  The witness has two such files
    from which different routes are rendered. *)
Theorem tenant_diff_blind `{HashWalk} left right :
  Forall2 same_routing (tenants left) (tenants right) ->
  cmd_diff left right = mkOutput [] [] [].
Proof.
  intros Hf. pose proof (fun i => tenant_map_pairwise left right i Hf) as Hm. unfold cmd_diff.
  assert (dom (tenant_map left) = dom (tenant_map right)) as Hdom.
  { apply set_eq. intros i. rewrite !elem_of_dom. specialize (Hm i). by destruct Hm. }
  rewrite Hdom, difference_diag_L. assert (walk_set ∅ = []) as ->.
  { apply Permutation_nil_r. by rewrite walk_set_perm, elements_empty. }
  f_equal. induction (sort_strs _) as [|i l IH]; [done|]. cbn [omap list_omap].
  specialize (Hm i). destruct Hm as [t u Htu|]; [|done]. by rewrite compare_same.
Qed.

Lemma tenant_diff_blind_witness :
  let t1 := demo_tenant "edge-a" ["a.example.com"] in
  let t2 := mkTenant (id t1) (domains t1) true (routes t1) (Some (lit "strict")) [] in
  cmd_diff (mkFile 1 [t1]) (mkFile 1 [t2]) = mkOutput [] [] [] /\
  render_tenant_routes [t1] <> render_tenant_routes [t2].
Proof.
  split; [|discriminate]. apply tenant_diff_blind. repeat constructor.
Defined.
