(* ===== verification/OpecRender.v ===== *)
(** * Rendering configuration templates
      (crates/opec/src/render/)

    Substitution of placeholders from the environment, the five kinds of
    template with their checks, and the node's secret file.  The regular
    expression engine is the class [Placeholders], with the documented meaning
    of [replace_all]; JSON and YAML parsers are parameters.  The file system is
    what a call finds (the template, the destination directory, whether the
    write succeeds) and what it leaves at the destination. *)

From Stdlib Require Import ZArith Lia.
From stdpp Require Import base option numbers gmap strings list.
From S2P Require Import Prelude RustStr PartnerKeys.

Definition LBRACE : Z := 123.
Definition RBRACE : Z := 125.

(** ** Placeholders *)

Definition is_upper (c : Z) : bool := (65 <=? c) && (c <=? 90).
Definition is_name_char (c : Z) : bool := is_upper c || is_ascii_digit c || (c =? 95).

(** [[A-Z][A-Z0-9_]*] *)
Definition is_name (n : str) : bool :=
  match n with c :: n' => is_upper c && forallb is_name_char n' | [] => false end.

Definition placeholder (n : str) : str := [LBRACE; LBRACE] ++ n ++ [RBRACE; RBRACE].

(** [s] begins with a match of the pattern. *)
Definition begins_match (s : str) : Prop :=
  exists n rest, is_name n = true /\ s = placeholder n ++ rest.

(** [replace_all]: from left to right, each match is replaced and skipped. *)
Inductive substituted (f : str -> str) : str -> str -> Prop :=
| sub_end : substituted f [] []
| sub_char c s out : ~ begins_match (c :: s) -> substituted f s out -> substituted f (c :: s) (c :: out)
| sub_match n s out : is_name n = true -> substituted f s out ->
    substituted f (placeholder n ++ s) (f n ++ out).

Class Placeholders := {
  replace_all : (str -> str) -> str -> str;
  replace_all_spec f tpl : substituted f tpl (replace_all f tpl);
}.

Definition Vars := str -> option str.

Definition substitute_from_env `{Placeholders} (vars : Vars) (tpl : str) : str :=
  replace_all (fun n => default [] (vars n)) tpl.

(** ** Text *)

(** [str::lines]: a line end may be preceded by a carriage return, and the
    text after the last one is a line only when it is not empty. *)
Definition strip_cr (l : str) : str :=
  match rev l with c :: r => if c =? CR then rev r else l | [] => l end.

Fixpoint str_lines_of (segments : list str) : list str :=
  match segments with
  | [] => []
  | [l] => if is_empty l then [] else [l]
  | l :: ls => strip_cr l :: str_lines_of ls
  end.
Definition str_lines (s : str) : list str := str_lines_of (lines s).

Definition trim_start (s : str) : str := drop_while is_whitespace s.
Definition contains (c : Z) (s : str) : bool := existsb (Z.eqb c) s.
Definition count (c : Z) (s : str) : nat := length (filter (fun x => x = c) s).

(** [str::replace] and [str::contains] with a non-empty text; [skip] is what is
    left of a match. *)
Fixpoint replace_from (skip : nat) (pat rep s : str) : str :=
  match s with
  | [] => []
  | c :: s' =>
      match skip with
      | S k => replace_from k pat rep s'
      | O => match strip_prefix pat s with
             | Some _ => rep ++ replace_from (length pat - 1) pat rep s'
             | None => c :: replace_from 0 pat rep s'
             end
      end
  end.
Definition replace (pat rep s : str) : str := replace_from 0 pat rep s.

Fixpoint contains_str (pat s : str) : bool :=
  bool_decide (is_Some (strip_prefix pat s)) || match s with [] => false | _ :: s' => contains_str pat s' end.

(** ** What a render finds and leaves *)

Inductive Source := SourceMissing | SourceUnreadable | SourceText (text : str).

Record Disk := mkDisk { src : Source; dst_dir : bool; write_ok : bool }.

Inductive RenderError :=
| SrcMissing
| DstDirMissing
| Unreadable
| WriteFailed
| Validation (kind reason : string)
| SecretFile (reason : string) (line : option nat).

(** The outcome, and the text at the destination if the call put one there. *)
Definition Rendered (A : Type) : Type := (result A RenderError * option str)%type.

Section render.
Context `{Placeholders}.
Variable vars : Vars.

Definition render_string_pre (d : Disk) (pre : str -> str) : result str RenderError :=
  match src d with
  | SourceMissing => Err SrcMissing
  | s => if negb (dst_dir d) then Err DstDirMissing
         else match s with
              | SourceText tpl => Ok (substitute_from_env vars (pre tpl))
              | _ => Err Unreadable
              end
  end.

Definition write_atomic (d : Disk) (text : str) : Rendered unit :=
  if write_ok d then (Ok tt, Some text) else (Err WriteFailed, None).

Definition render_to_file (d : Disk) : Rendered str :=
  match render_string_pre d (fun tpl => tpl) with
  | Err e => (Err e, None)
  | Ok rendered => match write_atomic d rendered with
                   | (Ok _, put) => (Ok rendered, put)
                   | (Err e, put) => (Err e, put)
                   end
  end.

(** The kinds that check what they have written. *)
Definition render_checked (check : str -> result unit RenderError) (d : Disk) : Rendered unit :=
  match render_to_file d with
  | (Ok rendered, put) => (check rendered, put)
  | (Err e, put) => (Err e, put)
  end.

Definition parsed (kind reason : string) (valid : str -> bool) (rendered : str) : result unit RenderError :=
  if valid rendered then Ok tt else Err (Validation kind reason).

Definition render_xray (valid_json : str -> bool) : Disk -> Rendered unit :=
  render_checked (parsed "xray" "not valid JSON" valid_json).
Definition render_compose (valid_yaml : str -> bool) : Disk -> Rendered unit :=
  render_checked (parsed "compose" "not valid YAML" valid_yaml).

(** [fixture_host] is the pattern of test hosts. *)
Definition render_naive (valid_json fixture_host : str -> bool) : Disk -> Rendered unit :=
  render_checked (fun rendered =>
    let naive_server := default [] (vars (lit "NAIVE_SERVER")) in
    if negb (is_empty naive_server) && fixture_host naive_server
    then Err (Validation "naive" "test fixture host")
    else parsed "naive" "not valid JSON" valid_json rendered).

Definition opens_site (line : str) : bool :=
  let t := trim_start line in
  negb (is_empty t) && negb (match t with c :: _ => c =? 35 | [] => false end) && contains LBRACE t.

Definition check_caddyfile (rendered : str) : result unit RenderError :=
  if negb (count LBRACE rendered =? count RBRACE rendered)%nat
  then Err (Validation "caddy" "unbalanced braces")
  else if negb (existsb opens_site (str_lines rendered))
  then Err (Validation "caddy" "no site-block opener")
  else Ok tt.
Definition render_caddy : Disk -> Rendered unit := render_checked check_caddyfile.

Definition names_realm (line : str) : bool :=
  match strip_prefix (lit "realm=") (trim_start line) with
  | Some rest => negb (is_empty (trim rest))
  | None => false
  end.

Definition check_realm (rendered : str) : result unit RenderError :=
  if existsb names_realm (str_lines rendered) then Ok tt
  else Err (Validation "coturn" "empty or missing realm").

(** ** The node's secrets *)

Definition SECRET_LINES_PLACEHOLDER : str := lit "{{STATIC_AUTH_SECRET_LINES}}".
Definition SECRET_LEN : Z := 43.
Definition MAX_SECRETS : nat := 2.

Fixpoint parse_lines (i : nat) (out ls : list str) : result (list str) RenderError :=
  match ls with
  | [] => Ok out
  | line :: ls' =>
      if negb (len (as_bytes line) =? SECRET_LEN) || negb (forallb is_b64url_char line)
      then Err (SecretFile "not exactly 43 chars of [A-Za-z0-9_-]" (Some (i + 1)%nat))
      else if existsb (fun s => bool_decide (s = line)) out
      then Err (SecretFile "duplicates an earlier line" (Some (i + 1)%nat))
      else parse_lines (S i) (out ++ [line]) ls'
  end.

Definition strip_newline (text : str) : str :=
  match rev text with c :: r => if c =? NL then rev r else text | [] => text end.

Definition parse_secrets (text : str) : result (list str) RenderError :=
  let body := strip_newline text in
  if is_empty body then Err (SecretFile "empty" None)
  else let ls := split_on NL body in
       if (MAX_SECRETS <? length ls)%nat then Err (SecretFile "too many lines" None)
       else parse_lines 0 [] ls.

(** What [open] with [O_NOFOLLOW] and [metadata] find. *)
Record SecretMeta := mkMeta {
  regular : bool;
  mode : Z;
  nlink : Z;
  uid : Z;
  content : option str;
}.

Definition read_node_secrets (euid : Z) (opened : option SecretMeta) : result (list str) RenderError :=
  match opened with
  | None => Err (SecretFile "cannot open" None)
  | Some m =>
      if negb (regular m) then Err (SecretFile "not a regular file" None)
      else if negb (Z.land (mode m) 4095 =? 384) then Err (SecretFile "mode" None)
      else if negb (nlink m =? 1) then Err (SecretFile "hard links" None)
      else if negb (uid m =? euid) then Err (SecretFile "owner" None)
      else match content m with
           | None => Err (SecretFile "unreadable or not UTF-8" None)
           | Some text => parse_secrets text
           end
  end.

Definition SECRET_KEY : str := lit "static-auth-secret=".
Definition secret_line (s : str) : str := SECRET_KEY ++ s ++ [NL].
Definition secret_lines (secrets : list str) : str := secrets ≫= secret_line.

(** [trim_end_matches('\n')]. *)
Definition trim_end_nl (s : str) : str := rev (drop_while (Z.eqb NL) (rev s)).

Definition is_secret_line (l : str) : bool := bool_decide (is_Some (strip_prefix SECRET_KEY l)).

Definition render_coturn (d : Disk) : Rendered unit :=
  let tpl := match src d with SourceText t => t | _ => [] end in
  if contains_str SECRET_LINES_PLACEHOLDER tpl
  then (Err (Validation "coturn" "placeholder but no --secret-file"), None)
  else render_checked check_realm d.

Definition render_with_secret_file (euid : Z) (opened : option SecretMeta) (d : Disk) : Rendered unit :=
  match read_node_secrets euid opened with
  | Err e => (Err e, None)
  | Ok secrets =>
      let secret_text := trim_end_nl (secret_lines secrets) in
      match render_string_pre d (replace SECRET_LINES_PLACEHOLDER secret_text) with
      | Err e => (Err e, None)
      | Ok rendered =>
          if negb (length (filter (fun l => is_secret_line l = true) (str_lines rendered)) =? length secrets)%nat
          then (Err (Validation "coturn" "secret lines"), None)
          else match check_realm rendered with
               | Err e => (Err e, None)
               | Ok _ => write_atomic d rendered
               end
      end
  end.
End render.

(** ** The scanner *)

Fixpoint take_name (s : str) : str :=
  match s with c :: s' => if is_name_char c then c :: take_name s' else [] | [] => [] end.

(** The name of the match at the front of [s], if there is one. *)
Definition match_here (s : str) : option str :=
  match strip_prefix [LBRACE; LBRACE] s with
  | None => None
  | Some t =>
      let n := take_name t in
      if is_name n && bool_decide (is_Some (strip_prefix [RBRACE; RBRACE] (drop (length n) t)))
      then Some n else None
  end.

Fixpoint scan (skip : nat) (f : str -> str) (s : str) : str :=
  match s with
  | [] => []
  | c :: s' =>
      match skip with
      | S k => scan k f s'
      | O => match match_here s with
             | Some n => f n ++ scan (length n + 3) f s'
             | None => c :: scan 0 f s'
             end
      end
  end.
