(* ===== verification/OpecRenderFacts.v ===== *)
(** * Theorems on rendering

    The scanner implements the substitution; what a node's secret file may
    hold; a relay configuration is written only when it is complete, with the
    node's secrets verbatim; what the other kinds leave behind. *)

From Stdlib Require Import ZArith Lia.
From stdpp Require Import base option numbers gmap strings list.
From S2P Require Import Prelude RustStr PartnerKeys OpecRender.

(** ** Substitution *)

Lemma take_name_spec t :
  exists rest, t = take_name t ++ rest /\ forallb is_name_char (take_name t) = true /\
    match rest with c :: _ => is_name_char c = false | [] => True end.
Proof.
  induction t as [|c t (rest & E & Ha & Hr)]; cbn [take_name]; [by exists []|].
  destruct (is_name_char c) eqn:Hc.
  - exists rest. cbn. rewrite Hc, Ha. split_and!; [by f_equal | done | done].
  - by exists (c :: t).
Qed.

Lemma is_name_chars n : is_name n = true -> forallb is_name_char n = true.
Proof.
  destruct n as [|c n]; [done|]. cbn. intros [Hu Hn]%andb_true_iff. unfold is_name_char at 1.
  by rewrite Hu, Hn.
Qed.

Lemma take_name_app n rest :
  forallb is_name_char n = true -> match rest with c :: _ => is_name_char c = false | [] => True end ->
  take_name (n ++ rest) = n.
Proof.
  intros Hn Hr. induction n as [|c n IH]; cbn in *.
  - destruct rest as [|c rest]; [done|]. cbn. by rewrite Hr.
  - apply andb_true_iff in Hn as [Hc Hn]. rewrite Hc. f_equal. by apply IH.
Qed.

Lemma match_here_spec s n :
  match_here s = Some n <-> is_name n = true /\ exists rest, s = placeholder n ++ rest.
Proof.
  unfold match_here. split.
  - destruct (strip_prefix [LBRACE; LBRACE] s) as [t|] eqn:E; [|done].
    apply strip_prefix_Some in E as ->. destruct (is_name (take_name t)) eqn:Hn; [|done].
    cbn [andb]. case_bool_decide as Hb; [|done]. intros [= <-]. split; [done|].
    destruct Hb as [rest Hb]. apply strip_prefix_Some in Hb. exists rest.
    destruct (take_name_spec t) as (r & Et & _). unfold placeholder. rewrite Et at 1.
    rewrite Et in Hb at 2. rewrite drop_app_length in Hb. rewrite Hb. by rewrite <- !(assoc_L (++)).
  - intros [Hn [rest ->]]. unfold placeholder. rewrite <- !(assoc_L (++)).
    rewrite strip_prefix_app. rewrite take_name_app; [|by apply is_name_chars | done].
    rewrite Hn. cbn [andb]. rewrite drop_app_length, strip_prefix_app. by rewrite bool_decide_true.
Qed.

Lemma match_here_None s : match_here s = None <-> ~ begins_match s.
Proof.
  split.
  - intros E (n & rest & Hn & ->). assert (match_here (placeholder n ++ rest) = Some n) as H1.
    { apply match_here_spec. split; [done|]. by exists rest. }
    congruence.
  - intros Hb. destruct (match_here s) as [n|] eqn:E; [|done].
    apply match_here_spec in E as [Hn [rest ->]]. destruct Hb. by exists n, rest.
Qed.

Lemma scan_skip k f s : scan k f s = scan 0 f (drop k s).
Proof.
  revert k. induction s as [|c s IH]; intros k; [by destruct k|]. destruct k as [|k]; [done|]. cbn [scan drop].
  apply IH.
Qed.

Lemma scan_substitutes f s : substituted f s (scan 0 f s).
Proof.
  remember (length s) as n eqn:Hn. revert s Hn. induction (lt_wf n) as [n _ IH]. intros s ->.
  destruct s as [|c s]; [constructor|]. cbn [scan]. destruct (match_here (c :: s)) as [name|] eqn:E.
  - apply match_here_spec in E as [Hname [rest E]]. rewrite E, scan_skip.
    assert (drop (length name + 3) s = rest) as ->.
    { assert (drop (length (placeholder name)) (c :: s) = rest) as Hd by (by rewrite E, drop_app_length).
      unfold placeholder in Hd. rewrite !length_app in Hd. cbn [length] in Hd.
      replace (2 + (length name + 2))%nat with (S (length name + 3)) in Hd by lia. exact Hd. }
    constructor; [done|]. apply (IH (length rest)); [|done]. rewrite E. unfold placeholder.
    rewrite !length_app. cbn [length]. lia.
  - apply sub_char; [by apply match_here_None|]. apply (IH (length s)); [cbn [length]; lia | done].
Qed.

#[export] Instance scanner : Placeholders := {|
  replace_all := scan 0;
  replace_all_spec := scan_substitutes;
|}.

Lemma placeholder_inj n n' s s' :
  is_name n = true -> is_name n' = true -> placeholder n ++ s = placeholder n' ++ s' -> n = n' /\ s = s'.
Proof.
  intros Hn Hn' E. assert (match_here (placeholder n ++ s) = Some n) as H1
    by (apply match_here_spec; split; [done | by exists s]).
  assert (match_here (placeholder n' ++ s') = Some n') as H2
    by (apply match_here_spec; split; [done | by exists s']).
  rewrite E, H2 in H1. injection H1 as ->. split; [done|]. by apply app_inv_head in E.
Qed.

Lemma substituted_cases f s o :
  substituted f s o ->
  (s = [] /\ o = []) \/
  (exists c s' o', s = c :: s' /\ o = c :: o' /\ ~ begins_match s /\ substituted f s' o') \/
  (exists n s' o', is_name n = true /\ s = placeholder n ++ s' /\ o = f n ++ o' /\ substituted f s' o').
Proof.
  destruct 1 as [|c s out Hb Hs|n s out Hn Hs]; [by left | right; left | right; right].
  - by exists c, s, out.
  - by exists n, s, out.
Qed.

(** The meaning of [replace_all] leaves no choice. *)
Lemma substituted_fun f s o1 o2 : substituted f s o1 -> substituted f s o2 -> o1 = o2.
Proof.
  intros H1. revert o2. induction H1 as [|c s out Hb _ IH|n s out Hn _ IH]; intros o2 H2;
    apply substituted_cases in H2
      as [[E ->]|[(c' & s' & o' & E & -> & Hb' & H')|(n' & s' & o' & Hn' & E & -> & H')]]; try done.
  - injection E as <- <-. f_equal. by apply IH.
  - destruct Hb. rewrite E. by exists n', s'.
  - destruct Hb'. by exists n, s.
  - apply placeholder_inj in E as [-> ->]; [|done|done]. f_equal. by apply IH.
Qed.

Lemma substitute_unique `{Placeholders} vars tpl out :
  substituted (fun n => default [] (vars n)) tpl out -> substitute_from_env vars tpl = out.
Proof. intros H'. eapply substituted_fun; [apply replace_all_spec | exact H']. Qed.

(** Characters that cannot be part of a placeholder separate the text. *)
Definition outside (c : Z) : Prop := is_name_char c = false /\ c <> LBRACE /\ c <> RBRACE.

Lemma outside_placeholder c n : is_name n = true -> outside c -> c ∉ placeholder n.
Proof.
  intros Hn (Hc & Hl & Hr) Hin. unfold placeholder in Hin.
  apply elem_of_app in Hin as [Hin|[Hin|Hin]%elem_of_app]; [set_solver| |set_solver].
  apply is_name_chars in Hn. rewrite forallb_forall in Hn. apply list_elem_of_In, Hn in Hin. congruence.
Qed.

Lemma prefix_before (p rest a b : str) c :
  p ++ rest = a ++ c :: b -> c ∉ p -> exists r, a = p ++ r.
Proof.
  revert a. induction p as [|x p IH]; intros a E Hc; [by exists a|].
  apply not_elem_of_cons in Hc as [Hx Hc]. destruct a as [|y a]; [by injection E|].
  injection E as -> E. destruct (IH a E Hc) as [r ->]. by exists r.
Qed.

Lemma substituted_separator f a b c oa ob :
  outside c -> substituted f a oa -> substituted f b ob -> substituted f (a ++ c :: b) (oa ++ c :: ob).
Proof.
  intros Hc Ha Hb. induction Ha as [|x a out Hn _ IH|n a out Hn _ IH].
  - cbn. apply sub_char; [|done]. intros (n & rest & _ & E). unfold placeholder in E.
    destruct Hc as (_ & Hl & _). by injection E.
  - cbn [app]. apply sub_char; [|done]. intros (n & rest & Hname & E). apply Hn.
    change (x :: a ++ c :: b) with ((x :: a) ++ c :: b) in E. symmetry in E.
    apply prefix_before in E as [r ->]; [by exists n, r | by apply outside_placeholder].
  - rewrite <- !(assoc_L (++)). by constructor.
Qed.

(** Text without an opening brace passes through. *)
Lemma substituted_plain f l b ob : LBRACE ∉ l -> substituted f b ob -> substituted f (l ++ b) (l ++ ob).
Proof.
  intros Hl Hb. induction l as [|c l IH]; [done|]. apply not_elem_of_cons in Hl as [Hc Hl]. cbn [app].
  apply sub_char; [|by apply IH]. intros (n & rest & _ & E). unfold placeholder in E. by injection E.
Qed.

(** ** The secret file *)

Definition secret_ok (s : str) : Prop := length s = 43%nat /\ Forall (fun c => is_b64url_char c = true) s.

Lemma secret_line_check line :
  negb (len (as_bytes line) =? SECRET_LEN) || negb (forallb is_b64url_char line) = false <-> secret_ok line.
Proof.
  unfold secret_ok, SECRET_LEN. rewrite orb_false_iff, !negb_false_iff, Z.eqb_eq. split.
  - intros [Hl Ha]. apply all_alphabet in Ha as Ha'. unfold len in Hl.
    rewrite as_bytes_alphabet in Hl by done. split; [lia|]. apply Forall_forall. intros c Hc.
    rewrite forallb_forall in Ha. by apply Ha, list_elem_of_In.
  - intros [Hl Ha]. assert (forallb is_b64url_char line = true) as Hb.
    { apply forallb_forall. intros c Hc. rewrite Forall_forall in Ha. by apply Ha, list_elem_of_In. }
    split; [|done]. unfold len. rewrite as_bytes_alphabet by (by apply all_alphabet). lia.
Qed.

Lemma secret_ok_char s c : secret_ok s -> c ∈ s -> c <> NL /\ c <> LBRACE /\ c <> CR.
Proof.
  intros [_ Ha] Hin. rewrite Forall_forall in Ha. apply Ha in Hin.
  split_and!; intros ->; discriminate Hin.
Qed.

Lemma parse_lines_Ok i out ls ss :
  NoDup out -> parse_lines i out ls = Ok ss <-> ss = out ++ ls /\ Forall secret_ok ls /\ NoDup (out ++ ls).
Proof.
  revert i out. induction ls as [|l ls IH]; intros i out Hn; cbn [parse_lines].
  { rewrite app_nil_r. split; [by intros [= <-] | by intros (-> & _)]. }
  destruct (_ || _) eqn:Hc.
  { split; [done|]. intros (_ & Hf & _). apply Forall_cons in Hf as [Hl _].
    apply secret_line_check in Hl. congruence. }
  apply secret_line_check in Hc. destruct (existsb _ out) eqn:Hd.
  - split; [done|]. intros (_ & _ & Hnd). apply existsb_exists in Hd as (x & Hx & E).
    apply bool_decide_eq_true in E as ->. apply NoDup_app in Hnd as (_ & Hnd & _).
    destruct (Hnd l); [by apply list_elem_of_In | left].
  - assert (l ∉ out) as Hni.
    { intros Hin. assert (existsb (fun s => bool_decide (s = l)) out = true) as Ht; [|congruence].
      apply existsb_exists. exists l. split; [by apply list_elem_of_In | by apply bool_decide_eq_true]. }
    rewrite IH, Forall_cons, <- (assoc_L (++)); [tauto|]. apply NoDup_app. split_and!; [done | set_solver|].
    apply NoDup_singleton.
Qed.

Lemma split_on_lines s : split_on NL s = lines s.
Proof. induction s as [|c s IH]; [done|]. cbn [split_on lines]. by rewrite IH. Qed.

(** The text a secret file may hold for the secrets [ss]. *)
Definition file_text (ss : list str) (text : str) : Prop := text = unlines ss \/ text = unlines ss ++ [NL].

Lemma strip_newline_snoc s : strip_newline (s ++ [NL]) = s.
Proof. unfold strip_newline. rewrite rev_unit. cbn. by rewrite rev_involutive. Qed.

Lemma strip_newline_id s : (forall s', s <> s' ++ [NL]) -> strip_newline s = s.
Proof.
  intros Hs. unfold strip_newline. destruct (rev s) as [|c r] eqn:E; [done|].
  destruct (Z.eqb_spec c NL) as [->|]; [|done]. destruct (Hs (rev r)).
  by rewrite <- (rev_involutive s), E.
Qed.

Lemma strip_newline_cases text : text = strip_newline text \/ text = strip_newline text ++ [NL].
Proof.
  unfold strip_newline. destruct (rev text) as [|c r] eqn:E; [by left|].
  destruct (Z.eqb_spec c NL) as [->|]; [right | by left]. by rewrite <- (rev_involutive text), E.
Qed.

Lemma unlines_last ss : ss <> [] -> Forall secret_ok ss -> unlines ss <> [] /\ forall s', unlines ss <> s' ++ [NL].
Proof.
  intros Hne Hs. destruct ss as [|s0 ss0]; [done|]. clear Hne. revert s0 Hs.
  induction ss0 as [|s1 ss1 IH]; intros s0 Hs; apply Forall_cons in Hs as [H0 Hs].
  - cbn [unlines]. split; [intros ->; by destruct H0|]. intros s' ->.
    destruct (secret_ok_char _ NL H0 ltac:(apply elem_of_app; right; left)) as [? _]. done.
  - rewrite unlines_cons by done. destruct (IH s1 Hs) as [Hn Hl]. split; [by destruct s0|].
    intros s' E. destruct (decide (s' = s0)) as [->|Hd].
    + apply app_inv_head in E. injection E as E. done.
    + assert (exists t, unlines (s1 :: ss1) = t ++ [NL]) as [t Ht]; [|by apply (Hl t)].
      destruct (unlines (s1 :: ss1)) as [|x r] using rev_ind; [done|].
      exists r. change (s0 ++ NL :: r ++ [x]) with (s0 ++ (NL :: r) ++ [x]) in E. rewrite (assoc_L (++)) in E.
      apply app_inj_tail in E as [_ ->]. done.
Qed.

Lemma parse_secrets_exact text ss :
  parse_secrets text = Ok ss <->
  file_text ss text /\ (1 <= length ss <= 2)%nat /\ NoDup ss /\ Forall secret_ok ss.
Proof.
  unfold parse_secrets, file_text. rewrite split_on_lines. unfold MAX_SECRETS. split.
  - destruct (is_empty (strip_newline text)) eqn:He; [done|].
    destruct (Nat.ltb_spec 2 (length (lines (strip_newline text)))) as [|Hl]; [done|].
    rewrite parse_lines_Ok by constructor. intros (-> & Hf & Hn). cbn [app] in *. rewrite unlines_lines.
    split; [apply strip_newline_cases|]. split_and!; try done.
    pose proof (lines_nonempty (strip_newline text)). destruct (lines _); [done | cbn; lia].
  - intros (Ht & Hl & Hn & Hf). assert (ss <> []) as Hne by (intros ->; cbn in Hl; lia).
    destruct (unlines_last ss Hne Hf) as [Hu Hnl].
    assert (strip_newline text = unlines ss) as ->.
    { destruct Ht as [->| ->]; [by apply strip_newline_id | apply strip_newline_snoc]. }
    assert (is_empty (unlines ss) = false) as -> by (by destruct (unlines ss)).
    rewrite lines_unlines; [|done|].
    + destruct (Nat.ltb_spec 2 (length ss)); [lia|]. rewrite parse_lines_Ok by constructor. done.
    + eapply Forall_impl; [exact Hf|]. intros x Hx Hin. by destruct (secret_ok_char _ _ Hx Hin).
Qed.

(** What a node's secret file may hold: it is read successfully exactly
    when it is a regular file of mode 0600 with one link, owned by the caller,
    whose text is one or two distinct lines of 43 URL-safe base64 characters,
    with or without a final newline; the secrets are those lines, in order. *)
Theorem node_secrets_exact euid opened ss :
  read_node_secrets euid opened = Ok ss <->
  exists m text, opened = Some m /\ regular m = true /\ Z.land (mode m) 4095 = 384 /\ nlink m = 1 /\
    uid m = euid /\ content m = Some text /\
    file_text ss text /\ (1 <= length ss <= 2)%nat /\ NoDup ss /\ Forall secret_ok ss.
Proof.
  unfold read_node_secrets. split.
  - destruct opened as [m|]; [|done]. destruct (regular m) eqn:Hr; [|done]. cbn [negb].
    destruct (Z.eqb_spec (Z.land (mode m) 4095) 384); [|done]. destruct (Z.eqb_spec (nlink m) 1); [|done].
    destruct (Z.eqb_spec (uid m) euid); [|done]. cbn [negb]. destruct (content m) as [text|] eqn:Ht; [|done].
    intros Hp%parse_secrets_exact. by exists m, text.
  - intros (m & text & -> & -> & -> & -> & -> & -> & Hp%parse_secrets_exact).
    by rewrite !Z.eqb_refl.
Qed.

Definition demo_secret_a : str := replicate 43 65.
Definition demo_secret_b : str := replicate 43 66.
Definition demo_meta : SecretMeta :=
  mkMeta true 33152 1 0 (Some (demo_secret_a ++ [NL] ++ demo_secret_b ++ [NL])).

Lemma node_secrets_exact_witness :
  NoDup [demo_secret_a; demo_secret_b] /\ Forall secret_ok [demo_secret_a; demo_secret_b].
Proof.
  destruct (proj1 (node_secrets_exact 0 (Some demo_meta) [demo_secret_a; demo_secret_b])
    ltac:(vm_compute; reflexivity)) as (m & text & _ & _ & _ & _ & _ & _ & _ & _ & Hn & Hs).
  by split.
Defined.

Lemma node_secrets_parsed euid opened ss :
  read_node_secrets euid opened = Ok ss -> (1 <= length ss <= 2)%nat /\ NoDup ss /\ Forall secret_ok ss.
Proof.
  unfold read_node_secrets. destruct opened as [m|]; [|done].
  repeat (destruct (negb _); [done|]). destruct (content m); [|done]. by intros [_ ?]%parse_secrets_exact.
Qed.

Lemma contains_str_prefix pat a b : contains_str pat (a ++ b) = false -> contains_str pat a = false.
Proof.
  induction a as [|c a IH].
  - intros Hb. cbn [contains_str]. destruct pat; [|done]. by destruct b.
  - cbn [app contains_str]. intros [Hp Hr]%orb_false_iff. apply orb_false_iff. split; [|by apply IH].
    apply bool_decide_eq_false. intros [r Hs]. apply bool_decide_eq_false in Hp. apply Hp.
    apply strip_prefix_Some in Hs. change (c :: a ++ b) with ((c :: a) ++ b). rewrite Hs, <- (assoc_L (++)), strip_prefix_app.
    by eexists.
Qed.

(** ** The relay configuration *)

(** One line per secret, without a final newline. *)
Definition secret_block (ss : list str) : str := unlines ((fun s => SECRET_KEY ++ s) <$> ss).

Lemma trim_end_secrets ss :
  ss <> [] -> Forall secret_ok ss ->
  trim_end_nl (secret_lines ss) = secret_block ss.
Proof.
  intros Hne Hs. unfold secret_block. assert (secret_lines ss = unlines ((fun s => SECRET_KEY ++ s) <$> ss) ++ [NL] /\
    exists t x, unlines ((fun s => SECRET_KEY ++ s) <$> ss) = t ++ [x] /\ x <> NL) as [-> (t & x & -> & Hx)].
  { destruct ss as [|s0 ss0]; [done|]. clear Hne. revert s0 Hs.
    induction ss0 as [|s1 ss1 IH]; intros s0 Hs; apply Forall_cons in Hs as [H0 Hs].
    - cbn [fmap list_fmap unlines]. unfold secret_lines. cbn [mbind list_bind]. rewrite app_nil_r.
      unfold secret_line. split; [by rewrite (assoc_L (++))|].
      destruct s0 as [|x r] using rev_ind; [by destruct H0|]. exists (SECRET_KEY ++ r), x.
      split; [by rewrite (assoc_L (++))|].
      destruct (secret_ok_char _ x H0 ltac:(apply elem_of_app; right; left)) as [? _]. done.
    - destruct (IH s1 Hs) as [E (t & x & Et & Hx)]. rewrite fmap_cons, unlines_cons by done. split.
      + unfold secret_lines in *. rewrite bind_cons, E. unfold secret_line. by rewrite <- !(assoc_L (++)).
      + exists ((SECRET_KEY ++ s0) ++ NL :: t), x. rewrite Et. by rewrite <- !(assoc_L (++)). }
  unfold trim_end_nl. rewrite !rev_unit. cbn [drop_while]. rewrite Z.eqb_refl.
  destruct (Z.eqb_spec NL x); [congruence|]. cbn. by rewrite rev_involutive.
Qed.

(** Replacing the placeholder on a line of its own. *)
Lemma replace_none pat rep s : contains_str pat s = false -> replace pat rep s = s.
Proof.
  unfold replace. induction s as [|c s IH]; [done|]. cbn [contains_str replace_from].
  intros [Hp Hs]%orb_false_iff. destruct (strip_prefix pat (c :: s)); [|by rewrite IH].
  by rewrite bool_decide_true in Hp.
Qed.

Lemma replace_skip k pat rep s : replace_from k pat rep s = replace pat rep (drop k s).
Proof. revert k. induction s as [|c s IH]; intros [|k]; [done..|]. cbn [replace_from drop]. apply IH. Qed.

Lemma replace_here pat rep s : pat <> [] -> replace pat rep (pat ++ s) = rep ++ replace pat rep s.
Proof.
  intros Hne. destruct pat as [|p pat]; [done|]. unfold replace at 1. cbn [app replace_from].
  change (p :: pat ++ s) with ((p :: pat) ++ s). rewrite strip_prefix_app. f_equal.
  rewrite replace_skip. cbn [length]. replace (S (length pat) - 1)%nat with (length pat) by lia.
  by rewrite drop_app_length.
Qed.

Lemma replace_before pat rep a c s :
  c ∉ pat -> contains_str pat a = false -> replace pat rep (a ++ c :: s) = a ++ c :: replace pat rep s.
Proof.
  intros Hc. unfold replace. assert (forall a', contains_str pat a' = false ->
    strip_prefix pat (a' ++ c :: s) = None) as Hnone.
  { intros a' Ha'. destruct (strip_prefix pat (a' ++ c :: s)) as [rest|] eqn:E; [|done].
    apply strip_prefix_Some in E. symmetry in E. apply prefix_before in E as [r ->]; [|done].
    destruct (pat ++ r) eqn:Er; cbn [contains_str] in Ha'; apply orb_false_iff in Ha' as [Ha' _];
      rewrite <- Er, strip_prefix_app in Ha'; by rewrite bool_decide_true in Ha'. }
  induction a as [|x a IH]; intros Ha; cbn [app replace_from].
  - by rewrite (Hnone [] Ha : strip_prefix pat (c :: s) = None).
  - rewrite (Hnone (x :: a) Ha : strip_prefix pat (x :: a ++ c :: s) = None). cbn [contains_str] in Ha. apply orb_false_iff in Ha as [_ Ha]. by rewrite IH.
Qed.

Section relay.
Context `{Placeholders}.
Variable vars : OpecRender.Vars.

Lemma substitute_around a l b :
  LBRACE ∉ l -> (a = [] \/ exists a', a = a' ++ [NL]) ->
  substitute_from_env vars (a ++ l ++ b) =
  substitute_from_env vars a ++ l ++ substitute_from_env vars b.
Proof.
  intros Hl Ha. pose proof (fun t => replace_all_spec (fun n => default [] (vars n)) t) as Hs.
  apply substitute_unique. destruct Ha as [->|[a' ->]].
  - rewrite (substitute_unique vars [] []) by constructor. cbn [app]. apply substituted_plain; [done | apply Hs].
  - assert (outside NL) as Ho by done.
    rewrite (substitute_unique vars (a' ++ [NL]) (substitute_from_env vars a' ++ [NL])).
    + rewrite <- !(assoc_L (++)). cbn [app]. apply substituted_separator; [done | apply Hs|].
      apply substituted_plain; [done | apply Hs].
    + apply (substituted_separator _ a' [] NL _ []); [done | apply Hs | constructor].
Qed.

Lemma secrets_plain ss : Forall secret_ok ss -> LBRACE ∉ secret_block ss.
Proof.
  unfold secret_block. intros Hs. assert (forall s, secret_ok s -> LBRACE ∉ SECRET_KEY ++ s) as H1.
  { intros s Hok [Hin|Hin]%elem_of_app; [by vm_compute in Hin; set_solver|].
    by destruct (secret_ok_char _ _ Hok Hin) as (_ & ? & _). }
  induction Hs as [|s ss Hok Hss IH]; [apply not_elem_of_nil|]. rewrite fmap_cons. destruct ss as [|s' ss'].
  - by apply H1.
  - rewrite unlines_cons by done. intros [Hin|[?|Hin]%elem_of_cons]%elem_of_app; [by apply (H1 s Hok) | done | done].
Qed.

(** A secret, spelled out. *)
Definition secret_text (s : str) : Prop :=
  length s = 43%nat /\
  Forall (fun c => 48 <= c <= 57 \/ 65 <= c <= 90 \/ 97 <= c <= 122 \/ c = 45 \/ c = 95) s.

Lemma secret_ok_text s : secret_ok s <-> secret_text s.
Proof.
  unfold secret_ok, secret_text. f_equiv. apply Forall_iff. intros c. unfold is_b64url_char, is_ascii_digit.
  rewrite !orb_true_iff, !andb_true_iff, !Z.leb_le, !Z.eqb_eq. lia.
Qed.

Lemma node_secrets_file euid opened ss :
  read_node_secrets euid opened = Ok ss ->
  exists m text, opened = Some m /\ regular m = true /\ Z.land (mode m) 4095 = 384 /\ nlink m = 1 /\
    uid m = euid /\ content m = Some text /\ file_text ss text /\ (1 <= length ss <= 2)%nat /\ NoDup ss /\
    Forall secret_ok ss.
Proof. apply node_secrets_exact. Qed.

Lemma secret_line_prefix l : lit "static-auth-secret=" `prefix_of` l <-> is_secret_line l = true.
Proof.
  unfold is_secret_line. rewrite bool_decide_eq_true. split.
  - intros [rest ->]. exists rest. apply strip_prefix_app.
  - intros [rest Hr%strip_prefix_Some]. by exists rest.
Qed.

Lemma drop_while_cut (p : Z -> bool) s : exists u, s = u ++ drop_while p s /\ Forall (fun c => p c = true) u.
Proof.
  induction s as [|x s (u & E & Hu)]; [by exists []|]. cbn. destruct (p x) eqn:Hx.
  - exists (x :: u). split; [cbn; by f_equal | by constructor].
  - by exists [].
Qed.

Lemma trim_nonblank s : trim s <> [] -> exists c, c ∈ s /\ is_whitespace c = false.
Proof.
  intros Ht. destruct (drop_while is_whitespace s) as [|c t] eqn:E.
  { exfalso. apply Ht. unfold trim. by rewrite E. }
  exists c. split.
  - destruct (drop_while_suffix is_whitespace s) as [u Hu]. rewrite Hu, E. apply elem_of_app. right. left.
  - clear Ht. revert E. induction s as [|x s IH]; [done|]. cbn. destruct (is_whitespace x) eqn:Hx; [auto|]. by intros [= -> _].
Qed.

Lemma realm_line ls :
  existsb names_realm ls = true ->
  exists blanks realm c, blanks ++ lit "realm=" ++ realm ∈ ls /\
    Forall (fun c => is_whitespace c = true) blanks /\ c ∈ realm /\ is_whitespace c = false.
Proof.
  rewrite existsb_exists. intros (l & Hl & Hn). unfold names_realm in Hn.
  destruct (strip_prefix (lit "realm=") (trim_start l)) as [rest|] eqn:E; [|done]. apply strip_prefix_Some in E.
  destruct (trim_nonblank rest) as (c & Hc & Hw); [by destruct (trim rest)|].
  destruct (drop_while_cut is_whitespace l) as (u & Hu & Hb). unfold trim_start in E. rewrite E in Hu.
  exists u, rest, c. split_and!; [|done..]. rewrite <- Hu. by apply list_elem_of_In.
Qed.

(** The placeholder, once and at the start of a line. *)
Lemma placeholder_rendered a b ss :
  Forall secret_ok ss -> (a = [] \/ exists a', a = a' ++ [NL]) ->
  contains_str SECRET_LINES_PLACEHOLDER a = false -> contains_str SECRET_LINES_PLACEHOLDER b = false ->
  substitute_from_env vars (replace SECRET_LINES_PLACEHOLDER (secret_block ss) (a ++ SECRET_LINES_PLACEHOLDER ++ b)) =
  substitute_from_env vars a ++ secret_block ss ++ substitute_from_env vars b.
Proof.
  intros Hs Ha Hca Hcb.
  assert (replace SECRET_LINES_PLACEHOLDER (secret_block ss)
    (a ++ SECRET_LINES_PLACEHOLDER ++ b) = a ++ secret_block ss ++ b) as ->.
  { assert (forall t, replace SECRET_LINES_PLACEHOLDER t (SECRET_LINES_PLACEHOLDER ++ b) = t ++ b) as Hb.
    { intros t. by rewrite replace_here, (replace_none _ _ b) by done. }
    destruct Ha as [->|[a' ->]]; [apply Hb|]. rewrite <- !(assoc_L (++)). cbn [app].
    rewrite replace_before, Hb; [done | by vm_compute; set_solver|].
    by apply contains_str_prefix in Hca. }
  apply substitute_around; [by apply secrets_plain | done].
Qed.

(** C38. A relay configuration is complete or absent: when rendering with the
    node's secret file is refused, nothing is written.  When it succeeds, the
    secret file was a regular file of mode 0600 with one link, owned by the
    caller, and held one or two different lines of 43 letters, digits, hyphens
    and underscores; what is written is the template with the placeholder of the
    secret lines replaced by one static-auth-secret line for each secret, in
    order, and then the variables substituted; it has as many lines that begin
    with static-auth-secret= as there are secrets, and a line, blanks in front
    aside, that begins with realm= and has more than blanks after it.  When the
    placeholder begins a line and occurs once, the secrets stand there verbatim,
    untouched by the environment. *)
Theorem relay_render_complete euid opened d res put :
  render_with_secret_file vars euid opened d = (res, put) ->
  match res with
  | Err _ => put = None
  | Ok _ => exists m text ss tpl out,
      (opened = Some m /\ regular m = true /\ Z.land (mode m) 4095 = 384 /\ nlink m = 1 /\ uid m = euid /\
       content m = Some text /\ file_text ss text /\ (1 <= length ss <= 2)%nat /\ NoDup ss /\ Forall secret_text ss) /\
      src d = SourceText tpl /\ put = Some out /\
      let block := unlines ((fun s => lit "static-auth-secret=" ++ s) <$> ss) in
      out = substitute_from_env vars (replace (lit "{{STATIC_AUTH_SECRET_LINES}}") block tpl) /\
      length (filter (fun l => lit "static-auth-secret=" `prefix_of` l) (str_lines out)) = length ss /\
      (exists blanks realm c, blanks ++ lit "realm=" ++ realm ∈ str_lines out /\
         Forall (fun c => is_whitespace c = true) blanks /\ c ∈ realm /\ is_whitespace c = false) /\
      forall a b, tpl = a ++ lit "{{STATIC_AUTH_SECRET_LINES}}" ++ b -> (a = [] \/ exists a', a = a' ++ [NL]) ->
        contains_str (lit "{{STATIC_AUTH_SECRET_LINES}}") a = false ->
        contains_str (lit "{{STATIC_AUTH_SECRET_LINES}}") b = false ->
        out = substitute_from_env vars a ++ block ++ substitute_from_env vars b
  end.
Proof.
  unfold render_with_secret_file. destruct (read_node_secrets euid opened) as [ss|e] eqn:Hr; [|by intros [= <- <-]].
  apply node_secrets_file in Hr as (m & text & Hm). assert ((1 <= length ss <= 2)%nat /\ Forall secret_ok ss) as [Hl Hs]
    by (destruct Hm as (? & ? & ? & ? & ? & ? & ? & ? & ? & ?); done).
  assert (ss <> []) as Hne by (intros ->; cbn in Hl; lia). rewrite trim_end_secrets by done.
  unfold render_string_pre. destruct (src d) as [| |tpl] eqn:Hsrc; [by intros [= <- <-]| |];
    (destruct (dst_dir d); cbn [negb]; [|by intros [= <- <-]]); [by intros [= <- <-]|].
  destruct (Nat.eqb_spec (length (filter (fun l => is_secret_line l = true) (str_lines (substitute_from_env vars
    (replace SECRET_LINES_PLACEHOLDER (secret_block ss) tpl))))) (length ss))
    as [Hc|]; cbn [negb]; [|by intros [= <- <-]].
  unfold check_realm. destruct (existsb names_realm _) eqn:Hrealm; [|by intros [= <- <-]].
  unfold write_atomic. destruct (write_ok d); intros [= <- <-]; [|done].
  eexists m, text, ss, tpl, _. split_and!; try apply Hm; try done.
  - eapply Forall_impl; [exact Hs | apply secret_ok_text].
  - rewrite <- Hc. by rewrite (list_filter_iff _ (fun l => is_secret_line l = true)) by apply secret_line_prefix.
  - by apply realm_line.
  - intros a b -> Ha Hca Hcb. apply placeholder_rendered; done.
Qed.
End relay.

(** A relay node's template, its environment and its disk. *)
Definition demo_template : str :=
  lit "realm={{REALM}}" ++ [NL] ++ SECRET_LINES_PLACEHOLDER ++ [NL] ++ lit "fingerprint" ++ [NL].
Definition demo_vars : OpecRender.Vars :=
  fun n => if decide (n = lit "REALM") then Some (lit "turn.example.org") else None.
Definition demo_disk (tpl : str) : Disk := mkDisk (SourceText tpl) true true.

Lemma relay_render_complete_witness :
  exists out, render_with_secret_file demo_vars 0 (Some demo_meta) (demo_disk demo_template) = (Ok tt, Some out) /\
    out = (lit "realm=turn.example.org" ++ [NL]) ++ secret_block [demo_secret_a; demo_secret_b] ++
          ([NL] ++ lit "fingerprint" ++ [NL]).
Proof.
  eexists. split; [vm_compute; reflexivity|].
  destruct (relay_render_complete (H := scanner) demo_vars 0 (Some demo_meta) (demo_disk demo_template) (Ok tt) _
    ltac:(vm_compute; reflexivity)) as (m & text & ss & tpl & out & Hm & Ht & Hp & _ & _ & _ & Hall).
  assert (ss = [demo_secret_a; demo_secret_b]) as ->.
  { destruct Hm as (Em & Hr & Hmo & Hn & Hu & Hc & Hft & Hl & Hd & Hs).
    enough (read_node_secrets 0 (Some demo_meta) = Ok ss) as Er by (vm_compute in Er; by injection Er as <-).
    apply node_secrets_exact. exists m, text. split_and!; try done; try lia. eapply Forall_impl; [exact Hs|].
    intros s. apply secret_ok_text. }
  injection Ht as <-. vm_compute in Hp. injection Hp as <-.
  exact (Hall (lit "realm={{REALM}}" ++ [NL]) ([NL] ++ lit "fingerprint" ++ [NL]) ltac:(reflexivity)
    ltac:(right; by exists (lit "realm={{REALM}}")) ltac:(vm_compute; reflexivity) ltac:(vm_compute; reflexivity)).
Defined.

(** The check of the number of lines does not see where a line came from: a
    template without the placeholder, but with a secret line of its own, is
    accepted for a file with one secret, and the node's secret is not in it. *)
Example secret_check_fooled :
  let meta := mkMeta true 33152 1 0 (Some demo_secret_a) in
  let tpl := lit "realm=r" ++ [NL] ++ lit "static-auth-secret=shared" ++ [NL] in
  render_with_secret_file demo_vars 0 (Some meta) (demo_disk tpl) = (Ok tt, Some tpl) /\
  contains_str demo_secret_a tpl = false.
Proof. split; vm_compute; reflexivity. Qed.

(** ** The other kinds *)

Lemma render_checked_exact `{Placeholders} vars check d :
  render_checked vars check d =
  match src d, dst_dir d, write_ok d with
  | SourceText tpl, true, true =>
      let out := substitute_from_env vars tpl in (check out, Some out)
  | SourceMissing, _, _ => (Err SrcMissing, None)
  | _, false, _ => (Err DstDirMissing, None)
  | SourceUnreadable, true, _ => (Err Unreadable, None)
  | SourceText _, true, false => (Err WriteFailed, None)
  end.
Proof.
  unfold render_checked, render_to_file, render_string_pre, write_atomic.
  by destruct (src d), (dst_dir d), (write_ok d).
Qed.

(** What a Caddyfile render accepts and leaves: the outcome is decided by
    the substituted text alone once it can be written; it is accepted exactly
    when the braces are equal in number and some line that is not a comment
    opens a block; and a text that is refused stays at the destination. *)
Theorem caddy_render_exact `{Placeholders} vars d tpl :
  src d = SourceText tpl -> dst_dir d = true -> write_ok d = true ->
  let out := substitute_from_env vars tpl in
  (render_caddy vars d).2 = Some out /\
  ((render_caddy vars d).1 = Ok tt <->
   count LBRACE out = count RBRACE out /\
   exists line, line ∈ str_lines out /\ LBRACE ∈ trim_start line /\ head (trim_start line) <> Some 35).
Proof.
  intros Hs Hd Hw. cbv zeta. unfold render_caddy. rewrite render_checked_exact, Hs, Hd, Hw. cbv zeta.
  cbn [fst snd]. split; [done|]. set (out := substitute_from_env vars tpl). unfold check_caddyfile.
  assert (existsb opens_site (str_lines out) = true <-> exists line, line ∈ str_lines out /\
    LBRACE ∈ trim_start line /\ head (trim_start line) <> Some 35) as Hex.
  { rewrite existsb_exists. split; intros (l & Hl & Ho); exists l;
      (split; [by apply list_elem_of_In|]); unfold opens_site, contains in *; cbv zeta in *.
    - bool_props. apply existsb_exists in H1 as (c & Hc & E). apply Z.eqb_eq in E as <-.
      split; [by apply list_elem_of_In|]. destruct (trim_start l) as [|x r]; [done|]. cbn.
      intros [= ->]. done.
    - destruct Ho as [Hin Hh]. destruct (trim_start l) as [|x r]; [by apply elem_of_nil in Hin|].
      cbn [is_empty negb andb]. destruct (Z.eqb_spec x 35) as [->|]; [done|]. cbn [negb andb].
      apply existsb_exists. exists LBRACE. split; [by apply list_elem_of_In | apply Z.eqb_refl]. }
  rewrite <- Hex. destruct (Nat.eqb_spec (count LBRACE out) (count RBRACE out)); cbn [negb]; [|naive_solver].
  destruct (existsb opens_site (str_lines out)); cbn [negb]; naive_solver.
Qed.

(** A comment with braces alone is refused, and stays at the destination. *)
Lemma caddy_render_exact_witness :
  (render_caddy (H := scanner) demo_vars (demo_disk (lit "{{REALM}} {" ++ [NL] ++ lit "}" ++ [NL]))).1 = Ok tt /\
  (render_caddy (H := scanner) demo_vars (demo_disk (lit "# {}" ++ [NL]))).1 <> Ok tt /\
  (render_caddy (H := scanner) demo_vars (demo_disk (lit "# {}" ++ [NL]))).2 = Some (lit "# {}" ++ [NL]).
Proof.
  split; [vm_compute; reflexivity|].
  split; [by vm_compute|].
  rewrite (proj1 (caddy_render_exact (H := scanner) demo_vars (demo_disk (lit "# {}" ++ [NL])) (lit "# {}" ++ [NL])
    ltac:(reflexivity) ltac:(reflexivity) ltac:(reflexivity))).
  vm_compute. reflexivity.
Defined.
