(* ===== verification/OpecSecrets.v ===== *)
(** * Secrets of an edge node
      (crates/opec/src/secrets/)

    Registration with its retries, the check of the answer and the files it
    leaves; the hand-over of the SFU's signing key; the Reality identity and the
    AmneziaWG key pair.  HTTP answers, JSON parsing, random keys and the
    derivation of a public key are arguments; a file write either happens or
    fails. *)

From Stdlib Require Import ZArith Lia.
From stdpp Require Import base option numbers gmap strings list.
From S2P Require Import Prelude RustStr PartnerKeys.

Inductive SecretsError :=
| PartialIdentity (found missing : list string)
| InvalidKeyFormat (file : string) (actual_len : Z)
| Io (file : string)
| Http (status : Z) (body : str)
| TransportError
| MissingResponseField (name : string)
| StaleRegistry
| ResponseParse (reason : string)
| InvalidBranding
| InvalidResponseValue (name : string).

(** ** Retries *)

(** What one request brings: an answer with a good status, parsed; one that
    cannot be read or is not JSON of the expected form; an error status with its
    text; no answer. *)
Inductive Reply (A : Type) :=
| Answered (a : A)
| Unreadable (reason : string)
| Status (code : Z) (body : str)
| NoAnswer.
Arguments Answered {A}. Arguments Unreadable {A}. Arguments Status {A}. Arguments NoAnswer {A}.

(** The loop [for attempt in 0..=retries], with [left] attempts to go after this
    one; the pauses are in milliseconds. *)
Fixpoint with_retry {A} (ask : nat -> Reply A) (attempt left : nat) : result A SecretsError * list Z :=
  let again e :=
    match left with
    | O => (Err e, [])
    | S left' => let '(r, pauses) := with_retry ask (S attempt) left' in
                 (r, 500 * (Z.of_nat attempt + 1) :: pauses)
    end in
  match ask attempt with
  | Answered a => (Ok a, [])
  | Unreadable reason => (Err (ResponseParse reason), [])
  | Status code body =>
      let e := Http code (take 500 body) in
      if code <? 500 then (Err e, []) else again e
  | NoAnswer => again TransportError
  end.

(** ** The request body *)

Record RegisterBody := mkBody {
  rb_partner_id : str;
  rb_domain : str;
  rb_token : str;
  rb_public_ip : str;
  rb_region : option str;
  rb_awg_pubkey : option str;
  rb_reality_public_key : option str;
  rb_reality_uuid : option str;
  rb_branding : option str;
  rb_serve_countries : option (list str);
}.

Record Args := mkArgs {
  partner_id : str;
  domain : str;
  token : str;
  public_ip : str;
  region : option str;
  branding_config : bool;
  out_json : bool;
  retries : nat;
}.

(** The files of the call and the variable [SERVE_COUNTRIES_JSON]. *)
Record Inputs := mkInputs {
  reality_pub : option str;
  reality_uuid_file : option str;
  awg_pub : option str;
  branding : option str;
  serve_countries_json : option str;
}.

Definition read_trim (file : option str) : option str :=
  match file with
  | Some s => let t := trim s in if is_empty t then None else Some t
  | None => None
  end.

Definition serve_countries (parse : str -> option (list str)) (i : Inputs)
    : result (option (list str)) SecretsError :=
  match serve_countries_json i with
  | None => Ok None
  | Some raw =>
      if is_empty (trim raw) then Ok None
      else match parse raw with
           | Some cs => Ok (Some cs)
           | None => Err (ResponseParse "SERVE_COUNTRIES_JSON is not a valid JSON array")
           end
  end.

Definition build_body (valid_json : str -> bool) (a : Args) (i : Inputs)
    (countries : option (list str)) : result RegisterBody SecretsError :=
  let? b := if branding_config a
            then match branding i with
                 | None => Err (Io "branding")
                 | Some text => if valid_json text then Ok (Some text) else Err InvalidBranding
                 end
            else Ok None in
  Ok {| rb_partner_id := partner_id a; rb_domain := domain a; rb_token := token a;
        rb_public_ip := public_ip a; rb_region := region a;
        rb_awg_pubkey := read_trim (awg_pub i);
        rb_reality_public_key := read_trim (reality_pub i);
        rb_reality_uuid := read_trim (reality_uuid_file i);
        rb_branding := b; rb_serve_countries := countries |}.

(** ** The answer *)

Record RegisterResponseRaw := mkRaw {
  raw_node_id : option str;
  raw_backend_endpoint : option str;
  raw_turn_secret : option str;
  raw_reality_uuid : option str;
  raw_reality_public_key : option str;
  raw_reality_short_id : option str;
  raw_reality_server_name : option str;
  raw_reality_encryption : option str;
  raw_relay_jwt_secret : option str;
  raw_turns_subdomain : str;
}.

Record RegisterResponse := mkResponse {
  node_id : str;
  backend_endpoint : str;
  turn_secret : str;
  reality_uuid : str;
  reality_public_key : str;
  reality_short_id : str;
  reality_server_name : str;
  reality_encryption : str;
  relay_jwt_secret : option str;
  turns_subdomain : str;
}.

Definition require (value : option str) (name : string) : result str SecretsError :=
  match value with
  | Some v => if is_empty (trim v) then Err (MissingResponseField name) else Ok v
  | None => Err (MissingResponseField name)
  end.

Definition into_validated (r : RegisterResponseRaw) : result RegisterResponse SecretsError :=
  let? v1 := require (raw_node_id r) "node_id" in
  let? v2 := require (raw_backend_endpoint r) "backend_endpoint" in
  let? v3 := require (raw_turn_secret r) "turn_secret" in
  let? v4 := require (raw_reality_uuid r) "reality_uuid" in
  let? v5 := require (raw_reality_public_key r) "reality_public_key" in
  let? v6 := require (raw_reality_short_id r) "reality_short_id" in
  let? v7 := require (raw_reality_server_name r) "reality_server_name" in
  Ok {| node_id := v1; backend_endpoint := v2; turn_secret := v3; reality_uuid := v4;
        reality_public_key := v5; reality_short_id := v6; reality_server_name := v7;
        reality_encryption := default [] (raw_reality_encryption r);
        relay_jwt_secret := match raw_relay_jwt_secret r with
                            | Some s => if is_empty s then None else Some s
                            | None => None
                            end;
        turns_subdomain := raw_turns_subdomain r |}.

(** ** Environment files *)

Definition QUOTE : Z := 39.
Definition BACKSLASH : Z := 92.

(** [v.replace('\'', "'\\''")]. *)
Definition escape (v : str) : str :=
  v ≫= fun c => if c =? QUOTE then [QUOTE; BACKSLASH; QUOTE; QUOTE] else [c].

Definition env_line (k : string) (v : str) : str :=
  lit k ++ [EQUALS; QUOTE] ++ escape v ++ [QUOTE; NL].

Definition breaks_line (v : str) : bool := existsb (fun c => (c =? NL) || (c =? CR)) v.

Definition validate_env_value (name : string) (value : str) : result unit SecretsError :=
  if breaks_line value then Err (InvalidResponseValue name) else Ok tt.

Definition env_pairs (r : RegisterResponse) : list (string * str) :=
  [("NODE_ID", node_id r); ("BACKEND_ENDPOINT", backend_endpoint r); ("TURN_SECRET", turn_secret r);
   ("REALITY_UUID", reality_uuid r); ("REALITY_PUBLIC_KEY", reality_public_key r);
   ("REALITY_SHORT_ID", reality_short_id r); ("REALITY_SERVER_NAME", reality_server_name r);
   ("REALITY_ENCRYPTION", reality_encryption r);
   ("RELAY_JWT_SECRET", default [] (relay_jwt_secret r)); ("TURNS_SUBDOMAIN", turns_subdomain r)].

Fixpoint env_content (pairs : list (string * str)) : result str SecretsError :=
  match pairs with
  | [] => Ok []
  | (k, v) :: pairs' =>
      let? _ := validate_env_value k v in
      let? rest := env_content pairs' in
      Ok (env_line k v ++ rest)
  end.

(** ** Registration *)

(** The two files a registration may leave, and whether each can be written. *)
Record Left := mkLeft { left_json : option str; left_env : option str }.
Record Writable := mkWritable { json_writable : bool; env_writable : bool }.

Definition write_env_file (w : Writable) (r : RegisterResponse) : result str SecretsError :=
  let? text := env_content (env_pairs r) in
  if env_writable w then Ok text else Err (Io "out_env").

Definition stale (r : RegisterResponse) : bool :=
  is_empty (trim (reality_encryption r)) && negb (is_empty (trim (reality_public_key r))).

(** What happens once an answer with its parsed form is there. *)
Definition after_answer (a : Args) (w : Writable) (body : str) (raw : RegisterResponseRaw)
    : result unit SecretsError * Left :=
  match into_validated raw with
  | Err e => (Err e, mkLeft None None)
  | Ok r =>
      if out_json a && negb (json_writable w) then (Err (Io "out_json"), mkLeft None None)
      else
        let json := if out_json a then Some body else None in
        if stale r then (Err StaleRegistry, mkLeft json None)
        else match write_env_file w r with
             | Err e => (Err e, mkLeft json None)
             | Ok text => (Ok tt, mkLeft json (Some text))
             end
  end.

(** [register::run]; [post] answers the [n]-th request with a given body. *)
Definition run (parse_countries : str -> option (list str)) (valid_json : str -> bool)
    (post : RegisterBody -> nat -> Reply (str * RegisterResponseRaw))
    (a : Args) (i : Inputs) (w : Writable) : result unit SecretsError * Left :=
  match (let? cs := serve_countries parse_countries i in build_body valid_json a i cs) with
  | Err e => (Err e, mkLeft None None)
  | Ok body =>
      match (with_retry (post body) 0 (retries a)).1 with
      | Err e => (Err e, mkLeft None None)
      | Ok (text, raw) => after_answer a w text raw
      end
  end.

(** ** The SFU's signing key *)

(** [key.replace('\n', "\\n").replace('\r', "\\r")]. *)
Definition encode_newlines (key : str) : str :=
  key ≫= fun c => if c =? NL then [BACKSLASH; 110] else if c =? CR then [BACKSLASH; 114] else [c].

(** [sfu_key::fetch]: the text of the file when one is written. *)
Definition fetch (get : nat -> Reply (option str)) (n : nat) (writable : bool)
    : result unit SecretsError * option str :=
  match (with_retry get 0 n).1 with
  | Err e => (Err e, None)
  | Ok None => (Ok tt, None)
  | Ok (Some s) =>
      if is_empty (trim s) then (Ok tt, None)
      else let encoded := encode_newlines s in
           if breaks_line encoded then (Err (InvalidResponseValue "SFU_SIGNING_PUBLIC_KEY"), None)
           else if writable then (Ok tt, Some (env_line "SFU_SIGNING_PUBLIC_KEY" encoded))
           else (Err (Io "out_file"), None)
  end.

(** ** Reality identity *)

Record Identity := mkIdentity { f_priv : option str; f_pub : option str; f_uuid : option str }.

Definition REALITY_KEY_LEN : Z := 43.
Definition FILES : list string := ["reality.priv"; "reality.pub"; "reality.uuid"].
Definition file_of (d : Identity) (name : string) : option str :=
  if decide (name = "reality.priv") then f_priv d
  else if decide (name = "reality.pub") then f_pub d else f_uuid d.

Definition check_key (name : string) (text : str) : result unit SecretsError :=
  let l := len (as_bytes (trim text)) in
  if l =? REALITY_KEY_LEN then Ok tt else Err (InvalidKeyFormat name l).

(** [uuid_ok] is [Uuid::parse_str]; the three files are there. *)
Definition validate_existing (uuid_ok : str -> bool) (priv pub uuid : str) : result unit SecretsError :=
  let? _ := check_key "reality.priv" priv in
  let? _ := check_key "reality.pub" pub in
  if uuid_ok (trim uuid) then Ok tt
  else Err (InvalidKeyFormat "reality.uuid" (len (as_bytes (trim uuid)))).

(** A written file ends in a newline. *)
Definition file_body (text : str) : str := text ++ [NL].

(** The three writes; [ok n] tells whether the [n]-th succeeds. *)
Definition write_identity (ok : nat -> bool) (priv pub uuid : str) (d : Identity)
    : result unit SecretsError * Identity :=
  if negb (ok 0%nat) then (Err (Io "reality.priv"), d)
  else
    let d := mkIdentity (Some (file_body priv)) (f_pub d) (f_uuid d) in
    if negb (ok 1%nat) then (Err (Io "reality.pub"), d)
    else
      let d := mkIdentity (f_priv d) (Some (file_body pub)) (f_uuid d) in
      if negb (ok 2%nat) then (Err (Io "reality.uuid"), d)
      else (Ok tt, mkIdentity (f_priv d) (f_pub d) (Some (file_body uuid))).

Definition keygen_fresh (ok : nat -> bool) (pair : str * str) (uuid : str) (d : Identity)
    : result unit SecretsError * Identity :=
  let '(priv, pub) := pair in
  if negb (len (as_bytes priv) =? REALITY_KEY_LEN)
  then (Err (InvalidKeyFormat "reality.priv" (len (as_bytes priv))), d)
  else if negb (len (as_bytes pub) =? REALITY_KEY_LEN)
  then (Err (InvalidKeyFormat "reality.pub" (len (as_bytes pub))), d)
  else write_identity ok priv pub uuid d.

(** [reality::keygen]; [pair] and [uuid] are what the generators yield. *)
Definition reality_keygen (uuid_ok : str -> bool) (ok : nat -> bool) (pair : str * str) (uuid : str)
    (rotate : bool) (d : Identity) : result unit SecretsError * Identity :=
  let present := filter (fun n => is_Some (file_of d n)) FILES in
  if rotate then keygen_fresh ok pair uuid d
  else match f_priv d, f_pub d, f_uuid d with
       | Some priv, Some pub, Some u => (validate_existing uuid_ok priv pub u, d)
       | None, None, None => keygen_fresh ok pair uuid d
       | _, _, _ =>
           (Err (PartialIdentity present (filter (fun n => n ∉ present) FILES)), d)
       end.

(** ** AmneziaWG keys *)

Record AwgPair := mkAwg { awg_private : option str; awg_public : option str }.

(** [decode] is standard base64, [derive] the public key of a private one and
    [encode] its text. *)
Definition pub_from_priv_b64 (decode : str -> option (list Z)) (derive : list Z -> str) (priv : str)
    : result str SecretsError :=
  match decode (trim priv) with
  | None => Err (InvalidKeyFormat "<wg-private-key>" (len (as_bytes (trim priv))))
  | Some bytes => if len bytes =? 32 then Ok (derive bytes)
                  else Err (InvalidKeyFormat "<wg-private-key>" (len bytes))
  end.

Definition awg_keygen (decode : str -> option (list Z)) (derive : list Z -> str) (fresh : str)
    (priv_ok pub_ok : bool) (rotate : bool) (d : AwgPair) : result unit SecretsError * AwgPair :=
  let valid := match awg_private d with Some s => negb (is_empty (trim s)) | None => false end in
  let regenerated := rotate || negb valid in
  let '(r, d) :=
    if regenerated
    then if priv_ok then (Ok fresh, mkAwg (Some (file_body fresh)) (awg_public d))
         else (Err (Io "awg-private.key"), d)
    else (Ok (trim (default [] (awg_private d))), d) in
  match r with
  | Err e => (Err e, d)
  | Ok priv_key =>
      match pub_from_priv_b64 decode derive priv_key with
      | Err e => (Err e, d)
      | Ok pub_key => if pub_ok then (Ok tt, mkAwg (awg_private d) (Some (file_body pub_key)))
                      else (Err (Io "awg-public.key"), d)
      end
  end.
