(* ===== verification/OpecSecretsFacts.v ===== *)
(** * Theorems on the secrets of an edge node

    How often a request is repeated; that a shell reads an environment file back
    as exactly the values that were written; what a registration leaves behind on
    each outcome; the signing key on its way to the SFU; and when the two key
    stores hold a key pair whose halves belong together. *)

From Stdlib Require Import ZArith Lia.
From stdpp Require Import base option numbers gmap strings list.
From S2P Require Import Prelude RustStr PartnerKeys OpecSecrets.

(** ** Retries *)

(** The request is worth repeating: no answer, or a failure of the server. *)
Definition retryable {A} (r : Reply A) : bool :=
  match r with Answered _ | Unreadable _ => false | Status code _ => 500 <=? code | NoAnswer => true end.

Definition outcome {A} (r : Reply A) : result A SecretsError :=
  match r with
  | Answered a => Ok a
  | Unreadable reason => Err (ResponseParse reason)
  | Status code body => Err (Http code (take 500 body))
  | NoAnswer => Err TransportError
  end.

Definition pauses_of (first n : nat) : list Z :=
  (fun k => 500 * (Z.of_nat k + 1)) <$> seq first n.

Lemma with_retry_from {A} (ask : nat -> Reply A) n a :
  exists k, (k <= n)%nat /\
    (forall j, (j < k)%nat -> retryable (ask (a + j)%nat) = true) /\
    (retryable (ask (a + k)%nat) = false \/ k = n) /\
    with_retry ask a n = (outcome (ask (a + k)%nat), pauses_of a k).
Proof.
  revert a. induction n as [|n IH]; intros a.
  - exists 0%nat. rewrite Nat.add_0_r. repeat split; [lia | intros; lia | by right|].
    cbn. destruct (ask a) as [r|why|code body|]; [done|done| |done]. by destruct (_ <? _).
  - destruct (retryable (ask a)) eqn:Hr.
    + destruct (IH (S a)) as (k & Hk & Hbefore & Hlast & Heq).
      exists (S k). rewrite !Nat.add_succ_r. repeat split; [lia| |destruct Hlast; [by left | right; lia]|].
      * intros [|j] Hj; [by rewrite Nat.add_0_r|]. rewrite Nat.add_succ_r. apply Hbefore. lia.
      * cbn [with_retry]. rewrite Heq. cbn in Hr |- *.
        destruct (ask a) as [r|why|code body|]; [done|done| |done].
        cbn in Hr. destruct (Z.ltb_spec code 500); [|done]. apply Z.leb_le in Hr. lia.
    + exists 0%nat. rewrite Nat.add_0_r. repeat split; [lia | intros; lia | by left|].
      cbn. destruct (ask a) as [r|why|code body|]; [done|done| |done].
      cbn in Hr. apply Z.leb_gt in Hr. by rewrite (proj2 (Z.ltb_lt _ _) Hr).
Qed.

(** The retry loop of both HTTP calls: with [retries] repetitions allowed
    there is a request [k] of the at most [retries + 1] ones whose outcome is the
    call's; every earlier one went unanswered or met a failure of the server
    (status 500 and up), and it is itself final - an answer or a client error -
    or the last one allowed.  Between the requests the pauses are 500 ms, 1 s,
    1.5 s and so on, none after the last. *)
Theorem retry_exact {A} (ask : nat -> Reply A) n :
  exists k, (k <= n)%nat /\
    (forall j, (j < k)%nat -> retryable (ask j) = true) /\
    (retryable (ask k) = false \/ k = n) /\
    with_retry ask 0 n = (outcome (ask k), pauses_of 0 k).
Proof. exact (with_retry_from ask n 0). Qed.

Example third_time :
  with_retry (fun n => match n with 0%nat => NoAnswer | 1%nat => Status 503 (lit "busy")
                       | _ => Answered 7 end) 0 3 = (Ok 7, [500; 1000]).
Proof. reflexivity. Qed.

(** ** Reading an environment file *)

Definition sh_name_char (c : Z) : bool :=
  ((65 <=? c) && (c <=? 90)) || ((97 <=? c) && (c <=? 122)) || (c =? 95).
Definition sh_name (s : str) : bool := negb (is_empty s) && forallb sh_name_char s.

(** The value of an assignment as a POSIX shell reads it, for the part of the
    language that has single quotes and the backslash: the value and what follows
    its line.  Everything else a shell could interpret, an unclosed quote and the
    NUL character, which a shell cannot hold, are refused. *)
Fixpoint sh_value (quoted : bool) (s : str) : option (str * str) :=
  match s with
  | [] => None
  | c :: t =>
      if c =? 0 then None
      else if quoted
      then if c =? QUOTE then sh_value false t
           else match sh_value true t with Some (v, rest) => Some (c :: v, rest) | None => None end
      else if c =? QUOTE then sh_value true t
      else if c =? NL then Some ([], t)
      else match t with
           | d :: t' => if (c =? BACKSLASH) && negb (d =? NL) && negb (d =? 0)
                        then match sh_value false t' with
                             | Some (v, rest) => Some (d :: v, rest) | None => None end
                        else None
           | [] => None
           end
  end.

Fixpoint sh_assignments (fuel : nat) (s : str) : option (list (str * str)) :=
  match fuel, s with
  | _, [] => Some []
  | O, _ => None
  | S fuel, _ =>
      match split_once EQUALS s with
      | Some (name, t) =>
          if sh_name name
          then match sh_value false t with
               | Some (v, rest) => cons (name, v) <$> sh_assignments fuel rest
               | None => None
               end
          else None
      | None => None
      end
  end.

(** [source file]; every assignment takes a character, so the length suffices. *)
Definition sh_source (s : str) : option (list (str * str)) := sh_assignments (length s) s.

Lemma escape_cons c v :
  escape (c :: v) = (if c =? QUOTE then [QUOTE; BACKSLASH; QUOTE; QUOTE] else [c]) ++ escape v.
Proof. reflexivity. Qed.

Lemma sh_value_escape v rest :
  0 ∉ v -> sh_value true (escape v ++ QUOTE :: NL :: rest) = Some (v, rest).
Proof.
  induction v as [|c v IH]; intros H0; [done|].
  apply not_elem_of_cons in H0 as [Hc H0]. specialize (IH H0).
  rewrite escape_cons. destruct (Z.eqb_spec c QUOTE) as [->|Hne]; cbn -[escape].
  - by rewrite IH.
  - rewrite (proj2 (Z.eqb_neq c 0)), (proj2 (Z.eqb_neq c QUOTE)) by congruence. by rewrite IH.
Qed.

Lemma sh_env_line k v rest fuel :
  sh_name (lit k) = true -> 0 ∉ v ->
  sh_assignments (S fuel) (env_line k v ++ rest) =
  cons (lit k, v) <$> sh_assignments fuel rest.
Proof.
  intros Hk Hv. unfold env_line.
  replace ((lit k ++ [EQUALS; QUOTE] ++ escape v ++ [QUOTE; NL]) ++ rest)
    with (lit k ++ EQUALS :: QUOTE :: escape v ++ QUOTE :: NL :: rest)
    by (rewrite <- app_assoc; cbn; by rewrite <- app_assoc).
  assert (split_once EQUALS (lit k ++ EQUALS :: QUOTE :: escape v ++ QUOTE :: NL :: rest)
          = Some (lit k, QUOTE :: escape v ++ QUOTE :: NL :: rest)) as Hs.
  { apply split_once_Some. split; [done|]. intros Hin.
    apply andb_true_iff in Hk as [_ Hk]. rewrite forallb_forall in Hk.
    by specialize (Hk EQUALS ltac:(by apply list_elem_of_In)). }
  destruct (lit k) as [|c s] eqn:E; [done|].
  cbn [sh_assignments app]. cbn [app] in Hs. rewrite Hs, Hk.
  change (sh_value false (QUOTE :: ?x)) with (sh_value true x). by rewrite sh_value_escape.
Qed.

Lemma sh_assignments_more fuel fuel' s l :
  (fuel <= fuel')%nat -> sh_assignments fuel s = Some l -> sh_assignments fuel' s = Some l.
Proof.
  revert fuel' s l. induction fuel as [|fuel IH]; intros fuel' s l Hle.
  - by destruct s, fuel'.
  - destruct fuel' as [|fuel']; [lia|]. destruct s as [|c s]; [done|]. cbn [sh_assignments].
    destruct (split_once _ _) as [[name t]|]; [|done]. destruct (sh_name name); [|done].
    destruct (sh_value false t) as [[v rest]|]; [|done].
    destruct (sh_assignments fuel rest) as [l'|] eqn:E; [|done].
    by rewrite (IH fuel' _ _ ltac:(lia) E).
Qed.

Definition names_ok (pairs : list (string * str)) : Prop :=
  Forall (fun kv => sh_name (lit kv.1) = true) pairs.

Lemma env_content_Ok pairs :
  (exists text, env_content pairs = Ok text) <-> Forall (fun kv => breaks_line kv.2 = false) pairs.
Proof.
  induction pairs as [|[k v] pairs IH]; [split; [constructor | by eexists]|].
  cbn [env_content]. unfold validate_env_value. rewrite Forall_cons. cbn [snd].
  destruct (breaks_line v); cbn [rbind]; [split; [by intros [? ?] | by intros [? ?]]|].
  destruct (env_content pairs) as [rest|e]; cbn [rbind].
  - split; [intros _|by eexists]. split; [done|]. apply IH. by eexists.
  - split; [by intros [? ?]|]. intros [_ Hf]. apply IH in Hf as [? ?]. done.
Qed.

Lemma env_content_source pairs text :
  names_ok pairs -> Forall (fun kv => 0 ∉ kv.2) pairs -> env_content pairs = Ok text ->
  sh_source text = Some (prod_map lit id <$> pairs).
Proof.
  intros Hn H0 Ht. unfold sh_source.
  enough (sh_assignments (length pairs) text = Some (prod_map lit id <$> pairs) /\
          (length pairs <= length text)%nat) as [? ?] by (by eapply sh_assignments_more).
  revert text Ht. induction pairs as [|[k v] pairs IH]; intros text Ht.
  { injection Ht as <-. done. }
  cbn in Ht. apply rbind_Ok in Ht as (_ & _ & Ht). apply rbind_Ok in Ht as (rest & Hr & Ht).
  injection Ht as <-. apply Forall_cons in Hn as [Hk Hn], H0 as [Hv H0]. cbn in Hk, Hv.
  destruct (IH Hn H0 rest Hr) as [IH1 IH2]. cbn [length].
  rewrite sh_env_line, IH1 by done. split; [done|].
  unfold env_line. rewrite !length_app. cbn. lia.
Qed.

(** ** Registration *)

Lemma env_pairs_names r : names_ok (env_pairs r).
Proof. unfold names_ok, env_pairs. repeat (apply Forall_cons; split; [reflexivity|]). constructor. Qed.

Lemma run_Ok pc vj post a i w left :
  run pc vj post a i w = (Ok tt, left) ->
  exists cs body k json raw r text,
    serve_countries pc i = Ok cs /\ build_body vj a i cs = Ok body /\
    (k <= retries a)%nat /\ (forall j, (j < k)%nat -> retryable (post body j) = true) /\
    post body k = Answered (json, raw) /\
    into_validated raw = Ok r /\ stale r = false /\ env_content (env_pairs r) = Ok text /\
    left = mkLeft (if out_json a then Some json else None) (Some text).
Proof.
  unfold run. intros Hrun. destruct (serve_countries pc i) as [cs|] eqn:Hcs; [|done].
  cbn [rbind] in Hrun. destruct (build_body vj a i cs) as [body|] eqn:Hb; [|done].
  destruct (with_retry_from (post body) (retries a) 0) as (k & Hk & Hj & _ & Hr).
  rewrite Hr in Hrun. cbn [fst Nat.add] in Hrun, Hr.
  destruct (post body k) as [[json raw]|why|code t|] eqn:Hp; [|done..]. cbn in Hrun.
  unfold after_answer in Hrun. destruct (into_validated raw) as [r|] eqn:Hv; [|done].
  destruct (_ && negb _); [done|]. destruct (stale r) eqn:Hst; [done|].
  unfold write_env_file in Hrun. destruct (env_content (env_pairs r)) as [text|] eqn:Ht; [|done].
  cbn [rbind] in Hrun. destruct (env_writable w); [|done]. injection Hrun as <-.
  by exists cs, body, k, json, raw, r, text.
Qed.

(** ** What the request and the answer must be *)

(** A file's text without outer blanks, unless nothing is left of it. *)
Definition nonblank (file : option str) : option str :=
  match file with
  | Some s => if decide (trim s = []) then None else Some (trim s)
  | None => None
  end.

(** The request made of the arguments and the files. *)
Record asks (pc : str -> option (list str)) (vj : str -> bool) (a : Args) (i : Inputs) (body : RegisterBody) : Prop := {
  ak_partner : rb_partner_id body = partner_id a;
  ak_domain : rb_domain body = domain a;
  ak_token : rb_token body = token a;
  ak_ip : rb_public_ip body = public_ip a;
  ak_region : rb_region body = region a;
  ak_awg : rb_awg_pubkey body = nonblank (awg_pub i);
  ak_key : rb_reality_public_key body = nonblank (reality_pub i);
  ak_uuid : rb_reality_uuid body = nonblank (reality_uuid_file i);
  ak_branding : if branding_config a then exists t, branding i = Some t /\ vj t = true /\ rb_branding body = Some t
                else rb_branding body = None;
  ak_countries : match nonblank (serve_countries_json i), serve_countries_json i with
                 | Some _, Some raw => exists cs, pc raw = Some cs /\ rb_serve_countries body = Some cs
                 | _, _ => rb_serve_countries body = None
                 end;
}.

(** A required member is there and not blank. *)
Definition given (field : option str) (v : str) : Prop := field = Some v /\ trim v <> [].

(** The ten variables of an answer; the first seven are required, and so is the
    encryption, without which the registry is taken for a stale one. *)
Inductive answered : RegisterResponseRaw -> list (str * str) -> Prop :=
| answered_with raw node backend turn uuid key short sni enc :
    given (raw_node_id raw) node -> given (raw_backend_endpoint raw) backend ->
    given (raw_turn_secret raw) turn -> given (raw_reality_uuid raw) uuid ->
    given (raw_reality_public_key raw) key -> given (raw_reality_short_id raw) short ->
    given (raw_reality_server_name raw) sni -> given (raw_reality_encryption raw) enc ->
    answered raw
      [(lit "NODE_ID", node); (lit "BACKEND_ENDPOINT", backend); (lit "TURN_SECRET", turn);
       (lit "REALITY_UUID", uuid); (lit "REALITY_PUBLIC_KEY", key); (lit "REALITY_SHORT_ID", short);
       (lit "REALITY_SERVER_NAME", sni); (lit "REALITY_ENCRYPTION", enc);
       (lit "RELAY_JWT_SECRET", default [] (raw_relay_jwt_secret raw));
       (lit "TURNS_SUBDOMAIN", raw_turns_subdomain raw)].

Lemma read_trim_nonblank file : read_trim file = nonblank file.
Proof. destruct file as [t|]; [|done]. cbn. by destruct (trim t). Qed.

Lemma build_body_asks pc vj a i cs body :
  serve_countries pc i = Ok cs -> build_body vj a i cs = Ok body -> asks pc vj a i body.
Proof.
  unfold serve_countries, build_body. intros Hc (b & Hb & [= <-])%rbind_Ok. split; cbn; rewrite ?read_trim_nonblank; try done.
  - destruct (branding_config a); [|by injection Hb as <-]. destruct (branding i) as [t|]; [|done].
    destruct (vj t) eqn:Hv; [|done]. injection Hb as <-. by exists t.
  - destruct (serve_countries_json i) as [raw|]; cbn; [|by injection Hc as <-].
    destruct (trim raw) eqn:Ht; cbn in Hc |- *; [by injection Hc as <-|].
    destruct (pc raw) as [l|]; [|done]. injection Hc as <-. by exists l.
Qed.

Lemma require_given value name v : require value name = Ok v -> given value v.
Proof.
  unfold require, given. destruct value as [t|]; [|done]. destruct (trim t) eqn:Ht; [done|]. cbn.
  intros [= <-]. by rewrite Ht.
Qed.

Lemma validated_answered raw r :
  into_validated raw = Ok r -> stale r = false -> answered raw (prod_map lit id <$> env_pairs r).
Proof.
  unfold into_validated.
  intros (v1 & H1%require_given & (v2 & H2%require_given & (v3 & H3%require_given & (v4 & H4%require_given &
    (v5 & H5%require_given & (v6 & H6%require_given & (v7 & H7%require_given & [= <-])%rbind_Ok)%rbind_Ok)%rbind_Ok
    )%rbind_Ok)%rbind_Ok)%rbind_Ok)%rbind_Ok Hst.
  unfold stale in Hst. cbn [reality_encryption reality_public_key] in Hst. destruct (trim v5) eqn:E5; [by destruct H5|].
  destruct (raw_reality_encryption raw) as [enc|] eqn:Henc; [|done]. cbn [default] in Hst.
  assert (given (raw_reality_encryption raw) enc) as H8.
  { rewrite Henc. split; [done|]. intros Hb. unfold default, id in Hst. by rewrite Hb in Hst. }
  pose proof (answered_with raw v1 v2 v3 v4 v5 v6 v7 enc H1 H2 H3 H4 H5 H6 H7 H8) as Ha.
  destruct (raw_relay_jwt_secret raw) as [[|c t]|] eqn:Hj; exact Ha.
Qed.

(** C39. A registration that succeeds: one of the allowed requests was answered,
    every one before it having met no answer or a status of 500 and up, and each
    was made with the arguments, the keys and the identity in their files without
    outer blanks (left out when blank or missing), the branding that was asked
    for and the declared countries; the answer has the seven required members
    and the encryption, none of them blank; the raw answer is kept when that was
    asked for; and a shell that sources the environment file gets the ten
    variables, each with the value of its own member of the answer, in order and
    nothing else, whatever characters the registry put into them (a NUL apart,
    which no shell variable holds). *)
Theorem registration_sourced pc vj post a i w left :
  run pc vj post a i w = (Ok tt, left) ->
  exists body k json raw vars text,
    asks pc vj a i body /\ (k <= retries a)%nat /\
    (forall j, (j < k)%nat -> post body j = NoAnswer \/ exists code t, post body j = Status code t /\ 500 <= code) /\
    post body k = Answered (json, raw) /\ answered raw vars /\
    left = mkLeft (if out_json a then Some json else None) (Some text) /\
    (Forall (fun kv => 0 ∉ kv.2) vars -> sh_source text = Some vars).
Proof.
  intros (cs & body & k & json & raw & r & text & Hc & Hb & Hk & Hj & Hp & Hv & Hst & Ht & Hl)%run_Ok.
  exists body, k, json, raw, (prod_map lit id <$> env_pairs r), text. split_and!; try done.
  - by eapply build_body_asks.
  - intros j Hlt. specialize (Hj j Hlt). destruct (post body j) as [|why|code t|]; try done; [|by left].
    right. exists code, t. split; [done | by apply Z.leb_le].
  - by apply validated_answered.
  - rewrite Forall_fmap. intros Hnul. by eapply env_content_source; [apply env_pairs_names | | exact Ht].
Qed.

(** A registry that tries to run a command and to close the quotes. *)
Definition demo_raw (secret encryption : str) : RegisterResponseRaw :=
  mkRaw (Some (lit "n1")) (Some (lit "be:8443")) (Some secret) (Some (lit "uuid"))
    (Some (lit "PK")) (Some (lit "ab")) (Some (lit "sni")) (Some encryption) None [].

Definition demo_args : Args :=
  mkArgs (lit "p") (lit "d.example") (lit "t") (lit "192.0.2.1") None false true 2.
Definition demo_inputs : Inputs := mkInputs None None (Some (lit " K ")) None None.

(** The first request meets a gateway error, the others are answered. *)
Definition demo_post (secret encryption : str) (_ : RegisterBody) (n : nat)
    : Reply (str * RegisterResponseRaw) :=
  match n with O => Status 502 [] | _ => Answered (lit "{..}", demo_raw secret encryption) end.

Definition demo_run (secret encryption : str) : result unit SecretsError * Left :=
  run (fun _ => None) (fun _ => true) (demo_post secret encryption)
    demo_args demo_inputs (mkWritable true true).

Definition hostile : str := lit "$(id)';X='`x`\".

Lemma registration_sourced_witness :
  exists text, (demo_run hostile (lit "mlkem")).2 = mkLeft (Some (lit "{..}")) (Some text) /\
    exists vars, sh_source text = Some vars /\ vars !! 2%nat = Some (lit "TURN_SECRET", hostile) /\
      length vars = 10%nat.
Proof.
  destruct (registration_sourced (fun _ => None) (fun _ => true) (demo_post hostile (lit "mlkem"))
    demo_args demo_inputs (mkWritable true true) (demo_run hostile (lit "mlkem")).2 ltac:(vm_compute; reflexivity))
    as (body & k & json & raw & vars & text & _ & _ & _ & Hp & Ha & Hl & Hs).
  destruct k as [|k]; [done|]. injection Hp as <- <-. exists text. split; [exact Hl|]. clear Hl.
  inversion Ha as [raw node backend turn uuid key short sni enc [E1 _] [E2 _] [E3 _] [E4 _] [E5 _] [E6 _] [E7 _] [E8 _] Eraw Evars].
  injection E1 as <-. injection E2 as <-. injection E3 as <-. injection E4 as <-. injection E5 as <-. injection E6 as <-.
  injection E7 as <-. injection E8 as <-. rewrite <- Evars in Hs.
  eexists. split; [apply Hs; refine (bool_decide_eq_true_1 _ _); vm_compute; reflexivity|].
  split; reflexivity.
Defined.

(** The refusals that come after the copy of the answer is written. *)
Definition late (e : SecretsError) : Prop :=
  e = StaleRegistry \/ (exists n, e = InvalidResponseValue n) \/ e = Io "out_env".

Lemma env_content_Err pairs e : env_content pairs = Err e -> exists n, e = InvalidResponseValue n.
Proof.
  induction pairs as [|[k v] pairs IH]; [done|]. cbn [env_content]. unfold validate_env_value.
  destruct (breaks_line v); cbn [rbind]; [intros [= <-]; by eexists|].
  destruct (env_content pairs); cbn [rbind]; [done|]. intros [= <-]. by apply IH.
Qed.

Lemma into_validated_Err raw e : into_validated raw = Err e -> exists n, e = MissingResponseField n.
Proof.
  unfold into_validated.
  assert (forall o n e', require o n = Err e' -> e' = MissingResponseField n) as Hr.
  { intros o n e'. unfold require. destruct o; [destruct (is_empty _)|]; congruence. }
  repeat match goal with
  | |- rbind (require ?o ?n) _ = _ -> _ =>
      let E := fresh in destruct (require o n) as [?|?] eqn:E; cbn [rbind];
      [|intros [= <-]; apply Hr in E; by eexists]
  end.
  done.
Qed.

Lemma after_answer_Err a w body raw e left :
  out_json a = true -> after_answer a w body raw = (Err e, left) ->
  left_env left = None /\ (is_Some (left_json left) <-> late e).
Proof.
  unfold after_answer, late. intros -> H. cbn [andb] in H.
  destruct (into_validated raw) as [r|e'] eqn:Hv.
  2: { apply into_validated_Err in Hv as [n ->]. injection H as <- <-. split; [done|].
       split; [by intros [? ?] | naive_solver]. }
  destruct (json_writable w); cbn [negb] in H.
  2: { injection H as <- <-. split; [done|]. split; [by intros [? ?] | naive_solver]. }
  destruct (stale r).
  { injection H as <- <-. split; [done|]. split; [auto | by eexists]. }
  unfold write_env_file in H. destruct (env_content _) as [text|e'] eqn:He; cbn [rbind] in H.
  - destruct (env_writable w); [done|]. injection H as <- <-. split; [done|]. split; [auto | by eexists].
  - apply env_content_Err in He as [n ->]. injection H as <- <-. split; [done|].
    split; [eauto | by eexists].
Qed.

Lemma request_error_early pc vj a i e :
  (let? cs := serve_countries pc i in build_body vj a i cs) = Err e -> ~ late e.
Proof.
  unfold serve_countries, build_body, late. intros H.
  repeat step_in H; cbn [rbind] in *; repeat step_in H; simplify_eq; naive_solver.
Qed.

Lemma outcome_error_early {A} (r : Reply A) e : outcome r = Err e -> ~ late e.
Proof. unfold late. destruct r; cbn; intros [=]; naive_solver. Qed.

(** A registration that fails leaves no environment file; but when a copy of
    the answer was asked for and all its fields are there, the copy, with every
    secret of the answer, has been written before the last checks: it stays on
    disk exactly when the registration is refused as stale, for a line break in a
    value, or because the environment file cannot be written. *)
Theorem failed_registration_leaves_json pc vj post a i w e left :
  out_json a = true -> run pc vj post a i w = (Err e, left) ->
  left_env left = None /\
  (is_Some (left_json left) <->
   e = StaleRegistry \/ (exists n, e = InvalidResponseValue n) \/ e = Io "out_env").
Proof.
  intros Ho. unfold run. change (_ = StaleRegistry \/ _) with (late e).
  assert (forall e', ~ late e' -> (Err e', mkLeft None None) = (@Err unit _ e, left) ->
    left_env left = None /\ (is_Some (left_json left) <-> late e)) as Hnone.
  { intros e' Hn [= <- <-]. split; [done|]. split; [by intros [? ?]|done]. }
  destruct (rbind _ _) as [body|e'] eqn:Hb; [|eauto using request_error_early].
  destruct (with_retry_from (post body) (retries a) 0) as (k & _ & _ & _ & Hr).
  rewrite Hr. cbn [fst]. destruct (outcome _) as [[text raw]|e'] eqn:Hout.
  - by apply after_answer_Err.
  - eauto using outcome_error_early.
Qed.

(** A registry without the encryption field: refused, the secret left behind. *)
Lemma failed_registration_leaves_json_witness :
  demo_run (lit "s3cret") [] = (Err StaleRegistry, mkLeft (Some (lit "{..}")) None) /\
  is_Some (left_json (demo_run (lit "s3cret") []).2).
Proof.
  split; [vm_compute; reflexivity|].
  refine (proj2 (proj2 (failed_registration_leaves_json (fun _ => None) (fun _ => true)
    (demo_post (lit "s3cret") []) demo_args demo_inputs (mkWritable true true)
    StaleRegistry (demo_run (lit "s3cret") []).2 _ _)) _); [reflexivity | vm_compute; reflexivity | by left].
Defined.

(** ** The signing key *)

Lemma encode_newlines_cons c v :
  encode_newlines (c :: v) =
  (if c =? NL then [BACKSLASH; 110] else if c =? CR then [BACKSLASH; 114] else [c]) ++ encode_newlines v.
Proof. reflexivity. Qed.

Lemma encode_newlines_spec v :
  breaks_line (encode_newlines v) = false /\ (0 ∉ v -> 0 ∉ encode_newlines v) /\
  (length v <= length (encode_newlines v))%nat /\
  (breaks_line v = true -> (length v < length (encode_newlines v))%nat) /\
  (breaks_line v = false -> encode_newlines v = v).
Proof.
  induction v as [|c v (IH1 & IH2 & IH3 & IH4 & IH5)]; [split_and!; cbn; done || lia|].
  rewrite encode_newlines_cons. unfold breaks_line in *. rewrite existsb_app, IH1, orb_false_r, length_app.
  cbn [existsb length]. rewrite not_elem_of_cons.
  destruct (Z.eqb_spec c NL) as [->|H1]; [|destruct (Z.eqb_spec c CR) as [->|H2]]; cbn [orb app length existsb].
  1,2: split_and!; [done | set_solver by lia | lia | lia | done].
  rewrite (proj2 (Z.eqb_neq _ _) H1), (proj2 (Z.eqb_neq _ _) H2). cbn [orb].
  split_and!; [done | set_solver | lia | intros; specialize (IH4 ltac:(done)); lia |
    intros; by rewrite IH5].
Qed.

(** The signing key on its way to the SFU.  A successful fetch that writes a
    file wrote the key some answer carried, and whoever sources the file gets the
    key with each line feed and carriage return turned into a backslash and a
    letter: the key itself exactly when it has neither.  A PEM text of several
    lines therefore does not arrive as it was sent. *)
Theorem signing_key_handover get n writable text :
  fetch get n writable = (Ok tt, Some text) ->
  exists k key, (k <= n)%nat /\ get k = Answered (Some key) /\ is_empty (trim key) = false /\
    (0 ∉ key -> sh_source text = Some [(lit "SFU_SIGNING_PUBLIC_KEY", encode_newlines key)]) /\
    (encode_newlines key = key <-> breaks_line key = false).
Proof.
  unfold fetch. destruct (with_retry_from get n 0) as (k & Hk & _ & _ & ->). cbn [fst Nat.add].
  destruct (get k) as [[key|]|why|code t|] eqn:Hg; [|done..]. cbn [outcome].
  destruct (is_empty (trim key)) eqn:Hk0; [done|].
  destruct (encode_newlines_spec key) as (Hb & H0 & Hl & Hlt & Heq). rewrite Hb.
  destruct writable; [|done]. intros [= <-]. exists k, key. split_and!; [done..| |].
  - intros Hnul. change (Some [_]) with (Some (prod_map lit id <$> [("SFU_SIGNING_PUBLIC_KEY", encode_newlines key)])).
    apply env_content_source; [by repeat constructor | repeat constructor; auto|].
    cbn [env_content]. unfold validate_env_value. rewrite Hb. cbn [rbind]. by rewrite app_nil_r.
  - split; [|done]. intros E. destruct (breaks_line key); [|done]. specialize (Hlt eq_refl).
    rewrite E in Hlt. lia.
Qed.

Definition demo_pem : str := lit "-----BEGIN-----" ++ [NL] ++ lit "MCow" ++ [NL] ++ lit "-----END-----".

Lemma signing_key_handover_witness :
  exists text, fetch (fun _ => Answered (Some demo_pem)) 0 true = (Ok tt, Some text) /\
    sh_source text = Some [(lit "SFU_SIGNING_PUBLIC_KEY", lit "-----BEGIN-----\nMCow\n-----END-----")] /\
    encode_newlines demo_pem <> demo_pem.
Proof.
  eexists. split; [reflexivity|].
  destruct (signing_key_handover (fun _ => Answered (Some demo_pem)) 0 true _ eq_refl)
    as (k & key & _ & [= <-] & _ & Hs & Hne).
  split; [apply Hs; refine (bool_decide_eq_true_1 _ _); vm_compute; reflexivity|].
  intros E. apply Hne in E. by vm_compute in E.
Defined.

(** ** The Reality identity *)

(** Reusing an identity never changes it: without [--rotate] a run over a
    directory that holds any of the three files leaves them as they are,
    and succeeds exactly when all three are there, both keys are 43 bytes long
    once trimmed and the identifier is a UUID; over an empty directory it writes
    the generated triple, and the next run accepts what it wrote. *)
Theorem reality_identity_stable uuid_ok ok pair uuid d r d' :
  reality_keygen uuid_ok ok pair uuid false d = (r, d') ->
  (d <> mkIdentity None None None -> d' = d /\
   (r = Ok tt <-> exists priv pub u, d = mkIdentity (Some priv) (Some pub) (Some u) /\
      len (as_bytes (trim priv)) = REALITY_KEY_LEN /\ len (as_bytes (trim pub)) = REALITY_KEY_LEN /\
      uuid_ok (trim u) = true)) /\
  (d = mkIdentity None None None -> r = Ok tt -> trim pair.1 = pair.1 -> trim pair.2 = pair.2 ->
   uuid_ok (trim uuid) = true ->
   d' = mkIdentity (Some (file_body pair.1)) (Some (file_body pair.2)) (Some (file_body uuid)) /\
   forall ok2 pair2 uuid2, reality_keygen uuid_ok ok2 pair2 uuid2 false d' = (Ok tt, d')).
Proof.
  assert (forall n t, check_key n t = Ok tt <-> len (as_bytes (trim t)) = REALITY_KEY_LEN) as Hck.
  { intros n t. unfold check_key. destruct (Z.eqb_spec (len (as_bytes (trim t))) REALITY_KEY_LEN); done. }
  assert (forall p q u, validate_existing uuid_ok p q u = Ok tt <->
    len (as_bytes (trim p)) = REALITY_KEY_LEN /\ len (as_bytes (trim q)) = REALITY_KEY_LEN /\
    uuid_ok (trim u) = true) as Hval.
  { intros p q u. unfold validate_existing.
    rewrite <- (Hck "reality.priv" p), <- (Hck "reality.pub" q).
    destruct (check_key "reality.priv" p) as [[]|]; cbn [rbind]; [|naive_solver].
    destruct (check_key "reality.pub" q) as [[]|]; cbn [rbind]; [|naive_solver].
    destruct (uuid_ok (trim u)); naive_solver. }
  unfold reality_keygen. intros H. split.
  - intros Hd. destruct d as [[p|] [q|] [u|]]; cbn in H; try done; injection H as <- <-; (split; [done|]).
    1: { rewrite Hval. split; [intros; by exists p, q, u | by intros (? & ? & ? & [= <- <- <-] & ?)]. }
    all: split; [done | by intros (? & ? & ? & ? & _)].
  - intros -> Hr Ht1 Ht2 Hu. cbn [f_priv f_pub f_uuid] in H. unfold keygen_fresh in H.
    destruct pair as [p q]. cbn [fst snd] in *.
    destruct (Z.eqb_spec (len (as_bytes p)) REALITY_KEY_LEN) as [Hp|]; cbn [negb] in H; [|congruence].
    destruct (Z.eqb_spec (len (as_bytes q)) REALITY_KEY_LEN) as [Hq|]; cbn [negb] in H; [|congruence].
    unfold write_identity in H.
    destruct (ok 0%nat), (ok 1%nat), (ok 2%nat); cbn in H; try congruence. injection H as _ <-.
    split; [done|]. intros ok2 pair2 uuid2. cbn [f_priv f_pub f_uuid]. f_equal.
    apply Hval. unfold file_body. by rewrite !trim_space_end, Ht1, Ht2.
Qed.

Definition demo_key (c : Z) : str := replicate 43 c.

Lemma reality_identity_stable_witness :
  let d := mkIdentity (Some (file_body (demo_key 97))) (Some (file_body (demo_key 98)))
             (Some (file_body (lit "u1"))) in
  reality_keygen (fun _ => true) (fun _ => true) (demo_key 97, demo_key 98) (lit "u1") false
    (mkIdentity None None None) = (Ok tt, d) /\
  reality_keygen (fun _ => true) (fun _ => true) (demo_key 99, demo_key 100) (lit "u2") false d = (Ok tt, d).
Proof.
  split; [vm_compute; reflexivity|].
  apply (proj2 (reality_identity_stable (fun _ => true) (fun _ => true) (demo_key 97, demo_key 98) (lit "u1")
    (mkIdentity None None None) _ _ ltac:(vm_compute; reflexivity))); vm_compute; reflexivity.
Defined.

(** A rotation that fails half-way goes unnoticed: if the new private key is
    written and the write of the public key fails, the run reports it, but the
    directory now pairs the new private key with the old public key and
    identifier, and a later run without [--rotate] checks lengths only, accepts
    that identity and keeps it. *)
Theorem torn_rotation_accepted uuid_ok ok priv pub u priv' pub' u' :
  reality_keygen uuid_ok ok (priv', pub') u' false (mkIdentity (Some priv) (Some pub) (Some u))
    = (Ok tt, mkIdentity (Some priv) (Some pub) (Some u)) ->
  trim priv' = priv' -> len (as_bytes priv') = REALITY_KEY_LEN -> len (as_bytes pub') = REALITY_KEY_LEN ->
  ok 0%nat = true -> ok 1%nat = false ->
  let torn := mkIdentity (Some (file_body priv')) (Some pub) (Some u) in
  reality_keygen uuid_ok ok (priv', pub') u' true (mkIdentity (Some priv) (Some pub) (Some u))
    = (Err (Io "reality.pub"), torn) /\
  forall ok2 pair2 uuid2, reality_keygen uuid_ok ok2 pair2 uuid2 false torn = (Ok tt, torn).
Proof.
  intros Hgood Ht Hp Hq H0 H1 torn. split.
  - unfold reality_keygen, keygen_fresh, write_identity. by rewrite Hp, Hq, H0, H1.
  - intros ok2 pair2 uuid2. unfold reality_keygen in *. cbn [f_priv f_pub f_uuid torn] in *.
    f_equal. apply (f_equal fst) in Hgood. cbn [fst] in Hgood. unfold validate_existing in *.
    apply rbind_Ok in Hgood as (? & _ & Hgood).
    assert (check_key "reality.priv" (file_body priv') = Ok tt) as ->; [|done].
    unfold check_key, file_body. by rewrite trim_space_end, Ht, Hp.
Qed.

Lemma torn_rotation_accepted_witness :
  let torn := mkIdentity (Some (file_body (demo_key 99))) (Some (file_body (demo_key 98)))
                (Some (file_body (lit "u1"))) in
  reality_keygen (fun _ => true) (fun _ => true) (demo_key 101, demo_key 102) (lit "u3") false torn
    = (Ok tt, torn).
Proof.
  apply (proj2 (torn_rotation_accepted (fun _ => true) (fun n => Nat.eqb n 0) (file_body (demo_key 97))
    (file_body (demo_key 98)) (file_body (lit "u1")) (demo_key 99) (demo_key 100) (lit "u2")
    ltac:(vm_compute; reflexivity) ltac:(vm_compute; reflexivity) ltac:(vm_compute; reflexivity)
    ltac:(vm_compute; reflexivity) eq_refl eq_refl)).
Defined.

(** ** The AmneziaWG pair *)

Section Awg.

(** Standard base64 decodes the empty text to no bytes. *)
Context (decode : str -> option (list Z)) (derive : list Z -> str).
Hypothesis decode_empty : decode [] = Some [].

Lemma pub_from_priv_trim s t :
  trim s = trim t -> pub_from_priv_b64 decode derive s = pub_from_priv_b64 decode derive t.
Proof. unfold pub_from_priv_b64. by intros ->. Qed.

Lemma pub_from_priv_Ok s k :
  pub_from_priv_b64 decode derive s = Ok k ->
  is_empty (trim s) = false /\ exists bytes, decode (trim s) = Some bytes /\ len bytes = 32 /\ k = derive bytes.
Proof.
  unfold pub_from_priv_b64. destruct (decode (trim s)) as [bytes|] eqn:E; [|done].
  destruct (Z.eqb_spec (len bytes) 32); [|done]. intros [= <-]. split; [|by exists bytes].
  destruct (trim s); [|done]. rewrite decode_empty in E. by injection E as <-.
Qed.

(** The run, told by the private key it ends up with. *)
Lemma awg_keygen_Ok fresh priv_ok pub_ok rotate d d' :
  awg_keygen decode derive fresh priv_ok pub_ok rotate d = (Ok tt, d') ->
  exists s k, awg_private d' = Some s /\ awg_public d' = Some (file_body k) /\
    pub_from_priv_b64 decode derive s = Ok k /\
    (awg_private d = Some s \/ s = file_body fresh /\
       (rotate = true \/ forall t, awg_private d = Some t -> is_empty (trim t) = true)).
Proof.
  unfold awg_keygen. destruct (rotate || _) eqn:Hre.
  - destruct priv_ok; [|done]. destruct (pub_from_priv_b64 _ _ _) as [k|] eqn:Hk; [|done].
    destruct pub_ok; [|done]. intros [= <-]. exists (file_body fresh), k.
    split_and!; [done..| |].
    + rewrite <- Hk. apply pub_from_priv_trim. by apply trim_space_end.
    + right. split; [done|]. apply orb_true_iff in Hre as [->|Hv]; [by left|]. right.
      intros t Ht. rewrite Ht in Hv. by apply negb_true_iff, negb_false_iff in Hv.
  - apply orb_false_iff in Hre as [_ Hv]. apply negb_false_iff in Hv.
    destruct (awg_private d) as [s|] eqn:Hs; [|done]. cbn [default].
    destruct (pub_from_priv_b64 _ _ _) as [k|] eqn:Hk; [|done]. destruct pub_ok; [|done].
    intros [= <-]. exists s, k. split_and!; [done..| |by left].
    rewrite <- Hk. apply pub_from_priv_trim. symmetry. apply trim_idem.
Qed.

(** A successful run always leaves a pair that belongs together: the private
    file decodes to 32 bytes and the public file is the key derived from them.
    The private key is the old one unless a rotation was asked for or the file is
    missing or blank; and a public file lost or left behind by a failed write is
    put right by the next run. *)
Theorem awg_pair_consistent fresh priv_ok pub_ok rotate d d' :
  awg_keygen decode derive fresh priv_ok pub_ok rotate d = (Ok tt, d') ->
  (exists priv bytes, awg_private d' = Some priv /\ decode (trim priv) = Some bytes /\ len bytes = 32 /\
     awg_public d' = Some (file_body (derive bytes))) /\
  (rotate = false -> forall s, awg_private d = Some s -> is_empty (trim s) = false ->
     awg_private d' = Some s) /\
  (forall fresh2 q, awg_keygen decode derive fresh2 true true false (mkAwg (awg_private d') q) = (Ok tt, d')).
Proof.
  intros (s & k & Hs & Hq & Hk & Hor)%awg_keygen_Ok.
  destruct (pub_from_priv_Ok _ _ Hk) as (Hne & bytes & Hd & Hl & ->). split_and!.
  - by exists s, bytes.
  - intros -> t Ht Htne. destruct Hor as [Hor|(_ & [?|Hb])]; [congruence|done|].
    by rewrite (Hb t Ht) in Htne.
  - intros fresh2 q. unfold awg_keygen. cbn [awg_private awg_public]. rewrite Hs, Hne. cbn [orb negb].
    rewrite (pub_from_priv_trim (trim (default [] (Some s))) s (trim_idem s)), Hk.
    destruct d'; cbn in *. by subst.
Qed.

End Awg.

(** An old key with a stale public file. *)
Lemma awg_pair_consistent_witness :
  let decode s := Some (take 32 s) in
  let derive b := lit "pub" in
  exists d', awg_keygen decode derive (lit "new") true true false
      (mkAwg (Some (file_body (replicate 32 97))) (Some (lit "stale"))) = (Ok tt, d') /\
    awg_private d' = Some (file_body (replicate 32 97)) /\ awg_public d' = Some (lit "pub" ++ [NL]).
Proof.
  eexists. split; [vm_compute; reflexivity|]. split; [|vm_compute; reflexivity].
  apply (proj1 (proj2 (awg_pair_consistent (fun s => Some (take 32 s)) (fun _ => lit "pub") eq_refl
    (lit "new") true true false (mkAwg (Some (file_body (replicate 32 97))) (Some (lit "stale"))) _
    ltac:(vm_compute; reflexivity)))); vm_compute; reflexivity.
Defined.
