(* ===== verification/OpecMain.v ===== *)
(** * opec's command line
      (crates/opec/src/main.rs, secrets/mod.rs)

    Every command: what it prints, the exit code, and what it leaves on disk.
    Arguments come parsed.  Reading files, the YAML parser and the JSON printer
    are parameters; an error that reaches [main] is kept as a value, its text is
    left out. *)

From Stdlib Require Import ZArith Lia.
From stdpp Require Import base option numbers gmap strings list.
From S2P Require Import Prelude RustStr Regex StrOrder PartnerKeys OpecSecrets OpecRender OpecTenant OpecDiff.

(** ** What a run prints and how it ends *)

Inductive OpecError :=
| Reading (file : str)
| Parsing (file : str)
| RenderedShape (index : nat) (e : ShapeError)
| SecretFileMisplaced
| RenderFailed (e : RenderError)
| SecretsFailed (e : SecretsError).

(** One [println!], one [eprintln!], and the report of [main]. *)
Inductive Line := Println (s : str) | Eprintln (s : str) | Report (e : OpecError).

(** A command returns, returns an error, or ends the process itself. *)
Inductive Ended := Returned | Failed (e : OpecError) | Exited (code : Z).

Definition Run : Type := (list Line * Ended)%type.

(** ** Text *)

(** [{:<n}]: spaces up to [n] characters, counted as such. *)
Definition pad (n : nat) (s : str) : str := s ++ replicate (n - length s) SPACE.

Fixpoint join (sep : str) (l : list str) : str :=
  match l with [] => [] | [s] => s | s :: l' => s ++ sep ++ join sep l' end.

Definition number (n : nat) : str := to_string (Z.of_nat n).
Definition bool_text (b : bool) : str := lit (if b then "true" else "false").
Definition dash : str := [SPACE; 8212; SPACE].

(** [Display] of a validation error. *)
Definition error_text (e : ValidationError) : str :=
  let tenant i := lit "tenant[" ++ i ++ lit "]" in
  let route i n := tenant i ++ lit ".routes[" ++ number n ++ lit "]" in
  match e with
  | UnsupportedSchemaVersion v => lit "schema_version " ++ to_string v ++ lit " is unsupported; expected 1"
  | InvalidTenantId i =>
      tenant i ++ lit ".id: invalid format" ++ dash ++ lit "must match ^[a-z0-9][a-z0-9-]{1,30}[a-z0-9]$"
  | InvalidDomain i d => tenant i ++ lit ".domains[" ++ d ++ lit "]: invalid hostname format"
  | DuplicateTenantId i => tenant i ++ lit ": duplicate tenant id"
  | DomainCollision d a b =>
      lit "domain '" ++ d ++ lit "' claimed by both tenant '" ++ a ++ lit "' and tenant '" ++ b ++ lit "'"
  | InvalidRoutePath i n => route i n ++ lit ".path: must be non-empty and start with '/'"
  | ProxyMissingUpstream i n => route i n ++ lit " (proxy): upstream is required and must be non-empty"
  | FileServerInvalidRoot i n =>
      route i n ++ lit " (file_server): root is required, non-empty, and must be an absolute path"
  end.

(** A struct that derives [Serialize]: its members in the order of its fields. *)
Definition struct (members : list (string * Value)) : Value :=
  VObject ((fun '(k, v) => (lit k, v)) <$> members).

Inductive Format := Table | Json.
Inductive ReconcileFormat := TextFormat | JsonFormat.

Record ListRow := mkRow {
  lr_id : str;
  lr_domains : list str;
  lr_enabled : bool;
  route_count : nat;
}.

Definition list_row (t : Tenant) : ListRow :=
  mkRow (id t) (domains t) (enabled t) (length (routes t)).

Definition row_value (r : ListRow) : Value :=
  struct [("id", VString (lr_id r)); ("domains", strings (lr_domains r));
          ("enabled", VBool (lr_enabled r)); ("route_count", VNumber (Z.of_nat (route_count r)))].

Definition row_text (r : ListRow) : str :=
  pad 20 (lr_id r) ++ [SPACE] ++ pad 40 (join (lit ", ") (lr_domains r)) ++ [SPACE] ++
  pad 8 (bool_text (lr_enabled r)) ++ [SPACE] ++ number (route_count r).

Definition table_head : list str :=
  [pad 20 (lit "ID") ++ [SPACE] ++ pad 40 (lit "DOMAINS") ++ [SPACE] ++ pad 8 (lit "ENABLED") ++ lit " ROUTES";
   replicate 76 45].

(** [ValidateOutput]. *)
Definition validate_value (ok : bool) (errs : list ValidationError) : Value :=
  struct [("ok", VBool ok);
          ("errors", VArray ((fun e => struct [("message", VString (error_text e))]) <$> errs))].

Definition error_lines (errs : list ValidationError) : list Line :=
  Eprintln (lit "Validation failed (" ++ number (length errs) ++ lit " error(s)):") ::
  ((fun e => Eprintln (lit "  - " ++ error_text e)) <$> errs).

Definition changed_value (c : ChangedTenant) : Value :=
  struct [("id", VString (ct_id c)); ("route_paths_changed", strings (route_paths_changed c));
          ("domains_changed", VBool (domains_changed c)); ("enabled_changed", VBool (enabled_changed c))].

Definition diff_value (d : DiffOutput) : Value :=
  struct [("added", strings (do_added d)); ("removed", strings (do_removed d));
          ("changed", VArray (changed_value <$> do_changed d))].

Definition changed_lines (c : ChangedTenant) : list str :=
  [lit "~ " ++ ct_id c ++ lit "  (changed)"] ++
  (if domains_changed c then [lit "    domains changed"] else []) ++
  (if enabled_changed c then [lit "    enabled changed"] else []) ++
  match route_paths_changed c with
  | [] => []
  | ps => [lit "    " ++ number (length ps) ++ lit " changed route(s): " ++ join (lit ", ") ps]
  end.

Definition diff_lines (d : DiffOutput) : list str :=
  match do_added d, do_removed d, do_changed d with
  | [], [], [] => [lit "No differences."]
  | added, removed, changed =>
      ((fun i => lit "+ " ++ i ++ lit "  (added)") <$> added) ++
      ((fun i => lit "- " ++ i ++ lit "  (removed)") <$> removed) ++
      (changed ≫= changed_lines)
  end.

(** ** The tenant commands *)

Inductive TenantCommands :=
| List (yaml : str) (format : Format)
| Validate (yaml : str) (format : Format)
| Diff (left right : str) (format : Format)
| Reconcile (yaml admin_url : str) (dry_run : bool) (format : ReconcileFormat).

Definition PATCH_TARGET : str := lit "apps/http/servers/srv0/routes".

Definition reconcile_value (admin_url : str) (proposed : list Value) (enabled_count : nat) : Value :=
  struct [("mode", text "dry-run"); ("admin_url", VString admin_url);
          ("tenants_count", VNumber (Z.of_nat enabled_count)); ("proposed_routes", VArray proposed);
          ("patch_target", VString PATCH_TARGET)].

(** What is outside: files, the parser of tenant files, the JSON printer. *)
Record Outside := mkOutside {
  read_to_string : str -> option str;
  parse : str -> option TenantsFile;
  to_string_pretty : Value -> str;
}.

Section tenants.
Context `{Matcher} `{HashWalk}.
Variable o : Outside.

Definition load (file : str) : result TenantsFile OpecError :=
  match read_to_string o file with
  | None => Err (Reading file)
  | Some src => match parse o src with None => Err (Parsing file) | Some f => Ok f end
  end.

Definition cmd_list (yaml : str) (format : Format) : Run :=
  match load yaml with
  | Err e => ([], Failed e)
  | Ok file =>
      let rows := list_row <$> tenants file in
      (match format with
       | Json => [Println (to_string_pretty o (VArray (row_value <$> rows)))]
       | Table => Println <$> table_head ++ (row_text <$> rows)
       end, Returned)
  end.

Definition cmd_validate (yaml : str) (format : Format) : Run :=
  match load yaml with
  | Err e => ([], Failed e)
  | Ok file =>
      match validate file with
      | Ok _ =>
          (match format with
           | Json => [Println (to_string_pretty o (validate_value true []))]
           | Table => [Println (lit "OK" ++ dash ++ number (length (tenants file)) ++ lit " tenant(s) valid")]
           end, Returned)
      | Err errs =>
          (match format with
           | Json => [Println (to_string_pretty o (validate_value false errs))]
           | Table => error_lines errs
           end, Exited 1)
      end
  end.

Definition cmd_diff (left_path right_path : str) (format : Format) : Run :=
  match (let? l := load left_path in let? r := load right_path in Ok (l, r)) with
  | Err e => ([], Failed e)
  | Ok (l, r) =>
      let diff := OpecDiff.cmd_diff l r in
      (match format with
       | Json => [Println (to_string_pretty o (diff_value diff))]
       | Table => Println <$> diff_lines diff
       end, Returned)
  end.

Definition not_implemented : Run :=
  ([Eprintln (lit "opec error: real PATCH not yet implemented; use --dry-run in sub-phase 4.1." ++ [NL] ++
              lit "Sub-phase 4.2 will implement the actual Caddy admin-API PATCH.")], Exited 1).

Definition dry_run_lines (admin_url : str) (format : ReconcileFormat) (total : nat)
    (proposed : list Value) (enabled_count : nat) : list Line :=
  match format with
  | JsonFormat => [Println (to_string_pretty o (reconcile_value admin_url proposed enabled_count))]
  | TextFormat =>
      Println <$> [lit "Mode:          dry-run (no changes sent)";
        lit "Admin URL:     " ++ admin_url;
        lit "Patch target:  " ++ PATCH_TARGET;
        lit "Tenants:       " ++ number enabled_count ++ lit " enabled / " ++ number total ++ lit " total";
        lit "Routes:        " ++ number (length proposed) ++ lit " route object(s) proposed";
        [];
        lit "--- Proposed Caddy routes ---";
        to_string_pretty o (VArray proposed)]
  end.

Definition cmd_reconcile (yaml admin_url : str) (dry_run : bool) (format : ReconcileFormat) : Run :=
  if negb dry_run then not_implemented
  else match load yaml with
       | Err e => ([], Failed e)
       | Ok file =>
           match OpecDiff.cmd_reconcile dry_run file with
           | Err NotImplemented => not_implemented
           | Err (Invalid errs) => (error_lines errs, Exited 1)
           | Err (BadShape i e) => ([], Failed (RenderedShape i e))
           | Ok (proposed, enabled_count) =>
               (dry_run_lines admin_url format (length (tenants file)) proposed enabled_count, Returned)
           end
       end.

Definition run_tenant (action : TenantCommands) : Run :=
  match action with
  | List yaml format => cmd_list yaml format
  | Validate yaml format => cmd_validate yaml format
  | Diff left_path right_path format => cmd_diff left_path right_path format
  | Reconcile yaml admin_url dry_run format => cmd_reconcile yaml admin_url dry_run format
  end.
End tenants.

(** ** The secrets commands *)

(** Directories, URLs and timeouts are part of the environment. *)
Inductive SecretsCommands :=
| SfuSigningKey (retries : nat)
| RealityKeygen (rotate : bool)
| AwgKeygen (rotate : bool)
| Register (a : Args).

Record SecretsEnv := mkSecretsEnv {
  parse_countries : str -> option (list str);
  json_ok : str -> bool;
  post : RegisterBody -> nat -> Reply (str * RegisterResponseRaw);
  inputs : Inputs;
  writable : Writable;
  get_key : nat -> Reply (option str);
  key_writable : bool;
  uuid_ok : str -> bool;
  identity_write : nat -> bool;
  new_pair : str * str;
  new_uuid : str;
  decode : str -> option (list Z);
  derive : list Z -> str;
  new_private : str;
  private_write : bool;
  public_write : bool;
}.

(** The files the commands own. *)
Record Store := mkStore {
  identity : Identity;
  awg_pair : AwgPair;
  env_file : option str;
  json_file : option str;
  key_file : option str;
}.

(** A file that was written, or the one that was there. *)
Definition put (written before : option str) : option str :=
  match written with Some t => Some t | None => before end.

Definition dispatch (w : SecretsEnv) (cmd : SecretsCommands) (s : Store) : result unit SecretsError * Store :=
  match cmd with
  | SfuSigningKey n =>
      let '(r, text) := fetch (get_key w) n (key_writable w) in
      (r, mkStore (identity s) (awg_pair s) (env_file s) (json_file s) (put text (key_file s)))
  | RealityKeygen rotate =>
      let '(r, d) := reality_keygen (uuid_ok w) (identity_write w) (new_pair w) (new_uuid w) rotate (identity s) in
      (r, mkStore d (awg_pair s) (env_file s) (json_file s) (key_file s))
  | AwgKeygen rotate =>
      let '(r, d) := awg_keygen (decode w) (derive w) (new_private w) (private_write w) (public_write w)
                       rotate (awg_pair s) in
      (r, mkStore (identity s) d (env_file s) (json_file s) (key_file s))
  | Register a =>
      let '(r, files) := run (parse_countries w) (json_ok w) (post w) a (inputs w) (writable w) in
      (r, mkStore (identity s) (awg_pair s) (put (left_env files) (env_file s)) (put (left_json files) (json_file s))
            (key_file s))
  end.

(** ** The process *)

Inductive RenderKind := Xray | Coturn | Naive | Compose | Caddy.

Inductive Commands :=
| TenantCommand (action : TenantCommands)
| SecretsCommand (action : SecretsCommands)
| Render (kind : RenderKind) (tpl out : str) (secret_file : option str)
| CheckNodeSecret (file : str).

(** The world of [render]: the environment, what it finds for a template and a
    destination, what [open] finds, and the validators. *)
Record RenderEnv := mkRenderEnv {
  env_vars : Vars;
  disk : str -> str -> Disk;
  open_secret : str -> option SecretMeta;
  euid : Z;
  valid_json : str -> bool;
  valid_yaml : str -> bool;
  fixture_host : str -> bool;
}.

Record Process := mkProcess {
  printed : list Line;
  code : Z;
  rendered : option str;
  store : Store;
}.

Definition finish (r : Run) (rendered : option str) (s : Store) : Process :=
  match r with
  | (ls, Returned) => mkProcess ls 0 rendered s
  | (ls, Exited c) => mkProcess ls c rendered s
  | (ls, Failed e) => mkProcess (ls ++ [Report e]) 2 rendered s
  end.

Definition outcome {E} (wrap : E -> OpecError) (r : result unit E) : Run :=
  ([], match r with Ok _ => Returned | Err e => Failed (wrap e) end).

Section main.
Context `{Matcher} `{HashWalk} `{Placeholders}.
Variables (o : Outside) (w : SecretsEnv) (v : RenderEnv).

Definition render (kind : RenderKind) (tpl out : str) (secret_file : option str)
    : result unit OpecError * option str :=
  let d := disk v tpl out in
  let wrap := fun '(r, written) =>
    (match r with Ok _ => Ok tt | Err e => Err (RenderFailed e) end, written) in
  match kind, secret_file with
  | Coturn, Some sf => wrap (render_with_secret_file (env_vars v) (euid v) (open_secret v sf) d)
  | _, Some _ => (Err SecretFileMisplaced, None)
  | Xray, None => wrap (render_xray (env_vars v) (valid_json v) d)
  | Coturn, None => wrap (render_coturn (env_vars v) d)
  | Naive, None => wrap (render_naive (env_vars v) (valid_json v) (fixture_host v) d)
  | Compose, None => wrap (render_compose (env_vars v) (valid_yaml v) d)
  | Caddy, None => wrap (render_caddy (env_vars v) d)
  end.

Definition main (cmd : Commands) (s : Store) : Process :=
  match cmd with
  | TenantCommand action => finish (run_tenant o action) None s
  | SecretsCommand action =>
      let '(r, s') := dispatch w action s in finish (outcome SecretsFailed r) None s'
  | CheckNodeSecret file =>
      finish (match read_node_secrets (euid v) (open_secret v file) with
              | Ok ss => ([Println (lit "node secret ok: " ++ number (length ss) ++ lit " line(s)")], Returned)
              | Err e => ([], Failed (RenderFailed e))
              end) None s
  | Render kind tpl out secret_file =>
      let '(r, written) := render kind tpl out secret_file in
      finish (outcome (fun e => e) r) written s
  end.
End main.
