(* ===== verification/OpecMainFacts.v ===== *)
(** * Theorems on opec's command line

    What [validate] says of a file decides what [reconcile] does with it; the
    tables can be read back; the diff is silent exactly on files that agree; the
    exit codes; the gate on a relay's secret file. *)

From Stdlib Require Import ZArith Lia.
From stdpp Require Import base option numbers gmap strings list sorting.
From S2P Require Import Prelude RustStr Regex StrOrder PartnerKeys OpecSecrets OpecRender OpecTenant OpecDiff OpecMain.
From S2P Require Import OpecTenantFacts OpecRenderFacts OpecDiffFacts.

(** What goes to standard output. *)
Definition stdout (p : Process) : list str :=
  omap (fun l => match l with Println s => Some s | _ => None end) (printed p).

(** ** Words of a line *)

Definition words (s : str) : list str := filter (fun w => w <> []) (split_on SPACE s).

Lemma words_join a b : words (a ++ SPACE :: b) = words a ++ words b.
Proof. unfold words. by rewrite split_on_join, filter_app. Qed.

Lemma words_spaces a n : words (a ++ replicate n SPACE) = words a.
Proof.
  revert a. induction n as [|n IH]; intros a; cbn [replicate]; [by rewrite app_nil_r|].
  rewrite words_join. change (replicate n SPACE) with ([] ++ replicate n SPACE).
  rewrite IH. apply app_nil_r.
Qed.

Lemma words_pad n s : words (pad n s) = words s.
Proof. apply words_spaces. Qed.

Lemma words_word s : s <> [] -> SPACE ∉ s -> words s = [s].
Proof. intros Hne Hs. unfold words. rewrite split_on_clean by done. by rewrite filter_cons_True. Qed.

(** ** The table of tenants, read back *)

Definition COMMA : Z := 44.

Definition strip_comma (w : str) : str :=
  match rev w with c :: r => if c =? COMMA then rev r else w | [] => w end.

Definition parse_bool (w : str) : option bool :=
  if bool_decide (w = lit "true") then Some true
  else if bool_decide (w = lit "false") then Some false else None.

Definition read_row (line : str) : option ListRow :=
  match words line with
  | i :: rest =>
      match rev rest with
      | n :: b :: ds =>
          parse_bool b ≫= fun e =>
          if digits n then Some (mkRow i (strip_comma <$> rev ds) e (Z.to_nat (dec_value n))) else None
      | _ => None
      end
  | [] => None
  end.

(** Below the two lines of the head. *)
Definition read_table (ls : list str) : option (list ListRow) := mapM read_row (drop 2 ls).

Definition plain (s : str) : Prop := s <> [] /\ (SPACE ∉ s) /\ (COMMA ∉ s).

Fixpoint comma_words (ds : list str) : list str :=
  match ds with [] => [] | [d] => [d] | d :: ds' => (d ++ [COMMA]) :: comma_words ds' end.

Lemma words_domains ds : Forall plain ds -> words (join (lit ", ") ds) = comma_words ds.
Proof.
  induction 1 as [|d ds (Hne & Hs & _) Hds IH]; [done|]. destruct ds as [|e ds].
  - by apply words_word.
  - change (join (lit ", ") (d :: e :: ds)) with (d ++ [COMMA; SPACE] ++ join (lit ", ") (e :: ds)).
    replace (d ++ [COMMA; SPACE] ++ join (lit ", ") (e :: ds))
      with ((d ++ [COMMA]) ++ SPACE :: join (lit ", ") (e :: ds)) by (by rewrite <- app_assoc).
    rewrite words_join, IH, words_word; [done| |].
    + by intros [_ [=]]%app_eq_nil.
    + rewrite elem_of_app, list_elem_of_singleton. by intros [|[=]].
Qed.

Lemma strip_comma_snoc d : strip_comma (d ++ [COMMA]) = d.
Proof. unfold strip_comma. rewrite rev_app_distr. cbn. apply rev_involutive. Qed.

Lemma strip_comma_plain d : COMMA ∉ d -> strip_comma d = d.
Proof.
  intros Hd. unfold strip_comma. destruct (rev d) as [|c r] eqn:E; [done|].
  destruct (Z.eqb_spec c COMMA) as [->|]; [|done]. destruct Hd.
  apply list_elem_of_In, in_rev. rewrite E. by left.
Qed.

Lemma comma_words_read ds : Forall plain ds -> strip_comma <$> comma_words ds = ds.
Proof.
  induction 1 as [|d ds (_ & _ & Hc) Hds IH]; [done|]. destruct ds as [|e ds].
  - cbn. by rewrite strip_comma_plain.
  - change (comma_words (d :: e :: ds)) with ((d ++ [COMMA]) :: comma_words (e :: ds)).
    by rewrite fmap_cons, IH, strip_comma_snoc.
Qed.

Lemma number_word n : number n <> [] /\ SPACE ∉ number n.
Proof.
  destruct (to_string_nonneg (Z.of_nat n) ltac:(lia)) as [[Hne Hd]%digits_spec _].
  split; [done|]. intros Hs. rewrite Forall_forall in Hd. specialize (Hd _ Hs). unfold SPACE in Hd. lia.
Qed.

Lemma row_readable r : plain (lr_id r) -> Forall plain (lr_domains r) -> read_row (row_text r) = Some r.
Proof.
  intros (Hne & Hs & _) Hds. destruct (number_word (route_count r)) as [Hn1 Hn2].
  unfold read_row, row_text. cbn [app].
  rewrite !words_join, !words_pad, (words_word (lr_id r)), words_domains by done.
  rewrite (words_word (number _)) by done.
  assert (words (bool_text (lr_enabled r)) = [bool_text (lr_enabled r)]) as -> by (by destruct (lr_enabled r)).
  cbn [app]. rewrite rev_app_distr. cbn [rev app].
  assert (parse_bool (bool_text (lr_enabled r)) = Some (lr_enabled r)) as -> by (by destruct (lr_enabled r)).
  destruct (to_string_nonneg (Z.of_nat (route_count r)) ltac:(lia)) as [Hd Hv]. cbn [mbind option_bind].
  unfold number. rewrite Hd, Hv, Nat2Z.id, rev_involutive, comma_words_read by done. by destruct r.
Qed.

(** ** Ids and domains are plain *)

Lemma plain_chars s : s <> [] -> Forall (fun c => c = DOT \/ name_char c = true) s -> plain s.
Proof.
  intros Hne Hs. rewrite Forall_forall in Hs. split_and!; [done | intros H; by destruct (Hs _ H) ..].
Qed.

Lemma domain_plain s : domain_ok s = true -> plain s.
Proof. intros Hs. apply plain_chars; [by intros -> | by apply domain_chars]. Qed.

Lemma tenant_id_plain s : id_ok s = true -> plain s.
Proof.
  intros Hs. apply plain_chars; [by intros ->|]. eapply Forall_impl; [by apply id_chars|]. by right.
Qed.

Lemma sound_readable t : tenant_sound t -> read_row (row_text (list_row t)) = Some (list_row t).
Proof.
  intros [Hi Hd _]. apply row_readable; [by apply tenant_id_plain|].
  eapply Forall_impl; [done | apply domain_plain].
Qed.

Lemma stdout_println ls c r s : stdout (mkProcess (Println <$> ls) c r s) = ls.
Proof. unfold stdout. cbn. induction ls as [|l ls IH]; [done|]. cbn. by rewrite IH. Qed.

(** ** When the tenant diff is silent *)

(** Two tenants as the diff sees them: the first route of each path counts. *)
Definition agrees (t u : Tenant) : Prop :=
  domains t = domains u /\ enabled t = enabled u /\
  forall p, find_route p (routes t) = find_route p (routes u).

(** The last tenant of each id counts. *)
Definition same_view (l r : TenantsFile) : Prop :=
  forall i, option_Forall2 agrees (tenant_map l !! i) (tenant_map r !! i).

Lemma elem_of_dedup l p : p ∈ dedup l <-> p ∈ l.
Proof.
  induction l as [|x l IH]; [done|]. cbn [dedup].
  rewrite elem_of_cons, <- IH. destruct (dedup l) as [|y r]; [by rewrite list_elem_of_singleton, elem_of_nil; tauto|].
  destruct (decide (x = y)) as [->|]; [rewrite bool_decide_true by done | rewrite bool_decide_false by done];
    rewrite !elem_of_cons; tauto.
Qed.

(** Sorted, and every element once. *)
Definition strictly_sorted (l : list str) : Prop := StronglySorted str_le l /\ NoDup l.

Lemma dedup_sorted l : StronglySorted str_le l -> strictly_sorted (dedup l).
Proof.
  induction 1 as [|x l Hs [IHs IHn] Hx]; [split; constructor|]. cbn [dedup].
  assert (forall y, y ∈ dedup l -> str_le x y) as Hle.
  { intros y Hy. rewrite elem_of_dedup in Hy. rewrite Forall_forall in Hx. by apply Hx. }
  destruct (dedup l) as [|y r] eqn:E; [split; [repeat constructor | apply NoDup_singleton]|].
  destruct (decide (x = y)) as [->|Hne]; [by rewrite bool_decide_true|]. rewrite bool_decide_false by done.
  split; constructor; [done | by apply Forall_forall | | done].
  intros [?|Hr]%elem_of_cons; [done|]. apply Hne, (anti_symm str_le); [apply Hle; left|].
  apply StronglySorted_inv in IHs as [_ Hy]. rewrite Forall_forall in Hy. by apply Hy.
Qed.

Lemma elem_of_sort_strs l p : p ∈ sort_strs l <-> p ∈ l.
Proof. unfold sort_strs. by rewrite sort_by_key_perm. Qed.

Lemma elem_of_walk_set `{HashWalk} (x : gset str) i : i ∈ walk_set x <-> i ∈ x.
Proof. by rewrite walk_set_perm, elem_of_elements. Qed.

Lemma sorted_walk `{HashWalk} (x : gset str) : strictly_sorted (sort_strs (walk_set x)).
Proof.
  split; [apply (sort_by_key_sorted (fun s => s))|]. unfold sort_strs.
  rewrite sort_by_key_perm, walk_set_perm. apply NoDup_elements.
Qed.

Lemma find_route_None p t : find_route p (routes t) = None <-> p ∉ paths t.
Proof.
  unfold find_route, paths. rewrite elem_of_list_to_set, head_None. split.
  - intros Hf (r & -> & Hr)%list_elem_of_fmap.
    assert (r ∈ filter (fun r' => path r' = path r) (routes t)) as Hin by (by apply list_elem_of_filter).
    rewrite Hf in Hin. by apply elem_of_nil in Hin.
  - intros Hp. apply filter_none, Forall_forall. intros r Hr <-. apply Hp. by apply list_elem_of_fmap_2.
Qed.

Lemma elem_of_changed_paths `{HashWalk} t u p :
  p ∈ changed_paths t u <-> find_route p (routes t) <> find_route p (routes u).
Proof.
  unfold changed_paths. rewrite elem_of_dedup, elem_of_sort_strs, elem_of_app, list_elem_of_filter,
    !elem_of_walk_set. unfold symmetric_difference.
  pose proof (find_route_None p t) as Ht. pose proof (find_route_None p u) as Hu.
  rewrite elem_of_union, !elem_of_difference, elem_of_intersection.
  destruct (decide (p ∈ paths t)) as [It|Nt], (decide (p ∈ paths u)) as [Iu|Nu];
    [tauto | rewrite (proj2 Hu Nu); tauto | rewrite (proj2 Ht Nt) |].
  - assert (find_route p (routes u) <> None) by tauto. split; [congruence | tauto].
  - rewrite (proj2 Ht Nt), (proj2 Hu Nu). tauto.
Qed.

Lemma changed_paths_sorted `{HashWalk} t u : strictly_sorted (changed_paths t u).
Proof. apply dedup_sorted, (sort_by_key_sorted (fun s => s)). Qed.

Lemma changed_paths_nil `{HashWalk} t u :
  changed_paths t u = [] <-> forall p, find_route p (routes t) = find_route p (routes u).
Proof.
  split.
  - intros E p. destruct (decide (find_route p (routes t) = find_route p (routes u))) as [|Hne]; [done|].
    apply elem_of_changed_paths in Hne. rewrite E in Hne. by apply elem_of_nil in Hne.
  - intros Hf. apply elem_of_nil_inv. intros p Hp%elem_of_changed_paths. by apply Hp.
Qed.

Lemma compare_None `{HashWalk} i t u : compare_tenants i t u = None <-> agrees t u.
Proof.
  unfold compare_tenants, agrees. rewrite <- changed_paths_nil.
  destruct (decide (changed_paths t u = [])) as [E|E]; [|rewrite bool_decide_false by done; cbn; split; [done | tauto]].
  destruct (decide (domains t = domains u)); rewrite (bool_decide_true (changed_paths t u = [])) by done.
  - rewrite bool_decide_true by done. destruct (enabled t), (enabled u); cbn;
      (split; [intros ?; split_and!; done | by intros (_ & ? & _)]).
  - rewrite bool_decide_false by done. cbn. split; [done | tauto].
Qed.

(** The entry for two tenants of one id. *)
Record reports (c : ChangedTenant) (t u : Tenant) : Prop := {
  rp_paths p : p ∈ route_paths_changed c <-> find_route p (routes t) <> find_route p (routes u);
  rp_sorted : strictly_sorted (route_paths_changed c);
  rp_domains : domains_changed c = true <-> domains t <> domains u;
  rp_enabled : enabled_changed c = true <-> enabled t <> enabled u;
}.

Lemma compare_Some `{HashWalk} i t u c : compare_tenants i t u = Some c -> ct_id c = i /\ reports c t u.
Proof.
  unfold compare_tenants. destruct (_ || _); [|done]. intros [= <-]. split; [done|].
  split; cbn [route_paths_changed domains_changed enabled_changed].
  - apply elem_of_changed_paths.
  - apply changed_paths_sorted.
  - by rewrite negb_true_iff, bool_decide_eq_false.
  - by rewrite negb_true_iff, eqb_false_iff.
Qed.

Lemma elem_of_do_changed `{HashWalk} l r c :
  c ∈ do_changed (OpecDiff.cmd_diff l r) <->
  exists t u, tenant_map l !! ct_id c = Some t /\ tenant_map r !! ct_id c = Some u /\
    compare_tenants (ct_id c) t u = Some c.
Proof.
  unfold OpecDiff.cmd_diff. cbn [do_changed]. rewrite list_elem_of_omap. split.
  - intros (i & _ & Hc). destruct (tenant_map l !! i) as [t|] eqn:Ht; [|done].
    destruct (tenant_map r !! i) as [u|] eqn:Hu; [|done].
    pose proof (compare_Some _ _ _ _ Hc) as [<- _]. by exists t, u.
  - intros (t & u & Ht & Hu & Hc). exists (ct_id c). rewrite Ht, Hu. split; [|done].
    apply elem_of_sort_strs, elem_of_walk_set, elem_of_intersection. by split; apply elem_of_dom.
Qed.

Lemma elem_of_do_added `{HashWalk} l r i :
  i ∈ do_added (OpecDiff.cmd_diff l r) <-> tenant_map l !! i = None /\ is_Some (tenant_map r !! i).
Proof.
  unfold OpecDiff.cmd_diff. cbn [do_added].
  rewrite elem_of_sort_strs, elem_of_walk_set, elem_of_difference, not_elem_of_dom, elem_of_dom. tauto.
Qed.

Lemma elem_of_do_removed `{HashWalk} l r i :
  i ∈ do_removed (OpecDiff.cmd_diff l r) <-> tenant_map r !! i = None /\ is_Some (tenant_map l !! i).
Proof.
  unfold OpecDiff.cmd_diff. cbn [do_removed].
  rewrite elem_of_sort_strs, elem_of_walk_set, elem_of_difference, not_elem_of_dom, elem_of_dom. tauto.
Qed.

Lemma do_changed_ids `{HashWalk} l r :
  ct_id <$> do_changed (OpecDiff.cmd_diff l r) `sublist_of`
  sort_strs (walk_set (dom (tenant_map l) ∩ dom (tenant_map r))).
Proof.
  unfold OpecDiff.cmd_diff. cbn [do_changed]. induction (sort_strs _) as [|i ids IH]; [done|]. cbn [omap list_omap].
  destruct (match tenant_map l !! i with Some _ => _ | None => _ end) as [c|] eqn:E;
    [|by apply sublist_cons].
  destruct (tenant_map l !! i); [|done]. destruct (tenant_map r !! i); [|done].
  apply compare_Some in E as [<- _]. by apply sublist_skip.
Qed.

Lemma sublist_sorted l k : l `sublist_of` k -> strictly_sorted k -> strictly_sorted l.
Proof.
  intros Hl [Hs Hn]. split; [|by eapply sublist_NoDup].
  induction Hl as [|x l k Hl IH|x l k Hl IH]; [constructor| |];
    apply StronglySorted_inv in Hs as [Hs Hx]; apply NoDup_cons in Hn as [_ Hn]; [|by apply IH].
  constructor; [by apply IH|]. rewrite Forall_forall in Hx. apply Forall_forall. intros y Hy.
  apply Hx. eapply elem_of_submseteq; [done | by apply sublist_submseteq].
Qed.

(** C36. The tenant diff is exact, whatever order the hash maps have: it lists, sorted
    and once each, the ids that only the new file has, the ids that only the old
    file has, and the ids of both whose tenants disagree in domains, switch or
    the first route of some path; the entry of a changed tenant says which of
    these differ and names exactly the paths whose first routes differ, sorted
    and once each. *)
Theorem tenant_diff_exact (h : HashWalk) l r :
  let d := OpecDiff.cmd_diff l r in
  (strictly_sorted (do_added d) /\ strictly_sorted (do_removed d) /\ strictly_sorted (ct_id <$> do_changed d)) /\
  (forall i, i ∈ do_added d <-> tenant_map l !! i = None /\ is_Some (tenant_map r !! i)) /\
  (forall i, i ∈ do_removed d <-> tenant_map r !! i = None /\ is_Some (tenant_map l !! i)) /\
  (forall i, i ∈ ct_id <$> do_changed d <->
     exists t u, tenant_map l !! i = Some t /\ tenant_map r !! i = Some u /\ ~ agrees t u) /\
  (forall c t u, c ∈ do_changed d -> tenant_map l !! ct_id c = Some t -> tenant_map r !! ct_id c = Some u ->
     reports c t u).
Proof.
  cbn zeta. split_and!.
  - apply sorted_walk.
  - apply sorted_walk.
  - eapply sublist_sorted; [apply do_changed_ids | apply sorted_walk].
  - apply elem_of_do_added.
  - apply elem_of_do_removed.
  - intros i. rewrite list_elem_of_fmap. setoid_rewrite elem_of_do_changed. split.
    + intros (c & -> & t & u & Ht & Hu & E). exists t, u. split_and!; [done.. |].
      intros Ha%(compare_None (ct_id c)). congruence.
    + intros (t & u & Ht & Hu & Hn). destruct (compare_tenants i t u) as [c|] eqn:E.
      * destruct (compare_Some _ _ _ _ E) as [<- _]. exists c. split; [done|]. by exists t, u.
      * by apply compare_None in E.
  - intros c t u (t' & u' & Ht & Hu & E)%elem_of_do_changed Ht' Hu'. simplify_eq. by destruct (compare_Some _ _ _ _ E).
Qed.

Lemma diff_silent `{HashWalk} l r : OpecDiff.cmd_diff l r = mkOutput [] [] [] <-> same_view l r.
Proof.
  pose proof (elem_of_do_added l r) as Ha. pose proof (elem_of_do_removed l r) as Hr.
  pose proof (elem_of_do_changed l r) as Hc. split.
  - intros E i. rewrite E in Ha, Hr, Hc. specialize (Ha i). specialize (Hr i).
    cbn [do_added do_removed do_changed] in Ha, Hr, Hc. rewrite elem_of_nil in Ha, Hr.
    destruct (tenant_map l !! i) as [t|] eqn:Ht, (tenant_map r !! i) as [u|] eqn:Hu; [|naive_solver..|constructor].
    constructor. apply (compare_None i). destruct (compare_tenants i t u) as [c|] eqn:Ec; [|done].
    destruct (compare_Some _ _ _ _ Ec) as [<- _]. exfalso. apply (elem_of_nil c), Hc. by exists t, u.
  - intros Hv. destruct (OpecDiff.cmd_diff l r) as [added removed changed]. cbn [do_added do_removed do_changed] in *.
    f_equal; apply elem_of_nil_inv.
    + intros i [E [u Hu]]%Ha. specialize (Hv i). rewrite E, Hu in Hv. inversion Hv.
    + intros i [E [u Hu]]%Hr. specialize (Hv i). rewrite E, Hu in Hv. inversion Hv.
    + intros c (t & u & Ht & Hu & E)%Hc. specialize (Hv (ct_id c)). rewrite Ht, Hu in Hv.
      inversion Hv as [? ? Htu|]; subst. by rewrite (proj2 (compare_None _ _ _) Htu) in E.
Qed.

(** Only an empty diff prints the line that says so. *)
Lemma diff_lines_silent d : diff_lines d = [lit "No differences."] <-> d = mkOutput [] [] [].
Proof.
  split; [|by intros ->]. destruct d as [[|a added] [|b removed] [|c changed]]; cbn; try done.
Qed.

#[export] Instance Println_inj : Inj (=) (=) Println.
Proof. by intros a b [=]. Qed.

Lemma stdout_errors errs c r s : stdout (mkProcess (error_lines errs) c r s) = [].
Proof. unfold stdout. cbn. induction errs as [|e errs IH]; [done|]. apply IH. Qed.

(** Lines with no report of [main] among them. *)
Definition quiet (ls : list Line) : Prop := Forall (fun l => match l with Report _ => False | _ => True end) ls.

Lemma quiet_println ls : quiet (Println <$> ls).
Proof. unfold quiet. rewrite Forall_fmap. by apply Forall_true. Qed.

Lemma quiet_errors errs : quiet (error_lines errs).
Proof. constructor; [done|]. rewrite Forall_fmap. by apply Forall_true. Qed.

Create HintDb opec.
#[export] Hint Resolve quiet_println quiet_errors : opec.
#[export] Hint Extern 1 (quiet (_ :: _)) => repeat constructor : opec.
#[export] Hint Extern 1 (quiet []) => constructor : opec.

(** The command that may end with code 1. *)
Definition judges (a : TenantCommands) : Prop :=
  match a with Validate _ _ | Reconcile _ _ _ _ => True | _ => False end.

Lemma tenant_ends `{Matcher} `{HashWalk} o a :
  quiet (run_tenant o a).1 /\ forall c, (run_tenant o a).2 = Exited c -> c = 1 /\ judges a.
Proof.
  destruct a as [yaml f|yaml f|l r f|yaml url dry f]; cbn [run_tenant judges].
  - unfold cmd_list. destruct (load o yaml), f; cbn [fst snd]; (split; [eauto with opec | done]).
  - unfold cmd_validate. destruct (load o yaml) as [file|]; [destruct (validate file)|]; destruct f; cbn [fst snd];
      (split; [eauto with opec | naive_solver]).
  - unfold cmd_diff. destruct (load o l); cbn [rbind]; [destruct (load o r); cbn [rbind]|]; destruct f; cbn [fst snd];
      (split; [eauto with opec | done]).
  - unfold cmd_reconcile, not_implemented. destruct dry; cbn [negb]; [|split; [by repeat constructor | naive_solver]].
    destruct (load o yaml) as [file|]; [|split; [by constructor | done]]. rewrite (proj1 (reconcile_exact file)).
    destruct (file_errors file); cbn [fst snd]; [|split; [eauto with opec | naive_solver]].
    split; [|done]. destruct f; [apply quiet_println | by repeat constructor].
Qed.

(** How the process ends. *)
Inductive ends (p : Process) : Prop :=
| ends_well : code p = 0 -> quiet (printed p) -> ends p
| ends_judged : code p = 1 -> quiet (printed p) -> ends p
| ends_reported ls e : code p = 2 -> printed p = ls ++ [Report e] -> quiet ls -> ends p.

Section commands.
Context `{Matcher} `{HashWalk} `{Placeholders}.
Variables (o : Outside) (w : SecretsEnv) (v : RenderEnv) (s : Store).

#[local] Abbreviation exec cmd := (main o w v cmd s).

(** The table that [tenant list] prints can be read back: for a sound file that
    loads, the command exits 0 and splitting each line below the head at its
    spaces gives the tenants in file order, with their domains, their switch and
    the number of their routes, however long the names are. *)
Theorem list_table_readable yaml file :
  load o yaml = Ok file -> file_sound file ->
  let p := exec (TenantCommand (List yaml Table)) in
  code p = 0 /\ read_table (stdout p) = Some (list_row <$> tenants file).
Proof.
  intros Hl [_ _ Ht _] p. subst p. unfold main, run_tenant, cmd_list. rewrite Hl. cbn [finish].
  split; [done|]. rewrite stdout_println. change (mapM read_row (row_text <$> (list_row <$> tenants file)) = Some (list_row <$> tenants file)).
  apply mapM_Some_2. rewrite !Forall2_fmap_l, Forall2_fmap_r. apply Forall_Forall2_diag.
  eapply Forall_impl; [done | apply sound_readable].
Qed.

(** The diff is silent exactly on files that agree: it prints the one line "No
    differences." if and only if both files load and, id by id (of tenants with
    the same id the last counts), they have the same domains, the same switch
    and for every path the same first route; it exits 0 whenever both load. *)
Theorem diff_silent_exact left_path right_path :
  let p := exec (TenantCommand (Diff left_path right_path Table)) in
  (printed p = [Println (lit "No differences.")] <->
   exists l r, load o left_path = Ok l /\ load o right_path = Ok r /\ same_view l r) /\
  (code p = 0 <-> is_ok (load o left_path) && is_ok (load o right_path) = true).
Proof.
  intros p. subst p. unfold main, run_tenant, cmd_diff.
  destruct (load o left_path) as [l|e] eqn:Hl; [|cbn; split; [naive_solver | done]].
  destruct (load o right_path) as [r|e] eqn:Hr; cbn [rbind]; [|cbn; split; [naive_solver | done]].
  cbn [finish printed code is_ok andb]. split; [|done].
  change [Println (lit "No differences.")] with (Println <$> [lit "No differences."]).
  transitivity (diff_lines (OpecDiff.cmd_diff l r) = [lit "No differences."]).
  - split; [|by intros ->]. apply (inj (fmap Println)).
  - rewrite diff_lines_silent, diff_silent. naive_solver.
Qed.

(** C37. [validate] decides [reconcile]: on a file that can be read and parsed,
    [tenant validate] and [tenant reconcile --dry-run] end with the same exit
    code, in whatever formats - 0 when the file is sound, 1 when it is not.  For a
    sound file the check of the rendered routes never fails, the JSON preview is
    the object with the mode, the admin URL, the number of enabled tenants, the
    rendered routes and the patch target, and the text preview ends in the
    routes.  For an unsound file [reconcile] puts nothing on standard output, and
    on standard error one line with the number of errors and one line for each
    error of the file, in order. *)
Theorem validate_decides_reconcile yaml fmt url file :
  load o yaml = Ok file ->
  let checked := exec (TenantCommand (Validate yaml fmt)) in
  let planned rfmt := exec (TenantCommand (Reconcile yaml url true rfmt)) in
  let routes := VArray (render_tenant_routes (tenants file)) in
  let count := length (filter (fun t => enabled t = true) (tenants file)) in
  (file_sound file /\ code checked = 0 /\ (forall rfmt, code (planned rfmt) = 0) /\
   printed (planned JsonFormat) =
     [Println (to_string_pretty o (VObject
        [(lit "mode", VString (lit "dry-run")); (lit "admin_url", VString url);
         (lit "tenants_count", VNumber (Z.of_nat count)); (lit "proposed_routes", routes);
         (lit "patch_target", VString (lit "apps/http/servers/srv0/routes"))]))] /\
   last (printed (planned TextFormat)) = Some (Println (to_string_pretty o routes))) \/
  (~ file_sound file /\ code checked = 1 /\
   forall rfmt, code (planned rfmt) = 1 /\ stdout (planned rfmt) = [] /\
     printed (planned rfmt) =
       Eprintln (lit "Validation failed (" ++ number (length (file_errors file)) ++ lit " error(s)):") ::
       ((fun e => Eprintln (lit "  - " ++ error_text e)) <$> file_errors file)).
Proof.
  intros Hl checked planned routes count. subst checked planned routes count.
  unfold main, run_tenant, cmd_validate, cmd_reconcile. cbn [negb]. rewrite Hl.
  pose proof (file_errors_nil file) as Hs. rewrite (proj1 (reconcile_exact file)), validate_errors.
  destruct (file_errors file) as [|e es]; cbn [finish printed code].
  - left. split_and!; [by apply Hs | done | done | done | done].
  - right. split; [by intros ?%Hs|]. split; [done|]. intros rfmt. split_and!; [done | apply stdout_errors | done].
Qed.

(** A file that cannot be read or parsed ends both with 2 and the report. *)
Lemma load_failure_reported yaml fmt url rfmt e :
  load o yaml = Err e ->
  exec (TenantCommand (Validate yaml fmt)) = mkProcess [Report e] 2 None s /\
  exec (TenantCommand (Reconcile yaml url true rfmt)) = mkProcess [Report e] 2 None s.
Proof. intros Hl. unfold main, run_tenant, cmd_validate, cmd_reconcile. cbn [negb]. by rewrite Hl. Qed.

Lemma finish_ends ls e out s' :
  quiet ls -> (forall c, e = Exited c -> c = 1) -> ends (finish (ls, e) out s').
Proof.
  intros Hq Hc. destruct e as [|e|c]; [by apply ends_well | by eapply ends_reported | apply ends_judged; [by apply Hc | done]].
Qed.

Lemma outcome_ends {E} (wrap : E -> OpecError) r out s' : ends (finish (outcome wrap r) out s').
Proof. apply finish_ends; [constructor | by destruct r]. Qed.

(** The exit codes: every command ends with 0, with 1, or with 2 and then one
    last line that reports the error.  Code 1 comes only from [tenant validate]
    and [tenant reconcile], which leave no file behind; a rendering or a
    secrets command therefore fails with 2 and nothing else. *)
Theorem exit_codes cmd :
  ends (exec cmd) /\
  (code (exec cmd) = 1 -> exists a, cmd = TenantCommand a /\ judges a) /\
  (forall a, cmd = TenantCommand a -> rendered (exec cmd) = None /\ store (exec cmd) = s).
Proof.
  destruct cmd as [a|a|kind tpl out sf|file]; cbn [main].
  - pose proof (tenant_ends o a) as [Hq Hc]. destruct (run_tenant o a) as [ls e]. cbn [fst snd] in *.
    split; [apply finish_ends; [done | naive_solver]|]. split; [|by intros ? _; destruct e].
    destruct e as [| |c]; cbn; [done.. |]. intros ->. exists a. split; [done | by apply (Hc 1)].
  - destruct (dispatch w a s) as [r s']. split; [by apply outcome_ends|]. by destruct r; cbn; naive_solver.
  - destruct (render v kind tpl out sf) as [r written]. split; [by apply outcome_ends|].
    by destruct r; cbn; naive_solver.
  - destruct (read_node_secrets _ _) as [ss|e];
      (split; [apply finish_ends; [by repeat constructor | done] | by cbn; naive_solver]).
Qed.

(** The gate of the relay's unit: [check-node-secret] passes exactly the files
    whose secrets can be read, prints nothing of them but their number, and a
    file it refuses is refused by [render coturn --secret-file], which then
    writes nothing; a secret file with any other template kind is refused. *)
Theorem secret_gate file tpl out kind :
  (code (exec (CheckNodeSecret file)) = 0 <->
   exists ss, read_node_secrets (euid v) (open_secret v file) = Ok ss /\
     printed (exec (CheckNodeSecret file)) = [Println (lit "node secret ok: " ++ number (length ss) ++ lit " line(s)")]) /\
  (code (exec (CheckNodeSecret file)) <> 0 ->
   code (exec (Render Coturn tpl out (Some file))) = 2 /\ rendered (exec (Render Coturn tpl out (Some file))) = None) /\
  (kind <> Coturn ->
   code (exec (Render kind tpl out (Some file))) = 2 /\ rendered (exec (Render kind tpl out (Some file))) = None).
Proof.
  cbn [main render]. unfold render_with_secret_file.
  split; [|split; [|by destruct kind]]; destruct (read_node_secrets _ _) as [ss|e]; cbn; naive_solver.
Qed.
End commands.

(** ** A small world *)

(** [b.yaml] adds a tenant to [a.yaml], moves a domain of the other, replaces one
    route and drops one; [bad.yaml] is unsound and [broken.yaml] does not parse. *)
Definition demo_changed : TenantsFile :=
  mkFile 1 [mkTenant (lit "edge-a") [lit "a2.example.com"] true
              [mkRoute (lit "/api/*") (Proxy (lit "https://other.example.com") None None)] None [];
            demo_tenant "edge-c" ["c.example.com"; "www.c.example.com"]].

Definition demo_outside : Outside :=
  mkOutside
    (fun p => if bool_decide (p = lit "missing.yaml") then None else Some p)
    (fun src => if bool_decide (src = lit "a.yaml") then Some demo_file
                else if bool_decide (src = lit "b.yaml") then Some demo_changed
                else if bool_decide (src = lit "bad.yaml") then Some demo_faulty else None)
    (fun _ => lit "{}").

Definition demo_secrets : SecretsEnv :=
  mkSecretsEnv (fun _ => None) (fun _ => true) (fun _ _ => NoAnswer) (mkInputs None None None None None)
    (mkWritable true true) (fun _ => NoAnswer) true (fun _ => true) (fun _ => true) ([], []) [] (fun _ => None)
    (fun _ => []) [] true true.

Definition demo_render : RenderEnv :=
  mkRenderEnv demo_vars (fun _ _ => demo_disk demo_template)
    (fun p => if bool_decide (p = lit "secret") then Some demo_meta else None) 0
    (fun _ => true) (fun _ => true) (fun _ => false).

Definition demo_store : Store :=
  mkStore (mkIdentity None None None) (mkAwg None None) None None None.

Lemma list_table_readable_witness :
  let p := main demo_outside demo_secrets demo_render (TenantCommand (List (lit "b.yaml") Table)) demo_store in
  code p = 0 /\ read_table (stdout p) = Some (list_row <$> tenants demo_changed).
Proof.
  apply (list_table_readable demo_outside demo_secrets demo_render demo_store (lit "b.yaml") demo_changed).
  - vm_compute. reflexivity.
  - apply validate_sound. vm_compute. reflexivity.
Defined.

Lemma tenant_diff_exact_witness :
  let d := OpecDiff.cmd_diff demo_file demo_changed in
  (do_added d = [lit "edge-c"] /\ do_removed d = [lit "edge-b"] /\
   do_changed d = [mkChanged (lit "edge-a") [lit "/*"; lit "/api/*"] true false]) /\
  reports (mkChanged (lit "edge-a") [lit "/*"; lit "/api/*"] true false)
    (demo_tenant "edge-a" ["a.example.com"])
    (mkTenant (lit "edge-a") [lit "a2.example.com"] true
       [mkRoute (lit "/api/*") (Proxy (lit "https://other.example.com") None None)] None []).
Proof.
  split; [split_and!; vm_compute; reflexivity|].
  apply (tenant_diff_exact key_order demo_file demo_changed); [|vm_compute; reflexivity..].
  assert (do_changed (OpecDiff.cmd_diff demo_file demo_changed) =
    [mkChanged (lit "edge-a") [lit "/*"; lit "/api/*"] true false]) as -> by (vm_compute; reflexivity).
  by left.
Defined.

Lemma validate_decides_reconcile_witness :
  let run cmd := main demo_outside demo_secrets demo_render (TenantCommand cmd) demo_store in
  let planned f := run (Reconcile (lit f) (lit "http://localhost:2019") true TextFormat) in
  (code (run (Validate (lit "a.yaml") Json)) = 0 /\ code (planned "a.yaml") = 0) /\
  code (run (Validate (lit "bad.yaml") Json)) = 1 /\ code (planned "bad.yaml") = 1 /\ stdout (planned "bad.yaml") = [].
Proof.
  split.
  - destruct (validate_decides_reconcile demo_outside demo_secrets demo_render demo_store (lit "a.yaml") Json
      (lit "http://localhost:2019") demo_file ltac:(vm_compute; reflexivity)) as [(_ & Hc & Hp & _)|(Hn & _)].
    + split; [exact Hc | exact (Hp TextFormat)].
    + destruct Hn. apply validate_sound. vm_compute. reflexivity.
  - destruct (validate_decides_reconcile demo_outside demo_secrets demo_render demo_store (lit "bad.yaml") Json
      (lit "http://localhost:2019") demo_faulty ltac:(vm_compute; reflexivity)) as [(Hs & _)|(_ & Hc & Hp)].
    + apply validate_sound in Hs. vm_compute in Hs. discriminate Hs.
    + destruct (Hp TextFormat) as (H1 & H2 & _). split_and!; [exact Hc | exact H1 | exact H2].
Defined.
