(* ===== verification/PartnerCli.v ===== *)
(** * The operator's command line
      (crates/partner-cli/src/commands.rs, main.rs)

    The commands over the registry's two tables.  The tables belong to the
    server: an SQL statement is its effect on the rows, and whether the database
    carries it out is an argument, as are the program's clock, the database's
    clock, the random bytes, and the columns of a new row that the statement
    leaves to the schema.  SHA-256, the duration parser, the
    UUID parser, the regular expression engine and the order of equal sort keys
    are parameters. *)

From Stdlib Require Import ZArith Lia.
From stdpp Require Import base option numbers gmap strings list sorting.
From S2P Require Import Prelude RustStr PartnerKeys Regex OpecTenant.

Record TokenRow := mkToken {
  token_id : Z;
  tk_partner_id : str;
  token_hash : str;
  created_at : Z;
  expires_at : Z;
  used_at : option Z;
  revoked_at : option Z;
  tk_node_id : option str;
}.

Record NodeRow := mkNode {
  node_id : str;
  nd_partner_id : str;
  nd_domain : str;
  turns_subdomain : str;
  nd_public_ip : str;
  registered_at : Z;
  last_seen_at : Z;
  edge_id : option str;
  service_token_hash : option str;
  reality_pubkey : option str;
  reality_pubkey_set_at : option Z;
}.

(** [partner_tokens] and [partner_nodes]. *)
Record Db := mkDb { partner_tokens : list TokenRow; partner_nodes : list NodeRow }.

Inductive CliError :=
| DbFailed (context : string)
| NoDatabaseUrl
| SchemaMissing
| InvalidPartnerId (id : str)
| InvalidDuration (text : str)
| ValidForOutOfRange (secs : Z)
| NotAUuid (text : str)
| TokenNotFoundOrRevoked (id : str)
| EmptyNodeId
| NodeNotFound (id : str)
| HasServiceToken (id : str)
| BadPubkey (e : PubkeyError).

(** What a command prints. *)
Inductive Printed :=
| Issued (id : Z) (partner : str) (expires : Z) (raw : str)
| Tokens (rows : list TokenRow)
| Revoked (id : str)
| Nodes (rows : list NodeRow)
| Deactivated (id : str)
| ServiceToken (node : str) (edge : option str) (token : str)
| Keys (private public : str)
| PubkeySet (node : str).

Inductive Command :=
| IssueToken (partner valid_for : str)
| ListTokens (partner : option str) (include_used include_revoked : bool)
| RevokeToken (id : str)
| ListNodes (partner : option str)
| DeactivateNode (id : str)
| RotateServiceToken (node : str) (force : bool)
| Keygen
| SetPubkey (node pubkey : str).

(** The columns of a new token that the INSERT does not bind. *)
Record Defaults := mkDefaults {
  df_created_at : Z;
  df_used_at : option Z;
  df_revoked_at : option Z;
  df_node_id : option str;
}.

(** What a run of the program finds: its clock and the database's [NOW()],
    random bytes, a fresh key pair, the identifier and the other columns the
    database gives a new row, whether the database is configured and reached,
    and whether each statement of the command is carried out. *)
Record Ambient := mkAmbient {
  now : Z;
  db_now : Z;
  random : list Z;
  fresh_key : list Z * list Z;
  new_id : Z;
  defaults : Defaults;
  database_url : bool;
  connects : bool;
  schema_ok : bool;
  statement_ok : nat -> bool;
}.

Class Libraries := {
  sha256_hex : str -> str;
  (* [humantime::parse_duration] in whole seconds *)
  humantime_secs : str -> option Z;
  humantime_u64 s h : humantime_secs s = Some h -> 0 <= h < 2^64;
  parse_uuid : str -> option Z;
  (* [ORDER BY key DESC] *)
  order_desc : forall {A}, (A -> Z) -> list A -> list A;
  order_desc_perm {A} (key : A -> Z) l : order_desc key l ≡ₚ l;
  order_desc_sorted {A} (key : A -> Z) l : StronglySorted (fun x y => key y <= key x) (order_desc key l);
}.

Definition MIN_VALID_FOR_SECS : Z := 24 * 3600.
Definition MAX_VALID_FOR_SECS : Z := 90 * 24 * 3600.
Definition LIMIT : nat := 200.

(** The same pattern as a tenant's id. *)
Definition PARTNER_ID_RE : regex :=
  Seq (Class [lower; digit])
    (Seq (Between 1 30 (Class [lower; digit; hyphen])) (Class [lower; digit])).

Section commands.
Context `{Matcher} `{Libraries}.

Definition validate_partner_id (partner : str) : result unit CliError :=
  if negb (is_match PARTNER_ID_RE partner) then Err (InvalidPartnerId partner) else Ok tt.

Definition validate_filter (partner : option str) : result unit CliError :=
  match partner with Some p => validate_partner_id p | None => Ok tt end.

Definition hash_token (raw : str) : str := sha256_hex raw.

(** [d.as_secs() as i64]. *)
Definition parse_duration (s : str) : result Z CliError :=
  match humantime_secs s with
  | Some secs => Ok ((secs + 2^63) mod 2^64 - 2^63)
  | None => Err (InvalidDuration s)
  end.

Definition issue_token (w : Ambient) (partner valid_for : str) (db : Db) : result Printed CliError * Db :=
  match (let? _ := validate_partner_id partner in parse_duration valid_for) with
  | Err e => (Err e, db)
  | Ok secs =>
      if negb ((MIN_VALID_FOR_SECS <=? secs) && (secs <=? MAX_VALID_FOR_SECS))
      then (Err (ValidForOutOfRange secs), db)
      else
        let raw := generate_raw_token (random w) in
        let expires := now w + secs in
        let d := defaults w in
        let row := mkToken (new_id w) partner (hash_token raw) (df_created_at d) expires (df_used_at d)
                     (df_revoked_at d) (df_node_id d) in
        if statement_ok w 0
        then (Ok (Issued (new_id w) partner expires raw), mkDb (partner_tokens db ++ [row]) (partner_nodes db))
        else (Err (DbFailed "insert partner_tokens row"), db)
  end.

(** [$1 = '' OR partner_id = $1] *)
Definition partner_matches (filter_by row : str) : bool := is_empty filter_by || bool_decide (row = filter_by).

Definition is_null {A} (x : option A) : bool := negb (bool_decide (is_Some x)).

Definition list_tokens (w : Ambient) (partner : option str) (include_used include_revoked : bool) (db : Db)
    : result Printed CliError :=
  let? _ := validate_filter partner in
  let keep t := partner_matches (default [] partner) (tk_partner_id t) &&
                (include_used || is_null (used_at t)) && (include_revoked || is_null (revoked_at t)) in
  if statement_ok w 0
  then Ok (Tokens (take LIMIT (order_desc created_at (filter (fun t => keep t = true) (partner_tokens db)))))
  else Err (DbFailed "select partner_tokens").

(** An update of the rows that satisfy a condition, and their number. *)
Definition update {A} (cond : A -> bool) (set : A -> A) (rows : list A) : list A * nat :=
  ((fun r => if cond r then set r else r) <$> rows, length (filter (fun r => cond r = true) rows)).

Definition set_revoked (at_ : Z) (t : TokenRow) : TokenRow :=
  mkToken (token_id t) (tk_partner_id t) (token_hash t) (created_at t) (expires_at t) (used_at t)
    (Some at_) (tk_node_id t).

Definition revoke_token (w : Ambient) (text : str) (db : Db) : result Printed CliError * Db :=
  match parse_uuid text with
  | None => (Err (NotAUuid text), db)
  | Some u =>
      if negb (statement_ok w 0) then (Err (DbFailed "revoke token"), db)
      else
        let '(rows, affected) :=
          update (fun t => (token_id t =? u) && is_null (revoked_at t)) (set_revoked (db_now w)) (partner_tokens db) in
        let db := mkDb rows (partner_nodes db) in
        if Nat.eqb affected 0 then (Err (TokenNotFoundOrRevoked text), db) else (Ok (Revoked text), db)
  end.

Definition list_nodes (w : Ambient) (partner : option str) (db : Db) : result Printed CliError :=
  let? _ := validate_filter partner in
  if statement_ok w 0
  then Ok (Nodes (take LIMIT (order_desc registered_at
         (filter (fun n => partner_matches (default [] partner) (nd_partner_id n) = true) (partner_nodes db)))))
  else Err (DbFailed "select partner_nodes").

Definition set_service_hash (h : str) (n : NodeRow) : NodeRow :=
  mkNode (node_id n) (nd_partner_id n) (nd_domain n) (turns_subdomain n) (nd_public_ip n)
    (registered_at n) (last_seen_at n) (edge_id n) (Some h)
    (reality_pubkey n) (reality_pubkey_set_at n).

(** Between its select and its update other sessions may write: [others]. *)
Definition rotate_service_token (w : Ambient) (others : Db -> Db) (node : str) (force : bool) (db : Db)
    : result str CliError * Db :=
  if is_empty node then (Err EmptyNodeId, db)
  else if negb (statement_ok w 0) then (Err (DbFailed "lookup partner_nodes row"), db)
  else match head (filter (fun n => node_id n = node) (partner_nodes db)) with
       | None => (Err (NodeNotFound node), db)
       | Some row =>
           if bool_decide (is_Some (service_token_hash row)) && negb force
           then (Err (HasServiceToken node), db)
           else
             let plaintext := generate_service_token (random w) in
             let db := others db in
             if negb (statement_ok w 1) then (Err (DbFailed "update service_token_hash"), db)
             else (Ok plaintext,
                   mkDb (partner_tokens db)
                     (update (fun n => bool_decide (node_id n = node_id row))
                        (set_service_hash (hash_token plaintext)) (partner_nodes db)).1)
       end.

Definition set_key (key : str) (at_ : Z) (n : NodeRow) : NodeRow :=
  mkNode (node_id n) (nd_partner_id n) (nd_domain n) (turns_subdomain n) (nd_public_ip n)
    (registered_at n) (last_seen_at n) (edge_id n) (service_token_hash n)
    (Some key) (Some at_).

Definition set_pubkey (w : Ambient) (node pubkey : str) (db : Db) : result unit CliError * Db :=
  if is_empty node then (Err EmptyNodeId, db)
  else match validate_pubkey pubkey with
       | Err e => (Err (BadPubkey e), db)
       | Ok _ =>
           if negb (statement_ok w 0) then (Err (DbFailed "update reality_pubkey"), db)
           else
             let '(rows, affected) :=
               update (fun n => bool_decide (node_id n = node)) (set_key pubkey (db_now w)) (partner_nodes db) in
             let db := mkDb (partner_tokens db) rows in
             if Nat.eqb affected 0 then (Err (NodeNotFound node), db) else (Ok tt, db)
       end.

Definition deactivate_node (w : Ambient) (node : str) (db : Db) : result Printed CliError * Db :=
  if is_empty node then (Err EmptyNodeId, db)
  else if negb (statement_ok w 0) then (Err (DbFailed "delete partner_nodes row"), db)
  else
    let gone := filter (fun n => node_id n = node) (partner_nodes db) in
    let db := mkDb (partner_tokens db) (filter (fun n => node_id n <> node) (partner_nodes db)) in
    if Nat.eqb (length gone) 0 then (Err (NodeNotFound node), db) else (Ok (Deactivated node), db).

(** The banner of a rotation looks the edge up once more, best effort. *)
Definition edge_banner (w : Ambient) (node : str) (db : Db) : option str :=
  if statement_ok w 2
  then head (filter (fun n => node_id n = node) (partner_nodes db)) ≫= edge_id else None.

Definition main (w : Ambient) (others : Db -> Db) (c : Command) (db : Db) : result Printed CliError * Db :=
  match c with
  | Keygen => let '(priv, pub) := keygen_x25519 (fresh_key w).1 (fresh_key w).2 in (Ok (Keys priv pub), db)
  | _ =>
      if negb (database_url w) then (Err NoDatabaseUrl, db)
      else if negb (connects w) then (Err (DbFailed "connecting to DATABASE_URL"), db)
      else if negb (schema_ok w) then (Err SchemaMissing, db)
      else match c with
           | Keygen => (Err SchemaMissing, db) (* unreachable: handled above *)
           | IssueToken partner valid_for => issue_token w partner valid_for db
           | ListTokens partner iu ir => (list_tokens w partner iu ir db, db)
           | RevokeToken id => revoke_token w id db
           | ListNodes partner => (list_nodes w partner db, db)
           | DeactivateNode id => deactivate_node w id db
           | SetPubkey node pubkey =>
               let '(r, db) := set_pubkey w node pubkey db in
               ((let? _ := r in Ok (PubkeySet node)), db)
           | RotateServiceToken node force =>
               let '(r, db) := rotate_service_token w others node force db in
               ((let? token := r in Ok (ServiceToken node (edge_banner w node db) token)), db)
           end
  end.

(** Commands one after the other, each with what it finds. *)
Fixpoint session (cmds : list (Ambient * Command)) (db : Db) : Db :=
  match cmds with
  | [] => db
  | (w, c) :: cmds' => session cmds' (main w (fun d => d) c db).2
  end.
End commands.
