(* ===== verification/PartnerCliFacts.v ===== *)
(** * Theorems on the operator's command line

    A command that fails changes nothing; what a token in the table comes from; a
    revoked token stays revoked and hidden; and what two sessions that rotate or
    remove the same node at once can do to each other. *)

From Stdlib Require Import ZArith Lia.
From stdpp Require Import base option numbers gmap strings list sorting.
From S2P Require Import Prelude RustStr PartnerKeys Regex OpecTenant PartnerCli OpecTenantFacts.

(** ** Updates *)

Lemma is_null_true {A} (x : option A) : is_null x = true <-> x = None.
Proof. unfold is_null. destruct x; [|done]. rewrite bool_decide_true by (by eexists). done. Qed.

Lemma update_none {A} (cond : A -> bool) set rows rows' :
  update cond set rows = (rows', 0%nat) -> rows' = rows.
Proof.
  unfold update. intros [= <- Hn]. apply nil_length_inv in Hn.
  rewrite <- (list_fmap_id rows) at 2. apply list_fmap_ext. intros i r Hr.
  destruct (cond r) eqn:E; [|done]. exfalso. apply list_elem_of_lookup_2 in Hr.
  apply (not_elem_of_nil r). rewrite <- Hn. by apply list_elem_of_filter.
Qed.

Lemma filter_all {A} (P : A -> Prop) `{!forall x, Decision (P x)} (l : list A) :
  (forall x, x ∈ l -> P x) -> filter P l = l.
Proof.
  induction l as [|x l IH]; intros Hp; [done|].
  rewrite filter_cons_True by (apply Hp; left). f_equal. apply IH. intros y Hy. apply Hp. by right.
Qed.

(** One library that meets the documented behaviour, for examples. *)
#[export] Instance newest_first {A} (key : A -> Z) : RelDecision (fun x y => key y <= key x).
Proof. intros x y. apply _. Defined.

Definition demo_libraries : Libraries.
Proof.
  refine {| sha256_hex := fun s => lit "#" ++ s;
            humantime_secs := fun s => if bool_decide (s = lit "30d") then Some 2592000 else None;
            humantime_u64 := _;
            parse_uuid := fun s => match s with [c] => Some (c - 48) | _ => None end;
            order_desc := fun A key l => merge_sort (fun x y => key y <= key x) l |}.
  - intros s h. case_bool_decide; [|done]. intros [= <-]. lia.
  - intros A key l. apply merge_sort_Permutation.
  - intros A key l. apply StronglySorted_merge_sort; [intros x y z ? ?; lia | intros x y; lia].
Defined.

Section facts.
Context `{Matcher} `{Libraries}.

Lemma main_failed w c db e db' :
  main w (fun d => d) c db = (Err e, db') -> db' = db.
Proof.
  unfold main. destruct c; cbn [keygen_x25519]; try (intros [=]; fail);
    (destruct (negb (database_url w)); [by intros [= _ <-]|]; destruct (negb (connects w)); [by intros [= _ <-]|];
     destruct (negb (schema_ok w)); [by intros [= _ <-]|]).
  - unfold issue_token. destruct (rbind _ _); [|by intros [= _ <-]].
    destruct (negb _); [by intros [= _ <-]|]. cbv zeta. destruct (statement_ok w 0); [done|by intros [= _ <-]].
  - by intros [= _ <-].
  - unfold revoke_token. destruct (parse_uuid _); [|by intros [= _ <-]].
    destruct (negb _); [by intros [= _ <-]|]. destruct (update _ _ _) as [rows n] eqn:E.
    destruct (Nat.eqb_spec n 0) as [->|]; [|done]. intros [= _ <-].
    apply update_none in E as ->. by destruct db.
  - by intros [= _ <-].
  - unfold deactivate_node. destruct (is_empty _); [by intros [= _ <-]|].
    destruct (negb _); [by intros [= _ <-]|]. cbv zeta.
    destruct (Nat.eqb_spec (length (filter (fun n => node_id n = id) (partner_nodes db))) 0) as [E|]; [|done].
    intros [= _ <-]. apply nil_length_inv in E. destruct db as [ts ns]. f_equal. cbn in *.
    apply filter_all. intros n Hn Hid. apply (not_elem_of_nil n). rewrite <- E. by apply list_elem_of_filter.
  - unfold rotate_service_token. destruct (is_empty node); [by intros [= _ <-]|].
    destruct (negb _); [by intros [= _ <-]|]. destruct (head _) as [row|]; [|by intros [= _ <-]].
    destruct (_ && _); [by intros [= _ <-]|]. cbv zeta. destruct (negb _); [by intros [= _ <-]|done].
  - unfold set_pubkey. destruct (is_empty node); [by intros [= _ <-]|].
    destruct (validate_pubkey _); [|by intros [= _ <-]].
    destruct (negb _); [by intros [= _ <-]|]. destruct (update _ _ _) as [rows n] eqn:E.
    destruct (Nat.eqb_spec n 0) as [->|]; [|done]. intros [= _ <-].
    apply update_none in E as ->. by destruct db.
Qed.

(** Commands are all or nothing: whatever goes wrong - a bad argument, a row
    that is not there, a token that exists already, a statement the database
    refuses, no database at all - the tables are as they were. *)
Theorem failed_command_changes_nothing w c db e db' :
  main w (fun d => d) c db = (Err e, db') -> db' = db.
Proof. apply main_failed. Qed.

(** ** Tokens over time *)

(** The same token later: only its revocation may have been added. *)
Definition aged (t t' : TokenRow) : Prop :=
  t' = t \/ revoked_at t = None /\ exists r, t' = set_revoked r t.

#[local] Instance aged_preorder : PreOrder aged.
Proof.
  split.
  - intros t. by left.
  - intros t1 t2 t3 [->|[Hn [r ->]]] [->|[Hn' [r' ->]]]; unfold aged; [by left | right; eauto.. | done].
Qed.

(** A token as [IssueToken] put it into the table: for a well-formed partner id,
    with the hash of the token it drew, and with an expiry as far after the
    program's clock as the duration says, one to ninety days. *)
Definition issued_by (w : Ambient) (c : Command) (t : TokenRow) : Prop :=
  exists partner valid_for secs,
    c = IssueToken partner valid_for /\ id_ok partner = true /\
    humantime_secs valid_for = Some secs /\ 86400 <= secs <= 7776000 /\
    t = mkToken (new_id w) partner (sha256_hex (generate_raw_token (random w))) (df_created_at (defaults w))
          (now w + secs) (df_used_at (defaults w)) (df_revoked_at (defaults w)) (df_node_id (defaults w)).

(** The tokens of before, aged, and then those of issuing commands, aged. *)
Definition grown (cmds : list (Ambient * Command)) (rows rows' : list TokenRow) : Prop :=
  exists old new, rows' = old ++ new /\ Forall2 aged rows old /\
    Forall (fun t => exists w c t0, (w, c) ∈ cmds /\ issued_by w c t0 /\ aged t0 t) new.

Lemma grown_refl rows : grown [] rows rows.
Proof. exists rows, []. rewrite app_nil_r. by split_and!. Qed.

Lemma grown_trans l1 l2 a b c : grown l1 a b -> grown l2 b c -> grown (l1 ++ l2) a c.
Proof.
  intros (o & n & -> & Ho & Hn) (o' & n' & -> & Ho' & Hn').
  apply Forall2_app_inv_l in Ho' as (o1 & o2 & H1 & H2 & ->).
  exists o1, (o2 ++ n'). rewrite <- app_assoc. split_and!; [done| |].
  - by transitivity o.
  - apply Forall_app. split.
    + clear -Hn H2. induction H2 as [|x y n o2 Hxy _ IH]; [constructor|].
      apply Forall_cons in Hn as [(w & k & t0 & Hin & Hi & Ha) Hn]. constructor; [|auto].
      exists w, k, t0. split_and!; [apply elem_of_app; by left | done | by transitivity x].
    + eapply Forall_impl; [exact Hn'|]. intros t (w & k & t0 & Hin & Hi & Ha). exists w, k, t0.
      split_and!; [apply elem_of_app; by right | done | done].
Qed.

Lemma aged_update u at_ rows :
  Forall2 aged rows (update (fun t => (token_id t =? u) && is_null (revoked_at t)) (set_revoked at_) rows).1.
Proof.
  unfold update. cbn [fst]. induction rows as [|t rows IH]; cbn; constructor; [|done].
  destruct (_ && is_null (revoked_at t)) eqn:E; [|by left]. right. bool_props.
  split; [by apply is_null_true | by eexists].
Qed.

Lemma partner_id_match partner : is_match PARTNER_ID_RE partner = id_ok partner.
Proof. exact (id_match partner). Qed.

Lemma issue_ok w partner valid_for db pr db' :
  issue_token w partner valid_for db = (Ok pr, db') ->
  exists t, issued_by w (IssueToken partner valid_for) t /\
    db' = mkDb (partner_tokens db ++ [t]) (partner_nodes db).
Proof.
  unfold issue_token, validate_partner_id, parse_duration. rewrite partner_id_match.
  destruct (id_ok partner) eqn:Hm; cbn [negb rbind]; [|done].
  destruct (humantime_secs valid_for) as [secs|] eqn:Hh; [|done]. cbn [rbind]. cbv zeta.
  destruct (_ && _) eqn:Hr; cbn [negb]; [|done]. destruct (statement_ok w 0); [|done].
  intros [= _ <-]. eexists. split; [|reflexivity]. exists partner, valid_for, secs. bool_props.
  pose proof (humantime_u64 _ _ Hh) as Hu. unfold MIN_VALID_FOR_SECS, MAX_VALID_FOR_SECS in *.
  assert ((secs + 2 ^ 63) mod 2 ^ 64 - 2 ^ 63 = secs) as E.
  { destruct (Z_lt_le_dec secs (2 ^ 63)); [rewrite Z.mod_small; lia|]. exfalso.
    assert ((secs + 2 ^ 63) mod 2 ^ 64 = secs - 2 ^ 63) as E; [|lia].
    symmetry. apply (Z.mod_unique_pos _ _ 1); lia. }
  rewrite E in *. split_and!; [done | done | done | lia | lia | done].
Qed.

Definition stepped (w : Ambient) (c : Command) (rows rows' : list TokenRow) : Prop :=
  exists old new, rows' = old ++ new /\ Forall2 aged rows old /\ Forall (issued_by w c) new.

Lemma stepped_refl w c rows : stepped w c rows rows.
Proof. exists rows, []. rewrite app_nil_r. by split_and!. Qed.

Lemma step_rows w c db :
  stepped w c (partner_tokens db) (partner_tokens (main w (fun d => d) c db).2).
Proof.
  destruct (main w (fun d => d) c db) as [[pr|e] db'] eqn:E; cbn [snd].
  2: { apply main_failed in E as ->. apply stepped_refl. }
  unfold main in E. destruct c; cbn [keygen_x25519] in E; try (injection E as _ <-; apply stepped_refl);
    (destruct (negb (database_url w)); [done|]; destruct (negb (connects w)); [done|];
     destruct (negb (schema_ok w)); [done|]); try (injection E as _ <-; apply stepped_refl).
  - apply issue_ok in E as (t & Ht & ->). exists (partner_tokens db), [t]. by repeat constructor.
  - unfold revoke_token in E. destruct (parse_uuid _) as [u|]; [|done]. destruct (negb _); [done|].
    pose proof (aged_update u (db_now w) (partner_tokens db)) as Ha.
    destruct (update _ _ _) as [rows n]. destruct (Nat.eqb n 0); [done|]. injection E as _ <-.
    exists rows, []. by rewrite app_nil_r.
  - unfold deactivate_node in E. destruct (is_empty _); [done|]. destruct (negb _); [done|]. cbv zeta in E.
    destruct (Nat.eqb _ _); [done|]. injection E as _ <-. apply stepped_refl.
  - unfold rotate_service_token in E. destruct (is_empty node); [done|]. destruct (negb _); [done|].
    destruct (head _) as [row|]; [|done]. destruct (_ && _); [done|]. cbv zeta in E.
    destruct (negb _); [done|]. injection E as _ <-. apply stepped_refl.
  - unfold set_pubkey in E. destruct (is_empty node); [done|]. destruct (validate_pubkey _); [|done].
    destruct (negb _); [done|]. destruct (update _ _ _) as [rows n]. destruct (Nat.eqb n 0); [done|].
    injection E as _ <-. apply stepped_refl.
Qed.

Lemma step_grown w c db : grown [(w, c)] (partner_tokens db) (partner_tokens (main w (fun d => d) c db).2).
Proof.
  destruct (step_rows w c db) as (old & new & Heq & Ho & Hn). exists old, new. split_and!; [done..|].
  eapply Forall_impl; [exact Hn|]. intros t Ht. exists w, c, t. split_and!; [left | done | by left].
Qed.

(** C40. The history of tokens: over any sequence of commands no token is ever
    lost, moved or altered except that a revocation is added once - its first
    time stays.  Every token added is one an [issue-token] command of the
    sequence put there, changed at most in that way: for a partner id of 3 to 32
    lower-case letters, digits and inner hyphens, with the hash of the token that
    command drew, and with an expiry that is the command's own clock plus the
    duration it was given, which is at least one and at most ninety days; the
    columns the statement leaves to the schema are as the database filled them. *)
Theorem token_history cmds db :
  let aged t t' := t' = t \/ revoked_at t = None /\ exists r, t' = set_revoked r t in
  exists old new, partner_tokens (session cmds db) = old ++ new /\
    Forall2 aged (partner_tokens db) old /\
    Forall (fun t => exists w partner valid_for secs t0,
      (w, IssueToken partner valid_for) ∈ cmds /\ id_ok partner = true /\
      humantime_secs valid_for = Some secs /\ 86400 <= secs <= 7776000 /\
      tk_partner_id t0 = partner /\ token_hash t0 = sha256_hex (generate_raw_token (random w)) /\
      expires_at t0 = now w + secs /\ token_id t0 = new_id w /\
      mkDefaults (created_at t0) (used_at t0) (revoked_at t0) (tk_node_id t0) = defaults w /\
      aged t0 t) new.
Proof.
  cbn zeta. assert (grown cmds (partner_tokens db) (partner_tokens (session cmds db))) as (old & new & E & Ho & Hn).
  { revert db. induction cmds as [|[w c] cmds IH]; intros db; [apply grown_refl|].
    apply (grown_trans [(w, c)] cmds _ _ _ (step_grown w c db)), IH. }
  exists old, new. split_and!; [done | exact Ho|]. eapply Forall_impl; [exact Hn|].
  intros t (w & c & t0 & Hin & (partner & valid_for & secs & -> & Hp & Hh & Hs & ->) & Ha).
  exists w, partner, valid_for, secs. eexists. split_and!; try exact Ha; try done; try lia. by destruct (defaults w).
Qed.

(** ** Revocation *)

Definition all_revoked (u : Z) (rows : list TokenRow) : Prop :=
  Forall (fun t => token_id t = u -> revoked_at t <> None) rows.

Lemma all_revoked_aged u rows rows' : Forall2 aged rows rows' -> all_revoked u rows -> all_revoked u rows'.
Proof.
  unfold all_revoked. induction 1 as [|t t' rows rows' Ha Hr IH]; [done|].
  intros [Ht Hf]%Forall_cons. constructor; [|auto].
  destruct Ha as [->|[Hn [r ->]]]; [done|]. by cbn.
Qed.

Lemma session_revoked u cmds db :
  Forall (fun wc => new_id wc.1 <> u) cmds -> all_revoked u (partner_tokens db) ->
  all_revoked u (partner_tokens (session cmds db)).
Proof.
  revert db. induction cmds as [|[w c] cmds IH]; intros db Hf Hr; [done|].
  apply Forall_cons in Hf as [Hw Hf]. cbn [session]. apply IH; [done|].
  destruct (step_rows w c db) as (old & new & -> & Ho & Hn). apply Forall_app. split.
  - by eapply all_revoked_aged.
  - eapply Forall_impl; [exact Hn|]. intros t (p & v & secs & _ & _ & _ & _ & ->) Hu. cbn in Hw, Hu. congruence.
Qed.

Lemma revoke_ok w text db pr db' :
  revoke_token w text db = (Ok pr, db') ->
  exists u, parse_uuid text = Some u /\ all_revoked u (partner_tokens db').
Proof.
  unfold revoke_token. destruct (parse_uuid text) as [u|]; [|done]. destruct (negb _); [done|].
  intros E. exists u. split; [done|]. unfold update in E. destruct (Nat.eqb _ _); [done|].
  injection E as _ <-. cbn [partner_tokens]. apply Forall_fmap, Forall_forall. intros t _ Hid.
  cbn [compose]. destruct (_ && is_null (revoked_at t)) eqn:Hc; [done|].
  rewrite Hid, Z.eqb_refl in Hc. cbn in Hc. unfold is_null in Hc.
  intros Hn. by rewrite Hn in Hc.
Qed.

(** Revocation is final: once the command reports a token as revoked, no
    later listing that leaves out revoked tokens shows it, whatever commands run
    in between - provided the database gives no new row its identifier. *)
Theorem revoked_never_listed w text db pr db' cmds w' partner used rows :
  main w (fun d => d) (RevokeToken text) db = (Ok pr, db') ->
  Forall (fun wc => parse_uuid text <> Some (new_id wc.1)) cmds ->
  list_tokens w' partner used false (session cmds db') = Ok (Tokens rows) ->
  Forall (fun t => parse_uuid text <> Some (token_id t)) rows.
Proof.
  intros Hm Hc Hl. unfold main in Hm.
  destruct (negb (database_url w)); [done|]. destruct (negb (connects w)); [done|].
  destruct (negb (schema_ok w)); [done|]. apply revoke_ok in Hm as (u & Hu & Hr). rewrite Hu in *.
  assert (all_revoked u (partner_tokens (session cmds db'))) as Hs.
  { apply session_revoked; [|done]. eapply Forall_impl; [exact Hc|]. cbn. congruence. }
  unfold list_tokens in Hl. destruct (validate_filter partner); cbn [rbind] in Hl; [|done].
  destruct (statement_ok w' 0); [|done]. injection Hl as <-. apply Forall_forall. intros t Ht [= ->].
  apply elem_of_take in Ht as (i & Hi & _). apply list_elem_of_lookup_2 in Hi.
  rewrite (order_desc_perm created_at _) in Hi. apply list_elem_of_filter in Hi as [Hk Hin]. bool_props.
  unfold all_revoked in Hs. rewrite Forall_forall in Hs. apply (Hs t Hin eq_refl).
  by apply is_null_true.
Qed.

(** ** Two sessions at once *)

Lemma update_lookup_node (h : str) node rows n :
  n ∈ (update (fun n => bool_decide (node_id n = node)) (set_service_hash h) rows).1 ->
  node_id n = node -> service_token_hash n = Some h.
Proof.
  unfold update. cbn [fst]. intros (m & -> & Hm)%list_elem_of_fmap.
  case_bool_decide as E; cbn; [done|]. intros ?. congruence.
Qed.

(** Rotation is not atomic.  Its guard reads the node's row before it writes
    the hash, and the number of rows written is not looked at.  If another
    session rotates the same node in between, both report success without
    [--force], and the stored hash is that of the first session's token: the
    other operator was handed a dead one.  If another session removes the node in
    between, the rotation still reports a token, and no row carries the node. *)
Theorem rotation_not_atomic w w2 node db row :
  head (filter (fun n => node_id n = node) (partner_nodes db)) = Some row ->
  service_token_hash row = None -> is_empty node = false ->
  statement_ok w 0 = true -> statement_ok w 1 = true -> statement_ok w2 0 = true -> statement_ok w2 1 = true ->
  let other db := rotate_service_token w2 (fun d => d) node false db in
  let remove db := deactivate_node w2 node db in
  (exists db', (other db).1 = Ok (generate_service_token (random w2)) /\
     rotate_service_token w (fun d => (other d).2) node false db = (Ok (generate_service_token (random w)), db') /\
     forall n, n ∈ partner_nodes db' -> node_id n = node ->
       service_token_hash n = Some (sha256_hex (generate_service_token (random w)))) /\
  (exists db', (remove db).1 = Ok (Deactivated node) /\
     rotate_service_token w (fun d => (remove d).2) node false db = (Ok (generate_service_token (random w)), db') /\
     Forall (fun n => node_id n <> node) (partner_nodes db')).
Proof.
  intros Hrow Hnone Hne H1 H2 H3 H4 other remove.
  assert (node_id row = node) as Hid.
  { destruct (filter _ _) as [|r rs] eqn:Hf; [done|]. injection Hrow as ->.
    assert (row ∈ filter (fun n => node_id n = node) (partner_nodes db)) as Hin by (rewrite Hf; left).
    by apply list_elem_of_filter in Hin as [? _]. }
  split.
  - assert (other db = (Ok (generate_service_token (random w2)), (other db).2)) as Ho.
    { subst other. unfold rotate_service_token. cbn beta. by rewrite Hne, H3, Hrow, Hnone, H4. }
    unfold rotate_service_token at 1. eexists. split; [by rewrite Ho|]. rewrite Hne, H1, Hrow, Hnone, H2.
    split; [reflexivity|]. cbn [partner_nodes]. intros n Hn Hin. rewrite Hid in Hn.
    by eapply update_lookup_node.
  - assert (remove db = (Ok (Deactivated node),
      mkDb (partner_tokens db) (filter (fun n => node_id n <> node) (partner_nodes db)))) as Hr.
    { subst remove. unfold deactivate_node. cbn beta. rewrite Hne, H3. cbn [negb].
      destruct (filter (fun n => node_id n = node) (partner_nodes db)); done. }
    unfold rotate_service_token. rewrite Hr. eexists. split; [done|]. rewrite Hne, H1, Hrow, Hnone, H2.
    split; [cbn; reflexivity|]. cbn [partner_nodes snd]. apply Forall_forall. unfold update. cbn [fst].
    intros n (m & -> & Hm)%list_elem_of_fmap. apply list_elem_of_filter in Hm as [Hm _].
    by case_bool_decide.
Qed.
End facts.

(** ** Concrete runs *)

Definition demo_ambient : Ambient :=
  mkAmbient 1000 1001 (replicate 32 7) (replicate 32 1, replicate 32 2) 5 (mkDefaults 1001 None None None) true true true (fun _ => true).
Definition demo_node : NodeRow := mkNode (lit "n1") (lit "acme") (lit "a.example") [] (lit "192.0.2.7") 0 0 None None None None.
Definition demo_db : Db :=
  mkDb [mkToken 1 (lit "acme") (lit "h") 0 86400 None None None] [demo_node].

Definition demo_main := main (H := deriv_matcher) (H0 := demo_libraries).

Lemma failed_command_changes_nothing_witness :
  (demo_main demo_ambient (fun d => d) (DeactivateNode (lit "n2")) demo_db).2 = demo_db.
Proof.
  apply (failed_command_changes_nothing (H := deriv_matcher) (H0 := demo_libraries) demo_ambient
    (DeactivateNode (lit "n2")) demo_db (NodeNotFound (lit "n2"))).
  reflexivity.
Defined.

Lemma revoked_never_listed_witness :
  exists rows,
    list_tokens (H := deriv_matcher) (H0 := demo_libraries) demo_ambient None true false
      (session (H := deriv_matcher) (H0 := demo_libraries) [(demo_ambient, IssueToken (lit "acme") (lit "30d"))]
        (demo_main demo_ambient (fun d => d) (RevokeToken (lit "1")) demo_db).2) = Ok (Tokens rows) /\
    length rows = 1%nat /\ Forall (fun t => Some 1 <> Some (token_id t)) rows.
Proof.
  eexists. split; [vm_compute; reflexivity|]. split; [reflexivity|].
  eapply (revoked_never_listed (H := deriv_matcher) (H0 := demo_libraries) demo_ambient (lit "1") demo_db _ _
    [(demo_ambient, IssueToken (lit "acme") (lit "30d"))] demo_ambient None true).
  - vm_compute. reflexivity.
  - by repeat constructor.
  - vm_compute. reflexivity.
Defined.

Lemma rotation_not_atomic_witness :
  exists db', rotate_service_token (H0 := demo_libraries) demo_ambient
      (fun d => (deactivate_node demo_ambient (lit "n1") d).2) (lit "n1") false demo_db
      = (Ok (generate_service_token (replicate 32 7)), db') /\
    Forall (fun n => node_id n <> lit "n1") (partner_nodes db').
Proof.
  destruct (rotation_not_atomic (H0 := demo_libraries) demo_ambient demo_ambient (lit "n1") demo_db demo_node
    eq_refl eq_refl eq_refl eq_refl eq_refl eq_refl eq_refl) as [_ (db' & _ & He & Hf)].
  by exists db'.
Defined.
